(* ===== verification/_CoqProject ===== *)
-Q . S2P
Prelude.v
Loops.v
Programs.v
Sha256.v
Float64.v
Float64Facts.v
BigInt.v
StateTypes.v
Aggregator.v
AggregatorProps.v
Validator.v
ValidatorProps.v
Predictor.v
PredictorProps.v
Sync.v
SyncProps.v
Alerts.v
AlertsProps.v
Prometheus.v
Metrics.v
Monitor.v
MetricsProps.v
MonitorProps.v
MonitorRaces.v
AlertRaces.v
GoEthereum.v
ChainClient.v
EthereumClient.v
ArbitrumClient.v
PolygonClient.v
ChainProps.v
Across.v
Config.v
EigenLayer.v
PackageProps.v
Runtime.v
ChainConn.v
BridgeClient.v
Rebalancer.v
RebalancerProps.v
TransferHash.v
ServiceConfig.v
AvsClient.v
Database.v
Service.v
Goroutines.v
ServiceProps.v
GoroutineLogic.v
GoroutineSpec.v
GoroutinesProps.v
RunProps.v
Node.v
Commands.v
Performer.v
TypesProps.v
NodeProps.v
