(* ===== verification/Prelude.v ===== *)
(** * SyncHook AVS: a model of the Go code under [AVS/] and its correctness

    SyncHook synchronises liquidity pools across chains.  The Go code is two
    programs and the packages they share.  The aggregator process
    ([aggregator/], [cmd/aggregator]) and the operator node ([operator/]) are
    built on [pkg/]; the service ([internal/], [cmd/operator]) stands alone and
    does not import [pkg/].

    ** Files

    This file: outcomes of a Go call ([res]: value, error, panic), the state
    monad [M] whose state survives errors and panics, fixed-width integers,
    clock readings, the order of [range] over a map ([RangeOrder]: any order,
    a new one per statement), and lemmas on the monads, on sums and maxima.

    - [Loops]: a goroutine that waits for its ticker or the end of its context;
      [Programs]: goroutines as programs of calls, and how they interleave.
    - [Sha256], [Float64], [Float64Facts], [BigInt]: the parts of the standard
      library the code computes with.  [float64] is the Standard Library's
      [SpecFloat]; a [*big.Int] is [None] (nil) or an integer; [BigInt] also
      models [pkg/utils/bigint.go].
    - [StateTypes], [Aggregator], [AggregatorProps], [TypesProps]:
      [pkg/state/aggregator.go].  Pool objects are shared through pointers, so
      they live in a store [St], which also holds [Aggregator.poolStates].
    - [Validator], [ValidatorProps]: [pkg/state/validator.go], with
      [go-ethereum/crypto] as the class [Crypto].
    - [Predictor], [PredictorProps]: [pkg/state/predictor.go].
    - [Sync], [SyncProps]: [aggregator/aggregator.go], the aggregator process;
      [Commands]: [cmd/aggregator], its configuration and [main].
    - [Alerts], [AlertsProps]; [Prometheus], [Metrics], [MetricsProps];
      [Monitor], [MonitorProps]: [pkg/monitoring], over one heap of alerts and
      an abstract Prometheus registry.  [AlertRaces] and [MonitorRaces] take
      the calls of the alert manager and of the monitor apart where goroutines
      can come between them.
    - [GoEthereum], [ChainClient], [EthereumClient], [ArbitrumClient],
      [PolygonClient], [ChainProps]: [pkg/blockchain]; the Go interface is the
      class [ChainClient.Client], the four clients its instances.
    - [Across], [Config], [EigenLayer], [PackageProps]: [pkg/across],
      [pkg/config], [pkg/eigenlayer].
    - [Node], [NodeProps]: [operator/operator.go], which composes the packages
      above, and what the aggregator's [main] serves; [Performer]: [cmd/main.go]
      and its test.
    - [Runtime]: what the service relies on (the two clocks, [ethclient], keys,
      randomness) as a class over the outside world [S], its laws, and a world
      to run the definitions in.
    - [ChainConn], [BridgeClient], [Rebalancer], [RebalancerProps],
      [TransferHash]: [internal/blockchain], [internal/across],
      [internal/rebalancer], and the transaction hash of a transfer.
    - [ServiceConfig], [AvsClient], [Database], [Service], [ServiceProps]:
      [internal/config] and [internal/logger], [internal/eigenlayer],
      [internal/database], and [internal/monitor], [internal/operator],
      [cmd/operator], which compose the rest.
    - [Goroutines], [GoroutineLogic], [GoroutineSpec], [GoroutinesProps]: the
      goroutines of the service call by call, a logic for them, what they
      promise, and that every interleaving keeps it; [RunProps]: [Run] around
      them, from opening the connections to closing them.

    A Go method is the definition of the same name; a record field carries the
    Go field's name after a prefix.  Where two packages share a name the
    definition has a prefix of its own ([client_], [eth_], [chain_]) or is told
    apart by its file.

    ** How Go is modelled

    A method is one step on the state of its component when it holds the
    component's mutex.  Goroutines are tick functions, interleaved in any order
    by the step relations of the [Props] files or the schedules of [Service]
    and [Node].  Where more than the order of ticks matters a goroutine is a
    program ([Programs.prog]): each call on the shared state is a step, and
    others move between two of them ([Programs.interleave]); where a program is
    is a type of its own ([Programs.stages_step]), and invariants are sums over
    the places of all goroutines.  [Goroutines] writes every tick of the
    service a second time as such a program, each starting with [go_]; the
    lemma [serve_is_an_interleaving] keeps it in step with the tick of
    [Service].  [time.Now()] is an argument per reading in the packages under
    [pkg/] and an operation of [Runtime] in the service.  The wall clock may
    show anything at any time; only the deadline of a context and the length of
    a [Sleep] rely on the monotonic clock.  Nil dereferences,
    divisions by zero, slice bounds, duplicate Prometheus registrations and
    tickers of a non-positive period are panics.  [defer] is
    [Service.with_defer]; a panic on another goroutine ends the process.  Log
    output is left out.

    ** What the theorems show

    - The store of the aggregator: every reachable store is consistent, an
      update refines recording a report in a map, the metrics are the stated
      arithmetic and lie within the range of the reports, the result does not depend on the order of [range], and
      which pools make the metrics panic.
    - Validation: which reports are accepted and how confidently, for the
      64-bit time check too; which signatures validate, which never do, and
      that a task response can be replayed under another index.
    - Predictions: what they are and the band they stay in, in binary64, and
      when a rebalancing is asked for; a block number is read as a time.
    - The aggregator process: consensus is only ever given by a pass that found
      the quorum, in every history of an environment that files tasks and
      responses (no code does); what a pass over tasks and pools does, what
      defeats the staleness limit, and that its rebalancing monitor and the
      predictor agree.
    - Monitoring: what each operation does to an alert in any history, its delivery
      to each handler at most once, and exactly once while the channels have
      room; what queries, threshold checks and expiry do, what the metrics
      register, and which updates of the unguarded counters concurrent calls
      lose.
    - Clients and requests: which requests are accepted, what a subscription
      delivers, how the four chain clients differ, configurations and
      registration.
    - The service: a wait for a receipt ends; what the rebalancer moves per
      tick; when a transfer is found complete; its hash is a reading of the wall clock;
      fees and gas prices; which configurations load; whatever its scheduler
      does, [Run] stops what it started, in reverse order, after the rounds and
      rebalancing ticks begun, not the ticks that follow a transfer.
    - The goroutines of the service, under every interleaving of their calls:
      each runs the state machine [GoroutineSpec.promised] (every chain that
      answers is submitted once a round, one transfer a tick), none panics, and
      after a cancellation [Stop] returns with everything begun finished.  The
      proof is a simulation; what a goroutine still has to do is described by
      [GoroutineLogic.emits], a weakest precondition over the observations its
      calls add.
    - The main functions: what the aggregator serves is inert.  The operator
      node cannot be constructed, and would do nothing but monitor.

    ** Fuel and bounds

    Three loops carry fuel.  The binary searches of [sqrt] halve an interval:
    the logarithm of the argument plus two iterations are enough
    ([sqrt_is_floor_sqrt]).  [big_Bytes] has one iteration per bit.
    [WaitForConfirmation] sleeps a second per iteration until a deadline five
    minutes away: 301 iterations are enough ([WaitForConfirmation_ends]).
    Schedules, lists of ticks and executions are arbitrary finite prefixes of a
    run; programs are finite, and [GoroutinesProps.must_return] is the
    well-founded statement that goroutines return.

    ** What is not modelled

    Signals, and how cobra parses the command line of [cmd/operator], which is
    an argument of [operator_main]; log output; contexts, beyond the end of a
    schedule or the flag [pl_done], so the methods [Stop] of the aggregator and
    of the node, which only cancel theirs, are the event [Done] of their loops;
    the weak memory of data races, whose reads and writes are interleaved; the
    monitors of transfers between the end of [wg.Wait()] and the end of [Run]:
    they only read the clock; alert handlers that block or call the manager back:
    their answers are values and the calls made to them are logged.
    [operator.Operator] has no method [Monitor],
    which [runMonitor] calls: it is an argument.  The types [MetricsConfig] and
    [PredictionModel] are declared and never used.  The packages under
    [internal/] do not compile as they stand: they pass identically declared
    configuration types for each other, give [big.NewInt] constants over int64
    and shadow a package by a parameter; the model reads them as if those types
    were one, the constants integers, and leaves out the shadowed logger.  The
    Solidity contracts are not called by the Go code. *)

From stdpp Require Export base gmap sets list strings pretty.
From Stdlib Require Export ZArith Lia.

#[global] Open Scope Z_scope.

(** ** Outcomes of a Go call *)

(** A run-time panic, by the message class the Go runtime reports. *)
Inductive panic : Type :=
  | NilDeref
  | DivByZero
  | SliceBounds
  | PanicMsg (msg : string).

(** What a call returning [(T, error)] does: it returns a value with a nil
    error, returns an error (the text of [err.Error()]), or panics. *)
Inductive res (A : Type) : Type :=
  | Ret (a : A)
  | Err (e : string)
  | Panic (p : panic).
Arguments Ret {A} _.
Arguments Err {A} _.
Arguments Panic {A} _.

#[export] Instance panic_eq_dec : EqDecision panic.
Proof. solve_decision. Defined.
#[export] Instance res_eq_dec `{EqDecision A} : EqDecision (res A).
Proof. solve_decision. Defined.

#[export] Instance res_ret : MRet res := λ A a, Ret a.
#[export] Instance res_bind : MBind res := λ A B k r,
  match r with
  | Ret a => k a
  | Err e => Err e
  | Panic p => Panic p
  end.
#[export] Instance res_fmap : FMap res := λ A B f r,
  match r with
  | Ret a => Ret (f a)
  | Err e => Err e
  | Panic p => Panic p
  end.

(** ** Stateful Go code: the state survives errors and panics *)

Definition M (S A : Type) : Type := S → S * res A.

#[export] Instance M_ret {S} : MRet (M S) := λ A a s, (s, Ret a).
#[export] Instance M_bind {S} : MBind (M S) := λ A B k m s,
  match m s with
  | (s', Ret a) => k a s'
  | (s', Err e) => (s', Err e)
  | (s', Panic p) => (s', Panic p)
  end.

Section state_monad.
Context {S : Type}.

Definition lift {A} (r : res A) : M S A := λ s, (s, r).
Definition get : M S S := λ s, (s, Ret s).
Definition modify (f : S → S) : M S unit := λ s, (f s, Ret tt).
Definition throw {A} (e : string) : M S A := λ s, (s, Err e).

(** [if err := m(); err != nil { return fmt.Errorf(msg + "%w", err) }] *)
Definition wrap {A} (msg : string) (m : M S A) : M S A := λ s,
  match m s with
  | (s', Err e) => (s', Err (msg +:+ e))
  | r => r
  end.

(** The error of [m] as a value, for code that inspects it and goes on. *)
Definition try {A} (m : M S A) : M S (A + string) := λ s,
  match m s with
  | (s', Ret a) => (s', Ret (inl a))
  | (s', Err e) => (s', Ret (inr e))
  | (s', Panic p) => (s', Panic p)
  end.
End state_monad.

(** [fmt.Errorf(msg + "%w", err)] on a stateless call. *)
Definition wrap_res {A} (msg : string) (r : res A) : res A :=
  match r with
  | Err e => Err (msg +:+ e)
  | _ => r
  end.

(** A [for ... range] loop with an accumulator, in any of the monads. *)
Fixpoint foldM {Mo : Type → Type} `{MRet Mo, MBind Mo} {A B : Type}
    (f : A → B → Mo A) (a : A) (l : list B) : Mo A :=
  match l with
  | [] => mret a
  | b :: l => a' ← f a b; foldM f a' l
  end.

(** ** Fixed-width integers: values are [Z], wrapped where Go wraps *)

Definition u32 (z : Z) : Z := z mod 2 ^ 32.
Definition u64 (z : Z) : Z := z mod 2 ^ 64.
Definition i64 (z : Z) : Z := (z + 2 ^ 63) mod 2 ^ 64 - 2 ^ 63.

Definition is_u32 (z : Z) : Prop := 0 ≤ z < 2 ^ 32.
Definition is_u64 (z : Z) : Prop := 0 ≤ z < 2 ^ 64.
Definition is_i64 (z : Z) : Prop := - 2 ^ 63 ≤ z < 2 ^ 63.

Lemma i64_id z : is_i64 z → i64 z = z.
Proof. unfold is_i64, i64. intros H. rewrite Z.mod_small; lia. Qed.

(** [x - y] on uint64. *)
Definition u64_sub (x y : Z) : Z := u64 (x - y).

(** ** Wall-clock readings *)

(** A [time.Time] is the number of nanoseconds since the Unix epoch; every
    call of [time.Now()] is an argument of the definition that makes it. *)
Definition time : Type := Z.
Definition second : Z := 1000000000.

(** [t.Unix()] and [t.UnixNano()]. *)
Definition Unix (t : time) : Z := t / second.
Definition UnixNano (t : time) : Z := i64 t.

(** [uint64(time.Now().Unix())]. *)
Definition unix_u64 (t : time) : Z := u64 (Unix t).

(** The zero [time.Time], January 1 of year 1. *)
Definition zero_time : time := -62135596800 * second.

(** [t.Sub(u)] saturates at the bounds of [time.Duration] (an int64). *)
Definition time_sub (t u : time) : Z := Z.max (- 2 ^ 63) (Z.min (2 ^ 63 - 1) (t - u)).

(** ** The order of [range] over a map *)

(** Go leaves the order unspecified and draws a new one for each [range]
    statement: [range_list i m] is the order statement [i] gets on [m]. *)
Class RangeOrder := {
  range_list {K V : Type} `{Countable K} : nat → gmap K V → list (K * V);
  range_perm {K V : Type} `{Countable K} (i : nat) (m : gmap K V) :
    range_list i m ≡ₚ map_to_list m;
}.

(** Two orders to instantiate it with. *)
Definition forward_order : RangeOrder.
Proof.
  refine {| range_list := λ K V _ _ _ m, map_to_list m |}; abstract done.
Defined.
Definition backward_order : RangeOrder.
Proof.
  refine {| range_list := λ K V _ _ _ m, reverse (map_to_list m) |}.
  abstract (intros; apply reverse_Permutation).
Defined.

(** ** Lemmas on the monads *)

Create HintDb go.
Create Rewrite HintDb go.

Section monad_lemmas.
Context {S : Type}.
Implicit Types s : S.

Lemma M_bind_ret {A B} (m : M S A) (k : A → M S B) s s' a :
  m s = (s', Ret a) → (m ≫= k) s = k a s'.
Proof. unfold mbind, M_bind. by intros ->. Qed.

Lemma M_bind_err {A B} (m : M S A) (k : A → M S B) s s' e :
  m s = (s', Err e) → (m ≫= k) s = (s', Err e).
Proof. unfold mbind, M_bind. by intros ->. Qed.

Lemma M_bind_panic {A B} (m : M S A) (k : A → M S B) s s' p :
  m s = (s', Panic p) → (m ≫= k) s = (s', Panic p).
Proof. unfold mbind, M_bind. by intros ->. Qed.

Lemma M_bind_assoc {A B C} (m : M S A) (f : A → M S B) (g : B → M S C) s :
  ((m ≫= f) ≫= g) s = (m ≫= λ a, f a ≫= g) s.
Proof. unfold mbind, M_bind. by destruct (m s) as [s' [a|e|p]]. Qed.

Lemma M_bind_inv {A B} (m : M S A) (k : A → M S B) s s' b :
  (m ≫= k) s = (s', Ret b) → ∃ s1 a, m s = (s1, Ret a) ∧ k a s1 = (s', Ret b).
Proof. unfold mbind, M_bind. destruct (m s) as [s1 [a|e|p]]; [eauto|done..]. Qed.

Lemma M_bind_tt (m : M S unit) s : (m;; mret tt) s = m s.
Proof. unfold mbind, M_bind. by destruct (m s) as [s' [[]|e|p]]. Qed.

Lemma M_bind_ext {A B} (m : M S A) (f g : A → M S B) s :
  (∀ s' a, m s = (s', Ret a) → f a s' = g a s') → (m ≫= f) s = (m ≫= g) s.
Proof. unfold mbind, M_bind. destruct (m s) as [s' [a|e|p]]; auto. Qed.

(** Both sides of a bind, step by step. *)
Lemma M_bind_congr {A B} (m m' : M S A) (f g : A → M S B) s :
  m s = m' s → (∀ s a, f a s = g a s) → (m ≫= f) s = (m' ≫= g) s.
Proof. intros E Hfg. unfold mbind, M_bind. rewrite E. by destruct (m' s) as [s' [a|e|q]]. Qed.

Lemma try_congr {A} (m m' : M S A) s : m s = m' s → try m s = try m' s.
Proof. unfold try. by intros ->. Qed.

Lemma wrap_congr {A} msg (m m' : M S A) s : m s = m' s → wrap msg m s = wrap msg m' s.
Proof. unfold wrap. by intros ->. Qed.

Lemma wrap_ret {A} msg (m : M S A) s s' a :
  m s = (s', Ret a) → wrap msg m s = (s', Ret a).
Proof. unfold wrap. by intros ->. Qed.

Lemma wrap_err {A} msg (m : M S A) s s' e :
  m s = (s', Err e) → wrap msg m s = (s', Err (msg +:+ e)).
Proof. unfold wrap. by intros ->. Qed.

Lemma wrap_panic {A} msg (m : M S A) s s' p :
  m s = (s', Panic p) → wrap msg m s = (s', Panic p).
Proof. unfold wrap. by intros ->. Qed.

(** A loop whose body leaves the state alone and maps representations to
    representations computes the fold of the underlying function. *)
Lemma foldM_rep {A B X} (rep : X → A) (g : X → B → X) (f : A → B → M S A) l x s :
  (∀ y b, b ∈ l → f (rep y) b s = (s, Ret (rep (g y b)))) →
  foldM f (rep x) l s = (s, Ret (rep (foldl g x l))).
Proof.
  revert x. induction l as [|b l IH]; intros x Hf; [done|].
  cbn [foldM foldl]. rewrite (M_bind_ret _ _ s s (rep (g x b))).
  - apply IH. intros y b' Hb'. apply Hf. by right.
  - apply Hf. by left.
Qed.
End monad_lemmas.

(** The same for the stateless monad. *)
Lemma foldM_rep_res {A B X} (rep : X → A) (g : X → B → X) (f : A → B → res A) l x :
  (∀ y b, b ∈ l → f (rep y) b = Ret (rep (g y b))) →
  foldM f (rep x) l = Ret (rep (foldl g x l)).
Proof.
  revert x. induction l as [|b l IH]; intros x Hf; [done|].
  cbn [foldM foldl]. rewrite Hf by (by left). apply IH.
  intros y b' Hb'. apply Hf. by right.
Qed.

(** One step of a monadic computation whose head is known. *)
Ltac go_ret := erewrite M_bind_ret by (first [eassumption | reflexivity | eauto with go]).

(** ** Sums and maxima over lists *)

Definition Zsum {A} (f : A → Z) (l : list A) : Z := foldr (λ a acc, f a + acc) 0 l.

#[export] Instance Zsum_perm {A} (f : A → Z) : Proper ((≡ₚ) ==> (=)) (Zsum f).
Proof. induction 1; cbn; unfold Zsum in *; lia. Qed.

Lemma Zsum_cons {A} (f : A → Z) a l : Zsum f (a :: l) = f a + Zsum f l.
Proof. done. Qed.

Lemma foldl_Zsum {A} (f : A → Z) l z : foldl (λ acc a, acc + f a) z l = z + Zsum f l.
Proof. revert z. induction l as [|a l IH]; intros z; cbn; [lia|]. rewrite IH. unfold Zsum. lia. Qed.

Lemma foldl_append {A B} (f : A → B) acc l :
  foldl (λ bs a, bs ++ [f a]) acc l = acc ++ (f <$> l).
Proof.
  revert acc. induction l as [|a l IH]; intros acc; cbn; [by rewrite app_nil_r|].
  by rewrite IH, <- app_assoc.
Qed.

(** Collecting what passes a test. *)
Lemma foldl_filter {A B} (P : A → bool) (f : A → B) acc l :
  foldl (λ bs a, if P a then bs ++ [f a] else bs) acc l = acc ++ (f <$> filter P l).
Proof.
  revert acc. induction l as [|a l IH]; intros acc; cbn [foldl]; [by rewrite app_nil_r|].
  rewrite IH, filter_cons. case_decide as Hd.
  - apply Is_true_true in Hd. rewrite Hd. by rewrite fmap_cons, <- app_assoc.
  - apply Is_true_false in Hd. by rewrite Hd.
Qed.

Lemma Zsum_ext {A} (f g : A → Z) l : (∀ a, a ∈ l → f a = g a) → Zsum f l = Zsum g l.
Proof.
  induction l as [|a l IH]; intros H; [done|]. rewrite !Zsum_cons, IH, (H a); [done|by left|].
  intros b Hb. apply H. by right.
Qed.

Lemma Zsum_le {A} (f g : A → Z) l : (∀ a, a ∈ l → f a ≤ g a) → Zsum f l ≤ Zsum g l.
Proof.
  induction l as [|a l IH]; intros H; [done|]. rewrite !Zsum_cons.
  assert (f a ≤ g a) by (apply H; by left).
  assert (Zsum f l ≤ Zsum g l) by (apply IH; intros b Hb; apply H; by right). lia.
Qed.

Lemma Zsum_add {A} (f g : A → Z) l : Zsum (λ a, f a + g a) l = Zsum f l + Zsum g l.
Proof. induction l as [|a l IH]; [done|]. rewrite !Zsum_cons, IH. lia. Qed.

Lemma Zsum_mul_l {A} c (f : A → Z) l : Zsum (λ a, c * f a) l = c * Zsum f l.
Proof. induction l as [|a l IH]; [cbn; lia|]. rewrite !Zsum_cons, IH. lia. Qed.

Lemma Zsum_const {A} c (l : list A) : Zsum (λ _, c) l = c * Z.of_nat (length l).
Proof. induction l as [|a l IH]; [cbn; lia|]. rewrite Zsum_cons, IH. cbn [length]. lia. Qed.

Lemma Zsum_insert {A} (f : A → Z) l i x y :
  l !! i = Some x → Zsum f (<[i := y]> l) = Zsum f l - f x + f y.
Proof.
  revert i. induction l as [|a l IH]; intros [|i] Hi; [done..| |].
  - injection Hi as ->. change (<[0%nat := y]> (x :: l)) with (y :: l). rewrite !Zsum_cons. lia.
  - change (<[S i := y]> (a :: l)) with (a :: <[i := y]> l). rewrite !Zsum_cons, (IH i) by done. lia.
Qed.

Lemma Zsum_nonneg {A} (f : A → Z) l : (∀ a, a ∈ l → 0 ≤ f a) → 0 ≤ Zsum f l.
Proof.
  intros H. pose proof (Zsum_le (λ _, 0) f l H) as Hle. rewrite Zsum_const in Hle. lia.
Qed.

Lemma Zsum_map {A B} (g : A → B) (f : B → Z) l : Zsum f (g <$> l) = Zsum (λ a, f (g a)) l.
Proof. induction l as [|a l IH]; [done|]. rewrite fmap_cons, !Zsum_cons, IH. done. Qed.

Definition Zmax_list {A} (f : A → Z) (l : list A) : Z := foldr (λ a acc, Z.max (f a) acc) 0 l.

#[export] Instance Zmax_list_perm {A} (f : A → Z) : Proper ((≡ₚ) ==> (=)) (Zmax_list f).
Proof. induction 1; cbn; unfold Zmax_list in *; lia. Qed.

Lemma Zmax_list_nonneg {A} (f : A → Z) l : 0 ≤ Zmax_list f l.
Proof. unfold Zmax_list. induction l; cbn; lia. Qed.

Lemma Zmax_list_le {A} (f : A → Z) l b : 0 ≤ b → Forall (λ a, f a ≤ b) l → Zmax_list f l ≤ b.
Proof. intros Hb. unfold Zmax_list. induction 1; cbn; lia. Qed.

Lemma foldl_Zmax {A} (f : A → Z) l z :
  0 ≤ z → foldl (λ acc a, if bool_decide (acc < f a) then f a else acc) z l = Z.max z (Zmax_list f l).
Proof.
  revert z. induction l as [|a l IH]; intros z Hz; cbn; [unfold Zmax_list; cbn; lia|].
  case_bool_decide; rewrite IH by lia; unfold Zmax_list; lia.
Qed.

#[export] Hint Rewrite @Zsum_cons @foldl_Zsum : go.
#[export] Hint Resolve Zsum_nonneg Zsum_le : go.
