(* ===== verification/Loops.v ===== *)
(** * Loops over a ticker

    A goroutine that waits for the end of its context or for the next tick of a
    [time.Ticker] gets what it receives as a list, one event per iteration. *)

From S2P Require Import Prelude.

(** [time.NewTicker(d)], which panics on a duration that is not positive. *)
Definition NewTicker (d : Z) : res unit :=
  if bool_decide (d ≤ 0) then Panic (PanicMsg "non-positive interval for NewTicker") else Ret tt.

(** [time.Duration(n) * time.Second] *)
Definition seconds (n : Z) : Z := i64 (n * second).

(** What a [select] receives: the context's end, or a tick at some time. *)
Inductive event : Type :=
  | Done
  | Tick (now : time).

(** [for { select { case <-ctx.Done(): return; case <-ticker.C: body() } }] *)
Fixpoint select_loop {S} (body : time → M S unit) (events : list event) : M S unit :=
  match events with
  | [] | Done :: _ => mret tt
  | Tick now :: events => body now;; select_loop body events
  end.

(** A loop that also makes its ticker. *)
Definition ticker_loop {S} (d : Z) (body : time → M S unit) (events : list event) : M S unit :=
  lift (NewTicker d);;
  select_loop body events.
