(* ===== verification/Programs.v ===== *)
(** * Programs of calls, and how they interleave

    A goroutine is a program of calls on a shared state: between two of its
    calls other goroutines make theirs. *)

From S2P Require Import Prelude.

(** A program makes calls on a state [S] and goes on with their results, an
    error being one; a call that panics ends it. *)
Inductive prog (S A : Type) : Type :=
  | Finish (r : res A)
  | Call {X : Type} (m : M S X) (k : X + string → prog S A).
Arguments Finish {S A} _.
Arguments Call {S A X} _ _.

#[export] Instance prog_ret {S} : MRet (prog S) := λ A a, Finish (Ret a).
#[export] Instance prog_bind {S} : MBind (prog S) := λ A B k,
  fix bind p :=
    match p with
    | Finish (Ret a) => k a
    | Finish (Err e) => Finish (Err e)
    | Finish (Panic q) => Finish (Panic q)
    | Call m f => Call m (λ x, bind (f x))
    end.

Section programs.
Context {S : Type}.

Definition call {A} (m : M S A) : prog S A :=
  Call m (λ x, Finish (match x with inl a => Ret a | inr e => Err e end)).

Definition go_lift {A} (r : res A) : prog S A := Finish r.

Fixpoint go_wrap {A} (msg : string) (p : prog S A) : prog S A :=
  match p with
  | Finish r => Finish (wrap_res msg r)
  | Call m k => Call m (λ x, go_wrap msg (k x))
  end.

Fixpoint go_try {A} (p : prog S A) : prog S (A + string) :=
  match p with
  | Finish (Ret a) => Finish (Ret (inl a))
  | Finish (Err e) => Finish (Ret (inr e))
  | Finish (Panic q) => Finish (Panic q)
  | Call m k => Call m (λ x, go_try (k x))
  end.

(** A program that nothing interrupts. *)
Fixpoint run {A} (p : prog S A) : M S A :=
  match p with
  | Finish r => lift r
  | Call m k => x ← try m; run (k x)
  end.

(** One call; [None] when the program is finished or panics. *)
Definition prog_next {A} (p : prog S A) (s : S) : option (S * prog S A) :=
  match p with
  | Finish _ => None
  | Call m k =>
      match try m s with
      | (s', Ret x) => Some (s', k x)
      | _ => None
      end
  end.

(** Goroutines that run the programs of a list: any of them makes its next
    call. *)
Inductive interleave {A} : S * list (prog S A) → S * list (prog S A) → Prop :=
  | next_call s ps i p s' p' :
      ps !! i = Some p → prog_next p s = Some (s', p') →
      interleave (s, ps) (s', <[i := p']> ps).

(** The goroutines taking turns, as listed. *)
Fixpoint take_turns {A} (turns : list nat) (a : S * list (prog S A)) : option (S * list (prog S A)) :=
  match turns with
  | [] => Some a
  | i :: turns =>
      p ← a.2 !! i;
      '(s', p') ← prog_next p a.1;
      take_turns turns (s', <[i := p']> a.2)
  end.

Lemma take_turns_interleave {A} turns (a b : S * list (prog S A)) :
  take_turns turns a = Some b → rtc interleave a b.
Proof.
  revert a. induction turns as [|i turns IH]; intros [s ps]; cbn; [by intros [= <-]|].
  destruct (ps !! i) as [p|] eqn:Hp; [|done]. cbn. destruct (prog_next p s) as [[s' p']|] eqn:Hn; [|done].
  cbn. intros Hb. eapply rtc_l; [by econstructor|by apply IH].
Qed.
End programs.

(** ** Programs that nothing interrupts *)

Section runs.
Context {S : Type}.
Implicit Types s : S.

Lemma run_bind {A B} (p : prog S A) (k : A → prog S B) s :
  run (p ≫= k) s = (run p ≫= λ a, run (k a)) s.
Proof.
  revert s. induction p as [[a|e|q]|X m f IH]; intros s; [done..|].
  change (run (Call m f ≫= k) s) with ((x ← try m; run (f x ≫= k)) s).
  cbn [run]. rewrite M_bind_assoc. apply M_bind_ext. intros s' x _. apply IH.
Qed.

Lemma run_call {A} (m : M S A) s : run (call m) s = m s.
Proof.
  unfold call. cbn [run]. unfold mbind, M_bind, try. by destruct (m s) as [s' [a|e|q]].
Qed.

Lemma run_wrap {A} msg (p : prog S A) s : run (go_wrap msg p) s = wrap msg (run p) s.
Proof.
  revert s. induction p as [[a|e|q]|X m f IH]; intros s; [done..|]. cbn [go_wrap run].
  unfold mbind, M_bind. unfold wrap at 1. destruct (try m s) as [s' [x|e|q]] eqn:E; [apply IH| |done].
  unfold try in E. by destruct (m s) as [? [?|?|?]].
Qed.

Lemma run_try {A} (p : prog S A) s : run (go_try p) s = try (run p) s.
Proof.
  revert s. induction p as [[a|e|q]|X m f IH]; intros s; [done..|]. cbn [go_try run].
  unfold mbind, M_bind. unfold try at 2. destruct (try m s) as [s' [x|e|q]] eqn:E; [apply IH| |done].
  unfold try in E. by destruct (m s) as [? [?|?|?]].
Qed.

Lemma run_foldM {A B} (f : A → B → prog S A) (g : A → B → M S A) l a s :
  (∀ a b s, run (f a b) s = g a b s) → run (foldM f a l) s = foldM g a l s.
Proof.
  intros Hf. revert a s. induction l as [|b l IH]; intros a s; [done|]. cbn [foldM].
  rewrite run_bind. unfold mbind, M_bind. rewrite Hf. destruct (g a b s) as [s' [a'|e|q]]; [apply IH|done..].
Qed.
End runs.

#[export] Hint Rewrite @run_bind @run_call @run_wrap @run_try : go.

(** ** Programs followed by where they are

    The places of a program are often a type of their own: [prog_at] is what
    remains to be done at a place and [stage_next] the place after the next
    call. *)

Section stages.
Context {S A stage : Type} (prog_at : stage → prog S A) (stage_next : stage → S → option (S * stage)).

Inductive stages_step : S * list stage → S * list stage → Prop :=
  | stage_step s sts i st s' st' :
      sts !! i = Some st → stage_next st s = Some (s', st') →
      stages_step (s, sts) (s', <[i := st']> sts).

(** One goroutine takes its next call. *)
Lemma one_step s pre st rest s' st' :
  stage_next st s = Some (s', st') → stages_step (s, pre ++ st :: rest) (s', pre ++ st' :: rest).
Proof.
  intros Hn. replace (pre ++ st' :: rest) with (<[length pre := st']> (pre ++ st :: rest)).
  - by econstructor; [apply list_lookup_middle|].
  - by rewrite <- (Nat.add_0_r (length pre)), insert_app_r.
Qed.

Hypothesis prog_at_next :
  ∀ st s, prog_next (prog_at st) s = prod_map id prog_at <$> stage_next st s.

Lemma interleave_stages s sts s' ps :
  rtc interleave (s, prog_at <$> sts) (s', ps) →
  ∃ sts', ps = prog_at <$> sts' ∧ rtc stages_step (s, sts) (s', sts').
Proof.
  remember (s, prog_at <$> sts) as a eqn:Ea. remember (s', ps) as b eqn:Eb. intros Hr.
  revert s sts s' ps Ea Eb. induction Hr as [a|a b c Hs _ IH]; intros s sts s' ps -> Eb.
  { injection Eb as <- <-. by exists sts. }
  inversion Hs as [s0 ps0 i p s1 p1 Hi Hn E1 E2]; subst. clear Hs.
  rewrite list_lookup_fmap in Hi. destruct (sts !! i) as [st|] eqn:Hst; [|done]. injection Hi as <-.
  rewrite prog_at_next in Hn. destruct (stage_next st s) as [[s2 st2]|] eqn:Hnx; [|done].
  injection Hn as <- <-. destruct (IH s2 (<[i := st2]> sts) s' ps) as (sts' & -> & Hr); [|done|].
  { by rewrite list_fmap_insert. }
  exists sts'. split; [done|]. eapply rtc_l; [|exact Hr]. by econstructor.
Qed.

Lemma stages_interleave a b :
  rtc stages_step a b → rtc interleave (a.1, prog_at <$> a.2) (b.1, prog_at <$> b.2).
Proof.
  induction 1 as [a|a b c Hs _ IH]; [done|]. eapply rtc_l; [|exact IH].
  destruct Hs as [s sts i st s' st' Hi Hn]. cbn. rewrite list_fmap_insert. econstructor.
  - by rewrite list_lookup_fmap, Hi.
  - by rewrite prog_at_next, Hn.
Qed.
End stages.
