(* ===== verification/Sha256.v ===== *)
(** * [crypto/sha256]: the standard-library hash the validator applies

    [Sum256] over a message of bytes (integers 0..255), as FIPS 180-4 defines
    it: padding, message schedule, 64 rounds per block. *)

From S2P Require Import Prelude.

Definition w32_add (x y : Z) : Z := u32 (x + y).
Definition rotr (x n : Z) : Z := Z.lor (Z.shiftr x n) (u32 (Z.shiftl x (32 - n))).

Definition big_sigma0 (x : Z) : Z := Z.lxor (rotr x 2) (Z.lxor (rotr x 13) (rotr x 22)).
Definition big_sigma1 (x : Z) : Z := Z.lxor (rotr x 6) (Z.lxor (rotr x 11) (rotr x 25)).
Definition small_sigma0 (x : Z) : Z := Z.lxor (rotr x 7) (Z.lxor (rotr x 18) (Z.shiftr x 3)).
Definition small_sigma1 (x : Z) : Z := Z.lxor (rotr x 17) (Z.lxor (rotr x 19) (Z.shiftr x 10)).
Definition ch (x y z : Z) : Z := Z.lxor (Z.land x y) (Z.land (Z.lxor x (2 ^ 32 - 1)) z).
Definition maj (x y z : Z) : Z := Z.lxor (Z.land x y) (Z.lxor (Z.land x z) (Z.land y z)).

Definition K256 : list Z :=
  [1116352408; 1899447441; 3049323471; 3921009573; 961987163; 1508970993; 2453635748; 2870763221;
   3624381080; 310598401; 607225278; 1426881987; 1925078388; 2162078206; 2614888103; 3248222580;
   3835390401; 4022224774; 264347078; 604807628; 770255983; 1249150122; 1555081692; 1996064986;
   2554220882; 2821834349; 2952996808; 3210313671; 3336571891; 3584528711; 113926993; 338241895;
   666307205; 773529912; 1294757372; 1396182291; 1695183700; 1986661051; 2177026350; 2456956037;
   2730485921; 2820302411; 3259730800; 3345764771; 3516065817; 3600352804; 4094571909; 275423344;
   430227734; 506948616; 659060556; 883997877; 958139571; 1322822218; 1537002063; 1747873779;
   1955562222; 2024104815; 2227730452; 2361852424; 2428436474; 2756734187; 3204031479; 3329325298].

Record digest := mkDigest { d0 : Z; d1 : Z; d2 : Z; d3 : Z; d4 : Z; d5 : Z; d6 : Z; d7 : Z }.

Definition H256 : digest :=
  mkDigest 1779033703 3144134277 1013904242 2773480762 1359893119 2600822924 528734635 1541459225.

(** [n] bytes, most significant first. *)
Fixpoint be_fixed (n : nat) (z : Z) : list Z :=
  match n with
  | O => []
  | S n => be_fixed n (z / 256) ++ [z mod 256]
  end.

Definition pad (msg : list Z) : list Z :=
  let len := Z.of_nat (length msg) in
  msg ++ [0x80] ++ replicate (Z.to_nat ((55 - len) mod 64)) 0 ++ be_fixed 8 (8 * len).

(** Groups of [n] elements; the last one may be short. *)
Fixpoint chunks {A} (fuel n : nat) (l : list A) : list (list A) :=
  match fuel, l with
  | S fuel, _ :: _ => take n l :: chunks fuel n (drop n l)
  | _, _ => []
  end.

Definition be_word (bs : list Z) : Z := foldl (λ acc b, 256 * acc + b) 0 bs.

(** The schedule, newest word first. *)
Fixpoint schedule (n : nat) (w : list Z) : list Z :=
  match n with
  | O => w
  | S n =>
      let at_ i := nth i w 0 in
      schedule n (w32_add (w32_add (small_sigma1 (at_ 1%nat)) (at_ 6%nat))
                          (w32_add (small_sigma0 (at_ 14%nat)) (at_ 15%nat)) :: w)
  end.

Definition round (s : digest) (kw : Z * Z) : digest :=
  let '(mkDigest a b c d e f g h) := s in
  let t1 := u32 (h + big_sigma1 e + ch e f g + kw.1 + kw.2) in
  let t2 := u32 (big_sigma0 a + maj a b c) in
  mkDigest (w32_add t1 t2) a b c (w32_add d t1) e f g.

Definition add_digest (s t : digest) : digest :=
  mkDigest (w32_add (d0 s) (d0 t)) (w32_add (d1 s) (d1 t)) (w32_add (d2 s) (d2 t))
    (w32_add (d3 s) (d3 t)) (w32_add (d4 s) (d4 t)) (w32_add (d5 s) (d5 t))
    (w32_add (d6 s) (d6 t)) (w32_add (d7 s) (d7 t)).

Definition block (s : digest) (bs : list Z) : digest :=
  let w := reverse (schedule 48 (reverse (be_word <$> chunks 16 4 bs))) in
  add_digest s (foldl round s (zip K256 w)).

Definition Sum256 (msg : list Z) : list Z :=
  let p := pad msg in
  let s := foldl block H256 (chunks (length p) 64 p) in
  concat (be_fixed 4 <$> [d0 s; d1 s; d2 s; d3 s; d4 s; d5 s; d6 s; d7 s]).

Lemma length_be_fixed n z : length (be_fixed n z) = n.
Proof. revert z. induction n as [|n IH]; intros z; [done|]. cbn. rewrite length_app, IH. cbn. lia. Qed.

Lemma length_be_words l : length (concat (be_fixed 4 <$> l)) = (4 * length l)%nat.
Proof.
  induction l as [|z l IH]; [done|]. rewrite fmap_cons. cbn [concat length].
  rewrite length_app, length_be_fixed, IH. lia.
Qed.

Lemma Sum256_length msg : length (Sum256 msg) = 32%nat.
Proof. apply length_be_words. Qed.

(** The published test vectors. *)
Example Sum256_abc :
  Sum256 [0x61; 0x62; 0x63] = concat (be_fixed 4 <$>
    [3128432319; 2399260650; 1094795486; 1571693091; 2953011619; 2518121116; 3021012833; 4060091821]).
Proof. vm_compute. reflexivity. Qed.

Example Sum256_empty :
  Sum256 [] = concat (be_fixed 4 <$>
    [3820012610; 2566659092; 2600203464; 2574235940; 665731556; 1687917388; 2761267483; 2018687061]).
Proof. vm_compute. reflexivity. Qed.
