(* ===== verification/Float64.v ===== *)
(** * [float64]: IEEE 754 binary64 as the Standard Library's [SpecFloat]

    Round to nearest, ties to even, with infinities and NaN; every operation
    is executable and none is an axiom. *)

From Stdlib Require Import SpecFloat.
From S2P Require Import Prelude.

Abbreviation float64 := spec_float.

(** [float64(z)] for an integer: the nearest double. *)
Definition f_of_Z (z : Z) : float64 := binary_normalize 53 1024 z 0 false.

Definition f_mul : float64 → float64 → float64 := SFmul 53 1024.
Definition f_div : float64 → float64 → float64 := SFdiv 53 1024.
Definition f_add : float64 → float64 → float64 := SFadd 53 1024.
Definition f_sub : float64 → float64 → float64 := SFsub 53 1024.
Definition f_ltb : float64 → float64 → bool := SFltb.
Definition f_leb : float64 → float64 → bool := SFleb.
Definition f_gtb (x y : float64) : bool := SFltb y x.
Definition f_geb (x y : float64) : bool := SFleb y x.

(** The constant [n / d] of the source: both parts are exact doubles, so the
    quotient is the double nearest to the decimal. *)
Definition f_lit (n d : Z) : float64 := f_div (f_of_Z n) (f_of_Z d).

Definition f_zero : float64 := S754_zero false.
Definition f_one : float64 := f_of_Z 1.

(** The integer part, toward zero. *)
Definition f_trunc (s : bool) (m : positive) (e : Z) : Z :=
  let a := if bool_decide (0 ≤ e) then Z.pos m * 2 ^ e else Z.pos m / 2 ^ (- e) in
  if s then - a else a.

(** [int64(x)]; a value that does not fit is implementation-dependent in Go,
    [-2^63] (what amd64 gives) here. *)
Definition f_to_i64 (x : float64) : Z :=
  match x with
  | S754_zero _ => 0
  | S754_finite s m e =>
      let z := f_trunc s m e in
      if bool_decide (- 2 ^ 63 ≤ z < 2 ^ 63) then z else - 2 ^ 63
  | _ => - 2 ^ 63
  end.

(** [d.Seconds()]: whole seconds plus the fraction, in floating point. *)
Definition Seconds (d : Z) : float64 :=
  f_add (f_of_Z (Z.quot d second)) (f_div (f_of_Z (Z.rem d second)) (f_of_Z second)).

(** ** [fmt.Sprintf("%.2f", x)] *)

(** [n / d] rounded to the nearest integer, ties to even. *)
Definition div_nearest (n d : Z) : Z :=
  let q := n / d in
  match 2 * (n mod d) ?= d with
  | Lt => q
  | Gt => q + 1
  | Eq => if Z.even q then q else q + 1
  end.

(** Hundredths, with at least one digit before the point. *)
Definition print_hundredths (h : Z) : string :=
  pretty (h / 100) +:+ "." +:+ pretty (h mod 100 / 10) +:+ pretty (h mod 10).

Definition fmt_2f (x : float64) : string :=
  match x with
  | S754_nan => "NaN"
  | S754_infinity s => if s then "-Inf" else "+Inf"
  | S754_zero s => if s then "-0.00" else "0.00"
  | S754_finite s m e =>
      let h := if bool_decide (0 ≤ e) then Z.pos m * 100 * 2 ^ e
               else div_nearest (Z.pos m * 100) (2 ^ (- e)) in
      if s then "-" +:+ print_hundredths h else print_hundredths h
  end.

Example fmt_2f_eighth : fmt_2f (f_lit 125 1000) = "0.12".
Proof. vm_compute. reflexivity. Qed.
Example fmt_2f_percent : fmt_2f (f_mul (f_lit 99 100) (f_of_Z 100)) = "99.00".
Proof. vm_compute. reflexivity. Qed.

#[export] Instance float64_eq_dec : EqDecision float64.
Proof. solve_decision. Defined.

Example f_lit_tenth : f_lit 1 10 = S754_finite false 7205759403792794 (-56).
Proof. reflexivity. Qed.
