(* ===== verification/Float64Facts.v ===== *)
(** * Bounds on binary64 computations

    [within lo hi x] says that [x] is finite with a 53-bit mantissa and its
    exponent in [lo, hi]; every operation the program uses maps such bounds to
    such bounds, so that no infinity and no NaN can appear. *)

From Stdlib Require Import SpecFloat.
From S2P Require Import Prelude Float64.

Definition within (lo hi : Z) (x : float64) : Prop :=
  match x with
  | S754_zero _ => True
  | S754_finite _ m e => Z.pos m < 2 ^ 53 ∧ lo ≤ e ≤ hi
  | _ => False
  end.

Definition nonneg (x : float64) : Prop :=
  match x with
  | S754_zero _ => True
  | S754_finite s _ _ | S754_infinity s => s = false
  | S754_nan => False
  end.

(** Neither an infinity nor a NaN. *)
Definition finite (x : float64) : bool :=
  match x with S754_zero _ | S754_finite _ _ _ => true | _ => false end.

Lemma within_finite lo hi x : within lo hi x → finite x.
Proof. by destruct x. Qed.

Lemma within_weaken lo hi lo' hi' x : within lo hi x → lo' ≤ lo → hi ≤ hi' → within lo' hi' x.
Proof. destruct x; cbn; try done. intros [? ?]. lia. Qed.

(** ** Digits and shifts *)

Lemma digits2_pos_spec p :
  2 ^ (Z.pos (digits2_pos p) - 1) ≤ Z.pos p < 2 ^ Z.pos (digits2_pos p).
Proof.
  induction p as [p IH|p IH|]; cbn [digits2_pos]; [| |done].
  all: rewrite Pos2Z.inj_succ; replace (Z.succ (Z.pos (digits2_pos p)) - 1)
    with (Z.succ (Z.pos (digits2_pos p) - 1)) by lia; rewrite !Z.pow_succ_r by lia; lia.
Qed.

Lemma Zdigits2_spec z :
  0 ≤ z → 0 ≤ Zdigits2 z ∧ z < 2 ^ Zdigits2 z ∧
  (0 < z → 1 ≤ Zdigits2 z ∧ 2 ^ (Zdigits2 z - 1) ≤ z).
Proof.
  destruct z as [|p|p]; intros Hz; [done| |lia]. cbn [Zdigits2].
  pose proof (digits2_pos_spec p). lia.
Qed.

(** The number of digits is monotone in powers of two. *)
Lemma Zdigits2_le z k : 0 ≤ k → 0 ≤ z < 2 ^ k → Zdigits2 z ≤ k.
Proof.
  intros Hk [Hz Hlt]. destruct (decide (z = 0)) as [->|Hnz]; [done|].
  destruct (Zdigits2_spec z Hz) as (_ & _ & Hlo). destruct (Hlo ltac:(lia)) as [_ Hlo'].
  assert (Zdigits2 z - 1 < k); [|lia]. apply (Z.pow_lt_mono_r_iff 2); lia.
Qed.

Lemma Zdigits2_53 m : 2 ^ 52 ≤ m < 2 ^ 53 → Zdigits2 m = 53.
Proof.
  intros Hm. pose proof (Zdigits2_le m 53 ltac:(lia) ltac:(lia)).
  destruct (Zdigits2_spec m ltac:(lia)) as (? & Hlt & _).
  assert (52 < Zdigits2 m); [|lia]. apply (Z.pow_lt_mono_r_iff 2); lia.
Qed.

Lemma shr_1_half r : 0 ≤ shr_m r → shr_m (shr_1 r) = shr_m r / 2.
Proof.
  destruct r as [m r s]. cbn. destruct m as [|[p|p|]|p]; intros H; [done| | |done|lia]; cbn.
  - apply (Z.div_unique _ _ _ 1); lia.
  - apply (Z.div_unique _ _ _ 0); lia.
Qed.

Lemma iter_shr_1 n r :
  0 ≤ shr_m r → shr_m (SpecFloat.iter_pos shr_1 n r) = shr_m r / 2 ^ Z.pos n.
Proof.
  revert r. induction n as [n IH|n IH|]; intros r Hr; cbn [SpecFloat.iter_pos];
    try pose proof (Z.pow_pos_nonneg 2 (Z.pos n) ltac:(lia) ltac:(lia)) as Hpow.
  - assert (0 ≤ shr_m (shr_1 r)) by (rewrite shr_1_half by done; apply Z.div_pos; lia).
    assert (0 ≤ shr_m (SpecFloat.iter_pos shr_1 n (shr_1 r)))
      by (rewrite IH by done; apply Z.div_pos; lia).
    rewrite IH, IH, shr_1_half, !Z.div_div by lia. f_equal.
    replace (Z.pos n~1) with (Z.pos n + Z.pos n + 1) by lia.
    rewrite !Z.pow_add_r by lia. ring.
  - assert (0 ≤ shr_m (SpecFloat.iter_pos shr_1 n r)) by (rewrite IH by done; apply Z.div_pos; lia).
    rewrite IH, IH, Z.div_div by lia. f_equal.
    replace (Z.pos n~0) with (Z.pos n + Z.pos n) by lia.
    by rewrite Z.pow_add_r by lia.
  - by apply shr_1_half.
Qed.

Lemma shr_spec r e n :
  0 ≤ shr_m r → ∃ r', shr r e n = (r', e + Z.max 0 n) ∧ shr_m r' = shr_m r / 2 ^ Z.max 0 n.
Proof.
  intros Hr. destruct n as [|n|n]; cbn [shr].
  - exists r. by rewrite Z.max_id, Z.add_0_r, Z.div_1_r.
  - exists (SpecFloat.iter_pos shr_1 n r). rewrite Z.max_r by lia. by rewrite iter_shr_1.
  - exists r. rewrite Z.max_l by lia. by rewrite Z.add_0_r, Z.div_1_r.
Qed.

Lemma round_nearest_even_near m l :
  round_nearest_even m l = m ∨ round_nearest_even m l = m + 1.
Proof. destruct l as [|[]]; cbn; try destruct (Z.even m); auto. Qed.

(** ** Rounding *)

(** A mantissa below [2 ^ k] at exponent [e] rounds to a finite number. *)
Lemma round_within sx m e lx lo b k :
  0 ≤ k → 0 ≤ m < 2 ^ k → lo ≤ e ≤ b → k + e - 53 ≤ b → -1074 ≤ e → b ≤ 970 →
  let x := binary_round_aux 53 1024 sx m e lx in
  within lo (b + 1) x ∧ (sx = false → nonneg x) ∧ (0 < m → ∀ s, x ≠ S754_zero s).
Proof.
  intros Hk Hm He Hke Hemin Hb x. unfold x, binary_round_aux, shr_fexp.
  pose proof (Zdigits2_le m k Hk Hm) as Hdk.
  destruct (Zdigits2_spec m (proj1 Hm)) as (Hd0 & Hdlt & Hdle).
  assert (shr_m (shr_record_of_loc m lx) = m) as Elx by (by destruct lx as [|[]]).
  destruct (shr_spec (shr_record_of_loc m lx) e (fexp 53 1024 (Zdigits2 m + e) - e))
    as (r1 & -> & E1); [lia|]. rewrite Elx in E1.
  unfold fexp, emin in *. cbn [Z.sub Z.opp Z.add Z.pos_sub Pos.pred_double] in *.
  set (n1 := Z.max 0 _) in *.
  assert (shr_m r1 < 2 ^ 53 ∧ 0 ≤ shr_m r1) as [Hr1 Hr1'].
  { rewrite E1. split; [|apply Z.div_pos; lia]. apply Z.div_lt_upper_bound; [lia|].
    rewrite <- Z.pow_add_r by lia. eapply Z.lt_le_trans; [exact Hdlt|].
    apply Z.pow_le_mono_r; lia. }
  assert (0 < m → 0 < shr_m r1) as Hpos.
  { intros Hm0. destruct (Hdle Hm0). rewrite E1. apply Z.div_str_pos. split; [lia|].
    transitivity (2 ^ (Zdigits2 m - 1)); [|assumption]. apply Z.pow_le_mono_r; lia. }
  set (m2 := round_nearest_even _ _).
  assert (shr_m r1 ≤ m2 ≤ shr_m r1 + 1) as Hm2.
  { unfold m2. destruct (round_nearest_even_near (shr_m r1) (loc_of_shr_record r1)) as [-> | ->]; lia. }
  assert (Zdigits2 m2 ≤ 54) as Hd2 by (apply Zdigits2_le; lia).
  destruct (Zdigits2_spec m2 ltac:(lia)) as (Hd20 & Hd2lt & Hd2le).
  destruct (shr_spec (shr_record_of_loc m2 loc_Exact) (e + n1)
    (Z.max (Zdigits2 m2 + (e + n1) - 53) (3 - 1024 - 53) - (e + n1))) as (r2 & -> & E2); [cbn; lia|].
  cbn [shr_record_of_loc shr_m] in E2.
  set (n2 := Z.max 0 (Z.max (Zdigits2 m2 + (e + n1) - 53) (3 - 1024 - 53) - (e + n1))) in *.
  assert (shr_m r2 < 2 ^ 53) as Hr2.
  { rewrite E2. apply Z.div_lt_upper_bound; [lia|].
    rewrite <- Z.pow_add_r by lia. eapply Z.lt_le_trans; [exact Hd2lt|].
    apply Z.pow_le_mono_r; lia. }
  assert (0 ≤ shr_m r2) as Hr2' by (rewrite E2; apply Z.div_pos; lia).
  assert (0 < m → 0 < shr_m r2) as Hpos2.
  { intros Hm0%Hpos. destruct (Hd2le ltac:(lia)). rewrite E2. apply Z.div_str_pos. split; [lia|].
    transitivity (2 ^ (Zdigits2 m2 - 1)); [|done]. apply Z.pow_le_mono_r; lia. }
  assert (lo ≤ e + n1 + n2 ≤ b + 1) as Hexp.
  { clear - He Hke Hemin Hb Hdk Hd2. unfold n2. assert (-1074 ≤ e + n1 ≤ b); [unfold n1; lia|].
    assert (0 ≤ n1) by (unfold n1; lia). clearbody n1. lia. }
  destruct (shr_m r2) as [|p|p] eqn:Er2; [|cbv zeta|lia].
  - cbn. split_and!; [done..|]. intros Hm0. specialize (Hpos2 Hm0). lia.
  - rewrite (proj2 (Z.leb_le _ _)) by (cbn; lia). cbn -[Z.pow]. clear -Hr2 Hexp. split_and!; try done; try lia.
Qed.

(** ** Operations *)

Lemma f_mul_within lx hx ly hy x y :
  within lx hx x → within ly hy y → -1074 ≤ lx + ly → hx + hy ≤ 917 →
  within (lx + ly) (hx + hy + 54) (f_mul x y).
Proof.
  intros Hx Hy Hlo Hhi. destruct x as [| | |sx mx ex]; try done; [by destruct y|].
  destruct y as [| | |sy my ey]; try done. destruct Hx as [Hmx Hex], Hy as [Hmy Hey].
  unfold f_mul, SFmul. change (2 ^ 53) with 9007199254740992 in *.
  replace (hx + hy + 54) with (hx + hy + 53 + 1) by lia.
  apply (round_within _ _ _ _ _ _ 106); try lia. rewrite Pos2Z.inj_mul.
  change (2 ^ 106) with (9007199254740992 * 9007199254740992). nia.
Qed.

Lemma f_mul_nonneg x y lx hx ly hy :
  within lx hx x → within ly hy y → -1074 ≤ lx + ly → hx + hy ≤ 917 →
  nonneg x → nonneg y → nonneg (f_mul x y).
Proof.
  intros Hx Hy Hlo Hhi Nx Ny. destruct x as [| | |sx mx ex]; try done; [by destruct y|].
  destruct y as [| | |sy my ey]; try done. destruct Hx as [Hmx Hex], Hy as [Hmy Hey].
  cbn in Nx, Ny. subst. unfold f_mul, SFmul. change (2 ^ 53) with 9007199254740992 in *.
  edestruct (round_within false (Z.pos (mx * my)) (ex + ey) loc_Exact (lx + ly) (hx + hy + 53) 106)
    as (_ & Hn & _); try lia; [|by apply Hn].
  rewrite Pos2Z.inj_mul. change (2 ^ 106) with (9007199254740992 * 9007199254740992). nia.
Qed.

Lemma iter_xO m d : Z.pos (Pos.iter xO m d) = Z.pos m * 2 ^ Z.pos d.
Proof.
  induction d as [|d IH] using Pos.peano_ind; [cbn; lia|].
  rewrite Pos.iter_succ, Pos2Z.inj_succ, Z.pow_succ_r by lia.
  change (Z.pos (Pos.iter xO m d)~0) with (2 * Z.pos (Pos.iter xO m d)). rewrite IH. lia.
Qed.

Lemma shl_align_spec m e e' :
  let r := shl_align m e e' in
  (e' < e → Z.pos r.1 = Z.pos m * 2 ^ (e - e') ∧ r.2 = e') ∧ (e ≤ e' → r = (m, e)).
Proof.
  unfold shl_align. destruct (e' - e) as [|d|d] eqn:E; cbn; (split; intros; [|done || lia]);
    try lia. split; [|done]. rewrite iter_xO. do 2 f_equal. lia.
Qed.

(** [binary_normalize], behind conversions and differences. *)
Lemma normalize_within z e s lo b k :
  0 ≤ k → Z.abs z < 2 ^ k → lo ≤ Z.max (e - 52) (-1074) → -1074 ≤ e ≤ b → k + e - 53 ≤ b →
  b ≤ 970 →
  let x := binary_normalize 53 1024 z e s in
  within lo (b + 1) x ∧ (0 ≤ z → s = false → nonneg x) ∧ (z ≠ 0 → ∀ s', x ≠ S754_zero s').
Proof.
  intros Hk Hz Hlo He Hke Hb x.
  assert (∀ sx m, Z.pos m = Z.abs z → let x := binary_round 53 1024 sx m e in
    within lo (b + 1) x ∧ (sx = false → nonneg x) ∧ (∀ s', x ≠ S754_zero s')) as Hround.
  { clear x. intros sx m Hm. unfold binary_round.
    destruct (shl_align_spec m e (fexp 53 1024 (Z.pos (digits2_pos m) + e))) as [H1 H2].
    destruct (shl_align _ _ _) as [mz ez]. cbn [fst snd] in H1, H2.
    unfold fexp, emin in *. cbn [Z.sub Z.opp Z.add Z.pos_sub Pos.pred_double] in *.
    pose proof (digits2_pos_spec m) as [_ Hd].
    remember (Z.max (Z.pos (digits2_pos m) + e - 53) (3 - 1024 - 53)) as e' eqn:Ee'.
    destruct (decide (e' < e)) as [Hlt|Hge].
    - destruct (H1 Hlt) as [Emz ->]. clear H1 H2.
      destruct (round_within sx (Z.pos mz) e' loc_Exact lo b 53) as (W & N & P); try lia.
      + split; [lia|]. rewrite Emz. eapply Z.lt_le_trans.
        { apply Z.mul_lt_mono_pos_r; [apply Z.pow_pos_nonneg; lia|exact Hd]. }
        rewrite <- Z.pow_add_r by lia. apply Z.pow_le_mono_r; lia.
      + split_and!; [done|done|]. by apply P.
    - specialize (H2 ltac:(lia)). injection H2 as -> ->. clear H1.
      destruct (round_within sx (Z.pos m) e loc_Exact lo b k) as (W & N & P); try lia.
      split_and!; [done|done|]. by apply P. }
  unfold x, binary_normalize. destruct z as [|m|m].
  - cbn. by split_and!.
  - destruct (Hround false m eq_refl) as (W & N & P). split_and!; [done|by intros; apply N|by intros; apply P].
  - destruct (Hround true m eq_refl) as (W & N & P). split_and!; [done|lia|by intros; apply P].
Qed.

(** Integers below 2^64 convert to finite doubles. *)
Lemma f_of_Z_within z :
  Z.abs z < 2 ^ 64 →
  within (-52) 12 (f_of_Z z) ∧ (0 ≤ z → nonneg (f_of_Z z)) ∧ (z ≠ 0 → ∀ s, f_of_Z z ≠ S754_zero s).
Proof.
  intros Hz. destruct (normalize_within z 0 false (-52) 11 64) as (W & N & P); try lia.
  split_and!; [exact W|by intros; apply N|done].
Qed.

Lemma f_div_within lx hx ly hy x y :
  within lx hx x → within ly hy y → (∀ s, y ≠ S754_zero s) →
  -1074 ≤ lx - hy → hx - ly ≤ 970 → -1074 ≤ hx - ly →
  within (lx - hy - 105) (hx - ly + 1) (f_div x y) ∧ (nonneg x → nonneg y → nonneg (f_div x y)).
Proof.
  intros Hx Hy Hnz Hlo Hhi Hb. destruct y as [sy| | |sy my ey]; try done; [by destruct (Hnz sy)|].
  destruct x as [sx| | |sx mx ex]; try done.
  destruct Hx as [Hmx Hex], Hy as [Hmy Hey]. unfold f_div, SFdiv, SFdiv_core_binary.
  pose proof (Zdigits2_le (Z.pos my) 53 ltac:(lia) ltac:(lia)).
  assert (1 ≤ Zdigits2 (Z.pos mx)) by (cbn; lia).
  set (e' := Z.min _ _). assert (-1074 ≤ e' ≤ ex - ey ∧ lx - hy - 105 ≤ e') as [He' Hlo'].
  { unfold e', fexp, emin. lia. }
  destruct (Z.div_eucl _ _) as [q r] eqn:Eq.
  assert (0 ≤ q < 2 ^ (53 + (ex - ey - e'))) as Hq.
  { set (s := ex - ey - e') in *. assert (0 ≤ s) by lia.
    set (m' := match s with Z0 => _ | Zpos _ => _ | Zneg _ => _ end) in Eq.
    assert (m' = Z.pos mx * 2 ^ s) as Em'.
    { unfold m'. destruct s; [lia|by rewrite Z.shiftl_mul_pow2|lia]. }
    assert (q = m' / Z.pos my) as -> by (unfold Z.div; by rewrite Eq).
    pose proof (Z.pow_pos_nonneg 2 s ltac:(lia) ltac:(lia)).
    split; [apply Z.div_pos; lia|]. rewrite Em', Z.pow_add_r by lia.
    eapply Z.le_lt_trans; [apply Z.div_le_upper_bound with (q := Z.pos mx * 2 ^ s); nia|].
    apply Z.mul_lt_mono_pos_r; lia. }
  destruct (round_within (xorb sx sy) q e' (new_location (Z.pos my) r) (lx - hy - 105) (hx - ly)
    (53 + (ex - ey - e'))) as (W & N & _); try lia.
  split; [exact W|]. cbn. intros -> ->. by apply N.
Qed.

(** Small integers convert exactly, to a mantissa of 53 digits. *)
Lemma f_of_Z_exact z :
  0 < z < 2 ^ 53 →
  ∃ m e, f_of_Z z = S754_finite false m e ∧ -52 ≤ e ≤ 0 ∧ Z.pos m = z * 2 ^ (- e) ∧
    2 ^ 52 ≤ Z.pos m < 2 ^ 53.
Proof.
  intros Hz. destruct z as [|p|p]; try lia. unfold f_of_Z, binary_normalize, binary_round.
  pose proof (digits2_pos_spec p) as [Hlo Hhi].
  pose proof (Zdigits2_le (Z.pos p) 53 ltac:(lia) ltac:(lia)) as Hd. cbn [Zdigits2] in Hd.
  set (d := Z.pos (digits2_pos p)) in *. assert (1 ≤ d) by lia.
  replace (fexp 53 1024 (d + 0)) with (d - 53) by (unfold fexp, emin; lia).
  assert (∃ m, shl_align p 0 (d - 53) = (m, d - 53) ∧ Z.pos m = Z.pos p * 2 ^ (- (d - 53)))
    as (m & -> & Em).
  { destruct (shl_align_spec p 0 (d - 53)) as [H1 H2]. destruct (decide (d = 53)) as [Ed|].
    - exists p. rewrite Ed in *. rewrite H2 by lia. split; [done|cbn; lia].
    - destruct (shl_align _ _ _) as [m e]. destruct H1 as [Em Ee]; [lia|].
      cbn [fst snd] in *. subst e. exists m. split; [done|]. rewrite Em. f_equal. }
  assert (2 ^ 52 ≤ Z.pos m < 2 ^ 53) as Hm.
  { rewrite Em. replace (2 ^ 52) with (2 ^ (d - 1) * 2 ^ (- (d - 53)))
      by (rewrite <- Z.pow_add_r by lia; f_equal; lia).
    replace (2 ^ 53) with (2 ^ d * 2 ^ (- (d - 53)))
      by (rewrite <- Z.pow_add_r by lia; f_equal; lia).
    pose proof (Z.pow_pos_nonneg 2 (- (d - 53)) ltac:(lia) ltac:(lia)). nia. }
  exists m, (d - 53). split_and!; try lia.
  assert (Zdigits2 (Z.pos m) = 53) as Hdm.
  { by apply Zdigits2_53. }
  unfold binary_round_aux, shr_fexp. rewrite Hdm.
  replace (fexp 53 1024 (53 + (d - 53)) - (d - 53)) with 0 by (unfold fexp, emin; lia).
  cbn [shr shr_record_of_loc shr_m loc_of_shr_record round_nearest_even]. rewrite Hdm.
  replace (fexp 53 1024 (53 + (d - 53)) - (d - 53)) with 0 by (unfold fexp, emin; lia).
  cbn [shr shr_record_of_loc shr_m]. by rewrite (proj2 (Z.leb_le _ _)) by lia.
Qed.

(** Exponents of exact conversions are ordered. *)
Lemma exponent_le a b m1 e1 m2 e2 :
  0 < a ≤ b → -52 ≤ e1 ≤ 0 → -52 ≤ e2 ≤ 0 → m1 = a * 2 ^ (- e1) → m2 = b * 2 ^ (- e2) →
  m1 < 2 ^ 53 → 2 ^ 52 ≤ m2 → m2 < 2 ^ 53 → 2 ^ 52 ≤ m1 → e1 ≤ e2.
Proof.
  intros Hab He1 He2 Em1 Em2 Hm1 Hm2 Hm2' Hm1'. destruct (decide (e2 < e1)) as [Hlt|]; [|lia].
  exfalso. assert (2 ^ (- e2) = 2 ^ (- e1) * 2 ^ (e1 - e2)) as E
    by (rewrite <- Z.pow_add_r by lia; f_equal; lia).
  assert (2 ^ 1 ≤ 2 ^ (e1 - e2)) by (apply Z.pow_le_mono_r; lia).
  pose proof (Z.pow_pos_nonneg 2 (- e1) ltac:(lia) ltac:(lia)). rewrite E in Em2. nia.
Qed.

(** A proper fraction of small integers is below 4. *)
Lemma ratio_within k n :
  0 ≤ k ≤ n → 0 < n < 2 ^ 53 →
  within (-169) (-51) (f_div (f_of_Z k) (f_of_Z n)) ∧ nonneg (f_div (f_of_Z k) (f_of_Z n)).
Proof.
  intros Hk Hn. destruct (f_of_Z_exact n Hn) as (m2 & e2 & -> & He2 & Em2 & Hm2).
  destruct (decide (k = 0)) as [->|Hk0]; [done|].
  destruct (f_of_Z_exact k ltac:(lia)) as (m1 & e1 & -> & He1 & Em1 & Hm1).
  assert (e1 ≤ e2) as Hle by (eapply (exponent_le k n); try eassumption; lia).
  unfold f_div, SFdiv, SFdiv_core_binary. rewrite !Zdigits2_53 by done.
  replace (Z.min _ _) with (e1 - e2 - 53) by (unfold fexp, emin; lia).
  replace (e1 - e2 - (e1 - e2 - 53)) with 53 by lia. cbn [xorb].
  destruct (Z.div_eucl _ _) as [q r] eqn:Eq.
  assert (0 ≤ q < 2 ^ 54) as Hq.
  { assert (q = Z.shiftl (Z.pos m1) 53 / Z.pos m2) as -> by (unfold Z.div; by rewrite Eq).
    rewrite Z.shiftl_mul_pow2 by lia.
    split; [apply Z.div_pos; lia|apply Z.div_lt_upper_bound; lia]. }
  destruct (round_within false q (e1 - e2 - 53) (new_location (Z.pos m2) r) (-169) (-52) 54)
    as (W & N & _); try lia. split; [exact W|by apply N].
Qed.

(** The constants the program compares with. *)
Lemma f_lit_4_10 : f_lit 4 10 = S754_finite false 7205759403792794 (-54).
Proof. vm_compute. reflexivity. Qed.
Lemma f_one_eq : f_one = S754_finite false 4503599627370496 (-52).
Proof. vm_compute. reflexivity. Qed.
Lemma f_ten_eq : f_of_Z 10 = S754_finite false 5629499534213120 (-49).
Proof. vm_compute. reflexivity. Qed.
Lemma f_minus_ten_eq : f_of_Z (-10) = S754_finite true 5629499534213120 (-49).
Proof. vm_compute. reflexivity. Qed.

(** [1 - y] for a non-negative [y] below 2/5. *)
Lemma one_minus_within lo hi y :
  within lo hi y → -1074 ≤ lo ≤ 0 → nonneg y → f_ltb y (f_lit 4 10) = true →
  within (lo - 52) (-52) (f_sub f_one y) ∧ nonneg (f_sub f_one y).
Proof.
  intros Hy Hlo Ny Hlt. destruct y as [sy| | |sy my ey]; [|done..|].
  { rewrite f_one_eq. cbn. lia. }
  cbn in Ny. subst sy. destruct Hy as [Hmy Hey].
  assert (ey ≤ -54) as He.
  { rewrite f_lit_4_10 in Hlt. unfold f_ltb, SFltb, SFcompare in Hlt.
    destruct (Z.compare_spec ey (-54)); first [lia|discriminate]. }
  rewrite f_one_eq. unfold f_sub, SFsub. cbn [cond_Zopp]. rewrite (Z.min_r (-52) ey) by lia.
  destruct (shl_align_spec 4503599627370496 (-52) ey) as [H1 _].
  destruct (shl_align_spec my ey ey) as [_ H2].
  destruct (H1 ltac:(lia)) as [-> _]. rewrite (H2 ltac:(lia)). cbn [fst]. clear H1 H2.
  change 4503599627370496 with (2 ^ 52). rewrite <- Z.pow_add_r by lia.
  replace (52 + (-52 - ey)) with (- ey) by lia.
  assert (2 ^ 54 ≤ 2 ^ (- ey)) by (apply Z.pow_le_mono_r; lia).
  destruct (normalize_within (2 ^ (- ey) - Z.pos my) ey false (lo - 52) (-53) (- ey)) as (W & N & _);
    try lia. split; [exact W|]. apply N; [lia|done].
Qed.

Lemma trunc_small lo x :
  within lo (-43) x → nonneg x → 0 ≤ f_to_i64 x < 1024.
Proof.
  intros Hx Nx. destruct x as [s| | |s m e]; try done. destruct Hx as [Hm He]. cbn in Nx. subst s.
  unfold f_to_i64, f_trunc. rewrite (bool_decide_eq_false_2 (0 ≤ e)) by lia.
  pose proof (Z.pow_pos_nonneg 2 (- e) ltac:(lia) ltac:(lia)).
  assert (0 ≤ Z.pos m / 2 ^ (- e) < 1024); [|by rewrite bool_decide_eq_true_2 by lia].
  split; [apply Z.div_pos; lia|]. apply Z.div_lt_upper_bound; [lia|].
  assert (2 ^ 43 ≤ 2 ^ (- e)) by (apply Z.pow_le_mono_r; lia). lia.
Qed.

Lemma compare_cont_Eq m n : Pos.compare_cont Eq m n = (Z.pos m ?= Z.pos n).
Proof. done. Qed.

(** Truncating what a cap at [10] and [-10] lets through. *)
Lemma trunc_capped lo hi x :
  within lo hi x → f_gtb x (f_of_Z 10) = false → f_ltb x (f_of_Z (-10)) = false →
  -10 ≤ f_to_i64 x ≤ 10 ∧ (nonneg x → 0 ≤ f_to_i64 x).
Proof.
  intros Hx Hgt Hlt. destruct x as [s| | |s m e]; try done. destruct Hx as [Hm _].
  rewrite f_ten_eq in Hgt. rewrite f_minus_ten_eq in Hlt.
  assert (e ≤ -49 ∧ (e = -49 → Z.pos m ≤ 5629499534213120)) as [He Hme].
  { unfold f_gtb, f_ltb, SFltb, SFcompare in *. destruct s.
    - destruct (Z.compare_spec e (-49)); [|lia|discriminate]. split; [lia|]. intros _.
      rewrite compare_cont_Eq in Hlt. destruct (Z.compare_spec (Z.pos m) 5629499534213120); first [lia|discriminate].
    - destruct (Z.compare_spec (-49) e); [|discriminate|lia]. split; [lia|]. intros _.
      rewrite compare_cont_Eq in Hgt. destruct (Z.compare_spec 5629499534213120 (Z.pos m)); first [lia|discriminate]. }
  assert (0 ≤ Z.pos m / 2 ^ (- e) ≤ 10) as Hq.
  { split; [apply Z.div_pos; [lia|apply Z.pow_pos_nonneg; lia]|].
    apply Z.div_le_upper_bound; [apply Z.pow_pos_nonneg; lia|].
    destruct (decide (e = -49)) as [->|]; [specialize (Hme eq_refl); lia|].
    assert (2 ^ 50 ≤ 2 ^ (- e)) by (apply Z.pow_le_mono_r; lia). lia. }
  unfold f_to_i64, f_trunc. rewrite (bool_decide_eq_false_2 (0 ≤ e)) by lia.
  destruct s; cbn [nonneg]; rewrite bool_decide_eq_true_2 by lia; split; try lia; done.
Qed.

(** ** Rounding does not pass an integer *)

(** [x] is at most the integer [N], whose conversion has exponent [eN]. *)
Definition below (N eN : Z) (x : float64) : Prop :=
  match x with
  | S754_zero _ => True
  | S754_finite s m e => s = false ∧ e ≤ eN ∧ Z.pos m ≤ N * 2 ^ (- e)
  | _ => False
  end.

Lemma shr_1_exact b : shr_1 (Build_shr_record (2 * b) false false) = Build_shr_record b false false.
Proof. by destruct b. Qed.

Lemma iter_shr_1_exact n b :
  SpecFloat.iter_pos shr_1 n (Build_shr_record (b * 2 ^ Z.pos n) false false) =
    Build_shr_record b false false.
Proof.
  revert b. induction n as [n IH|n IH|]; intros b; cbn [SpecFloat.iter_pos].
  - replace (b * 2 ^ Z.pos n~1) with (2 * (b * 2 ^ Z.pos n * 2 ^ Z.pos n)).
    + by rewrite shr_1_exact, !IH.
    + replace (Z.pos n~1) with (Z.pos n + Z.pos n + 1) by lia. rewrite !Z.pow_add_r by lia. ring.
  - replace (b * 2 ^ Z.pos n~0) with (b * 2 ^ Z.pos n * 2 ^ Z.pos n); [by rewrite !IH|].
    replace (Z.pos n~0) with (Z.pos n + Z.pos n) by lia. rewrite !Z.pow_add_r by lia. ring.
  - rewrite (Z.mul_comm b). apply shr_1_exact.
Qed.

Definition inexact (l : location) : Z := match l with loc_Exact => 0 | _ => 1 end.

Lemma shift_below m e l n B :
  0 ≤ m → 0 ≤ n → m + inexact l ≤ B * 2 ^ n →
  ∃ r, shr (shr_record_of_loc m l) e n = (r, e + n) ∧ shr_m r = m / 2 ^ n ∧
    round_nearest_even (shr_m r) (loc_of_shr_record r) ≤ B.
Proof.
  intros Hm Hn HB. pose proof (Z.pow_pos_nonneg 2 n ltac:(lia) Hn) as Hp.
  assert (shr_m (shr_record_of_loc m l) = m) as El by (by destruct l as [|[]]).
  destruct (shr_spec (shr_record_of_loc m l) e n) as (r & E & Er); [lia|].
  rewrite Z.max_r in E, Er by lia. rewrite El in Er. exists r. split; [done|]. split; [done|].
  assert (0 ≤ inexact l) by (by destruct l).
  assert (m / 2 ^ n ≤ B) as Hle by (apply Z.div_le_upper_bound; lia).
  destruct (decide (m / 2 ^ n = B)) as [Heq|Hne].
  - assert (m = B * 2 ^ n ∧ inexact l = 0) as [Em Hl].
    { pose proof (Z.mul_div_le m (2 ^ n) Hp). lia. }
    assert (l = loc_Exact) as -> by (by destruct l). rewrite Em in E. cbn [shr_record_of_loc] in E.
    assert (r = Build_shr_record B false false) as ->; [|done].
    destruct n as [|n|n]; cbn [shr] in E; [|rewrite iter_shr_1_exact in E|lia];
      injection E as <-; f_equal; lia.
  - rewrite Er. destruct (round_nearest_even_near (m / 2 ^ n) (loc_of_shr_record r)) as [-> | ->]; lia.
Qed.

Lemma round_below m e l N eN :
  0 ≤ m → -1074 ≤ e ≤ eN → eN ≤ 0 → N * 2 ^ (- eN) < 2 ^ 53 → 0 < N →
  m + inexact l ≤ N * 2 ^ (- e) → below N eN (binary_round_aux 53 1024 false m e l).
Proof.
  intros Hm He HeN HN HN0 Hle. unfold binary_round_aux, shr_fexp, fexp, emin.
  destruct (Zdigits2_spec m Hm) as (Hd0 & _ & Hdle).
  assert (0 ≤ inexact l) by (by destruct l).
  assert (Zdigits2 m + e ≤ 53 + eN) as Hde.
  { assert (Zdigits2 m ≤ 53 + eN - e); [|lia]. apply Zdigits2_le; [lia|]. split; [lia|].
    replace (53 + eN - e) with (53 + (eN - e)) by lia. rewrite Z.pow_add_r by lia.
    apply Z.le_lt_trans with (N * 2 ^ (- e)); [lia|].
    replace (- e) with (- eN + (eN - e)) by lia. rewrite Z.pow_add_r, Z.mul_assoc by lia.
    apply Z.mul_lt_mono_pos_r; [apply Z.pow_pos_nonneg|]; lia. }
  set (n1 := Z.max 0 (Z.max (Zdigits2 m + e - 53) (3 - 1024 - 53) - e)).
  assert (0 ≤ n1 ∧ e + n1 ≤ eN) as [Hn1 He1] by (unfold n1; lia).
  destruct (shift_below m e l n1 (N * 2 ^ (- (e + n1)))) as (r1 & E1 & Em1 & Hm2); [done|done| |].
  { rewrite <- Z.mul_assoc, <- Z.pow_add_r by lia. by replace (- (e + n1) + n1) with (- e) by lia. }
  assert (shr (shr_record_of_loc m l) e (Z.max (Zdigits2 m + e - 53) (3 - 1024 - 53) - e) =
    (r1, e + n1)) as ->.
  { rewrite <- E1. unfold n1. by destruct (Z.max (Zdigits2 m + e - 53) _ - e). }
  set (m2 := round_nearest_even _ _) in *. set (e1 := e + n1) in *.
  assert (0 ≤ m2) as Hm2'.
  { unfold m2. pose proof (Z.div_pos m (2 ^ n1) Hm ltac:(apply Z.pow_pos_nonneg; lia)).
    destruct (round_nearest_even_near (shr_m r1) (loc_of_shr_record r1)) as [-> | ->]; lia. }
  assert (N * 2 ^ (- e1) < 2 ^ (53 + (eN - e1))) as Hup.
  { rewrite Z.pow_add_r by lia. replace (- e1) with (- eN + (eN - e1)) by lia.
    rewrite Z.pow_add_r, Z.mul_assoc by lia.
    apply Z.mul_lt_mono_pos_r; [apply Z.pow_pos_nonneg|]; lia. }
  assert (Zdigits2 m2 ≤ 53 + (eN - e1)) as Hd2 by (apply Zdigits2_le; lia).
  set (n2 := Z.max 0 (Z.max (Zdigits2 m2 + e1 - 53) (3 - 1024 - 53) - e1)).
  assert (0 ≤ n2 ∧ e1 + n2 ≤ eN ∧ -1074 ≤ e1) as (Hn2 & He2 & Hmin) by (unfold n2, e1; lia).
  destruct (shr_spec (shr_record_of_loc m2 loc_Exact) e1
    (Z.max (Zdigits2 m2 + e1 - 53) (3 - 1024 - 53) - e1)) as (r2 & -> & Em3); [done|].
  fold n2 in Em3 |- *. cbn [shr_record_of_loc shr_m] in Em3.
  destruct (shr_m r2) as [|p|p] eqn:E3; [done| |].
  - rewrite (proj2 (Z.leb_le _ _)) by lia. cbn. split; [done|]. split; [done|].
    rewrite Em3. apply Z.div_le_upper_bound; [apply Z.pow_pos_nonneg; lia|].
    replace (2 ^ n2 * (N * 2 ^ (- (e1 + n2)))) with (N * (2 ^ n2 * 2 ^ (- (e1 + n2)))) by ring.
    rewrite <- Z.pow_add_r by lia. by replace (n2 + - (e1 + n2)) with (- e1) by lia.
  - pose proof (Z.div_pos m2 (2 ^ n2) Hm2' ltac:(apply Z.pow_pos_nonneg; lia)). lia.
Qed.

(** What is below [N] is not greater than the conversion of [N]. *)
Lemma below_not_greater N eN m x :
  f_of_Z N = S754_finite false m eN → Z.pos m = N * 2 ^ (- eN) → below N eN x →
  f_ltb (f_of_Z N) x = false.
Proof.
  intros -> Em Hx. destruct x as [s| | |s m' e']; try done. destruct Hx as (-> & He & Hm').
  unfold f_ltb, SFltb, SFcompare. destruct (Z.compare_spec eN e') as [->|?|?]; [|lia|done].
  rewrite compare_cont_Eq. destruct (Z.compare_spec (Z.pos m) (Z.pos m')); [done|lia|done].
Qed.

(** ** Durations *)

Lemma fraction_below k n :
  0 < k < n → n < 2 ^ 53 → below 1 (-52) (f_div (f_of_Z k) (f_of_Z n)).
Proof.
  intros Hk Hn. destruct (f_of_Z_exact n ltac:(lia)) as (m2 & e2 & -> & He2 & Em2 & Hm2).
  destruct (f_of_Z_exact k ltac:(lia)) as (m1 & e1 & -> & He1 & Em1 & Hm1).
  assert (e1 ≤ e2) as Hle by (eapply (exponent_le k n); try eassumption; lia).
  unfold f_div, SFdiv, SFdiv_core_binary. rewrite !Zdigits2_53 by done.
  replace (Z.min _ _) with (e1 - e2 - 53) by (unfold fexp, emin; lia).
  replace (e1 - e2 - (e1 - e2 - 53)) with 53 by lia. cbn [xorb].
  destruct (Z.div_eucl _ _) as [q r] eqn:Eq.
  assert (q = Z.shiftl (Z.pos m1) 53 / Z.pos m2) as Eq' by (unfold Z.div; by rewrite Eq).
  rewrite Z.shiftl_mul_pow2 in Eq' by lia.
  assert (0 ≤ q) by (rewrite Eq'; apply Z.div_pos; lia).
  assert (q < 2 ^ (e2 - e1 + 53)) as Hq.
  { rewrite Eq'. apply Z.div_lt_upper_bound; [lia|]. rewrite Z.pow_add_r, Z.mul_assoc by lia.
    apply Z.mul_lt_mono_pos_r; [lia|]. rewrite Em1, Em2, <- Z.mul_assoc, <- Z.pow_add_r by lia.
    replace (- e2 + (e2 - e1)) with (- e1) by lia.
    apply Z.mul_lt_mono_pos_r; [apply Z.pow_pos_nonneg; lia|lia]. }
  apply round_below; try lia.
  replace (- (e1 - e2 - 53)) with (e2 - e1 + 53) by lia.
  assert (inexact (new_location (Z.pos m2) r) ≤ 1) by (by destruct (new_location _ _)). lia.
Qed.

Lemma integer_below k N m eN :
  0 ≤ k ≤ N → 0 < N < 2 ^ 53 → f_of_Z N = S754_finite false m eN → below N eN (f_of_Z k).
Proof.
  intros Hk HN E. destruct (decide (k = 0)) as [->|]; [done|].
  destruct (f_of_Z_exact N HN) as (m2 & e2 & E' & He2 & Em2 & Hm2).
  rewrite E in E'. injection E' as -> ->.
  destruct (f_of_Z_exact k ltac:(lia)) as (m1 & e1 & -> & He1 & Em1 & Hm1).
  cbn. split; [done|]. split; [eapply (exponent_le k N); try eassumption; lia|].
  rewrite Em1. apply Z.mul_le_mono_nonneg_r; [apply Z.pow_nonneg; lia|lia].
Qed.

Lemma sum_below k N m eN y :
  0 ≤ k < N → 0 < N < 2 ^ 53 → f_of_Z N = S754_finite false m eN →
  below 1 (-52) y → within (-1074) 0 y → below N eN (f_add (f_of_Z k) y).
Proof.
  intros Hk HN E Hy Wy. pose proof (integer_below k N m eN ltac:(lia) HN E) as Hbk.
  destruct (f_of_Z_exact N HN) as (m2 & e2 & E' & He2 & Em2 & Hm2).
  rewrite E in E'. injection E' as -> ->.
  destruct (decide (k = 0)) as [->|].
  { change (f_of_Z 0) with (S754_zero false). destruct y as [[]| | |s my ey]; try done.
    destruct Hy as (-> & He & Hmy). cbn. split; [done|]. split; [lia|].
    pose proof (Z.pow_nonneg 2 (- ey) ltac:(lia)). nia. }
  destruct (f_of_Z_exact k ltac:(lia)) as (m1 & e1 & E1 & He1 & Em1 & Hm1). rewrite E1 in *.
  destruct y as [s| | |s my ey]; try done. destruct Hy as (-> & He & Hmy).
  destruct Wy as [_ Hey]. unfold f_add, SFadd. rewrite Z.min_r by lia. cbn [cond_Zopp].
  destruct (shl_align_spec m1 e1 ey) as [H1 H1'].
  assert (Z.pos (shl_align m1 e1 ey).1 = k * 2 ^ (- ey)) as ->.
  { destruct (decide (ey = e1)) as [Heq|].
    - rewrite H1' by lia. cbn [fst]. by rewrite Em1, Heq.
    - destruct (H1 ltac:(lia)) as [-> _]. rewrite Em1, <- Z.mul_assoc, <- Z.pow_add_r by lia.
      do 2 f_equal. lia. }
  destruct (shl_align_spec my ey ey) as [_ H2]. rewrite H2 by lia. cbn [fst].
  assert (∃ z, k * 2 ^ (- ey) + Z.pos my = Z.pos z ∧ Z.pos z ≤ N * 2 ^ (- ey)) as (z & -> & Hz).
  { pose proof (Z.pow_pos_nonneg 2 (- ey) ltac:(lia) ltac:(lia)).
    exists (Z.to_pos (k * 2 ^ (- ey) + Z.pos my)). rewrite Z2Pos.id by nia. split; [done|nia]. }
  unfold binary_normalize, binary_round.
  destruct (shl_align_spec z ey (fexp 53 1024 (Z.pos (digits2_pos z) + ey))) as [H3 H3'].
  destruct (shl_align z ey _) as [mz ez] eqn:Ez. cbn [fst snd] in H3, H3'.
  set (e' := fexp _ _ _) in *. assert (-1074 ≤ e') by (unfold e', fexp, emin; lia).
  destruct (decide (e' < ey)) as [Hlt|].
  - destruct (H3 Hlt) as [Emz ->]. apply round_below; try lia. cbn [inexact].
    rewrite Emz. replace (- e') with (- ey + (ey - e')) by lia.
    rewrite Z.pow_add_r, Z.mul_assoc by lia.
    pose proof (Z.pow_pos_nonneg 2 (ey - e') ltac:(lia) ltac:(lia)). nia.
  - specialize (H3' ltac:(lia)). injection H3' as -> ->. apply round_below; try lia. cbn [inexact]. lia.
Qed.

(** A duration of at most [M] seconds does not convert to more than [M]. *)
Lemma Seconds_not_over d M :
  0 ≤ d ≤ M * second → 0 < M < 2 ^ 53 → f_gtb (Seconds d) (f_of_Z M) = false.
Proof.
  unfold second. intros Hd HM. destruct (f_of_Z_exact M HM) as (m & e & E & He & Em & _).
  apply (below_not_greater M e m _ E Em). unfold Seconds, second.
  rewrite Z.quot_div_nonneg, Z.rem_mod_nonneg by lia.
  pose proof (Z.div_mod d 1000000000 ltac:(lia)). pose proof (Z.mod_pos_bound d 1000000000 ltac:(lia)).
  set (k := d / 1000000000) in *. set (n := d mod 1000000000) in *.
  destruct (decide (n = 0)) as [->|Hn].
  - replace (f_div (f_of_Z 0) (f_of_Z 1000000000)) with (S754_zero false) by (vm_compute; reflexivity).
    pose proof (integer_below k M m e ltac:(lia) HM E) as Hb.
    destruct (f_of_Z k) as [[]| | |]; try done.
  - apply (sum_below k M m e); [lia|done|done|by apply fraction_below; lia|].
    eapply within_weaken; [apply ratio_within; lia|lia..].
Qed.
