(* ===== verification/BigInt.v ===== *)
(** * [math/big] as the AVS uses it, and [pkg/utils/bigint.go]

    A [*big.Int] is an [option Z]: [None] is the nil pointer, on which every
    method but [String] panics.  The code only ever mutates integers it has
    just allocated ([new(big.Int).Sub(..)], accumulators of loops), so a
    pointer's target is modelled by its value. *)

From Stdlib Require Import Ascii.
From S2P Require Import Prelude.

Abbreviation bigint := (option Z).

(** [big.NewInt(z)]; the literals of the source fit int64. *)
Definition NewInt (z : Z) : bigint := Some z.

(** Euclidean quotient: the remainder is never negative ([Int.Div]). *)
Definition euclid_div (x y : Z) : Z := Z.sgn y * (x / Z.abs y).

Definition big_op2 (f : Z → Z → Z) (x y : bigint) : res bigint :=
  match x, y with
  | Some a, Some b => Ret (Some (f a b))
  | _, _ => Panic NilDeref
  end.

Definition big_Add : bigint → bigint → res bigint := big_op2 Z.add.
Definition big_Sub : bigint → bigint → res bigint := big_op2 Z.sub.
Definition big_Mul : bigint → bigint → res bigint := big_op2 Z.mul.

Definition big_Div (x y : bigint) : res bigint :=
  match x, y with
  | Some a, Some b => if decide (b = 0) then Panic DivByZero else Ret (Some (euclid_div a b))
  | _, _ => Panic NilDeref
  end.

Definition big_Neg (x : bigint) : res bigint :=
  match x with
  | Some a => Ret (Some (- a))
  | None => Panic NilDeref
  end.

(** [x.Cmp(y)]: equal pointers, two nils included, compare equal. *)
Definition big_Cmp (x y : bigint) : res Z :=
  match x, y with
  | Some a, Some b => Ret (match a ?= b with Lt => -1 | Eq => 0 | Gt => 1 end)
  | None, None => Ret 0
  | _, _ => Panic NilDeref
  end.

Definition big_Sign (x : bigint) : res Z :=
  match x with
  | Some a => Ret (Z.sgn a)
  | None => Panic NilDeref
  end.

(** [x.Int64()] keeps the low 64 bits. *)
Definition big_Int64 (x : bigint) : res Z :=
  match x with
  | Some a => Ret (i64 a)
  | None => Panic NilDeref
  end.

(** [x.String()] prints nil as ["<nil>"]. *)
Definition big_String (x : bigint) : string :=
  match x with
  | Some a => pretty a
  | None => "<nil>"
  end.

(** [if d.Sign() < 0 { d.Neg(d) }], the way every caller takes [|x - y|]. *)
Definition big_AbsDiff (x y : bigint) : res bigint :=
  d ← big_Sub x y;
  s ← big_Sign d;
  if bool_decide (s < 0) then big_Neg d else Ret d.

(** ** [SetString(s, 10)] *)

Definition digit_val (c : Ascii.ascii) : option Z :=
  match Ascii.is_nat c with
  | Some d => Some (Z.of_nat d)
  | None => None
  end.

Fixpoint parse_digits (acc : Z) (s : string) : option Z :=
  match s with
  | EmptyString => Some acc
  | String c s => d ← digit_val c; parse_digits (10 * acc + d) s
  end.

(** An optional sign, then one or more decimal digits and nothing else. *)
Definition SetString10 (s : string) : option Z :=
  match s with
  | EmptyString => None
  | String c rest =>
      if bool_decide (c = "-"%char) then
        match rest with EmptyString => None | _ => Z.opp <$> parse_digits 0 rest end
      else if bool_decide (c = "+"%char) then
        match rest with EmptyString => None | _ => parse_digits 0 rest end
      else parse_digits 0 s
  end.

(** [utils.MustSetString]. *)
Definition MustSetString (s : string) : res bigint :=
  match SetString10 s with
  | Some z => Ret (Some z)
  | None => Panic (PanicMsg ("invalid big.Int string: " +:+ s))
  end.

(** ** [x.Bytes()]: the magnitude, most significant byte first, no leading zero *)

Fixpoint be_bytes (fuel : nat) (z : Z) : list Z :=
  match fuel with
  | O => []
  | S fuel => if bool_decide (z ≤ 0) then [] else be_bytes fuel (z / 256) ++ [z mod 256]
  end.

(** One byte per iteration: an iteration per bit is more than enough. *)
Definition byte_fuel (z : Z) : nat := S (Z.to_nat (Z.log2 z)).
Definition big_Bytes (z : Z) : list Z := be_bytes (byte_fuel (Z.abs z)) (Z.abs z).

(** ** Facts *)

Lemma euclid_div_pos x y : 0 < y → euclid_div x y = x / y.
Proof. intros H. unfold euclid_div. rewrite Z.sgn_pos, Z.abs_eq by lia. lia. Qed.

(** The defining property of Euclidean division, for either sign of [y]. *)
Lemma euclid_div_spec x y :
  y ≠ 0 → 0 ≤ x - y * euclid_div x y < Z.abs y.
Proof.
  intros Hy. unfold euclid_div.
  pose proof (Z.div_mod x (Z.abs y) ltac:(lia)) as Hdm.
  pose proof (Z.mod_pos_bound x (Z.abs y) ltac:(lia)) as Hb.
  pose proof (Z.abs_sgn y) as Hs. nia.
Qed.

Lemma big_Add_Some a b : big_Add (Some a) (Some b) = Ret (Some (a + b)).
Proof. done. Qed.

Lemma big_Div_Some a b : b ≠ 0 → big_Div (Some a) (Some b) = Ret (Some (euclid_div a b)).
Proof. intros H. cbn. by rewrite decide_False. Qed.

Lemma big_AbsDiff_Some a b : big_AbsDiff (Some a) (Some b) = Ret (Some (Z.abs (a - b))).
Proof.
  unfold big_AbsDiff. cbn. case_bool_decide; cbn; do 2 f_equal; lia.
Qed.

Lemma big_Cmp_zero a : big_Cmp (Some a) (NewInt 0) = Ret (Z.sgn a).
Proof. cbn. by destruct a. Qed.

Lemma big_Cmp_ltb a b c :
  big_Cmp (Some a) (Some b) = Ret c → (c < 0 ↔ a < b) ∧ (c = 0 ↔ a = b) ∧ (0 < c ↔ b < a).
Proof. cbn. destruct (Z.compare_spec a b); intros [= <-]; lia. Qed.

Lemma big_Cmp_Some a b :
  big_Cmp (Some a) (Some b) = Ret (Z.sgn (a - b)).
Proof.
  cbn. destruct (Z.compare_spec a b); f_equal; lia.
Qed.

(** The tests a caller makes on the answer of [Cmp]. *)
Lemma sgn_gt a b : bool_decide (0 < Z.sgn (a - b)) = bool_decide (b < a).
Proof. apply bool_decide_ext. lia. Qed.
Lemma sgn_lt a b : bool_decide (Z.sgn (a - b) < 0) = bool_decide (a < b).
Proof. apply bool_decide_ext. lia. Qed.
Lemma sgn_zero a : bool_decide (Z.sgn a = 0) = bool_decide (a = 0).
Proof. apply bool_decide_ext. lia. Qed.
#[export] Hint Rewrite sgn_gt sgn_lt sgn_zero : go.

#[export] Hint Rewrite big_Add_Some big_AbsDiff_Some big_Cmp_Some : go.

(** ** Bytes *)

Lemma byte_fuel_enough z : 0 ≤ z → z < 256 ^ Z.of_nat (byte_fuel z).
Proof.
  intros Hz. destruct (decide (z = 0)) as [->|Hnz]; [done|].
  pose proof (Z.log2_nonneg z) as Hl. pose proof (Z.log2_spec z ltac:(lia)) as [_ Hs].
  unfold byte_fuel. rewrite Nat2Z.inj_succ, Z2Nat.id by done.
  change 256 with (2 ^ 8). rewrite <- Z.pow_mul_r by lia.
  eapply Z.lt_le_trans; [exact Hs|]. apply Z.pow_le_mono_r; lia.
Qed.

(** Any sufficient fuel gives the same bytes. *)
Lemma be_bytes_fuel f1 f2 z :
  0 ≤ z → z < 256 ^ Z.of_nat f1 → z < 256 ^ Z.of_nat f2 → be_bytes f1 z = be_bytes f2 z.
Proof.
  revert f2 z. induction f1 as [|f1 IH]; intros f2 z Hz H1 H2.
  - assert (z = 0) as -> by (cbn in H1; lia). by destruct f2.
  - destruct f2 as [|f2]; [assert (z = 0) as -> by (cbn in H2; lia); done|].
    cbn [be_bytes]. case_bool_decide; [done|]. f_equal.
    rewrite Nat2Z.inj_succ, Z.pow_succ_r in H1, H2 by lia.
    apply IH; [by apply Z.div_pos|apply Z.div_lt_upper_bound; lia..].
Qed.

(** Appending a byte is multiplying by 256: there is no length prefix. *)
Lemma big_Bytes_snoc z b :
  0 ≤ z → 0 ≤ b < 256 → 0 < 256 * z + b → big_Bytes (256 * z + b) = big_Bytes z ++ [b].
Proof.
  intros Hz Hb Hp. unfold big_Bytes. rewrite !Z.abs_eq by lia.
  rewrite (be_bytes_fuel _ (S (byte_fuel z))); [|lia| |].
  - cbn [be_bytes]. rewrite bool_decide_eq_false_2 by lia.
    replace ((256 * z + b) / 256) with z by (apply (Z.div_unique _ _ _ b); lia).
    by replace ((256 * z + b) mod 256) with b by (apply (Z.mod_unique _ _ z); lia).
  - apply byte_fuel_enough. lia.
  - pose proof (byte_fuel_enough z Hz). rewrite Nat2Z.inj_succ, Z.pow_succ_r by lia. lia.
Qed.

(** ** Printing and parsing decimals *)

Lemma digit_val_pretty x : (x < 10)%N → digit_val (pretty_N_char x) = Some (Z.of_N x).
Proof.
  intros H. assert (∃ k : nat, x = N.of_nat k ∧ (k < 10)%nat) as (k & -> & Hk).
  { exists (N.to_nat x). lia. }
  do 10 (destruct k as [|k]; [done|]). lia.
Qed.

Lemma N_div10_lt x : (x ≠ 0 → x / 10 < x)%N.
Proof. intros H. apply N.div_lt; lia. Qed.

Lemma parse_pretty_go x s :
  ∃ k, 0 ≤ k ∧ ∀ a, parse_digits a (pretty_N_go x s) = parse_digits (a * 10 ^ k + Z.of_N x) s.
Proof.
  revert s. induction x as [x IH] using (well_founded_induction N.lt_wf_0). intros s.
  destruct (decide (x = 0)%N) as [->|Hx].
  { exists 0. split; [lia|]. intros a. rewrite pretty_N_go_0. f_equal. lia. }
  rewrite pretty_N_go_step by lia.
  destruct (IH (x / 10)%N (N_div10_lt x Hx)
              (String (pretty_N_char (x mod 10)) s)) as (k & Hk & Hp).
  exists (k + 1). split; [lia|]. intros a. rewrite Hp. cbn [parse_digits].
  rewrite digit_val_pretty by (apply N.mod_lt; lia). cbn. f_equal.
  pose proof (N.div_mod x 10 ltac:(lia)) as Hdm.
  assert (Z.of_N x = 10 * Z.of_N (x / 10) + Z.of_N (x mod 10)) as ->.
  { rewrite Hdm at 1. rewrite N2Z.inj_add, N2Z.inj_mul. done. }
  rewrite Z.pow_add_r by lia. ring.
Qed.

Lemma pretty_go_head x s c r :
  pretty_N_go x s = String c r → (x ≠ 0)%N → ∃ d, (d < 10)%N ∧ c = pretty_N_char d.
Proof.
  revert s. induction x as [x IH] using (well_founded_induction N.lt_wf_0). intros s E Hx.
  rewrite pretty_N_go_step in E by lia.
  destruct (decide (x / 10 = 0)%N) as [E0|E0].
  - rewrite E0, pretty_N_go_0 in E. injection E as <- _.
    exists (x mod 10)%N. split; [by apply N.mod_lt|done].
  - exact (IH _ (N_div10_lt x Hx) _ E E0).
Qed.

Lemma pretty_go_ne x s : (x ≠ 0)%N → pretty_N_go x s ≠ "".
Proof.
  revert s. induction x as [x IH] using (well_founded_induction N.lt_wf_0). intros s Hx.
  rewrite pretty_N_go_step by lia.
  destruct (decide (x / 10 = 0)%N) as [E0|E0].
  - rewrite E0, pretty_N_go_0. done.
  - exact (IH _ (N_div10_lt x Hx) _ E0).
Qed.

Lemma pretty_char_no_sign d : (d < 10)%N → pretty_N_char d ≠ "-"%char ∧ pretty_N_char d ≠ "+"%char.
Proof.
  intros H. assert (∃ k : nat, d = N.of_nat k ∧ (k < 10)%nat) as (k & -> & Hk).
  { exists (N.to_nat d). lia. }
  do 10 (destruct k as [|k]; [done|]). lia.
Qed.

(** A decimal printed for a positive number parses back, signed or not. *)
Lemma parse_pretty_pos (p : positive) :
  ∃ c r, (pretty (N.pos p) : string) = String c r ∧ c ≠ "-"%char ∧ c ≠ "+"%char ∧
    parse_digits 0 (String c r) = Some (Z.pos p).
Proof.
  change (pretty (N.pos p)) with (pretty_N_go (N.pos p) "").
  destruct (pretty_N_go (N.pos p) "") as [|c r] eqn:E; [by apply pretty_go_ne in E|].
  destruct (pretty_go_head _ _ _ _ E ltac:(done)) as (d & Hd & ->).
  exists (pretty_N_char d), r. destruct (pretty_char_no_sign d Hd). split_and!; try done.
  destruct (parse_pretty_go (N.pos p) "") as (k & _ & Hp).
  rewrite <- E, Hp. cbn. f_equal; lia.
Qed.

Lemma SetString10_pretty z : SetString10 (pretty z) = Some z.
Proof.
  destruct z as [|p|p]; [done|..];
    destruct (parse_pretty_pos p) as (c & r & E & Hm & Hpl & Hp);
    unfold pretty, pretty_Z; change (pretty p) with (pretty (N.pos p)).
  - rewrite E. unfold SetString10. rewrite !bool_decide_eq_false_2 by done. exact Hp.
  - rewrite E. change ("-" +:+ String c r) with (String "-" (String c r)).
    unfold SetString10. rewrite bool_decide_eq_true_2 by done. by rewrite Hp.
Qed.

(** Printing an integer with [String] and reading it back with
    [SetString(_, 10)] (through [MustSetString]) is the identity. *)
Theorem MustSetString_String z : MustSetString (big_String (Some z)) = Ret (Some z).
Proof. unfold MustSetString, big_String. by rewrite SetString10_pretty. Qed.
