(* ===== verification/StateTypes.v ===== *)
(** * The data of [pkg/state/aggregator.go] and the store its pointers live in

    [*PoolState] and [*GlobalPoolState] values are shared: callers keep the
    pointers they pass to [UpdatePoolState] and the ones [GetGlobalPoolState]
    returns.  Both kinds of object therefore live in a store, and maps hold
    locations.  The store also carries [Aggregator.poolStates]. *)

From S2P Require Import Prelude BigInt.

Definition loc : Type := positive.

Record PoolState := mkPoolState {
  ps_ChainID : Z;
  ps_TotalLiquidity : bigint;
  ps_Price : bigint;
  ps_Volume24h : bigint;
  ps_Fees24h : bigint;
  ps_Timestamp : Z;
  ps_BlockNumber : Z;
  ps_LastUpdated : time;
}.

Record GlobalPoolState := mkGlobalPoolState {
  gs_PoolID : string;
  gs_TotalLiquidity : bigint;
  gs_AveragePrice : bigint;
  gs_ImbalanceScore : bigint;
  gs_LastUpdateBlock : Z;
  gs_ChainStates : gmap Z loc;
  gs_LastUpdated : time;
}.

Record AggregatedMetrics := mkAggregatedMetrics {
  am_TotalLiquidity : bigint;
  am_AveragePrice : bigint;
  am_PriceVariance : bigint;
  am_LiquidityImbalance : bigint;
  am_Volume24h : bigint;
  am_Fees24h : bigint;
  am_ActiveChains : Z;
}.

(** The heap and the aggregator's own map. *)
Record St := mkSt {
  st_pools : gmap loc PoolState;
  st_globals : gmap loc GlobalPoolState;
  st_next : loc;
  st_poolStates : gmap string loc;
}.

(** ** Field updates *)

Definition ps_set_LastUpdated (t : time) (p : PoolState) : PoolState :=
  mkPoolState (ps_ChainID p) (ps_TotalLiquidity p) (ps_Price p) (ps_Volume24h p)
    (ps_Fees24h p) (ps_Timestamp p) (ps_BlockNumber p) t.

Definition gs_set_TotalLiquidity (v : bigint) (g : GlobalPoolState) : GlobalPoolState :=
  mkGlobalPoolState (gs_PoolID g) v (gs_AveragePrice g) (gs_ImbalanceScore g)
    (gs_LastUpdateBlock g) (gs_ChainStates g) (gs_LastUpdated g).
Definition gs_set_AveragePrice (v : bigint) (g : GlobalPoolState) : GlobalPoolState :=
  mkGlobalPoolState (gs_PoolID g) (gs_TotalLiquidity g) v (gs_ImbalanceScore g)
    (gs_LastUpdateBlock g) (gs_ChainStates g) (gs_LastUpdated g).
Definition gs_set_ImbalanceScore (v : bigint) (g : GlobalPoolState) : GlobalPoolState :=
  mkGlobalPoolState (gs_PoolID g) (gs_TotalLiquidity g) (gs_AveragePrice g) v
    (gs_LastUpdateBlock g) (gs_ChainStates g) (gs_LastUpdated g).
Definition gs_set_LastUpdateBlock (v : Z) (g : GlobalPoolState) : GlobalPoolState :=
  mkGlobalPoolState (gs_PoolID g) (gs_TotalLiquidity g) (gs_AveragePrice g)
    (gs_ImbalanceScore g) v (gs_ChainStates g) (gs_LastUpdated g).
Definition gs_set_ChainStates (v : gmap Z loc) (g : GlobalPoolState) : GlobalPoolState :=
  mkGlobalPoolState (gs_PoolID g) (gs_TotalLiquidity g) (gs_AveragePrice g)
    (gs_ImbalanceScore g) (gs_LastUpdateBlock g) v (gs_LastUpdated g).
Definition gs_set_LastUpdated (v : time) (g : GlobalPoolState) : GlobalPoolState :=
  mkGlobalPoolState (gs_PoolID g) (gs_TotalLiquidity g) (gs_AveragePrice g)
    (gs_ImbalanceScore g) (gs_LastUpdateBlock g) (gs_ChainStates g) v.

Definition st_set_pools (f : gmap loc PoolState → gmap loc PoolState) (σ : St) : St :=
  mkSt (f (st_pools σ)) (st_globals σ) (st_next σ) (st_poolStates σ).
Definition st_set_globals (f : gmap loc GlobalPoolState → gmap loc GlobalPoolState) (σ : St) : St :=
  mkSt (st_pools σ) (f (st_globals σ)) (st_next σ) (st_poolStates σ).
Definition st_set_poolStates (f : gmap string loc → gmap string loc) (σ : St) : St :=
  mkSt (st_pools σ) (st_globals σ) (st_next σ) (f (st_poolStates σ)).

(** ** Loads, stores and allocation; a dangling location behaves as nil *)

Definition load_pool (l : loc) : M St PoolState := λ σ,
  match st_pools σ !! l with
  | Some p => (σ, Ret p)
  | None => (σ, Panic NilDeref)
  end.

Definition load_global (l : loc) : M St GlobalPoolState := λ σ,
  match st_globals σ !! l with
  | Some g => (σ, Ret g)
  | None => (σ, Panic NilDeref)
  end.

Definition modify_pool (l : loc) (f : PoolState → PoolState) : M St unit :=
  p ← load_pool l; modify (st_set_pools (<[l := f p]>)).

Definition modify_global (l : loc) (f : GlobalPoolState → GlobalPoolState) : M St unit :=
  g ← load_global l; modify (st_set_globals (<[l := f g]>)).

Definition new_global (g : GlobalPoolState) : M St loc := λ σ,
  (mkSt (st_pools σ) (<[st_next σ := g]> (st_globals σ)) (Pos.succ (st_next σ)) (st_poolStates σ),
   Ret (st_next σ)).

Definition new_pool (p : PoolState) : M St loc := λ σ,
  (mkSt (<[st_next σ := p]> (st_pools σ)) (st_globals σ) (Pos.succ (st_next σ)) (st_poolStates σ),
   Ret (st_next σ)).

(** [for _, state := range chainStates { acc = f(acc, state) }] *)
Definition range_pools `{RangeOrder} {A} (i : nat) (cs : gmap Z loc)
    (f : A → PoolState → res A) (acc : A) : M St A :=
  foldM (λ acc kl, p ← load_pool kl.2; lift (f acc p)) acc (range_list i cs).

(** ** Well-formed objects *)

(** Every integer field a caller fills is set: no nil [*big.Int]. *)
Definition wf_pool (p : PoolState) : Prop :=
  is_Some (ps_TotalLiquidity p) ∧ is_Some (ps_Price p) ∧
  is_Some (ps_Volume24h p) ∧ is_Some (ps_Fees24h p).

Definition liq (p : PoolState) : Z := default 0 (ps_TotalLiquidity p).
Definition price (p : PoolState) : Z := default 0 (ps_Price p).
Definition vol (p : PoolState) : Z := default 0 (ps_Volume24h p).
Definition fees (p : PoolState) : Z := default 0 (ps_Fees24h p).

(** The chain states a map points to are allocated and well-formed. *)
Definition wf_chains (σ : St) (cs : gmap Z loc) : Prop :=
  map_Forall (λ _ l, ∃ p, st_pools σ !! l = Some p ∧ wf_pool p) cs.

Definition pools_in (σ : St) (o : list (Z * loc)) : list PoolState :=
  omap (λ kl, st_pools σ !! kl.2) o.

(** The pool states of a map, one per chain. *)
Definition pools_of (σ : St) (cs : gmap Z loc) : list PoolState := pools_in σ (map_to_list cs).

Lemma wf_pool_fields p :
  wf_pool p →
  ps_TotalLiquidity p = Some (liq p) ∧ ps_Price p = Some (price p) ∧
  ps_Volume24h p = Some (vol p) ∧ ps_Fees24h p = Some (fees p).
Proof.
  intros ([a Ha] & [b Hb] & [c Hc] & [d Hd]). unfold liq, price, vol, fees.
  by rewrite Ha, Hb, Hc, Hd.
Qed.

#[export] Instance pools_in_perm σ : Proper ((≡ₚ) ==> (≡ₚ)) (pools_in σ).
Proof.
  intros l1 l2 H. unfold pools_in. induction H; cbn; [done|..].
  - by case_match; [constructor|].
  - repeat case_match; try done. constructor.
  - by etrans.
Qed.

Lemma pools_in_cons σ kl o p :
  st_pools σ !! kl.2 = Some p → pools_in σ (kl :: o) = p :: pools_in σ o.
Proof. intros Hp. unfold pools_in. cbn. by rewrite Hp. Qed.

Section store_lemmas.
Context `{RangeOrder} (σ : St) (cs : gmap Z loc) (Hwf : wf_chains σ cs).

Lemma range_elem i kl : kl ∈ range_list i cs → ∃ p, st_pools σ !! kl.2 = Some p ∧ wf_pool p.
Proof using Hwf.
  rewrite range_perm. destruct kl as [k l]. intros Hin%elem_of_map_to_list. exact (Hwf k l Hin).
Qed.

Lemma pools_in_length o :
  (∀ kl, kl ∈ o → ∃ p, st_pools σ !! kl.2 = Some p ∧ wf_pool p) →
  length (pools_in σ o) = length o ∧ Forall wf_pool (pools_in σ o).
Proof.
  clear Hwf. induction o as [|kl o IH]; intros Ho; [done|].
  destruct (Ho kl ltac:(by left)) as (p & Hp & Hwp). rewrite (pools_in_cons _ _ _ _ Hp).
  destruct IH as [IH1 IH2]; [intros kl' Hkl'; apply Ho; by right|].
  cbn [length]. split; [by rewrite IH1|by constructor].
Qed.

Lemma pools_of_length : length (pools_of σ cs) = size cs.
Proof using Hwf.
  unfold pools_of. rewrite (proj1 (pools_in_length _ ltac:(
    intros [k l] Hin%elem_of_map_to_list; exact (Hwf k l Hin)))).
  apply length_map_to_list.
Qed.

Lemma pools_of_wf : Forall wf_pool (pools_of σ cs).
Proof using Hwf.
  apply pools_in_length. intros [k l] Hin%elem_of_map_to_list. exact (Hwf k l Hin).
Qed.

Lemma pools_in_range i : pools_in σ (range_list i cs) ≡ₚ pools_of σ cs.
Proof. unfold pools_of. by rewrite range_perm. Qed.

(** A [range] loop whose body maps representations to representations. *)
Lemma range_pools_rep {A X} (rep : X → A) (g : X → PoolState → X) i (f : A → PoolState → res A) x :
  (∀ y p, wf_pool p → f (rep y) p = Ret (rep (g y p))) →
  range_pools i cs f (rep x) σ = (σ, Ret (rep (foldl g x (pools_in σ (range_list i cs))))).
Proof using Hwf.
  intros Hf. unfold range_pools.
  pose proof (range_elem i) as Hel. revert x Hel.
  induction (range_list i cs) as [|kl o IH]; intros x Hel; [done|].
  destruct (Hel kl ltac:(by left)) as (p & Hp & Hwp).
  rewrite (pools_in_cons _ _ _ _ Hp). cbn [foldM foldl].
  rewrite (M_bind_ret _ _ σ σ (rep (g x p))).
  - apply IH. intros kl' Hkl'; apply Hel; by right.
  - unfold load_pool. rewrite (M_bind_ret _ _ σ σ p) by (by rewrite Hp).
    unfold lift. by rewrite Hf.
Qed.

(** The common case: a loop that adds up a field. *)
Lemma range_pools_sum i (f : bigint → PoolState → res bigint) (h : PoolState → Z) z :
  (∀ y p, wf_pool p → f (Some y) p = Ret (Some (y + h p))) →
  range_pools i cs f (Some z) σ = (σ, Ret (Some (z + Zsum h (pools_of σ cs)))).
Proof using Hwf.
  intros Hf. rewrite (range_pools_rep Some (λ y p, y + h p)) by done.
  by rewrite foldl_Zsum, pools_in_range.
Qed.
End store_lemmas.

(** ** Writing one global state *)

Definition upd_global (g : loc) (gs : GlobalPoolState) (σ : St) : St :=
  st_set_globals (<[g := gs]>) σ.

Lemma load_global_eq σ g gs : st_globals σ !! g = Some gs → load_global g σ = (σ, Ret gs).
Proof. unfold load_global. by intros ->. Qed.

Lemma load_pool_eq σ l p : st_pools σ !! l = Some p → load_pool l σ = (σ, Ret p).
Proof. unfold load_pool. by intros ->. Qed.

Lemma modify_global_eq σ g gs f :
  st_globals σ !! g = Some gs → modify_global g f σ = (upd_global g (f gs) σ, Ret tt).
Proof. intros E. unfold modify_global. by rewrite (M_bind_ret _ _ σ σ gs) by by apply load_global_eq. Qed.

Lemma modify_pool_eq σ l p f :
  st_pools σ !! l = Some p → modify_pool l f σ = (st_set_pools (<[l := f p]>) σ, Ret tt).
Proof. intros E. unfold modify_pool. by rewrite (M_bind_ret _ _ σ σ p) by by apply load_pool_eq. Qed.

Lemma upd_global_lookup g gs σ : st_globals (upd_global g gs σ) !! g = Some gs.
Proof. apply lookup_insert_eq. Qed.

Lemma upd_global_twice g a b σ : upd_global g b (upd_global g a σ) = upd_global g b σ.
Proof. unfold upd_global, st_set_globals. cbn. by rewrite insert_insert_eq. Qed.

Lemma upd_global_id g gs σ : st_globals σ !! g = Some gs → upd_global g gs σ = σ.
Proof. intros E. destruct σ. unfold upd_global, st_set_globals. cbn in *. by rewrite insert_id. Qed.

Lemma pools_of_upd g gs σ cs : pools_of (upd_global g gs σ) cs = pools_of σ cs.
Proof. done. Qed.

#[export] Hint Resolve load_global_eq load_pool_eq modify_global_eq modify_pool_eq
  upd_global_lookup : go.
#[export] Hint Rewrite upd_global_twice pools_of_upd : go.

(** A loop whose first iteration panics, whatever the first element is. *)
Lemma range_pools_panic `{RangeOrder} σ cs {A} i (f : A → PoolState → res A) a e :
  wf_chains σ cs → cs ≠ ∅ → (∀ p, wf_pool p → f a p = Panic e) →
  range_pools i cs f a σ = (σ, Panic e).
Proof.
  intros Hwf Hne Hf. unfold range_pools.
  destruct (range_list i cs) as [|kl o] eqn:E.
  - exfalso. pose proof (range_perm i cs) as Hp. rewrite E in Hp.
    apply Permutation_nil in Hp. by apply map_to_list_empty_iff in Hp.
  - destruct (range_elem σ cs Hwf i kl) as (p & Hp & Hw); [rewrite E; by left|].
    cbn [foldM]. apply M_bind_panic.
    rewrite (M_bind_ret _ _ σ σ p) by (by apply load_pool_eq). unfold lift. by rewrite Hf.
Qed.

(** Writing a list of entries into a map. *)
Lemma foldl_insert {K V} `{Countable K} (l : list (K * V)) (acc : gmap K V) :
  NoDup l.*1 → foldl (λ r kv, <[kv.1 := kv.2]> r) acc l = list_to_map l ∪ acc.
Proof.
  revert acc. induction l as [|[k v] l IH]; intros acc Hnd; cbn; [by rewrite map_empty_union|].
  apply NoDup_cons in Hnd as [Hk Hnd]. rewrite IH by done.
  rewrite <- insert_union_l. rewrite insert_union_r; [done|].
  by apply not_elem_of_list_to_map_1.
Qed.

(** Rebuilding a map from its own range, in any order. *)
Lemma foldl_insert_range `{RangeOrder} {K V} `{Countable K} i (m : gmap K V) :
  foldl (λ r kv, <[kv.1 := kv.2]> r) ∅ (range_list i m) = m.
Proof.
  rewrite foldl_insert, map_union_empty by (rewrite range_perm; apply NoDup_fst_map_to_list).
  rewrite (list_to_map_proper (range_list i m) (map_to_list m)).
  - apply list_to_map_to_list.
  - rewrite range_perm. apply NoDup_fst_map_to_list.
  - apply range_perm.
Qed.

(** Overwriting every entry of a map while ranging over it. *)
Lemma foldl_overwrite_range `{RangeOrder} {K V} `{Countable K} i (f : V → V) (m : gmap K V) :
  foldl (λ r kv, <[kv.1 := f kv.2]> r) m (range_list i m) = f <$> m.
Proof.
  assert (∀ l acc, foldl (λ r (kv : K * V), <[kv.1 := f kv.2]> r) acc l =
    foldl (λ r kv, <[kv.1 := kv.2]> r) acc (prod_map id f <$> l)) as ->.
  { induction l as [|kv l IH]; intros acc; [done|]. cbn. by rewrite IH. }
  assert (NoDup (prod_map id f <$> range_list i m).*1) as Hnd.
  { rewrite <- list_fmap_compose. rewrite (list_fmap_ext _ fst) by done.
    rewrite range_perm. apply NoDup_fst_map_to_list. }
  rewrite foldl_insert by done.
  assert (list_to_map (prod_map id f <$> range_list i m) = f <$> m) as ->.
  { rewrite (list_to_map_proper _ (prod_map id f <$> map_to_list m)) by (done || by rewrite range_perm).
    by rewrite list_to_map_fmap, list_to_map_to_list. }
  apply map_eq. intros k. rewrite lookup_union, lookup_fmap. by destruct (m !! k).
Qed.
