(* ===== verification/Aggregator.v ===== *)
(** * [pkg/state/aggregator.go]: the pool-state aggregator

    Every exported method takes [a.mutex], so each is one atomic step on the
    store.  [now], [now1], [now2] are the readings of [time.Now()]; [range]
    statements are numbered in source order. *)

From S2P Require Import Prelude BigInt StateTypes.

(** ** Integer square root *)

(** The binary search of [sqrt]; [None] means the fuel ran out. *)
Fixpoint sqrt_loop (fuel : nat) (n left right result : Z) : option Z :=
  match fuel with
  | O => None
  | S fuel =>
      if bool_decide (left ≤ right) then
        let mid := (left + right) / 2 in
        let midSquared := mid * mid in
        if bool_decide (midSquared ≤ n)
        then sqrt_loop fuel n (mid + 1) right mid
        else sqrt_loop fuel n left (mid - 1) result
      else Some result
  end.

(** Enough iterations for an interval of [n + 1] candidates. *)
Definition sqrt_fuel (n : Z) : nat := S (S (Z.to_nat (Z.log2 (n + 1)))).

Definition sqrt (n : bigint) : res bigint :=
  c ← big_Cmp n (NewInt 0);
  if bool_decide (c ≤ 0) then Ret (NewInt 0)
  else match n with
       | None => Panic NilDeref
       | Some v =>
           match sqrt_loop (sqrt_fuel v) v 0 v 0 with
           | Some r => Ret (Some r)
           | None => Panic (PanicMsg "sqrt: out of fuel")
           end
       end.

(** ** Construction and the metrics kept in a [GlobalPoolState] *)

Definition NewAggregator : St := mkSt ∅ ∅ 1%positive ∅.

Section aggregator.
Context `{RangeOrder}.

Definition calculateWeightedAveragePrice (chainStates : gmap Z loc) (globalState : loc) : M St unit :=
  if bool_decide (size chainStates = 0%nat) then throw "no chain states available" else
  sums ← range_pools 1 chainStates
    (λ '(totalWeight, weightedPriceSum) state,
      let weight := ps_TotalLiquidity state in
      totalWeight ← big_Add totalWeight weight;
      weightedPrice ← big_Mul (ps_Price state) weight;
      weightedPriceSum ← big_Add weightedPriceSum weightedPrice;
      mret (totalWeight, weightedPriceSum))
    (NewInt 0, NewInt 0);
  c ← lift (big_Cmp sums.1 (NewInt 0));
  if bool_decide (c = 0) then throw "total weight is zero" else
  avg ← lift (big_Div sums.2 sums.1);
  modify_global globalState (gs_set_AveragePrice avg).

(** [variance / len]: shared text of the two variance computations. *)
Definition sum_squared_diffs (mean : bigint) (variance price : bigint) : res bigint :=
  diff ← big_Sub price mean;
  diffSquared ← big_Mul diff diff;
  big_Add variance diffSquared.

Definition calculateImbalanceScore (chainStates : gmap Z loc) (globalState : loc) : M St unit :=
  if bool_decide (size chainStates < 2)%nat then
    modify_global globalState (gs_set_ImbalanceScore (NewInt 0))
  else
    prices ← range_pools 2 chainStates (λ prices state, mret (prices ++ [ps_Price state])) [];
    gs ← load_global globalState;
    let mean := gs_AveragePrice gs in
    variance ← lift (foldM (sum_squared_diffs mean) (NewInt 0) prices);
    variance ← lift (big_Div variance (NewInt (Z.of_nat (length prices))));
    score ← lift (sqrt variance);
    modify_global globalState (gs_set_ImbalanceScore score).

Definition recalculateGlobalMetrics (globalState : loc) : M St unit :=
  gs ← load_global globalState;
  let chainStates := gs_ChainStates gs in
  if bool_decide (size chainStates = 0%nat) then throw "no chain states available" else
  totalLiquidity ← range_pools 0 chainStates
    (λ totalLiquidity state, big_Add totalLiquidity (ps_TotalLiquidity state)) (NewInt 0);
  modify_global globalState (gs_set_TotalLiquidity totalLiquidity);;
  wrap "failed to calculate weighted average price: "
    (calculateWeightedAveragePrice chainStates globalState);;
  wrap "failed to calculate imbalance score: "
    (calculateImbalanceScore chainStates globalState);;
  latestBlock ← range_pools 3 chainStates
    (λ latestBlock state,
      mret (if bool_decide (latestBlock < ps_BlockNumber state) then ps_BlockNumber state
            else latestBlock)) 0;
  modify_global globalState (gs_set_LastUpdateBlock latestBlock).

Definition UpdatePoolState (now1 now2 : time) (poolID : string) (chainID : Z) (state : loc)
    : M St unit :=
  load_pool state;;
  σ ← get;
  globalState ←
    match st_poolStates σ !! poolID with
    | Some globalState => mret globalState
    | None =>
        globalState ← new_global (mkGlobalPoolState poolID None None None 0 ∅ zero_time);
        modify (st_set_poolStates (<[poolID := globalState]>));;
        mret globalState
    end;
  modify_pool state (ps_set_LastUpdated now1);;
  modify_global globalState (λ gs, gs_set_ChainStates (<[chainID := state]> (gs_ChainStates gs)) gs);;
  modify_global globalState (gs_set_LastUpdated now2);;
  wrap "failed to recalculate global metrics: " (recalculateGlobalMetrics globalState).

(** ** Queries *)

Definition GetGlobalPoolState (poolID : string) : M St loc :=
  σ ← get;
  match st_poolStates σ !! poolID with
  | Some globalState => mret globalState
  | None => throw ("pool state not found: " +:+ poolID)
  end.

(** A fresh map with the same pointers. *)
Definition GetAllPoolStates : M St (gmap string loc) :=
  σ ← get;
  mret (foldl (λ result kv, <[kv.1 := kv.2]> result) ∅ (range_list 0 (st_poolStates σ))).

Definition calculatePriceVariance (globalState : GlobalPoolState) (metrics : AggregatedMetrics)
    : M St AggregatedMetrics :=
  let set v := mkAggregatedMetrics (am_TotalLiquidity metrics) (am_AveragePrice metrics) v
    (am_LiquidityImbalance metrics) (am_Volume24h metrics) (am_Fees24h metrics)
    (am_ActiveChains metrics) in
  let chainStates := gs_ChainStates globalState in
  if bool_decide (size chainStates < 2)%nat then mret (set (NewInt 0)) else
  variance ← range_pools 0 chainStates
    (λ variance state, sum_squared_diffs (gs_AveragePrice globalState) variance (ps_Price state))
    (NewInt 0);
  variance ← lift (big_Div variance (NewInt (Z.of_nat (size chainStates))));
  mret (set variance).

Definition calculateLiquidityImbalance (globalState : GlobalPoolState) (metrics : AggregatedMetrics)
    : M St AggregatedMetrics :=
  let set v := mkAggregatedMetrics (am_TotalLiquidity metrics) (am_AveragePrice metrics)
    (am_PriceVariance metrics) v (am_Volume24h metrics) (am_Fees24h metrics)
    (am_ActiveChains metrics) in
  let chainStates := gs_ChainStates globalState in
  if bool_decide (size chainStates < 2)%nat then mret (set (NewInt 0)) else
  expectedLiquidityPerChain ←
    lift (big_Div (gs_TotalLiquidity globalState) (NewInt (Z.of_nat (size chainStates))));
  totalDeviation ← range_pools 1 chainStates
    (λ totalDeviation state,
      deviation ← big_AbsDiff (ps_TotalLiquidity state) expectedLiquidityPerChain;
      big_Add totalDeviation deviation) (NewInt 0);
  imbalance ← lift (big_Mul totalDeviation (NewInt 100));
  imbalance ← lift (big_Div imbalance (gs_TotalLiquidity globalState));
  mret (set imbalance).

Definition calculate24hMetrics (globalState : GlobalPoolState) (metrics : AggregatedMetrics)
    : M St AggregatedMetrics :=
  totals ← range_pools 2 (gs_ChainStates globalState)
    (λ '(totalVolume24h, totalFees24h) state,
      totalVolume24h ← big_Add totalVolume24h (ps_Volume24h state);
      totalFees24h ← big_Add totalFees24h (ps_Fees24h state);
      mret (totalVolume24h, totalFees24h)) (NewInt 0, NewInt 0);
  mret (mkAggregatedMetrics (am_TotalLiquidity metrics) (am_AveragePrice metrics)
    (am_PriceVariance metrics) (am_LiquidityImbalance metrics) totals.1 totals.2
    (am_ActiveChains metrics)).

Definition CalculateAggregatedMetrics (poolID : string) : M St AggregatedMetrics :=
  σ ← get;
  match st_poolStates σ !! poolID with
  | None => throw ("pool state not found: " +:+ poolID)
  | Some g =>
      globalState ← load_global g;
      let metrics := mkAggregatedMetrics (gs_TotalLiquidity globalState)
        (gs_AveragePrice globalState) None None None None
        (u32 (Z.of_nat (size (gs_ChainStates globalState)))) in
      metrics ← wrap "failed to calculate price variance: "
        (calculatePriceVariance globalState metrics);
      metrics ← wrap "failed to calculate liquidity imbalance: "
        (calculateLiquidityImbalance globalState metrics);
      wrap "failed to calculate 24h metrics: " (calculate24hMetrics globalState metrics)
  end.
End aggregator.

(** ** What the metrics should be, as arithmetic on the list of chain states *)

Definition total_liq (ss : list PoolState) : Z := Zsum liq ss.
Definition weighted_sum (ss : list PoolState) : Z := Zsum (λ p, price p * liq p) ss.
Definition spec_average (ss : list PoolState) : Z := euclid_div (weighted_sum ss) (total_liq ss).
Definition sq_dev (mean : Z) (ss : list PoolState) : Z :=
  Zsum (λ p, (price p - mean) * (price p - mean)) ss.
Definition spec_variance (mean : Z) (ss : list PoolState) : Z :=
  if bool_decide (length ss < 2)%nat then 0
  else sq_dev mean ss / Z.of_nat (length ss).
Definition spec_score (ss : list PoolState) : Z := Z.sqrt (spec_variance (spec_average ss) ss).
Definition spec_latest (ss : list PoolState) : Z := Zmax_list ps_BlockNumber ss.
Definition spec_deviation (total : Z) (ss : list PoolState) : Z :=
  Zsum (λ p, Z.abs (liq p - total / Z.of_nat (length ss))) ss.
Definition spec_imbalance (total : Z) (ss : list PoolState) : Z :=
  if bool_decide (length ss < 2)%nat then 0
  else euclid_div (spec_deviation total ss * 100) total.

(** The metrics of a pool whose liquidity does not add up to zero. *)
Definition with_metrics (ss : list PoolState) (gs : GlobalPoolState) : GlobalPoolState :=
  gs_set_LastUpdateBlock (spec_latest ss)
    (gs_set_ImbalanceScore (Some (spec_score ss))
      (gs_set_AveragePrice (Some (spec_average ss))
        (gs_set_TotalLiquidity (Some (total_liq ss)) gs))).

#[export] Instance spec_average_perm : Proper ((≡ₚ) ==> (=)) spec_average.
Proof. intros l1 l2 E. unfold spec_average, weighted_sum, total_liq. by rewrite E. Qed.

(** ** [sqrt] is the integer square root *)

Lemma sqrt_loop_correct fuel n left right result :
  0 ≤ left ≤ right + 1 → right - left + 1 < 2 ^ Z.of_nat fuel →
  result = Z.max 0 (left - 1) → result * result ≤ n → n < (right + 1) * (right + 1) →
  sqrt_loop (S fuel) n left right result = Some (Z.sqrt n).
Proof.
  revert left right result. induction fuel as [|fuel IH]; intros left right result Hlr Hsz Hres Hlo Hhi.
  - cbn [sqrt_loop]. rewrite bool_decide_eq_false_2 by (cbn in Hsz; lia).
    f_equal. symmetry. apply Z.sqrt_unique. nia.
  - rewrite Nat2Z.inj_succ, Z.pow_succ_r in Hsz by lia.
    remember (S fuel) as fuel' eqn:Ef. cbn [sqrt_loop]. subst fuel'.
    case_bool_decide as Hle; cycle 1.
    { f_equal. symmetry. apply Z.sqrt_unique. nia. }
    pose proof (Z.div_mod (left + right) 2 ltac:(lia)) as Hmid.
    pose proof (Z.mod_pos_bound (left + right) 2 ltac:(lia)) as Hmod.
    set (mid := (left + right) / 2) in *.
    case_bool_decide as Hsq; apply IH; try lia; nia.
Qed.

Lemma sqrt_floor n : sqrt (Some n) = Ret (Some (Z.sqrt n)).
Proof.
  unfold sqrt. rewrite big_Cmp_zero. cbn -[sqrt_loop sqrt_fuel]. case_bool_decide as Hn.
  - assert (n = 0 ∨ n < 0) as [->|Hneg] by lia; [done|]. by rewrite Z.sqrt_neg.
  - unfold sqrt_fuel. rewrite sqrt_loop_correct; [done|lia| |lia..|nia].
    pose proof (Z.log2_spec (n + 1) ltac:(lia)) as [_ Hlog].
    rewrite Nat2Z.inj_succ, Z2Nat.id by apply Z.log2_nonneg. lia.
Qed.

(** ** Each helper computes its specification *)

Section helpers.
Context `{RangeOrder} (σ : St) (cs : gmap Z loc) (Hwf : wf_chains σ cs).
Let ss : list PoolState := pools_of σ cs.

Lemma sum_squared_diffs_Some m v p :
  sum_squared_diffs (Some m) (Some v) (Some p) = Ret (Some (v + (p - m) * (p - m))).
Proof using. done. Qed.

Lemma foldM_squared_diffs m prices :
  foldM (sum_squared_diffs (Some m)) (NewInt 0) (Some <$> prices) =
    Ret (Some (Zsum (λ p, (p - m) * (p - m)) prices)).
Proof using.
  unfold NewInt. rewrite (foldM_rep_res Some (λ y p, y + default 0 ((λ q, (q - m) * (q - m)) <$> p))).
  - rewrite foldl_Zsum, Zsum_map. done.
  - intros y p Hp. apply list_elem_of_fmap in Hp as (q & -> & _). done.
Qed.

Lemma weighted_average_eq g gs :
  st_globals σ !! g = Some gs → cs ≠ ∅ →
  calculateWeightedAveragePrice cs g σ =
    if bool_decide (total_liq ss = 0) then (σ, Err "total weight is zero")
    else (upd_global g (gs_set_AveragePrice (Some (spec_average ss)) gs) σ, Ret tt).
Proof using Hwf.
  intros Hg Hne. unfold calculateWeightedAveragePrice.
  rewrite bool_decide_eq_false_2 by by apply map_size_non_empty_iff.
  set (rep := λ q : Z * Z, (Some q.1 : bigint, Some q.2 : bigint)).
  set (step := λ (q : Z * Z) p, (q.1 + liq p, q.2 + price p * liq p)).
  erewrite M_bind_ret; [|apply (range_pools_rep _ _ Hwf rep step _ _ (0, 0))]; cycle 1.
  { intros q p (E1 & E2 & _)%wf_pool_fields. cbn. by rewrite E1, E2. }
  assert (∀ q l, foldl step q l = (q.1 + Zsum liq l, q.2 + Zsum (λ p, price p * liq p) l)) as ->.
  { intros q l. revert q. induction l as [|p l IH]; intros q; cbn [foldl].
    - destruct q; cbn. f_equal; lia.
    - rewrite IH, !Zsum_cons. unfold step. cbn. f_equal; lia. }
  assert (∀ f, Zsum f (pools_in σ (range_list 1 cs)) = Zsum f ss) as Hperm
    by (intros f; by rewrite pools_in_range).
  rewrite !Hperm. unfold rep. cbn [fst snd]. rewrite !Z.add_0_l.
  erewrite M_bind_ret by (unfold lift; by rewrite big_Cmp_zero).
  fold (total_liq ss) (weighted_sum ss).
  case_bool_decide as Hz; [rewrite bool_decide_eq_true_2 by lia; done|].
  rewrite bool_decide_eq_false_2 by lia.
  erewrite M_bind_ret by (unfold lift; by rewrite big_Div_Some by lia).
  by erewrite modify_global_eq.
Qed.

Lemma range_prices i :
  range_pools i cs (λ prices state, Ret (prices ++ [ps_Price state])) [] σ =
    (σ, Ret (Some <$> (price <$> pools_in σ (range_list i cs)))).
Proof using Hwf.
  pose proof (range_pools_rep _ _ Hwf (λ l : list Z, Some <$> l) (λ l p, l ++ [price p]) i
    (λ prices state, Ret (prices ++ [ps_Price state])) []) as E.
  cbn [fmap list_fmap] in E. rewrite E; clear E.
  - by rewrite foldl_append.
  - intros l p (_ & E & _)%wf_pool_fields. by rewrite E, fmap_app.
Qed.

Lemma variance_of_prices m i :
  Zsum (λ p, (p - m) * (p - m)) (price <$> pools_in σ (range_list i cs)) = sq_dev m ss.
Proof using. by rewrite Zsum_map, pools_in_range. Qed.

Lemma imbalance_score_eq g gs :
  st_globals σ !! g = Some gs → gs_AveragePrice gs = Some (spec_average ss) →
  calculateImbalanceScore cs g σ =
    (upd_global g (gs_set_ImbalanceScore (Some (spec_score ss)) gs) σ, Ret tt).
Proof using Hwf.
  intros Hg Havg. unfold calculateImbalanceScore, spec_score, spec_variance.
  unfold ss. rewrite (pools_of_length _ _ Hwf). case_bool_decide as Hsz.
  { by erewrite modify_global_eq. }
  erewrite M_bind_ret by apply range_prices.
  erewrite M_bind_ret by by apply load_global_eq.
  erewrite M_bind_ret by (unfold lift; by rewrite Havg, foldM_squared_diffs).
  rewrite variance_of_prices, !length_fmap, pools_in_range, (pools_of_length _ _ Hwf).
  erewrite M_bind_ret by (unfold lift, NewInt; by rewrite big_Div_Some by lia).
  rewrite euclid_div_pos by lia.
  erewrite M_bind_ret by (unfold lift; by rewrite sqrt_floor).
  by erewrite modify_global_eq.
Qed.

Lemma latest_block_eq i :
  range_pools i cs (λ latestBlock state,
      Ret (if bool_decide (latestBlock < ps_BlockNumber state) then ps_BlockNumber state
           else latestBlock)) 0 σ = (σ, Ret (spec_latest ss)).
Proof using Hwf.
  rewrite (range_pools_rep _ _ Hwf id (λ b p, if bool_decide (b < ps_BlockNumber p)
    then ps_BlockNumber p else b) i _ 0) by done.
  rewrite foldl_Zmax, pools_in_range by lia. unfold spec_latest, id.
  fold ss. pose proof (Zmax_list_nonneg ps_BlockNumber ss). by rewrite Z.max_r.
Qed.
End helpers.

Lemma recalculate_eq `{RangeOrder} σ g gs :
  let ss := pools_of σ (gs_ChainStates gs) in
  st_globals σ !! g = Some gs → gs_ChainStates gs ≠ ∅ → wf_chains σ (gs_ChainStates gs) →
  recalculateGlobalMetrics g σ =
    if bool_decide (total_liq ss = 0)
    then (upd_global g (gs_set_TotalLiquidity (Some 0) gs) σ,
          Err "failed to calculate weighted average price: total weight is zero")
    else (upd_global g (with_metrics ss gs) σ, Ret tt).
Proof.
  intros ss Hg Hne Hwf. unfold recalculateGlobalMetrics.
  erewrite M_bind_ret by by apply load_global_eq.
  rewrite bool_decide_eq_false_2 by by apply map_size_non_empty_iff.
  erewrite M_bind_ret; [|apply (range_pools_sum _ _ Hwf 0 _ liq); by intros y p (-> & _)%wf_pool_fields].
  fold ss (total_liq ss). rewrite Z.add_0_l.
  erewrite M_bind_ret by by apply modify_global_eq.
  pose proof (weighted_average_eq (upd_global g (gs_set_TotalLiquidity (Some (total_liq ss)) gs) σ)
    _ Hwf g _ (upd_global_lookup _ _ _) Hne) as Eavg.
  rewrite pools_of_upd in Eavg. fold ss in Eavg.
  case_bool_decide as Hz.
  - rewrite Hz in Eavg |- *. by rewrite (M_bind_err _ _ _ _ _ (wrap_err _ _ _ _ _ Eavg)).
  - erewrite M_bind_ret by by apply wrap_ret. rewrite upd_global_twice.
    erewrite M_bind_ret; cycle 1.
    { apply wrap_ret. by refine (imbalance_score_eq (upd_global g _ σ) _ Hwf g _ (upd_global_lookup _ _ _) _). }
    rewrite upd_global_twice.
    erewrite M_bind_ret by refine (latest_block_eq (upd_global g _ σ) _ Hwf 3).
    erewrite modify_global_eq by apply upd_global_lookup. by rewrite upd_global_twice.
Qed.
