(* ===== verification/AggregatorProps.v ===== *)
(** * The aggregator's contract ([pkg/state/aggregator.go])

    The invariant of the store, the refinement of [UpdatePoolState] to an
    abstract registry of reports, the aggregated metrics, and what they bound. *)

From S2P Require Import Prelude BigInt StateTypes Aggregator.

(** ** The invariant of the store *)

(** What a caller reported, without the time stamp [UpdatePoolState] adds. *)
Definition data (p : PoolState) : PoolState := ps_set_LastUpdated 0 p.

(** The stored metrics are those of the chain states; a pool whose liquidity
    adds up to zero only has its total right. *)
Definition pool_consistent (σ : St) (gs : GlobalPoolState) : Prop :=
  let ss := pools_of σ (gs_ChainStates gs) in
  gs_ChainStates gs ≠ ∅ ∧ wf_chains σ (gs_ChainStates gs) ∧
  gs_TotalLiquidity gs = Some (total_liq ss) ∧
  (total_liq ss ≠ 0 →
    gs_AveragePrice gs = Some (spec_average ss) ∧
    gs_ImbalanceScore gs = Some (spec_score ss) ∧
    gs_LastUpdateBlock gs = spec_latest ss).

Record Inv (σ : St) : Prop := {
  inv_pool : ∀ id g, st_poolStates σ !! id = Some g →
    ∃ gs, st_globals σ !! g = Some gs ∧ gs_PoolID gs = id ∧ pool_consistent σ gs;
  inv_fresh_globals : ∀ g, is_Some (st_globals σ !! g) → (g < st_next σ)%positive;
  inv_fresh_pools : ∀ l, is_Some (st_pools σ !! l) → (l < st_next σ)%positive;
}.

(** [σ'] holds at least the reports of [σ]. *)
Definition keeps_data (σ σ' : St) : Prop :=
  ∀ l p, st_pools σ !! l = Some p → ∃ p', st_pools σ' !! l = Some p' ∧ data p' = data p.

Lemma data_wf p p' : data p' = data p → wf_pool p → wf_pool p'.
Proof. destruct p, p'. unfold data, ps_set_LastUpdated, wf_pool. cbn. by intros [= <- <- <- <- <- <-]. Qed.

Lemma keeps_data_chains σ σ' cs :
  keeps_data σ σ' → wf_chains σ cs →
  wf_chains σ' cs ∧ data <$> pools_of σ' cs = data <$> pools_of σ cs.
Proof.
  intros Hk Hwf. split.
  - intros c l Hl. destruct (Hwf c l Hl) as (p & Hp & Hw).
    destruct (Hk l p Hp) as (p' & Hp' & E). eauto using data_wf.
  - unfold pools_of.
    assert (∀ kl, kl ∈ map_to_list cs → ∃ p, st_pools σ !! kl.2 = Some p) as Hel.
    { intros [c l] Hin%elem_of_map_to_list. destruct (Hwf c l Hin) as (p & Hp & _). eauto. }
    induction (map_to_list cs) as [|kl o IH]; [done|].
    destruct (Hel kl ltac:(by left)) as (p & Hp). destruct (Hk _ _ Hp) as (p' & Hp' & E).
    rewrite (pools_in_cons _ _ _ _ Hp), (pools_in_cons _ _ _ _ Hp'), !fmap_cons, E.
    f_equal. apply IH. intros kl' Hkl'. apply Hel. by right.
Qed.

(** The metrics do not read [LastUpdated]. *)
Lemma specs_of_data ss ss' :
  data <$> ss' = data <$> ss →
  total_liq ss' = total_liq ss ∧ spec_average ss' = spec_average ss ∧
  spec_score ss' = spec_score ss ∧ spec_latest ss' = spec_latest ss.
Proof.
  intros E.
  assert (∀ f, (∀ p, f (data p) = f p) → Zsum f ss' = Zsum f ss) as Hsum.
  { intros f Hf. rewrite <- (Zsum_ext _ _ _ (λ p _, Hf p)), <- (Zsum_ext _ _ ss (λ p _, Hf p)).
    by rewrite <- !(Zsum_map data f), E. }
  assert (length ss' = length ss) as Hlen by (apply (f_equal length) in E; by rewrite !length_fmap in E).
  assert (spec_average ss' = spec_average ss) as Havg.
  { unfold spec_average, weighted_sum, total_liq. by rewrite !Hsum. }
  split_and!; [by apply Hsum|done| |].
  - unfold spec_score, spec_variance, sq_dev. by rewrite Havg, Hlen, Hsum.
  - clear -E. unfold spec_latest, Zmax_list. revert ss E.
    induction ss' as [|p' ss' IH]; intros [|p ss] E; [done..|].
    rewrite !fmap_cons in E. injection E as ? ? ? ? ? ? ? E. cbn. rewrite (IH ss E). congruence.
Qed.

Lemma consistent_keeps σ σ' gs : keeps_data σ σ' → pool_consistent σ gs → pool_consistent σ' gs.
Proof.
  intros Hk (Hne & Hwf & Htot & Hm). destruct (keeps_data_chains _ _ _ Hk Hwf) as [Hwf' E].
  destruct (specs_of_data _ _ E) as (E1 & E2 & E3 & E4).
  unfold pool_consistent. rewrite E1, E2, E3, E4. done.
Qed.

(** ** [UpdatePoolState], step by step *)

Definition blank_global (id : string) : GlobalPoolState := mkGlobalPoolState id None None None 0 ∅ zero_time.

(** The store once the pool has an entry. *)
Definition registered (id : string) (σ : St) : St :=
  match st_poolStates σ !! id with
  | Some _ => σ
  | None => mkSt (st_pools σ) (<[st_next σ := blank_global id]> (st_globals σ))
              (Pos.succ (st_next σ)) (<[id := st_next σ]> (st_poolStates σ))
  end.

Definition entry (id : string) (σ : St) : loc := default (st_next σ) (st_poolStates σ !! id).

Definition touched (now : time) (c : Z) (l : loc) (gs : GlobalPoolState) : GlobalPoolState :=
  gs_set_LastUpdated now (gs_set_ChainStates (<[c := l]> (gs_ChainStates gs)) gs).

Lemma registered_facts σ id :
  Inv σ →
  ∃ gs, st_globals (registered id σ) !! entry id σ = Some gs ∧ gs_PoolID gs = id ∧
    wf_chains σ (gs_ChainStates gs) ∧
    st_poolStates (registered id σ) = <[id := entry id σ]> (st_poolStates σ) ∧
    (gs_ChainStates gs =
      default ∅ (g ← st_poolStates σ !! id; gs_ChainStates <$> st_globals σ !! g)).
Proof.
  intros HI. unfold registered, entry.
  destruct (st_poolStates σ !! id) as [g|] eqn:E; cbn.
  - destruct (inv_pool _ HI _ _ E) as (gs & Hg & Hid & _ & Hwf & _).
    exists gs. split_and!; try done; first [by rewrite insert_id|by rewrite Hg].
  - exists (blank_global id). split_and!; try done; first [by rewrite lookup_insert_eq|apply map_Forall_empty].
Qed.

(** The object a caller reports, stamped, and the entry that points to it. *)
Definition stored (now1 now2 : time) (id : string) (c : Z) (l : loc) (p : PoolState)
    (gs : GlobalPoolState) (σ : St) : St :=
  upd_global (entry id σ) (touched now2 c l gs)
    (st_set_pools (<[l := ps_set_LastUpdated now1 p]>) (registered id σ)).

Lemma update_unfold `{RangeOrder} now1 now2 id c l σ p gs :
  st_pools σ !! l = Some p → st_globals (registered id σ) !! entry id σ = Some gs →
  UpdatePoolState now1 now2 id c l σ =
    wrap "failed to recalculate global metrics: " (recalculateGlobalMetrics (entry id σ))
      (stored now1 now2 id c l p gs σ).
Proof.
  intros Hl Hg. unfold UpdatePoolState.
  erewrite M_bind_ret by by apply load_pool_eq. erewrite M_bind_ret by done.
  rewrite (M_bind_ret _ _ σ (registered id σ) (entry id σ)); cycle 1.
  { unfold registered, entry. by destruct (st_poolStates σ !! id). }
  assert (st_pools (registered id σ) !! l = Some p) as Hl'.
  { unfold registered. by case_match. }
  erewrite M_bind_ret by by apply modify_pool_eq.
  erewrite M_bind_ret by by apply modify_global_eq.
  erewrite M_bind_ret by (apply modify_global_eq, upd_global_lookup).
  by rewrite upd_global_twice.
Qed.

Lemma stored_keeps now1 now2 id c l p gs σ :
  st_pools σ !! l = Some p → keeps_data σ (stored now1 now2 id c l p gs σ).
Proof.
  intros Hl l' p' Hl'. unfold stored. cbn.
  assert (st_pools (registered id σ) = st_pools σ) as -> by (unfold registered; by case_match).
  destruct (decide (l = l')) as [->|Hne].
  - rewrite lookup_insert_eq. eexists. split; [done|]. simplify_eq. done.
  - rewrite lookup_insert_ne by done. eauto.
Qed.

(** The state and outcome of an update, on every path. *)
Lemma update_eq `{RangeOrder} now1 now2 id c l σ p gs :
  Inv σ → st_pools σ !! l = Some p → wf_pool p →
  st_globals (registered id σ) !! entry id σ = Some gs → wf_chains σ (gs_ChainStates gs) →
  let σ1 := stored now1 now2 id c l p gs σ in
  let ss := pools_of σ1 (<[c := l]> (gs_ChainStates gs)) in
  wf_chains σ1 (<[c := l]> (gs_ChainStates gs)) ∧
  UpdatePoolState now1 now2 id c l σ =
    if bool_decide (total_liq ss = 0)
    then (upd_global (entry id σ) (gs_set_TotalLiquidity (Some 0) (touched now2 c l gs)) σ1,
          Err "failed to recalculate global metrics: failed to calculate weighted average price: total weight is zero")
    else (upd_global (entry id σ) (with_metrics ss (touched now2 c l gs)) σ1, Ret tt).
Proof.
  intros HI Hl Hp Hg Hwf σ1 ss.
  assert (wf_chains σ1 (<[c := l]> (gs_ChainStates gs))) as Hwf1.
  { apply map_Forall_insert_2.
    - destruct (stored_keeps now1 now2 id c l p gs σ Hl l p Hl) as (p' & Hp' & E).
      exists p'. eauto using data_wf.
    - eapply keeps_data_chains; [by apply stored_keeps|done]. }
  split; [done|]. rewrite (update_unfold _ _ _ _ _ _ _ _ Hl Hg). fold σ1.
  pose proof (recalculate_eq σ1 (entry id σ) (touched now2 c l gs)) as E.
  cbv zeta in E. specialize (E (upd_global_lookup _ _ _) (insert_non_empty _ _ _) Hwf1).
  change (pools_of σ1 (gs_ChainStates (touched now2 c l gs))) with ss in E.
  destruct (bool_decide (total_liq ss = 0)); [exact (wrap_err _ _ _ _ _ E)|exact (wrap_ret _ _ _ _ _ E)].
Qed.

(** The only other object an update writes is the reported pool state. *)
Lemma stored_other_global now1 now2 id c l p gs σ id' g' :
  Inv σ → id' ≠ id → st_poolStates σ !! id' = Some g' →
  entry id σ ≠ g' ∧
  st_globals (stored now1 now2 id c l p gs σ) !! g' = st_globals σ !! g'.
Proof.
  intros HI Hid Hg'. destruct (inv_pool _ HI _ _ Hg') as (gs' & Hgs' & Hname & _).
  assert (entry id σ ≠ g') as Hne.
  { unfold entry. destruct (st_poolStates σ !! id) as [g|] eqn:Eg; cbn.
    - intros ->. destruct (inv_pool _ HI _ _ Eg) as (gs'' & ? & ? & _). congruence.
    - intros <-. pose proof (inv_fresh_globals _ HI (st_next σ) ltac:(eauto)). lia. }
  split; [done|]. unfold stored, upd_global. cbn. rewrite lookup_insert_ne by done.
  unfold registered, entry in *. destruct (st_poolStates σ !! id); cbn in *; [done|].
  by rewrite lookup_insert_ne.
Qed.

Lemma stored_poolStates now1 now2 id c l p gs σ :
  st_poolStates (stored now1 now2 id c l p gs σ) = <[id := entry id σ]> (st_poolStates σ).
Proof.
  unfold stored, upd_global, registered, entry. cbn.
  destruct (st_poolStates σ !! id) eqn:E; cbn; [by rewrite insert_id|done].
Qed.

Lemma stored_pools now1 now2 id c l p gs σ :
  st_pools (stored now1 now2 id c l p gs σ) = <[l := ps_set_LastUpdated now1 p]> (st_pools σ).
Proof. unfold stored, registered. cbn. by case_match. Qed.

(** Allocation stays fresh. *)
Lemma stored_fresh now1 now2 id c l p gs gs' σ :
  Inv σ → st_pools σ !! l = Some p →
  let σ2 := upd_global (entry id σ) gs' (stored now1 now2 id c l p gs σ) in
  (∀ g, is_Some (st_globals σ2 !! g) → (g < st_next σ2)%positive) ∧
  (∀ l', is_Some (st_pools σ2 !! l') → (l' < st_next σ2)%positive).
Proof.
  intros HI Hl σ2. change (st_next σ2) with (st_next (registered id σ)). split.
  - intros g' Hg'. unfold σ2 in Hg'. unfold stored in Hg'. rewrite upd_global_twice in Hg'.
    cbn in Hg'. apply lookup_insert_is_Some' in Hg'. revert Hg'. unfold registered, entry.
    destruct (st_poolStates σ !! id) as [g|] eqn:Eg; cbn.
    + intros [<-|Hs]; [|by apply (inv_fresh_globals _ HI)].
      destruct (inv_pool _ HI _ _ Eg) as (? & ? & _). apply (inv_fresh_globals _ HI). eauto.
    + rewrite lookup_insert_is_Some'. intros [<-|[<-|Hs%(inv_fresh_globals _ HI)]]; lia.
  - intros l' Hl'. change (st_pools σ2) with (st_pools (stored now1 now2 id c l p gs σ)) in Hl'.
    rewrite stored_pools, lookup_insert_is_Some' in Hl'.
    assert (l' < st_next σ)%positive.
    { apply (inv_fresh_pools _ HI). destruct Hl' as [<-|Hs]; [eauto|done]. }
    unfold registered. case_match; cbn; lia.
Qed.

(** Re-establishing the invariant after writing the entry [gs']. *)
Lemma stored_Inv now1 now2 id c l p gs gs' σ :
  Inv σ → st_pools σ !! l = Some p → gs_PoolID gs' = id →
  pool_consistent (stored now1 now2 id c l p gs σ) gs' →
  Inv (upd_global (entry id σ) gs' (stored now1 now2 id c l p gs σ)).
Proof.
  intros HI Hl Hid Hc.
  destruct (stored_fresh now1 now2 id c l p gs gs' σ HI Hl) as [Hf1 Hf2].
  split; [|exact Hf1|exact Hf2]. intros id' g' Hg'.
  change (st_poolStates (stored now1 now2 id c l p gs σ) !! id' = Some g') in Hg'.
  rewrite stored_poolStates in Hg'. destruct (decide (id' = id)) as [->|Hne].
  - rewrite lookup_insert_eq in Hg'. injection Hg' as <-.
    exists gs'. split_and!; [apply upd_global_lookup|done|exact Hc].
  - rewrite lookup_insert_ne in Hg' by done.
    destruct (stored_other_global now1 now2 id c l p gs σ id' g' HI Hne Hg') as [Hneg Hlk].
    destruct (inv_pool _ HI _ _ Hg') as (gs'' & Hgs'' & Hname & Hc'').
    exists gs''. split_and!; [|done|].
    + unfold upd_global. cbn -[stored]. rewrite lookup_insert_ne by done. by rewrite Hlk.
    + eapply (consistent_keeps σ); [by apply stored_keeps|done].
Qed.

(** ** The abstract registry an update refines *)

(** The reports held for a pool, by chain. *)
Definition chain_view (σ : St) (cs : gmap Z loc) : gmap Z PoolState :=
  omap (λ l, data <$> st_pools σ !! l) cs.
Definition view (σ : St) (id : string) : option (gmap Z PoolState) :=
  g ← st_poolStates σ !! id;
  gs ← st_globals σ !! g;
  Some (chain_view σ (gs_ChainStates gs)).

(** What recording a report does to the registry. *)
Definition record_report (id : string) (c : Z) (p : PoolState)
    (V : string → option (gmap Z PoolState)) (id' : string) : option (gmap Z PoolState) :=
  if decide (id' = id) then Some (<[c := data p]> (default ∅ (V id))) else V id'.

Lemma chain_view_keeps σ σ' cs :
  keeps_data σ σ' → wf_chains σ cs → chain_view σ' cs = chain_view σ cs.
Proof.
  intros Hk Hwf. apply map_eq. intros c. unfold chain_view. rewrite !lookup_omap.
  destruct (cs !! c) as [l|] eqn:E; [|done]. cbn.
  destruct (Hwf _ _ E) as (p & Hp & _). destruct (Hk _ _ Hp) as (p' & Hp' & Ed).
  rewrite Hp, Hp'. cbn. by rewrite Ed.
Qed.

Lemma stored_view now1 now2 id c l p gs gs' σ id' :
  Inv σ → st_pools σ !! l = Some p →
  st_globals (registered id σ) !! entry id σ = Some gs →
  wf_chains σ (gs_ChainStates gs) →
  gs_ChainStates gs = default ∅ (g ← st_poolStates σ !! id; gs_ChainStates <$> st_globals σ !! g) →
  gs_ChainStates gs' = <[c := l]> (gs_ChainStates gs) →
  view (upd_global (entry id σ) gs' (stored now1 now2 id c l p gs σ)) id' =
    record_report id c p (view σ) id'.
Proof.
  intros HI Hl Hg Hwf Hcs Hcs'. set (σ1 := stored now1 now2 id c l p gs σ).
  assert (keeps_data σ σ1) as Hk by by apply stored_keeps.
  unfold view, record_report.
  change (st_poolStates (upd_global (entry id σ) gs' σ1)) with (st_poolStates σ1).
  assert (st_poolStates σ1 = <[id := entry id σ]> (st_poolStates σ)) as ->
    by apply stored_poolStates.
  case_decide as Hid.
  - subst id'. rewrite lookup_insert_eq. cbn [mbind option_bind].
    rewrite upd_global_lookup. cbn [mbind option_bind]. f_equal. rewrite Hcs'.
    change (chain_view (upd_global (entry id σ) gs' σ1)) with (chain_view σ1). unfold chain_view.
    assert (data <$> st_pools σ1 !! l = Some (data p)) as Edata.
    { unfold σ1. rewrite stored_pools, lookup_insert_eq. done. }
    rewrite (omap_insert_Some (λ l, data <$> st_pools σ1 !! l) _ _ _ _ Edata). f_equal.
    change (chain_view σ1 (gs_ChainStates gs) = default ∅ (view σ id)).
    rewrite (chain_view_keeps σ σ1) by done. rewrite Hcs. unfold view.
    destruct (st_poolStates σ !! id) as [g|]; [|done]. cbn.
    by destruct (st_globals σ !! g).
  - rewrite lookup_insert_ne by done. destruct (st_poolStates σ !! id') as [g'|] eqn:Eg'; [|done].
    cbn [mbind option_bind].
    destruct (stored_other_global now1 now2 id c l p gs σ id' g' HI ltac:(done) Eg') as [Hne Hlk].
    destruct (inv_pool _ HI _ _ Eg') as (gs'' & Hgs'' & _ & _ & Hwf'' & _).
    assert (st_globals (upd_global (entry id σ) gs' σ1) !! g' = Some gs'') as ->.
    { unfold upd_global. cbn -[σ1]. rewrite lookup_insert_ne by done. unfold σ1. by rewrite Hlk. }
    rewrite Hgs''. cbn [mbind option_bind]. f_equal.
    by apply chain_view_keeps.
Qed.

Lemma update_refines `{RangeOrder} now1 now2 id c l σ p :
  Inv σ → st_pools σ !! l = Some p → wf_pool p →
  ∃ σ' r g gs,
    UpdatePoolState now1 now2 id c l σ = (σ', r) ∧ Inv σ' ∧
    (∀ id', view σ' id' = record_report id c p (view σ) id') ∧
    st_poolStates σ' !! id = Some g ∧ st_globals σ' !! g = Some gs ∧
    gs_LastUpdated gs = now2 ∧
    r = if bool_decide (gs_TotalLiquidity gs = Some 0)
        then Err "failed to recalculate global metrics: failed to calculate weighted average price: total weight is zero"
        else Ret tt.
Proof.
  intros HI Hl Hp. destruct (registered_facts σ id HI) as (gs & Hg & Hid & Hwf & _ & Hcs).
  destruct (update_eq now1 now2 id c l σ p gs HI Hl Hp Hg Hwf) as [Hwf1 E]. rewrite E. clear E.
  set (ss := pools_of _ _). pose (gs1 := touched now2 c l gs).
  pose (gs' := if bool_decide (total_liq ss = 0)
               then gs_set_TotalLiquidity (Some 0) gs1 else with_metrics ss gs1).
  exists (upd_global (entry id σ) gs' (stored now1 now2 id c l p gs σ)).
  exists (if bool_decide (total_liq ss = 0) then
    Err "failed to recalculate global metrics: failed to calculate weighted average price: total weight is zero"
    else Ret tt).
  exists (entry id σ), gs'. split_and!.
  - unfold gs', gs1. by case_bool_decide.
  - apply stored_Inv; [done|done|unfold gs', gs1; by case_bool_decide|].
    unfold pool_consistent, gs', gs1. case_bool_decide; cbn -[stored]; fold ss;
      (split_and!; [apply insert_non_empty|done|congruence|done]).
  - intros id'. apply stored_view; try done. unfold gs', gs1. by case_bool_decide.
  - change (st_poolStates (stored now1 now2 id c l p gs σ) !! id = Some (entry id σ)).
    by rewrite stored_poolStates, lookup_insert_eq.
  - apply upd_global_lookup.
  - unfold gs', gs1. by case_bool_decide.
  - unfold gs'. case_bool_decide as Hz; cbn; [done|].
    rewrite bool_decide_eq_false_2 by congruence. done.
Qed.

(** [C1] Refinement of the registry.  On a consistent store, reporting an
    allocated well-formed state [p] for chain [c] of pool [id] always
    re-establishes consistency (stored total, liquidity-weighted average,
    score and latest block are those of the chain states), records exactly
    that report and disturbs no other pool or chain, never panics, and
    answers with an error exactly when the pool's liquidities add up to 0. *)
Theorem UpdatePoolState_refines `{RangeOrder} now1 now2 id c l σ p :
  Inv σ → st_pools σ !! l = Some p → wf_pool p →
  ∃ σ' r g gs,
    UpdatePoolState now1 now2 id c l σ = (σ', r) ∧ Inv σ' ∧
    (∀ id', view σ' id' = record_report id c p (view σ) id') ∧
    st_poolStates σ' !! id = Some g ∧ st_globals σ' !! g = Some gs ∧
    gs_LastUpdated gs = now2 ∧
    r = if bool_decide (gs_TotalLiquidity gs = Some 0)
        then Err "failed to recalculate global metrics: failed to calculate weighted average price: total weight is zero"
        else Ret tt.
Proof. apply update_refines. Qed.

(** ** Reachable stores *)

(** Clients allocate reports and pass them to [UpdatePoolState]; the other
    methods only read.  Each call draws its own clock readings and orders. *)
Inductive step : St → St → Prop :=
  | step_report p σ σ' l :
      wf_pool p → new_pool p σ = (σ', Ret l) → step σ σ'
  | step_update (R : RangeOrder) now1 now2 id c l σ σ' r :
      is_Some (st_pools σ !! l) → UpdatePoolState now1 now2 id c l σ = (σ', r) → step σ σ'.

(** All the caller's objects are well-formed, along with the invariant. *)
Definition Good (σ : St) : Prop := Inv σ ∧ map_Forall (λ _ p, wf_pool p) (st_pools σ).

Lemma update_pools `{RangeOrder} now1 now2 id c l σ p :
  Inv σ → st_pools σ !! l = Some p → wf_pool p →
  st_pools (UpdatePoolState now1 now2 id c l σ).1 = <[l := ps_set_LastUpdated now1 p]> (st_pools σ).
Proof.
  intros HI Hl Hp. destruct (registered_facts σ id HI) as (gs & Hg & _ & Hwf & _).
  destruct (update_eq now1 now2 id c l σ p gs HI Hl Hp Hg Hwf) as [_ E]. rewrite E.
  case_bool_decide; cbn -[stored]; apply (stored_pools now1 now2 id c l p gs σ).
Qed.

Lemma step_Good σ σ' : step σ σ' → Good σ → Good σ'.
Proof.
  intros Hs [HI Hw]. destruct Hs as [p σ σ' l Hp E|R now1 now2 id c l σ σ' r [p Hl] E].
  - injection E as <- <-. split; [|apply map_Forall_insert_2; done].
    assert (st_pools σ !! st_next σ = None) as Hfr.
    { apply eq_None_not_Some. intros Hs%(inv_fresh_pools _ HI). lia. }
    split; cbn.
    + intros id g Hg. destruct (inv_pool _ HI _ _ Hg) as (gs & Hgs & Hid & Hc).
      exists gs. split_and!; try done. eapply (consistent_keeps σ); [|done].
      intros l q Hq. cbn. exists q. rewrite lookup_insert_ne by congruence. done.
    + intros g Hg%(inv_fresh_globals _ HI). lia.
    + intros l [->|Hs%(inv_fresh_pools _ HI)]%lookup_insert_is_Some'; lia.
  - pose proof (Hw _ _ Hl) as Hp. split.
    + destruct (update_refines now1 now2 id c l σ p HI Hl Hp) as (? & ? & ? & ? & E' & HI' & _).
      rewrite E in E'. by injection E' as -> _.
    + pose proof (update_pools now1 now2 id c l σ p HI Hl Hp) as Ep. rewrite E in Ep. cbn in Ep.
      rewrite Ep. by apply map_Forall_insert_2.
Qed.

Lemma reachable_Good σ : rtc step NewAggregator σ → Good σ.
Proof.
  intros Hr. assert (Good NewAggregator) as H0.
  { split; [|apply map_Forall_empty]. split; cbn.
    - intros id g Hg. by rewrite lookup_empty in Hg.
    - intros g [? Hg]. by rewrite lookup_empty in Hg.
    - intros l [? Hl]. by rewrite lookup_empty in Hl. }
  induction Hr as [|? ? ? Hs _ IH]; [done|]. by eapply IH, step_Good.
Qed.

(** [C3] Every store reachable from [NewAggregator] by reports and updates,
    in any sequence, is consistent: each registered pool has at least one
    chain, no nil report, and metrics equal to those of its chain states. *)
Theorem reachable_consistent σ : rtc step NewAggregator σ → Good σ.
Proof. apply reachable_Good. Qed.

(** ** Aggregated metrics *)

(** What the metrics of a pool are. *)
Definition spec_metrics (ss : list PoolState) : AggregatedMetrics :=
  mkAggregatedMetrics (Some (total_liq ss)) (Some (spec_average ss))
    (Some (spec_variance (spec_average ss) ss)) (Some (spec_imbalance (total_liq ss) ss))
    (Some (Zsum vol ss)) (Some (Zsum fees ss)) (u32 (Z.of_nat (length ss))).

Section metrics.
Context `{RangeOrder} (σ : St) (gs : GlobalPoolState).
Context (Hwf : wf_chains σ (gs_ChainStates gs)).
Let ss : list PoolState := pools_of σ (gs_ChainStates gs).

Lemma size_chains : size (gs_ChainStates gs) = length ss.
Proof using Hwf. unfold ss. by rewrite (pools_of_length _ _ Hwf). Qed.

Lemma price_variance_eq m v :
  gs_AveragePrice gs = Some v →
  calculatePriceVariance gs m σ =
    (σ, Ret (mkAggregatedMetrics (am_TotalLiquidity m) (am_AveragePrice m)
      (Some (spec_variance v ss)) (am_LiquidityImbalance m) (am_Volume24h m) (am_Fees24h m)
      (am_ActiveChains m))).
Proof using Hwf.
  intros Hv. unfold calculatePriceVariance, spec_variance. rewrite size_chains.
  case_bool_decide; [done|].
  erewrite M_bind_ret; [|apply (range_pools_sum _ _ Hwf 0 _ (λ p, (price p - v) * (price p - v)))].
  - fold ss. erewrite M_bind_ret by (unfold lift, NewInt; by rewrite big_Div_Some by lia).
    by rewrite euclid_div_pos by lia.
  - intros y p (_ & E & _)%wf_pool_fields. by rewrite Hv, E.
Qed.

Lemma liquidity_imbalance_eq m t :
  gs_TotalLiquidity gs = Some t → t ≠ 0 ∨ (length ss < 2)%nat →
  calculateLiquidityImbalance gs m σ =
    (σ, Ret (mkAggregatedMetrics (am_TotalLiquidity m) (am_AveragePrice m)
      (am_PriceVariance m) (Some (spec_imbalance t ss)) (am_Volume24h m) (am_Fees24h m)
      (am_ActiveChains m))).
Proof using Hwf.
  intros Ht Hor. unfold calculateLiquidityImbalance, spec_imbalance. rewrite size_chains.
  case_bool_decide; [done|]. rewrite Ht.
  erewrite M_bind_ret by (unfold lift, NewInt; by rewrite big_Div_Some by lia).
  rewrite euclid_div_pos by lia.
  erewrite M_bind_ret; [|apply (range_pools_sum _ _ Hwf 1 _
    (λ p, Z.abs (liq p - t / Z.of_nat (length ss))))].
  - fold ss. fold (spec_deviation t ss). erewrite M_bind_ret by done.
    by erewrite M_bind_ret by (unfold lift; by rewrite big_Div_Some by lia).
  - intros y p (E & _)%wf_pool_fields. by rewrite E, big_AbsDiff_Some.
Qed.

Lemma day_metrics_eq m :
  calculate24hMetrics gs m σ =
    (σ, Ret (mkAggregatedMetrics (am_TotalLiquidity m) (am_AveragePrice m)
      (am_PriceVariance m) (am_LiquidityImbalance m) (Some (Zsum vol ss)) (Some (Zsum fees ss))
      (am_ActiveChains m))).
Proof using Hwf.
  unfold calculate24hMetrics.
  set (rep := λ q : Z * Z, (Some q.1 : bigint, Some q.2 : bigint)).
  set (inc := λ (q : Z * Z) p, (q.1 + vol p, q.2 + fees p)).
  erewrite M_bind_ret; [|apply (range_pools_rep _ _ Hwf rep inc _ _ (0, 0))]; cycle 1.
  { intros q p (_ & _ & E1 & E2)%wf_pool_fields. cbn. by rewrite E1, E2. }
  assert (∀ q l, foldl inc q l = (q.1 + Zsum vol l, q.2 + Zsum fees l)) as ->.
  { intros q l. revert q. induction l as [|p l IH]; intros q; cbn [foldl].
    - destruct q; cbn. f_equal; lia.
    - rewrite IH, !Zsum_cons. unfold inc. cbn. f_equal; lia. }
  assert (∀ f, Zsum f (pools_in σ (range_list 2 (gs_ChainStates gs))) = Zsum f ss) as Hperm
    by (intros f; by rewrite pools_in_range).
  rewrite !Hperm. done.
Qed.
End metrics.

Lemma aggregated_metrics_eq `{RangeOrder} σ id :
  Good σ →
  match st_poolStates σ !! id with
  | None => CalculateAggregatedMetrics id σ = (σ, Err ("pool state not found: " +:+ id))
  | Some g => ∃ gs, st_globals σ !! g = Some gs ∧
      let ss := pools_of σ (gs_ChainStates gs) in
      total_liq ss ≠ 0 → CalculateAggregatedMetrics id σ = (σ, Ret (spec_metrics ss))
  end.
Proof.
  intros [HI _]. destruct (st_poolStates σ !! id) as [g|] eqn:Eid; cycle 1.
  { unfold CalculateAggregatedMetrics. erewrite M_bind_ret by done. by rewrite Eid. }
  destruct (inv_pool _ HI _ _ Eid) as (gs & Hg & _ & Hne & Hwf & Htot & Hm).
  exists gs. split; [done|]. intros ss Hnz. destruct (Hm Hnz) as (Havg & _ & _). fold ss in Htot, Havg.
  unfold CalculateAggregatedMetrics. erewrite M_bind_ret by done. rewrite Eid.
  erewrite M_bind_ret by by apply load_global_eq.
  erewrite M_bind_ret by (apply wrap_ret; by apply price_variance_eq).
  erewrite M_bind_ret by (apply wrap_ret; apply liquidity_imbalance_eq; [done|by apply Htot|by left]).
  etrans; [apply wrap_ret; by apply day_metrics_eq|]. cbn. fold ss.
  unfold spec_metrics. rewrite (size_chains σ gs Hwf), Htot, Havg. done.
Qed.

(** [C8] On a consistent store the aggregated metrics of a registered pool
    whose liquidities do not add up to 0 are exactly their definitions
    (total, weighted average, variance, imbalance percentage, 24h sums and
    number of chains); an unknown pool is an error; neither case panics or
    changes the store. *)
Theorem CalculateAggregatedMetrics_correct `{RangeOrder} σ id :
  Good σ →
  match st_poolStates σ !! id with
  | None => CalculateAggregatedMetrics id σ = (σ, Err ("pool state not found: " +:+ id))
  | Some g => ∃ gs, st_globals σ !! g = Some gs ∧
      let ss := pools_of σ (gs_ChainStates gs) in
      total_liq ss ≠ 0 → CalculateAggregatedMetrics id σ = (σ, Ret (spec_metrics ss))
  end.
Proof. apply aggregated_metrics_eq. Qed.

(** [C36] The same query crashes on a pool of two or more chains whose
    liquidities add up to 0, which [UpdatePoolState] registers although it
    answers with an error: nil dereference when no average was ever computed,
    division by zero when a stale one is left. *)
Theorem CalculateAggregatedMetrics_zero_liquidity_panics `{RangeOrder} σ id g gs :
  Good σ → st_poolStates σ !! id = Some g → st_globals σ !! g = Some gs →
  total_liq (pools_of σ (gs_ChainStates gs)) = 0 → (2 ≤ size (gs_ChainStates gs))%nat →
  CalculateAggregatedMetrics id σ =
    (σ, Panic (if bool_decide (gs_AveragePrice gs = None) then NilDeref else DivByZero)).
Proof.
  intros [HI _] Eid Hg Hz Hsz.
  destruct (inv_pool _ HI _ _ Eid) as (gs' & Hg' & _ & Hne & Hwf & Htot & _).
  assert (gs' = gs) as -> by congruence.
  rewrite Hz in Htot. unfold CalculateAggregatedMetrics.
  erewrite M_bind_ret by done. rewrite Eid. erewrite M_bind_ret by by apply load_global_eq.
  destruct (gs_AveragePrice gs) as [v|] eqn:Hv; cbn [bool_decide decide_rel decide].
  - rewrite bool_decide_eq_false_2 by done.
    erewrite M_bind_ret by (apply wrap_ret; by apply price_variance_eq).
    apply M_bind_panic, wrap_panic. unfold calculateLiquidityImbalance.
    rewrite bool_decide_eq_false_2, Htot by lia.
    erewrite M_bind_ret by (unfold lift, NewInt; by rewrite big_Div_Some by lia).
    erewrite M_bind_ret; [|apply (range_pools_sum _ _ Hwf 1 _
      (λ p, Z.abs (liq p - euclid_div 0 (Z.of_nat (size (gs_ChainStates gs))))))].
    + by erewrite M_bind_ret by done.
    + intros y p (E & _)%wf_pool_fields. by rewrite E, big_AbsDiff_Some.
  - rewrite bool_decide_eq_true_2 by done. apply M_bind_panic, wrap_panic.
    unfold calculatePriceVariance. rewrite bool_decide_eq_false_2 by lia.
    apply M_bind_panic, range_pools_panic; [done..|].
    intros p (_ & E & _)%wf_pool_fields. by rewrite Hv, E.
Qed.

(** ** Bounds on the metrics *)

(** Weighted sums stay between the extremes of the weighted values. *)
Lemma weighted_sum_bounds ss lo hi :
  Forall (λ p, 0 ≤ liq p) ss → Forall (λ p, lo ≤ price p ≤ hi) ss →
  lo * total_liq ss ≤ weighted_sum ss ≤ hi * total_liq ss.
Proof.
  intros Hl Hp. unfold weighted_sum, total_liq. rewrite <- !Zsum_mul_l.
  split; apply Zsum_le; intros p Hin;
    pose proof (proj1 (Forall_forall _ _) Hl p Hin);
    pose proof (proj1 (Forall_forall _ _) Hp p Hin); cbn in *; nia.
Qed.

Lemma spec_average_bounds ss lo hi :
  Forall (λ p, 0 ≤ liq p) ss → 0 < total_liq ss → Forall (λ p, lo ≤ price p ≤ hi) ss →
  lo ≤ spec_average ss ≤ hi.
Proof.
  intros Hl Ht Hp. pose proof (weighted_sum_bounds ss lo hi Hl Hp).
  unfold spec_average. rewrite euclid_div_pos by done. split.
  - apply Z.div_le_lower_bound; lia.
  - apply Z.div_le_upper_bound; lia.
Qed.

Lemma spec_score_bounds ss lo hi :
  Forall (λ p, 0 ≤ liq p) ss → 0 < total_liq ss → Forall (λ p, lo ≤ price p ≤ hi) ss →
  lo ≤ hi → 0 ≤ spec_score ss ≤ hi - lo.
Proof.
  intros Hl Ht Hp Hle. pose proof (spec_average_bounds ss lo hi Hl Ht Hp) as Havg.
  split; [apply Z.sqrt_nonneg|]. unfold spec_score, spec_variance.
  case_bool_decide as Hlen; [cbn; lia|].
  set (n := Z.of_nat (length ss)). assert (0 < n) by lia.
  assert (sq_dev (spec_average ss) ss ≤ (hi - lo) * (hi - lo) * n) as Hdev.
  { unfold sq_dev, n. rewrite <- Zsum_const. apply Zsum_le. intros p Hin.
    pose proof (proj1 (Forall_forall _ _) Hp p Hin). cbn in *. nia. }
  rewrite <- (Z.sqrt_square (hi - lo)) by lia. apply Z.sqrt_le_mono.
  apply Z.div_le_upper_bound; lia.
Qed.

Lemma spec_deviation_bounds ss :
  Forall (λ p, 0 ≤ liq p) ss → (0 < length ss)%nat →
  0 ≤ spec_deviation (total_liq ss) ss ≤ 2 * total_liq ss.
Proof.
  intros Hl Hlen. set (n := Z.of_nat (length ss)). assert (0 < n) by lia.
  assert (0 ≤ total_liq ss) as Ht.
  { apply Zsum_nonneg. intros p Hin. exact (proj1 (Forall_forall _ _) Hl p Hin). }
  unfold spec_deviation. fold n. split; [apply Zsum_nonneg; lia|].
  transitivity (Zsum (λ p, liq p + total_liq ss / n) ss).
  - apply Zsum_le. intros p Hin. pose proof (proj1 (Forall_forall _ _) Hl p Hin). cbn in *.
    pose proof (Z.div_pos (total_liq ss) n Ht ltac:(lia)). lia.
  - rewrite Zsum_add, Zsum_const. fold n (total_liq ss).
    pose proof (Z.mul_div_le (total_liq ss) n ltac:(lia)). lia.
Qed.

(** [C21] In every reachable store, a pool with non-negative liquidities not
    all zero has its stored average price between the lowest and the highest
    price of its chains, and its imbalance score within their spread. *)
Theorem metrics_within_price_range σ id g gs lo hi :
  rtc step NewAggregator σ → st_poolStates σ !! id = Some g → st_globals σ !! g = Some gs →
  let ss := pools_of σ (gs_ChainStates gs) in
  Forall (λ p, 0 ≤ liq p) ss → 0 < total_liq ss → Forall (λ p, lo ≤ price p ≤ hi) ss →
  ∃ avg score, gs_AveragePrice gs = Some avg ∧ gs_ImbalanceScore gs = Some score ∧
    lo ≤ avg ≤ hi ∧ 0 ≤ score ≤ hi - lo.
Proof.
  intros [HI _]%reachable_Good Eid Hg ss Hl Ht Hp.
  destruct (inv_pool _ HI _ _ Eid) as (gs' & Hg' & _ & Hne & Hwf & _ & Hm).
  assert (gs' = gs) as -> by congruence. fold ss in Hm.
  destruct (Hm ltac:(lia)) as (Havg & Hsc & _).
  pose proof (spec_average_bounds ss lo hi Hl Ht Hp).
  pose proof (spec_score_bounds ss lo hi Hl Ht Hp ltac:(lia)). eauto 10.
Qed.

(** The liquidity imbalance of such a pool is a percentage between 0 and
    200: 0 when all chains hold exactly the same, never more than 200 however
    lopsided. *)
Theorem liquidity_imbalance_percentage `{RangeOrder} σ id g gs :
  rtc step NewAggregator σ → st_poolStates σ !! id = Some g → st_globals σ !! g = Some gs →
  let ss := pools_of σ (gs_ChainStates gs) in
  Forall (λ p, 0 ≤ liq p) ss → 0 < total_liq ss →
  ∃ m pct, CalculateAggregatedMetrics id σ = (σ, Ret m) ∧
    am_LiquidityImbalance m = Some pct ∧ 0 ≤ pct ≤ 200 ∧
    (∀ q, Forall (λ p, liq p = q) ss → pct = 0).
Proof.
  intros Hr%reachable_Good Eid Hg ss Hl Ht.
  pose proof (aggregated_metrics_eq σ id Hr) as Hm. rewrite Eid in Hm.
  destruct Hm as (gs' & Hg' & Hm). assert (gs' = gs) as -> by congruence. fold ss in Hm.
  exists (spec_metrics ss), (spec_imbalance (total_liq ss) ss).
  split; [apply Hm; lia|]. split; [done|]. unfold spec_imbalance.
  case_bool_decide as Hlen; [by split; [lia|]|]. rewrite euclid_div_pos by done.
  pose proof (spec_deviation_bounds ss Hl ltac:(lia)) as Hdev. split.
  - split; [apply Z.div_pos; lia|apply Z.div_le_upper_bound; lia].
  - intros q Hq. assert (total_liq ss = q * Z.of_nat (length ss)) as Etot.
    { unfold total_liq. rewrite <- Zsum_const. apply Zsum_ext.
      intros p Hin. exact (proj1 (Forall_forall _ _) Hq p Hin). }
    assert (spec_deviation (total_liq ss) ss = 0) as ->; [|done].
    assert (total_liq ss / Z.of_nat (length ss) = q) as Eq by (rewrite Etot; apply Z.div_mul; lia).
    unfold spec_deviation. rewrite Eq.
    rewrite <- (Z.mul_0_l (Z.of_nat (length ss))), <- Zsum_const. apply Zsum_ext.
    intros p Hin. rewrite (proj1 (Forall_forall _ _) Hq p Hin). lia.
Qed.

(** ** Independence of the range order *)

(** [C38] Neither an update nor a metrics query depends on the order in which
    Go ranges over the chain map. *)
Theorem range_order_irrelevant (R1 R2 : RangeOrder) now1 now2 id c l σ p :
  Good σ → st_pools σ !! l = Some p →
  @UpdatePoolState R1 now1 now2 id c l σ = @UpdatePoolState R2 now1 now2 id c l σ ∧
  (∀ g gs, st_poolStates σ !! id = Some g → st_globals σ !! g = Some gs →
    total_liq (pools_of σ (gs_ChainStates gs)) ≠ 0 →
    @CalculateAggregatedMetrics R1 id σ = @CalculateAggregatedMetrics R2 id σ).
Proof.
  intros HG Hl. pose proof HG as [HI Hw]. pose proof (Hw _ _ Hl) as Hp. split.
  - destruct (registered_facts σ id HI) as (gs & Hg & _ & Hwf & _).
    destruct (@update_eq R1 now1 now2 id c l σ p gs HI Hl Hp Hg Hwf) as [_ E1].
    destruct (@update_eq R2 now1 now2 id c l σ p gs HI Hl Hp Hg Hwf) as [_ E2].
    by rewrite E1, E2.
  - intros g gs Eid Hg Hnz.
    pose proof (@aggregated_metrics_eq R1 σ id HG) as H1.
    pose proof (@aggregated_metrics_eq R2 σ id HG) as H2.
    rewrite Eid in H1, H2. destruct H1 as (gs1 & Hg1 & H1). destruct H2 as (gs2 & Hg2 & H2).
    simplify_eq. by rewrite H1, H2.
Qed.

(** ** The snapshot is shallow *)

(** [GetAllPoolStates] copies the map but not the pools: whatever it
    returned before an update of a registered pool reads the updated pool
    after it, the new chain entry included. *)
Theorem GetAllPoolStates_shares `{RangeOrder} now1 now2 id c l σ p g :
  Good σ → st_pools σ !! l = Some p → st_poolStates σ !! id = Some g →
  ∃ snapshot σ' r gs,
    GetAllPoolStates σ = (σ, Ret snapshot) ∧ snapshot = st_poolStates σ ∧
    UpdatePoolState now1 now2 id c l σ = (σ', r) ∧
    snapshot !! id = Some g ∧ st_globals σ' !! g = Some gs ∧
    gs_LastUpdated gs = now2 ∧ gs_ChainStates gs !! c = Some l.
Proof.
  intros [HI Hw] Hl Eid. pose proof (Hw _ _ Hl) as Hp.
  destruct (registered_facts σ id HI) as (gs & Hg & _ & Hwf & _).
  destruct (update_eq now1 now2 id c l σ p gs HI Hl Hp Hg Hwf) as [_ E].
  assert (entry id σ = g) as Een by (unfold entry; by rewrite Eid).
  destruct (bool_decide (total_liq _ = 0)); exists (st_poolStates σ); eexists _, _, _;
    (split_and!; [|done|exact E|done|rewrite Een; apply upd_global_lookup|done|]).
  1, 3: unfold GetAllPoolStates; erewrite M_bind_ret by done; by rewrite foldl_insert_range.
  all: cbn; apply lookup_insert_eq.
Qed.

(** [C28] [sqrt] returns the floor of the square root of any integer (0 for
    the negative ones): the binary search ends within its fuel, on every
    input. *)
Theorem sqrt_is_floor_sqrt n : sqrt (Some n) = Ret (Some (Z.sqrt n)).
Proof. apply sqrt_floor. Qed.

(** ** A run to instantiate the theorems on *)

Definition demo_report (l p : Z) (block : Z) : PoolState :=
  mkPoolState 1 (Some l) (Some p) (Some 10) (Some 1) 0 block 0.

#[local] Existing Instance forward_order.

Definition demo0 : St := (new_pool (demo_report 100 2000 7) NewAggregator).1.
Definition demo1 : St := (UpdatePoolState 5 6 "pool" 1 1%positive demo0).1.
Definition demo2 : St := (new_pool (demo_report 300 2400 9) demo1).1.
Definition demo3 : St := (UpdatePoolState 7 8 "pool" 42161 3%positive demo2).1.

(** The second report filed under the chain it names. *)
Definition demo3' : St := (UpdatePoolState 7 8 "pool" 1 3%positive demo2).1.

(** Two chains that report no liquidity. *)
Definition drained0 : St := (new_pool (demo_report 0 2000 7) NewAggregator).1.
Definition drained1 : St := (UpdatePoolState 5 6 "pool" 1 1%positive drained0).1.
Definition drained2 : St := (new_pool (demo_report 0 2400 9) drained1).1.
Definition drained3 : St := (UpdatePoolState 7 8 "pool" 42161 3%positive drained2).1.

Lemma demo0_reachable : rtc step NewAggregator demo0.
Proof. apply rtc_once. by eapply (step_report (demo_report 100 2000 7)); [by repeat eexists|]. Qed.

Lemma demo2_reachable : rtc step NewAggregator demo2.
Proof.
  eapply rtc_r; [eapply rtc_r; [apply demo0_reachable|]|].
  - eapply (step_update _ 5 6 "pool" 1 1%positive); [by eexists|apply surjective_pairing].
  - by eapply (step_report (demo_report 300 2400 9)); [by repeat eexists|].
Qed.

Lemma demo3_reachable : rtc step NewAggregator demo3.
Proof.
  eapply rtc_r; [apply demo2_reachable|].
  eapply (step_update _ 7 8 "pool" 42161 3%positive); [by eexists|apply surjective_pairing].
Qed.

Lemma drained3_reachable : rtc step NewAggregator drained3.
Proof.
  eapply rtc_r; [eapply rtc_r; [eapply rtc_r; [apply rtc_once|]|]|].
  - by eapply (step_report (demo_report 0 2000 7)); [by repeat eexists|].
  - eapply (step_update _ 5 6 "pool" 1 1%positive); [by eexists|apply surjective_pairing].
  - by eapply (step_report (demo_report 0 2400 9)); [by repeat eexists|].
  - eapply (step_update _ 7 8 "pool" 42161 3%positive); [by eexists|apply surjective_pairing].
Qed.

Definition demo_pool : GlobalPoolState :=
  mkGlobalPoolState "pool" (Some 400) (Some 2300) (Some 223) 9
    (<[42161 := 3%positive]> {[1 := 1%positive]}) 8.
Definition drained_pool : GlobalPoolState :=
  mkGlobalPoolState "pool" (Some 0) None None 0 (<[42161 := 3%positive]> {[1 := 1%positive]}) 8.

Lemma demo3_id : st_poolStates demo3 !! "pool" =@{option loc} Some 2%positive.
Proof. vm_compute. reflexivity. Qed.
Lemma demo3_pool : st_globals demo3 !! 2%positive = Some demo_pool.
Proof. vm_compute. reflexivity. Qed.
Lemma drained3_pool : st_globals drained3 !! 2%positive = Some drained_pool.
Proof. vm_compute. reflexivity. Qed.

Example demo3_metrics :
  (CalculateAggregatedMetrics "pool" demo3).2 =
    Ret (mkAggregatedMetrics (Some 400) (Some 2300) (Some 50000) (Some 50) (Some 20) (Some 2) 2).
Proof. vm_compute. reflexivity. Qed.

(** ** The theorems at these stores *)

Lemma UpdatePoolState_refines_witness :
  Inv demo2 ∧ ∃ σ' r, UpdatePoolState 7 8 "pool" 42161 3%positive demo2 = (σ', r) ∧ Inv σ'.
Proof.
  assert (Inv demo2) as HI by apply reachable_Good, demo2_reachable.
  split; [exact HI|].
  destruct (UpdatePoolState_refines 7 8 "pool" 42161 3%positive demo2 (demo_report 300 2400 9) HI)
    as (σ' & r & g & gs & E & HI' & _); [reflexivity|by repeat eexists|].
  exists σ', r. split; [exact E|exact HI'].
Defined.

Lemma reachable_consistent_witness : Good demo3.
Proof. exact (reachable_consistent demo3 demo3_reachable). Defined.

Lemma CalculateAggregatedMetrics_correct_witness :
  CalculateAggregatedMetrics "pool" demo3 =
    (demo3, Ret (spec_metrics (pools_of demo3 (gs_ChainStates demo_pool)))).
Proof.
  pose proof (CalculateAggregatedMetrics_correct demo3 "pool"
    (reachable_Good demo3 demo3_reachable)) as H.
  rewrite demo3_id in H. destruct H as (gs & Hg & Hm).
  assert (Some gs = Some demo_pool) as [= ->] by (etrans; [symmetry; exact Hg|exact demo3_pool]).
  apply Hm. vm_compute. discriminate.
Defined.

Lemma CalculateAggregatedMetrics_zero_liquidity_panics_witness :
  (UpdatePoolState 7 8 "pool" 42161 3%positive drained2).2 ≠ Ret tt ∧
  CalculateAggregatedMetrics "pool" drained3 = (drained3, Panic NilDeref).
Proof.
  split; [vm_compute; discriminate|].
  apply (CalculateAggregatedMetrics_zero_liquidity_panics drained3 "pool" 2%positive drained_pool).
  - apply reachable_Good, drained3_reachable.
  - vm_compute. reflexivity.
  - apply drained3_pool.
  - vm_compute. reflexivity.
  - vm_compute. lia.
Defined.

Lemma metrics_within_price_range_witness :
  ∃ avg score, gs_AveragePrice demo_pool = Some avg ∧ gs_ImbalanceScore demo_pool = Some score ∧
    2000 ≤ avg ≤ 2400 ∧ 0 ≤ score ≤ 400.
Proof.
  apply (metrics_within_price_range demo3 "pool" 2%positive demo_pool 2000 2400).
  - apply demo3_reachable.
  - vm_compute. reflexivity.
  - apply demo3_pool.
  - vm_compute. repeat constructor; discriminate.
  - vm_compute. reflexivity.
  - vm_compute. repeat constructor; discriminate.
Defined.

Lemma liquidity_imbalance_percentage_witness :
  ∃ m pct, CalculateAggregatedMetrics "pool" demo3 = (demo3, Ret m) ∧
    am_LiquidityImbalance m = Some pct ∧ 0 ≤ pct ≤ 200.
Proof.
  destruct (liquidity_imbalance_percentage demo3 "pool" 2%positive demo_pool)
    as (m & pct & E & Hpct & Hb & _).
  - apply demo3_reachable.
  - vm_compute. reflexivity.
  - apply demo3_pool.
  - vm_compute. repeat constructor; discriminate.
  - vm_compute. reflexivity.
  - exists m, pct. split; [exact E|split; [exact Hpct|exact Hb]].
Defined.

Lemma range_order_irrelevant_witness :
  @UpdatePoolState forward_order 7 8 "pool" 42161 3%positive demo2 =
    @UpdatePoolState backward_order 7 8 "pool" 42161 3%positive demo2.
Proof.
  apply (range_order_irrelevant forward_order backward_order 7 8 "pool" 42161 3%positive demo2
    (demo_report 300 2400 9)).
  - apply reachable_Good, demo2_reachable.
  - vm_compute. reflexivity.
Defined.

Lemma GetAllPoolStates_shares_witness :
  ∃ snapshot σ' r gs, GetAllPoolStates demo2 = (demo2, Ret snapshot) ∧
    UpdatePoolState 7 8 "pool" 42161 3%positive demo2 = (σ', r) ∧
    snapshot !! "pool" = Some 2%positive ∧ st_globals σ' !! 2%positive = Some gs ∧
    gs_ChainStates gs !! 42161 = Some 3%positive.
Proof.
  destruct (GetAllPoolStates_shares 7 8 "pool" 42161 3%positive demo2 (demo_report 300 2400 9)
    2%positive) as (sn & σ' & r & gs & E & _ & U & S & G & _ & C).
  - apply reachable_Good, demo2_reachable.
  - vm_compute. reflexivity.
  - vm_compute. reflexivity.
  - exists sn, σ', r, gs. split_and!; assumption.
Defined.
