(* ===== verification/Validator.v ===== *)
(** * [pkg/state/validator.go]: validation of pool states, signatures, responses

    A method returning [(result, err)] fills the result even when it returns
    an error, so its model returns both, the error as an [option string].
    [now0], [now1], [now2] are the readings of [time.Now()] in source order. *)

From S2P Require Import Prelude Sha256 Float64 BigInt StateTypes.

Record ValidationResult := mkValidationResult {
  vr_IsValid : bool;
  vr_Confidence : float64;
  vr_Reason : string;
  vr_Timestamp : Z;
}.

Record ValidationCriteria := mkValidationCriteria {
  vc_MaxPriceDeviation : bigint;
  vc_MaxLiquidityChange : bigint;
  vc_MaxTimeGap : Z;
  vc_MinimumConfirmations : Z;
}.

(** [result.IsValid = false; result.Reason = reason] *)
Definition vr_reject (reason : string) (r : ValidationResult) : ValidationResult :=
  mkValidationResult false (vr_Confidence r) reason (vr_Timestamp r).
Definition vr_set_Reason (reason : string) (r : ValidationResult) : ValidationResult :=
  mkValidationResult (vr_IsValid r) (vr_Confidence r) reason (vr_Timestamp r).
Definition vr_set_Confidence (c : float64) (r : ValidationResult) : ValidationResult :=
  mkValidationResult (vr_IsValid r) c (vr_Reason r) (vr_Timestamp r).

(** A result and the error returned beside it. *)
Abbreviation checked := (ValidationResult * option string)%type.

(** ** Pool states *)

Definition validatePriceDeviation (poolState : PoolState) (globalState : GlobalPoolState)
    (criteria : ValidationCriteria) (result : ValidationResult) : res checked :=
  c ← big_Cmp (gs_AveragePrice globalState) (NewInt 0);
  if bool_decide (c = 0) then mret (result, None) else
  priceDiff ← big_AbsDiff (ps_Price poolState) (gs_AveragePrice globalState);
  c ← big_Cmp priceDiff (vc_MaxPriceDeviation criteria);
  if bool_decide (0 < c) then
    mret (vr_reject ("Price deviation too high: " +:+ big_String priceDiff +:+ " > "
                       +:+ big_String (vc_MaxPriceDeviation criteria)) result,
          Some "price deviation validation failed")
  else mret (result, None).

Definition validateLiquidityChange (poolState : PoolState) (globalState : GlobalPoolState)
    (criteria : ValidationCriteria) (result : ValidationResult) : M St checked :=
  match gs_ChainStates globalState !! ps_ChainID poolState with
  | None => mret (result, None)
  | Some prev =>
      prevState ← load_pool prev;
      liquidityChange ←
        lift (big_AbsDiff (ps_TotalLiquidity poolState) (ps_TotalLiquidity prevState));
      c ← lift (big_Cmp liquidityChange (vc_MaxLiquidityChange criteria));
      if bool_decide (0 < c) then
        mret (vr_reject ("Liquidity change too high: " +:+ big_String liquidityChange +:+ " > "
                           +:+ big_String (vc_MaxLiquidityChange criteria)) result,
              Some "liquidity change validation failed")
      else mret (result, None)
  end.

Definition validateTimestamp (now : time) (poolState : PoolState)
    (criteria : ValidationCriteria) (result : ValidationResult) : checked :=
  let timeDiff := u64_sub (unix_u64 now) (ps_Timestamp poolState) in
  if bool_decide (vc_MaxTimeGap criteria < timeDiff) then
    (vr_reject ("Timestamp too old: " +:+ pretty timeDiff +:+ " seconds > "
                  +:+ pretty (vc_MaxTimeGap criteria) +:+ " seconds") result,
     Some "timestamp validation failed")
  else (result, None).

(** [if b { confidence *= n / 10 }] *)
Definition reduce_if (b : bool) (n : Z) (confidence : float64) : float64 :=
  if b then f_mul confidence (f_lit n 10) else confidence.

Definition reduce_by_deviation (deviationPercent : Z) (confidence : float64) : float64 :=
  reduce_if (bool_decide (10 < deviationPercent)) 6
    (reduce_if (bool_decide (5 < deviationPercent)) 8
      (reduce_if (bool_decide (1 < deviationPercent)) 9 confidence)).

Definition reduce_by_age (age : Z) (confidence : float64) : float64 :=
  reduce_if (bool_decide (1800 < age)) 6
    (reduce_if (bool_decide (600 < age)) 8
      (reduce_if (bool_decide (300 < age)) 9 confidence)).

Definition calculateConfidence (now : time) (poolState : PoolState)
    (globalState : GlobalPoolState) (result : ValidationResult) : res ValidationResult :=
  c ← big_Cmp (gs_AveragePrice globalState) (NewInt 0);
  confidence ←
    (if bool_decide (c = 0) then mret f_one else
     priceDiff ← big_AbsDiff (ps_Price poolState) (gs_AveragePrice globalState);
     deviationPercent ← big_Mul priceDiff (NewInt 100);
     deviationPercent ← big_Div deviationPercent (gs_AveragePrice globalState);
     match deviationPercent with
     | None => Panic NilDeref
     | Some deviationPercent => mret (reduce_by_deviation deviationPercent f_one)
     end);
  let age := u64_sub (unix_u64 now) (ps_Timestamp poolState) in
  mret (vr_set_Confidence (reduce_by_age age confidence) result).

Definition ValidatePoolState (now0 now1 now2 : time) (poolState globalState : loc)
    (criteria : ValidationCriteria) : M St checked :=
  p ← load_pool poolState;
  g ← load_global globalState;
  let result := mkValidationResult true f_zero "" (unix_u64 now0) in
  r1 ← lift (validatePriceDeviation p g criteria result);
  if r1.2 is Some _ then mret r1 else
  r2 ← validateLiquidityChange p g criteria r1.1;
  if r2.2 is Some _ then mret r2 else
  let r3 := validateTimestamp now1 p criteria r2.1 in
  if r3.2 is Some _ then mret r3 else
  r ← lift (calculateConfidence now2 p g r3.1);
  mret (r, None).

Definition GetDefaultValidationCriteria : res ValidationCriteria :=
  maxPriceDeviation ← MustSetString "1000000000000000000";
  maxLiquidityChange ← MustSetString "1000000000000000000000";
  mret (mkValidationCriteria maxPriceDeviation maxLiquidityChange 300 1).

(** ** Signatures and task responses *)

Abbreviation bytes := (list Z).

(** The functions of [go-ethereum/crypto] the validator calls. *)
Class Crypto := {
  PrivateKey : Type;
  PublicKey : Type;
  public : PrivateKey → PublicKey;
  Sign : bytes → PrivateKey → res bytes;
  SigToPub : bytes → bytes → res PublicKey;
  PubkeyToAddress : PublicKey → bytes;
  CompressPubkey : PublicKey → bytes;
  VerifySignature : bytes → bytes → bytes → bool;
}.

(** What its documentation promises: [Sign] produces the 65 bytes R || S || V
    that [SigToPub] requires and recovers the signer from, and
    [VerifySignature] accepts their first 64. *)
Class CryptoLaws `{Crypto} : Prop := {
  Sign_length h k s : Sign h k = Ret s → length s = 65%nat;
  SigToPub_length h s : length s ≠ 65%nat → ∃ e, SigToPub h s = Err e;
  SigToPub_no_panic h s p : SigToPub h s ≠ Panic p;
  SigToPub_Sign h k s : Sign h k = Ret s → SigToPub h s = Ret (public k);
  VerifySignature_Sign h k s :
    Sign h k = Ret s → VerifySignature (CompressPubkey (public k)) h (take 64 s) = true;
}.

(** [s[:64]] *)
Definition slice64 (s : bytes) : res bytes :=
  if bool_decide (length s < 64)%nat then Panic SliceBounds else Ret (take 64 s).

Section signatures.
Context `{Crypto}.

Definition ValidateOperatorSignature (now : time) (operatorAddr messageHash signature : bytes)
    : res ValidationResult :=
  let result := mkValidationResult false f_zero "" (unix_u64 now) in
  match SigToPub messageHash signature with
  | Panic p => Panic p
  | Err _ => Ret (vr_set_Reason "Failed to recover public key from signature" result)
  | Ret pubKey =>
      let recoveredAddr := PubkeyToAddress pubKey in
      if bool_decide (recoveredAddr ≠ operatorAddr) then
        Ret (vr_set_Reason "Signature does not match operator address" result)
      else
        sig ← slice64 signature;
        if negb (VerifySignature (CompressPubkey pubKey) messageHash sig) then
          Ret (vr_set_Reason "Signature verification failed" result)
        else Ret (mkValidationResult true f_one "Signature validation successful"
                    (vr_Timestamp result))
  end.

Definition validateResponseFormat (response : bytes) : res unit :=
  if bool_decide (length response = 0%nat) then Err "empty response" else Ret tt.

(** [common.BytesToHash] keeps the 32 bytes as they are. *)
Definition createTaskResponseHash (taskIndex : Z) (response : bytes) : bytes :=
  let data := big_Bytes (i64 taskIndex) ++ response in
  Sum256 data.

Definition ValidateTaskResponse (now0 now1 : time) (taskIndex : Z)
    (response signature operatorAddr : bytes) : res ValidationResult :=
  let result := mkValidationResult false f_zero "" (unix_u64 now0) in
  let messageHash := createTaskResponseHash taskIndex response in
  sigResult ← wrap_res "failed to validate signature: "
    (ValidateOperatorSignature now1 operatorAddr messageHash signature);
  if negb (vr_IsValid sigResult) then
    Ret (vr_set_Reason "Invalid signature for task response" result)
  else
    match validateResponseFormat response with
    | Panic p => Panic p
    | Err e => Ret (vr_set_Reason ("Invalid response format: " +:+ e) result)
    | Ret _ => Ret (mkValidationResult true (vr_Confidence sigResult)
                      "Task response validation successful" (vr_Timestamp result))
    end.

Definition SignMessage (privateKey : PrivateKey) (messageHash : bytes) : res bytes :=
  signature ← wrap_res "failed to sign message: " (Sign messageHash privateKey);
  slice64 signature.
End signatures.
