(* ===== verification/ValidatorProps.v ===== *)
(** * The validator's contract ([pkg/state/validator.go])

    What [ValidatePoolState] decides and how confident it is, how it meets the
    aggregator's sharing of objects, and what signatures prove. *)

From S2P Require Import Prelude Sha256 Float64 BigInt StateTypes Aggregator AggregatorProps Validator.

(** ** Pool states *)

(** The checks as arithmetic: the first one that fails, if any. *)
Definition price_far (avg maxp : Z) (p : PoolState) : bool :=
  bool_decide (avg ≠ 0 ∧ maxp < Z.abs (price p - avg)).
Definition liquidity_jump (maxl : Z) (prev : option PoolState) (p : PoolState) : bool :=
  match prev with
  | Some q => bool_decide (maxl < Z.abs (liq p - liq q))
  | None => false
  end.
Definition report_age (now : time) (p : PoolState) : Z := u64_sub (unix_u64 now) (ps_Timestamp p).

Definition verdict (avg maxp maxl gap : Z) (prev : option PoolState) (now : time) (p : PoolState)
    : option string :=
  if price_far avg maxp p then Some "price deviation validation failed"
  else if liquidity_jump maxl prev p then Some "liquidity change validation failed"
  else if bool_decide (gap < report_age now p) then Some "timestamp validation failed"
  else None.

Definition deviation_percent (avg : Z) (p : PoolState) : Z :=
  if bool_decide (avg = 0) then 0 else euclid_div (Z.abs (price p - avg) * 100) avg.

Definition confidence (deviation age : Z) : float64 :=
  reduce_by_age age (reduce_by_deviation deviation f_one).

(** The chain state the global state holds for the report's chain. *)
Definition previous (σ : St) (g : GlobalPoolState) (p : PoolState) : option PoolState :=
  l ← gs_ChainStates g !! ps_ChainID p; st_pools σ !! l.

Section pool_states.
Context (σ : St) (p : PoolState) (g : GlobalPoolState) (avg maxp maxl gap n : Z).
Context (Hp : wf_pool p) (Havg : gs_AveragePrice g = Some avg).
Context (Hcs : wf_chains σ (gs_ChainStates g)).
Let crit : ValidationCriteria := mkValidationCriteria (Some maxp) (Some maxl) gap n.

Lemma price_deviation_eq r :
  ∃ reason, reason ≠ "" ∧ validatePriceDeviation p g crit r =
    Ret (if price_far avg maxp p
         then (vr_reject reason r, Some "price deviation validation failed") else (r, None)).
Proof using Hp Havg.
  destruct (wf_pool_fields p Hp) as (_ & Ep & _).
  unfold validatePriceDeviation, price_far. rewrite Havg, Ep.
  eexists; split; [|rewrite big_Cmp_zero; cbn [mbind res_bind]; case_bool_decide as H0].
  2: { rewrite bool_decide_eq_false_2 by lia. done. }
  2: { rewrite big_AbsDiff_Some. cbn [mbind res_bind vc_MaxPriceDeviation crit].
       rewrite big_Cmp_Some. cbn [mbind res_bind]. rewrite sgn_gt.
       case_bool_decide; [rewrite bool_decide_eq_true_2 by lia|rewrite bool_decide_eq_false_2 by lia];
         reflexivity. }
  done.
Qed.

Lemma liquidity_change_eq r :
  ∃ reason, reason ≠ "" ∧ validateLiquidityChange p g crit r σ =
    (σ, Ret (if liquidity_jump maxl (previous σ g p) p
             then (vr_reject reason r, Some "liquidity change validation failed") else (r, None))).
Proof using Hp Hcs.
  destruct (wf_pool_fields p Hp) as (Ep & _).
  unfold validateLiquidityChange, liquidity_jump, previous.
  destruct (gs_ChainStates g !! ps_ChainID p) as [l|] eqn:El; cbn; [|by exists "x"].
  destruct (Hcs _ _ El) as (q & Hq & Hwq). destruct (wf_pool_fields q Hwq) as (Eq & _).
  rewrite Hq. eexists; split; cycle 1.
  - go_ret. erewrite M_bind_ret by (unfold lift; by rewrite Ep, Eq, big_AbsDiff_Some).
    erewrite M_bind_ret by (unfold lift; by rewrite big_Cmp_Some).
    rewrite sgn_gt. by destruct (bool_decide _).
  - done.
Qed.

Lemma timestamp_eq now r :
  ∃ reason, reason ≠ "" ∧ validateTimestamp now p crit r =
    if bool_decide (gap < report_age now p)
    then (vr_reject reason r, Some "timestamp validation failed") else (r, None).
Proof using. by eexists; split; [|reflexivity]. Qed.

Lemma confidence_eq now r :
  calculateConfidence now p g r =
    Ret (vr_set_Confidence (confidence (deviation_percent avg p) (report_age now p)) r).
Proof using Hp Havg.
  destruct (wf_pool_fields p Hp) as (_ & Ep & _).
  unfold calculateConfidence, confidence, deviation_percent. rewrite Havg, Ep, big_Cmp_zero.
  cbn [mbind res_bind]. case_bool_decide as H0.
  - rewrite bool_decide_eq_true_2 by lia. done.
  - rewrite bool_decide_eq_false_2 by lia. rewrite big_AbsDiff_Some. cbn [mbind res_bind].
    unfold NewInt. cbn [big_Mul big_op2 mbind res_bind]. by rewrite big_Div_Some by lia.
Qed.

Lemma validate_pool_eq now0 now1 now2 lp lg :
  st_pools σ !! lp = Some p → st_globals σ !! lg = Some g →
  ∃ r, ValidatePoolState now0 now1 now2 lp lg crit σ =
      (σ, Ret (r, verdict avg maxp maxl gap (previous σ g p) now1 p)) ∧
    vr_Timestamp r = unix_u64 now0 ∧
    (verdict avg maxp maxl gap (previous σ g p) now1 p = None →
      vr_IsValid r = true ∧ vr_Reason r = "" ∧
      vr_Confidence r = confidence (deviation_percent avg p) (report_age now2 p)) ∧
    (verdict avg maxp maxl gap (previous σ g p) now1 p ≠ None →
      vr_IsValid r = false ∧ vr_Reason r ≠ "" ∧ vr_Confidence r = f_zero).
Proof using Hp Havg Hcs.
  intros Hlp Hlg. unfold ValidatePoolState, verdict.
  set (r0 := mkValidationResult _ _ _ _).
  destruct (price_deviation_eq r0) as (w1 & Hw1 & E1).
  destruct (liquidity_change_eq r0) as (w2 & Hw2 & E2).
  destruct (timestamp_eq now1 r0) as (w3 & Hw3 & E3).
  do 2 go_ret. erewrite M_bind_ret by (unfold lift; by rewrite E1).
  destruct (price_far avg maxp p); cbn [fst snd]; [by eexists; split_and!|].
  erewrite M_bind_ret by exact E2.
  destruct (liquidity_jump _ _ p); cbn [fst snd]; [by eexists; split_and!|].
  rewrite E3. destruct (bool_decide (gap < report_age now1 p)); cbn [fst snd];
    [by eexists; split_and!|].
  erewrite M_bind_ret by (unfold lift; by rewrite confidence_eq). by eexists; split_and!.
Qed.
End pool_states.

(** [C4] [ValidatePoolState] on objects without nil integers never panics and
    never changes the store: its error is the first of the three checks that
    fails, the result is valid exactly when there is none, a rejected result
    carries a reason and confidence 0, an accepted one the confidence computed
    from the deviation from the average price and the age of the report. *)
Theorem ValidatePoolState_verdict σ p g avg maxp maxl gap n now0 now1 now2 lp lg :
  wf_pool p → gs_AveragePrice g = Some avg → wf_chains σ (gs_ChainStates g) →
  st_pools σ !! lp = Some p → st_globals σ !! lg = Some g →
  let v := verdict avg maxp maxl gap (previous σ g p) now1 p in
  ∃ r, ValidatePoolState now0 now1 now2 lp lg
         (mkValidationCriteria (Some maxp) (Some maxl) gap n) σ = (σ, Ret (r, v)) ∧
    vr_Timestamp r = unix_u64 now0 ∧
    (v = None → vr_IsValid r = true ∧ vr_Reason r = "" ∧
      vr_Confidence r = confidence (deviation_percent avg p) (report_age now2 p)) ∧
    (v ≠ None → vr_IsValid r = false ∧ vr_Reason r ≠ "" ∧ vr_Confidence r = f_zero).
Proof. intros. by apply validate_pool_eq. Qed.

(** *** Time *)

(** The age of a report from the future wraps around. *)
Lemma report_age_future now p :
  0 ≤ Unix now < ps_Timestamp p → ps_Timestamp p < 2 ^ 63 →
  2 ^ 63 < report_age now p.
Proof.
  intros Hnow Hts. unfold report_age, u64_sub, unix_u64, u64.
  rewrite (Z.mod_small (Unix now)) by lia.
  rewrite <- (Z_mod_plus_full _ 1), Z.mod_small by lia. lia.
Qed.

Lemma report_age_past now p :
  0 ≤ ps_Timestamp p ≤ Unix now → Unix now < 2 ^ 63 → report_age now p = Unix now - ps_Timestamp p.
Proof.
  intros Hts Hnow. unfold report_age, u64_sub, unix_u64, u64.
  rewrite (Z.mod_small (Unix now)) by lia. by rewrite Z.mod_small by lia.
Qed.

(** [C29] The time check in wall-clock terms: a report is fresh exactly when it
    is not from the future and at most [MaxTimeGap] seconds old; one that is a
    single second ahead of the validator's clock is rejected as too old. *)
Theorem fresh_iff_recent now p c r :
  0 ≤ Unix now < 2 ^ 63 → 0 ≤ ps_Timestamp p < 2 ^ 63 → 0 ≤ vc_MaxTimeGap c < 2 ^ 63 →
  (validateTimestamp now p c r).2 = None ↔
    ps_Timestamp p ≤ Unix now ≤ ps_Timestamp p + vc_MaxTimeGap c.
Proof.
  intros Hn Hts Hg. unfold validateTimestamp. fold (report_age now p).
  destruct (decide (ps_Timestamp p ≤ Unix now)) as [Hle|Hgt].
  - rewrite report_age_past by lia. case_bool_decide; cbn; split; intros; (done || lia).
  - pose proof (report_age_future now p ltac:(lia) ltac:(lia)).
    rewrite bool_decide_eq_true_2 by lia. cbn. split; [done|lia].
Qed.

(** *** Confidence *)

(** Only the steps the quantity has passed matter: each of them is represented
    by its least integer. *)
Definition deviation_level (d : Z) : Z :=
  if decide (10 < d) then 11 else if decide (5 < d) then 6 else if decide (1 < d) then 2 else 0.
Definition age_level (a : Z) : Z :=
  if decide (1800 < a) then 1801 else if decide (600 < a) then 601
  else if decide (300 < a) then 301 else 0.

Definition levels : list (Z * Z) := d ← [0; 2; 6; 11]; a ← [0; 301; 601; 1801]; [(d, a)].

Lemma confidence_steps d a : confidence d a = confidence (deviation_level d) (age_level a).
Proof.
  unfold confidence, reduce_by_deviation, reduce_by_age, deviation_level, age_level.
  repeat f_equal; apply bool_decide_ext; repeat case_decide; lia.
Qed.

Lemma level_in d a : (deviation_level d, age_level a) ∈ levels.
Proof.
  unfold deviation_level, age_level, levels. repeat case_decide; cbn;
    repeat (first [apply list_elem_of_here | apply list_elem_of_further]).
Qed.

(** The order and the bounds on the sixteen scores, by evaluation. *)
Lemma confidence_table :
  Forall (λ x, f_ltb f_zero (confidence x.1 x.2) = true ∧ f_leb (confidence x.1 x.2) f_one = true ∧
    (confidence x.1 x.2 = f_one → x = (0, 0)) ∧
    Forall (λ y, x.1 ≤ y.1 ∧ x.2 ≤ y.2 →
      f_leb (confidence y.1 y.2) (confidence x.1 x.2) = true) levels) levels.
Proof. refine (bool_decide_eq_true_1 _ _). vm_compute. reflexivity. Qed.

(** The confidence score in binary64 arithmetic lies in (0, 1], never
    rises when the deviation or the age rises, and is 1 exactly for reports
    within 1% of the average and at most 5 minutes old. *)
Theorem confidence_antitone d1 d2 a1 a2 :
  d1 ≤ d2 → a1 ≤ a2 →
  f_leb (confidence d2 a2) (confidence d1 a1) = true ∧
  f_ltb f_zero (confidence d2 a2) = true ∧ f_leb (confidence d1 a1) f_one = true ∧
  (confidence d1 a1 = f_one ↔ d1 ≤ 1 ∧ a1 ≤ 300).
Proof.
  intros Hd Ha. pose proof confidence_table as T. rewrite Forall_forall in T.
  destruct (T _ (level_in d1 a1)) as (_ & Hle & H1 & Hm).
  destruct (T _ (level_in d2 a2)) as (Hpos & _). cbn [fst snd] in *. rewrite Forall_forall in Hm.
  rewrite (confidence_steps d1 a1), (confidence_steps d2 a2). split_and!; [|done..|].
  - apply (Hm _ (level_in d2 a2)). cbn. unfold deviation_level, age_level.
    split; repeat case_decide; lia.
  - split.
    + intros [= E1 E2]%H1. revert E1 E2. unfold deviation_level, age_level. repeat case_decide; lia.
    + intros [? ?]. unfold deviation_level, age_level. rewrite !decide_False by lia. done.
Qed.

(** *** Validating what was already recorded *)

(** The aggregator stores the caller's pointer: validating a report after
    it was recorded compares it with itself, so the liquidity check can no
    longer reject it, whatever the chain held before. *)
Theorem recorded_report_passes_liquidity `{RangeOrder} σ σ' now1 now2 id l p maxp maxl gap n t0 t1 t2 :
  Good σ → st_pools σ !! l = Some p → 0 ≤ maxl →
  UpdatePoolState now1 now2 id (ps_ChainID p) l σ = (σ', Ret tt) →
  ∃ lg r e, st_poolStates σ' !! id = Some lg ∧
    ValidatePoolState t0 t1 t2 l lg (mkValidationCriteria (Some maxp) (Some maxl) gap n) σ' =
      (σ', Ret (r, e)) ∧
    e ≠ Some "liquidity change validation failed".
Proof.
  intros [HI Hw] Hl Hmax E. pose proof (Hw _ _ Hl) as Hp.
  destruct (registered_facts σ id HI) as (gs & Hg & _ & Hwf & _).
  destruct (update_eq now1 now2 id (ps_ChainID p) l σ p gs HI Hl Hp Hg Hwf) as [Hwf' E'].
  rewrite E in E'. case_bool_decide as Hz; [done|]. injection E' as E'.
  set (ss := pools_of _ _) in E'. set (gs' := with_metrics ss _) in E'.
  set (p' := ps_set_LastUpdated now1 p).
  assert (st_pools σ' !! l = Some p') as Hl'.
  { rewrite E'. cbn -[stored]. rewrite stored_pools. apply lookup_insert_eq. }
  assert (st_globals σ' !! entry id σ = Some gs') as Hg' by (rewrite E'; apply upd_global_lookup).
  assert (st_poolStates σ' !! id = Some (entry id σ)) as Hid.
  { rewrite E'. cbn -[stored]. rewrite stored_poolStates. apply lookup_insert_eq. }
  destruct (validate_pool_eq σ' p' gs' (spec_average ss) maxp maxl gap n Hp eq_refl) with
    (now0 := t0) (now1 := t1) (now2 := t2) (lp := l) (lg := entry id σ) as (r & Er & _); [|done..|].
  { rewrite E'. exact Hwf'. }
  exists (entry id σ), r, (verdict (spec_average ss) maxp maxl gap (previous σ' gs' p') t1 p').
  split; [done|]. split; [exact Er|]. unfold verdict.
  destruct (price_far _ _ _); [done|].
  assert (previous σ' gs' p' = Some p') as ->.
  { unfold previous. cbn. by rewrite lookup_insert_eq. }
  cbn [liquidity_jump]. rewrite bool_decide_eq_false_2 by (rewrite Z.sub_diag; cbn; lia).
  by case_bool_decide.
Qed.

(** ** Signatures *)

Section signature_laws.
Context `{CryptoLaws}.

(** What a valid signature amounts to. *)
Definition signed_by (addr h s : bytes) : Prop :=
  ∃ pk, SigToPub h s = Ret pk ∧ PubkeyToAddress pk = addr ∧
    VerifySignature (CompressPubkey pk) h (take 64 s) = true.

Lemma operator_signature_eq now addr h s :
  ∃ r, ValidateOperatorSignature now addr h s = Ret r ∧ vr_Timestamp r = unix_u64 now ∧
    (vr_IsValid r = true ↔ signed_by addr h s) ∧
    (vr_IsValid r = true → vr_Confidence r = f_one) ∧
    (vr_IsValid r = false → vr_Confidence r = f_zero) ∧
    (length s ≠ 65%nat → vr_Reason r = "Failed to recover public key from signature").
Proof.
  unfold ValidateOperatorSignature, signed_by.
  destruct (SigToPub h s) as [pk|e|p] eqn:E; cycle 1.
  - eexists; split; [reflexivity|]. split_and!; try done. cbn. split; [done|].
    by intros (? & ? & _).
  - by apply SigToPub_no_panic in E.
  - assert (length s = 65%nat) as Hlen.
    { destruct (decide (length s = 65%nat)) as [|Hn]; [done|].
      destruct (SigToPub_length h s Hn) as (e & E'). congruence. }
    unfold slice64. rewrite (bool_decide_eq_false_2 (length s < 64)%nat) by lia.
    case_bool_decide as Ha; cbn [mbind res_bind];
      [|destruct (VerifySignature _ _ _) eqn:Ev; cbn [negb]];
      (eexists; split; [reflexivity|]; split_and!; try done; cbn).
    + split; [done|]. by intros (pk' & [= <-] & ? & _).
    + split; [intros _|done]. exists pk. by split_and!.
    + split; [done|]. intros (pk' & [= <-] & ? & Ev'). congruence.
Qed.

Lemma task_response_eq now0 now1 i resp s addr :
  ∃ r, ValidateTaskResponse now0 now1 i resp s addr = Ret r ∧ vr_Timestamp r = unix_u64 now0 ∧
    (vr_IsValid r = true ↔ resp ≠ [] ∧ signed_by addr (createTaskResponseHash i resp) s) ∧
    vr_Confidence r = (if vr_IsValid r then f_one else f_zero).
Proof.
  unfold ValidateTaskResponse. generalize (createTaskResponseHash i resp). intros h.
  destruct (operator_signature_eq now1 addr h s)
    as (r & E & _ & Hv & Hc & _). rewrite E. cbn [wrap_res mbind res_bind].
  destruct (vr_IsValid r) eqn:Er; cbn [negb].
  - unfold validateResponseFormat. case_bool_decide as Hl; eexists; (split; [reflexivity|]).
    + apply length_zero_iff_nil in Hl as ->. split_and!; try done. cbn. by split; [|intros [? _]].
    + cbn. rewrite Hc by done. split_and!; try done. split; [|done]. intros _.
      split; [by intros ->|by apply Hv].
  - eexists; (split; [reflexivity|]). split_and!; try done. cbn. split; [done|].
    intros [_ Hs%Hv]. done.
Qed.
End signature_laws.

(** The full 65-byte signature an operator makes with [crypto.Sign]
    validates for that operator's address, with confidence 1. *)
Lemma signed_hash_validates `{CryptoLaws} now k h s :
  Sign h k = Ret s →
  ∃ r, ValidateOperatorSignature now (PubkeyToAddress (public k)) h s = Ret r ∧
    vr_IsValid r = true ∧ vr_Confidence r = f_one.
Proof.
  intros Hs. destruct (operator_signature_eq now (PubkeyToAddress (public k)) h s)
    as (r & E & _ & Hv & Hc & _).
  assert (vr_IsValid r = true) as Er; [|by eauto].
  apply Hv. exists (public k). split_and!; [by apply SigToPub_Sign|done|by apply VerifySignature_Sign].
Qed.

(** What [SignMessage] returns never validates: it drops the recovery
    byte, without which no public key can be recovered, for any operator. *)
Lemma SignMessage_never_validates `{CryptoLaws} now k h s addr :
  SignMessage k h = Ret s →
  ∃ r, ValidateOperatorSignature now addr h s = Ret r ∧ vr_IsValid r = false ∧
    vr_Reason r = "Failed to recover public key from signature".
Proof.
  unfold SignMessage. destruct (Sign h k) as [sig|e|p] eqn:E; [|done..].
  pose proof (Sign_length _ _ _ E) as Hl. cbn. unfold slice64.
  rewrite bool_decide_eq_false_2 by lia. intros [= <-].
  assert (length (take 64 sig) ≠ 65%nat) as Hne by (rewrite length_take; lia).
  destruct (operator_signature_eq now addr h (take 64 sig)) as (r & Er & _ & Hv & _ & _ & Hr).
  exists r. split; [done|]. split; [|by apply Hr].
  apply not_true_is_false. intros (pk & Epk & _)%Hv.
  destruct (SigToPub_length h _ Hne) as (e & Ee). congruence.
Qed.

(** [C34] Signatures.  The 65 bytes an operator makes with [crypto.Sign] validate
    for that operator's address, with confidence 1.  What [SignMessage] returns
    for the same hash is the first 64 of them, without the recovery byte no
    public key can be recovered, and it validates for no operator. *)
Theorem signatures_validate `{CryptoLaws} now k h sig :
  Sign h k = Ret sig →
  (∃ r, ValidateOperatorSignature now (PubkeyToAddress (public k)) h sig = Ret r ∧
     vr_IsValid r = true ∧ vr_Confidence r = f_one) ∧
  SignMessage k h = Ret (take 64 sig) ∧
  ∀ addr, ∃ r, ValidateOperatorSignature now addr h (take 64 sig) = Ret r ∧
    vr_IsValid r = false ∧ vr_Reason r = "Failed to recover public key from signature".
Proof.
  intros Hs. assert (SignMessage k h = Ret (take 64 sig)) as Em.
  { unfold SignMessage. rewrite Hs. cbn. unfold slice64.
    rewrite bool_decide_eq_false_2; [done|]. pose proof (Sign_length _ _ _ Hs). lia. }
  split; [by apply signed_hash_validates|]. split; [done|]. intros addr. by apply (SignMessage_never_validates _ k).
Qed.

(** [C9] A task response validates exactly when it is not empty and its
    signature recovers to, and verifies for, the operator on the hash of task
    index and response; it is never an error nor a panic. *)
Theorem ValidateTaskResponse_accepts `{CryptoLaws} now0 now1 i resp s addr :
  ∃ r, ValidateTaskResponse now0 now1 i resp s addr = Ret r ∧ vr_Timestamp r = unix_u64 now0 ∧
    (vr_IsValid r = true ↔ resp ≠ [] ∧ signed_by addr (createTaskResponseHash i resp) s) ∧
    vr_Confidence r = (if vr_IsValid r then f_one else f_zero).
Proof. apply task_response_eq. Qed.

(** [C13] The signed hash does not separate the task index from the response:
    an answer [b :: resp] of task [i] is as valid, with the same signature,
    as the answer [resp] of task [256 * i + b]. *)
Theorem task_signature_replay `{Crypto} now0 now1 i b resp s addr :
  is_u32 i → is_u32 (256 * i + b) → 0 ≤ b < 256 → 0 < 256 * i + b → resp ≠ [] →
  createTaskResponseHash (256 * i + b) resp = createTaskResponseHash i (b :: resp) ∧
  ValidateTaskResponse now0 now1 (256 * i + b) resp s addr =
    ValidateTaskResponse now0 now1 i (b :: resp) s addr.
Proof.
  intros Hi Hib Hb Hpos Hne.
  assert (createTaskResponseHash (256 * i + b) resp = createTaskResponseHash i (b :: resp)) as Eh.
  { unfold createTaskResponseHash, is_u32 in *. rewrite !i64_id by (unfold is_i64; lia).
    rewrite big_Bytes_snoc by lia. by rewrite <- app_assoc. }
  split; [done|]. unfold ValidateTaskResponse. rewrite Eh.
  assert (validateResponseFormat resp = Ret tt) as ->; [|done].
  unfold validateResponseFormat. rewrite bool_decide_eq_false_2; [done|].
  by intros ?%length_zero_iff_nil.
Qed.

(** ** Concrete instances *)

(** A toy scheme that satisfies the laws: the signature carries key plus message sum. *)
#[local] Instance toy_crypto : Crypto := {|
  PrivateKey := Z;
  PublicKey := Z;
  public k := k;
  Sign h k := Ret (replicate 64 (k + Zsum id h) ++ [0]);
  SigToPub h s :=
    if bool_decide (length s = 65%nat) then Ret (default 0 (head s) - Zsum id h)
    else Err "invalid signature length";
  PubkeyToAddress k := [k];
  CompressPubkey k := [2; k];
  VerifySignature pk h s := bool_decide (s = replicate 64 (default 0 (pk !! 1%nat) + Zsum id h));
|}.

#[local] Instance toy_laws : CryptoLaws.
Proof.
  split; cbn -[replicate take]; intros h.
  - by intros k s [= <-].
  - intros s Hs. rewrite bool_decide_eq_false_2 by done. by eexists.
  - intros s p. by case_bool_decide.
  - intros k s [= <-]. cbn. f_equal. lia.
  - intros k s [= <-]. by apply bool_decide_eq_true_2.
Qed.

Lemma ValidatePoolState_verdict_witness :
  ∃ r, ValidatePoolState (400 * second) (400 * second) (400 * second) 3%positive 2%positive
         (mkValidationCriteria (Some 100) (Some 1000) 400 1) demo3 = (demo3, Ret (r, None)) ∧
    vr_IsValid r = true.
Proof.
  destruct (ValidatePoolState_verdict demo3
    (mkPoolState 1 (Some 300) (Some 2400) (Some 10) (Some 1) 0 9 7) demo_pool 2300 100 1000 400 1
    (400 * second) (400 * second) (400 * second) 3%positive 2%positive) as (r & E & _ & Hv & _).
  - by repeat eexists.
  - reflexivity.
  - assert (Good demo3) as [HI _] by apply reachable_Good, demo3_reachable.
    destruct (inv_pool _ HI "pool" _ demo3_id) as (gs & Hg & _ & _ & Hwf & _).
    assert (Some gs = Some demo_pool) as [= ->] by (etrans; [symmetry; exact Hg|exact demo3_pool]).
    exact Hwf.
  - vm_compute. reflexivity.
  - exact demo3_pool.
  - exists r. split; [exact E|]. apply Hv. vm_compute. reflexivity.
Defined.

Definition demo_criteria : ValidationCriteria := mkValidationCriteria (Some 5) (Some 5) 300 1.

Lemma fresh_iff_recent_witness :
  (validateTimestamp (100 * second) (mkPoolState 1 None None None None 101 0 0) demo_criteria
    (mkValidationResult true f_zero "" 100)).2 ≠ None.
Proof.
  intros E. apply fresh_iff_recent in E; [|split; vm_compute; (reflexivity || discriminate)..].
  destruct E as [E _]. vm_compute in E. apply E. reflexivity.
Defined.

Lemma confidence_antitone_witness : f_leb (confidence 7 700) (confidence 3 100) = true.
Proof. apply (confidence_antitone 3 7 100 700); lia. Defined.

Lemma recorded_report_passes_liquidity_witness :
  ∃ lg r e, st_poolStates demo3 !! "pool" = Some lg ∧
    @UpdatePoolState forward_order 7 8 "pool" 1 3%positive demo2 = (demo3', Ret tt) ∧
    ValidatePoolState 0 0 0 3%positive lg (mkValidationCriteria (Some 5) (Some 5) 300 1) demo3' =
      (demo3', Ret (r, e)) ∧ e ≠ Some "liquidity change validation failed".
Proof.
  assert (@UpdatePoolState forward_order 7 8 "pool" 1 3%positive demo2 = (demo3', Ret tt)) as E
    by (vm_compute; reflexivity).
  destruct (@recorded_report_passes_liquidity forward_order demo2 demo3' 7 8 "pool" 3%positive
    (demo_report 300 2400 9) 5 5 300 1 0 0 0) as (lg & r & e & Hlg & Er & He).
  - apply reachable_Good, demo2_reachable.
  - vm_compute. reflexivity.
  - lia.
  - exact E.
  - exists lg, r, e. split; [|by split; [exact E|split; [exact Er|exact He]]].
    rewrite <- Hlg. vm_compute. reflexivity.
Defined.

Lemma signatures_validate_witness :
  let sig := replicate 64 10 ++ [0] in
  (∃ r, ValidateOperatorSignature 0 [7] [1; 2] sig = Ret r ∧ vr_IsValid r = true) ∧
  ∃ r, ValidateOperatorSignature 0 [7] [1; 2] (take 64 sig) = Ret r ∧ vr_IsValid r = false.
Proof.
  intros sig. destruct (@signatures_validate toy_crypto toy_laws 0 7 [1; 2] sig eq_refl)
    as ((r & E & Hv & _) & _ & Hn).
  split; [by exists r|]. destruct (Hn [7]) as (r' & E' & Hi & _). by exists r'.
Defined.

Lemma ValidateTaskResponse_accepts_witness :
  ∃ r, ValidateTaskResponse 0 0 3 [] [] [7] = Ret r ∧ vr_IsValid r ≠ true.
Proof.
  destruct (ValidateTaskResponse_accepts 0 0 3 [] [] [7]) as (r & E & _ & Hv & _).
  exists r. split; [exact E|]. intros [Hne _]%Hv. apply Hne. reflexivity.
Defined.

Lemma task_signature_replay_witness :
  createTaskResponseHash 513 [9] = createTaskResponseHash 2 [1; 9].
Proof. apply (task_signature_replay 0 0 2 1 [9] [] []); (done || split; lia). Defined.
