(* ===== verification/Predictor.v ===== *)
(** * [pkg/state/predictor.go]: price, liquidity and rebalancing predictions

    The predictor only reads pool objects.  [now] is the reading of
    [time.Now()]; [range] statements are numbered in the order they run. *)

From S2P Require Import Prelude Float64 BigInt StateTypes Aggregator.

Record PredictionResult := mkPredictionResult {
  pr_PredictedPrice : bigint;
  pr_PredictedLiquidity : bigint;
  pr_Confidence : float64;
  pr_TimeHorizon : Z;
  pr_Timestamp : Z;
}.

Record MarketTrend := mkMarketTrend {
  mt_Direction : string;
  mt_Strength : float64;
  mt_Confidence : float64;
  mt_Duration : Z;
}.

(** ** Helper functions *)

(** [big_Int] of a slice, [float64(len(s))]. *)
Definition len_float {A} (l : list A) : float64 := f_of_Z (Z.of_nat (length l)).

(** The same search as the aggregator's [sqrt], a method here. *)
Definition sqrt (n : bigint) : res bigint :=
  c ← big_Cmp n (NewInt 0);
  if bool_decide (c ≤ 0) then Ret (NewInt 0)
  else match n with
       | None => Panic NilDeref
       | Some v =>
           match sqrt_loop (sqrt_fuel v) v 0 v 0 with
           | Some r => Ret (Some r)
           | None => Panic (PanicMsg "sqrt: out of fuel")
           end
       end.

Definition calculateAverage (values : list bigint) : res bigint :=
  if bool_decide (length values = 0%nat) then Ret (NewInt 0) else
  total ← foldM big_Add (NewInt 0) values;
  big_Div total (NewInt (Z.of_nat (length values))).

Definition calculateStandardDeviation (values : list bigint) (mean : bigint) : res bigint :=
  if bool_decide (length values = 0%nat) then Ret (NewInt 0) else
  variance ← foldM (sum_squared_diffs mean) (NewInt 0) values;
  variance ← big_Div variance (NewInt (Z.of_nat (length values)));
  sqrt variance.

(** ** Trends *)

Definition calculateTrendDirection (prices : list bigint) : res (string * float64) :=
  if bool_decide (length prices < 2)%nat then Ret ("sideways", f_zero) else
  total ← foldM big_Add (NewInt 0) prices;
  avgPrice ← big_Div total (NewInt (Z.of_nat (length prices)));
  variance ← foldM (sum_squared_diffs avgPrice) (NewInt 0) prices;
  variance ← big_Div variance (NewInt (Z.of_nat (length prices)));
  stdDev ← sqrt variance;
  threshold ← big_Div avgPrice (NewInt 100);
  c ← big_Cmp stdDev threshold;
  if bool_decide (c < 0) then Ret ("sideways", f_zero) else
  aboveAvg ← foldM (λ aboveAvg price,
      c ← big_Cmp price avgPrice;
      mret (if bool_decide (0 < c) then aboveAvg + 1 else aboveAvg)) 0 prices;
  let strength := f_div (f_of_Z aboveAvg) (len_float prices) in
  if f_gtb strength (f_lit 6 10) then Ret ("up", strength)
  else if f_ltb strength (f_lit 4 10) then Ret ("down", f_sub f_one strength)
  else Ret ("sideways", f_zero).

Section predictor.
Context `{RangeOrder}.

(** [for _, state := range chainStates { prices = append(prices, state.Price) }] *)
Definition collect_prices (i : nat) (chainStates : gmap Z loc) : M St (list bigint) :=
  range_pools i chainStates (λ prices state, mret (prices ++ [ps_Price state])) [].

Definition calculateTrendConfidence (chainStates : gmap Z loc) : M St float64 :=
  if bool_decide (size chainStates < 2)%nat then mret f_zero else
  prices ← collect_prices 1 chainStates;
  avg ← lift (calculateAverage prices);
  c ← lift (big_Cmp avg (NewInt 0));
  if bool_decide (c = 0) then mret f_zero else
  stdDev ← lift (calculateStandardDeviation prices avg);
  cv ← lift (big_Mul stdDev (NewInt 100));
  cv ← lift (big_Div cv avg);
  cv ← lift (big_Int64 cv);
  let cvFloat := f_of_Z cv in
  mret (if f_gtb cvFloat (f_of_Z 10) then f_zero
        else if f_gtb cvFloat (f_of_Z 5) then f_lit 5 10
        else if f_gtb cvFloat (f_of_Z 2) then f_lit 8 10
        else f_one).

Definition analyzeTrend (globalState : GlobalPoolState) : M St MarketTrend :=
  let chainStates := gs_ChainStates globalState in
  if bool_decide (size chainStates < 2)%nat then
    mret (mkMarketTrend "sideways" f_zero f_zero 0)
  else
    prices ← collect_prices 0 chainStates;
    ds ← lift (wrap_res "failed to calculate trend direction: " (calculateTrendDirection prices));
    confidence ← calculateTrendConfidence chainStates;
    mret (mkMarketTrend ds.1 ds.2 confidence 300).

Definition calculatePriceChangePercent (trend : MarketTrend) (timeHorizon : Z) : Z :=
  let baseChange := f_to_i64 (f_mul (mt_Strength trend) (f_of_Z 100)) in
  let timeMultiplier := f_div (f_of_Z timeHorizon) (f_of_Z 300) in
  let change := f_mul (f_mul (f_of_Z baseChange) timeMultiplier) (mt_Confidence trend) in
  let change := if f_gtb change (f_of_Z 10) then f_of_Z 10 else change in
  let change := if f_ltb change (f_of_Z (-10)) then f_of_Z (-10) else change in
  f_to_i64 change.

Definition predictPrice (globalState : GlobalPoolState) (trend : MarketTrend) (timeHorizon : Z)
    : res bigint :=
  let currentPrice := gs_AveragePrice globalState in
  c ← big_Cmp currentPrice (NewInt 0);
  if bool_decide (c = 0) then Err "no current price available" else
  let changePercent := calculatePriceChangePercent trend timeHorizon in
  change ← big_Mul currentPrice (NewInt changePercent);
  change ← big_Div change (NewInt 100);
  predictedPrice ←
    (if bool_decide (mt_Direction trend = "up") then big_Add currentPrice change
     else if bool_decide (mt_Direction trend = "down") then big_Sub currentPrice change
     else mret currentPrice);
  c ← big_Cmp predictedPrice (NewInt 0);
  mret (if bool_decide (c < 0) then NewInt 1 else predictedPrice).

Definition predictLiquidity (globalState : GlobalPoolState) (predictedPrice : bigint)
    (timeHorizon : Z) : res bigint :=
  let currentLiquidity := gs_TotalLiquidity globalState in
  c ← big_Cmp currentLiquidity (NewInt 0);
  if bool_decide (c = 0) then Err "no current liquidity available" else
  let currentPrice := gs_AveragePrice globalState in
  c ← big_Cmp currentPrice (NewInt 0);
  if bool_decide (c = 0) then Ret currentLiquidity else
  priceChange ← big_Sub predictedPrice currentPrice;
  priceChangePercent ← big_Mul priceChange (NewInt 100);
  priceChangePercent ← big_Div priceChangePercent currentPrice;
  liquidityChange ← big_Mul currentLiquidity priceChangePercent;
  liquidityChange ← big_Div liquidityChange (NewInt 200);
  predictedLiquidity ← big_Add currentLiquidity liquidityChange;
  c ← big_Cmp predictedLiquidity (NewInt 0);
  mret (if bool_decide (c < 0) then NewInt 1 else predictedLiquidity).

Definition calculateConfidence (now : time) (globalState : GlobalPoolState) (trend : MarketTrend)
    : float64 :=
  let chainCount := size (gs_ChainStates globalState) in
  let baseConfidence := f_mul (mt_Confidence trend)
    (if bool_decide (3 ≤ chainCount)%nat then f_one
     else if bool_decide (chainCount = 2)%nat then f_lit 8 10 else f_lit 5 10) in
  let age := u64_sub (unix_u64 now) (gs_LastUpdateBlock globalState) in
  f_mul baseConfidence
    (if bool_decide (age < 60) then f_one
     else if bool_decide (age < 300) then f_lit 9 10
     else if bool_decide (age < 600) then f_lit 8 10 else f_lit 6 10).

Definition PredictPoolState (now1 now2 : time) (globalState : loc) (timeHorizon : Z)
    : M St PredictionResult :=
  gs ← load_global globalState;
  trend ← wrap "failed to analyze trend: " (analyzeTrend gs);
  predictedPrice ← lift (wrap_res "failed to predict price: " (predictPrice gs trend timeHorizon));
  predictedLiquidity ←
    lift (wrap_res "failed to predict liquidity: " (predictLiquidity gs predictedPrice timeHorizon));
  let confidence := calculateConfidence now1 gs trend in
  mret (mkPredictionResult predictedPrice predictedLiquidity confidence timeHorizon
          (unix_u64 now2)).

(** ** Rebalancing *)

Definition calculateImbalance (i : nat) (globalState : GlobalPoolState) : M St bigint :=
  let chainStates := gs_ChainStates globalState in
  if bool_decide (size chainStates < 2)%nat then mret (NewInt 0) else
  expectedPerChain ←
    lift (big_Div (gs_TotalLiquidity globalState) (NewInt (Z.of_nat (size chainStates))));
  range_pools i chainStates
    (λ totalDeviation state,
      deviation ← big_AbsDiff (ps_TotalLiquidity state) expectedPerChain;
      big_Add totalDeviation deviation) (NewInt 0).

Definition predictImbalance (i : nat) (globalState : GlobalPoolState) (timeHorizon : Z)
    : M St bigint := calculateImbalance i globalState.

Definition calculateImbalancePercent (imbalance totalLiquidity : bigint) : res float64 :=
  c ← big_Cmp totalLiquidity (NewInt 0);
  if bool_decide (c = 0) then Ret f_zero else
  percent ← big_Mul imbalance (NewInt 100);
  percent ← big_Div percent totalLiquidity;
  percent ← big_Int64 percent;
  mret (f_of_Z percent).

Definition calculateRebalancingAmount (globalState : GlobalPoolState) (imbalance : bigint)
    : res bigint :=
  rebalancingAmount ← big_Div imbalance (NewInt 2);
  let minAmount := NewInt 1000000000000000000 in
  maxAmount ← big_Div (gs_TotalLiquidity globalState) (NewInt 10);
  c ← big_Cmp rebalancingAmount minAmount;
  let rebalancingAmount := if bool_decide (c < 0) then minAmount else rebalancingAmount in
  c ← big_Cmp rebalancingAmount maxAmount;
  mret (if bool_decide (0 < c) then maxAmount else rebalancingAmount).

Definition PredictRebalancingNeed (globalState : loc) (threshold : float64) : M St (bool * bigint) :=
  gs ← load_global globalState;
  currentImbalance ← calculateImbalance 0 gs;
  futureImbalance ← wrap "failed to predict imbalance: " (predictImbalance 1 gs 300);
  imbalancePercent ← lift (calculateImbalancePercent futureImbalance (gs_TotalLiquidity gs));
  let needsRebalancing := f_gtb imbalancePercent threshold in
  rebalancingAmount ←
    (if needsRebalancing then lift (calculateRebalancingAmount gs futureImbalance)
     else mret None);
  mret (needsRebalancing, rebalancingAmount).
End predictor.
