(* ===== verification/PredictorProps.v ===== *)
(** * The predictor's contract ([pkg/state/predictor.go])

    Each method computes a function of the multiset of chain states; the
    predictions stay in a band around the current values, the rebalancing
    amounts within theirs, and the confidence reads a block number as a time. *)

From S2P Require Import Prelude Float64 Float64Facts BigInt StateTypes Aggregator AggregatorProps.
From S2P Require Import Predictor.

(** ** What the trend is, as arithmetic on the list of prices *)

Definition mean_of (ps : list Z) : Z := Zsum id ps / Z.of_nat (length ps).
Definition deviation_of (ps : list Z) : Z :=
  Z.sqrt (Zsum (λ p, (p - mean_of ps) * (p - mean_of ps)) ps / Z.of_nat (length ps)).
Definition above (ps : list Z) : Z := Zsum (λ p, if bool_decide (mean_of ps < p) then 1 else 0) ps.
Definition strength_of (ps : list Z) : float64 :=
  f_div (f_of_Z (above ps)) (f_of_Z (Z.of_nat (length ps))).

Definition spec_direction (ps : list Z) : string * float64 :=
  if bool_decide (deviation_of ps < mean_of ps / 100) then ("sideways", f_zero)
  else if f_gtb (strength_of ps) (f_lit 6 10) then ("up", strength_of ps)
  else if f_ltb (strength_of ps) (f_lit 4 10) then ("down", f_sub f_one (strength_of ps))
  else ("sideways", f_zero).

Definition spec_consistency (ps : list Z) : float64 :=
  if bool_decide (mean_of ps = 0) then f_zero else
  let cv := f_of_Z (i64 (euclid_div (deviation_of ps * 100) (mean_of ps))) in
  if f_gtb cv (f_of_Z 10) then f_zero else if f_gtb cv (f_of_Z 5) then f_lit 5 10
  else if f_gtb cv (f_of_Z 2) then f_lit 8 10 else f_one.

Definition spec_trend (ps : list Z) : MarketTrend :=
  if bool_decide (length ps < 2)%nat then mkMarketTrend "sideways" f_zero f_zero 0
  else mkMarketTrend (spec_direction ps).1 (spec_direction ps).2 (spec_consistency ps) 300.

#[export] Instance mean_of_perm : Proper ((≡ₚ) ==> (=)) mean_of.
Proof. intros l1 l2 E. unfold mean_of. by rewrite E. Qed.
#[export] Instance deviation_of_perm : Proper ((≡ₚ) ==> (=)) deviation_of.
Proof.
  intros l1 l2 E. unfold deviation_of. assert (mean_of l1 = mean_of l2) as -> by by rewrite E.
  by rewrite E.
Qed.
#[export] Instance strength_of_perm : Proper ((≡ₚ) ==> (=)) strength_of.
Proof.
  intros l1 l2 E. unfold strength_of, above. assert (mean_of l1 = mean_of l2) as -> by by rewrite E.
  by rewrite E.
Qed.
#[export] Instance spec_direction_perm : Proper ((≡ₚ) ==> (=)) spec_direction.
Proof.
  intros l1 l2 E. unfold spec_direction.
  assert (mean_of l1 = mean_of l2) as -> by by rewrite E.
  assert (deviation_of l1 = deviation_of l2) as -> by by rewrite E.
  by assert (strength_of l1 = strength_of l2) as -> by by rewrite E.
Qed.
#[export] Instance spec_consistency_perm : Proper ((≡ₚ) ==> (=)) spec_consistency.
Proof.
  intros l1 l2 E. unfold spec_consistency.
  assert (mean_of l1 = mean_of l2) as -> by by rewrite E.
  by assert (deviation_of l1 = deviation_of l2) as -> by by rewrite E.
Qed.

(** ** The helper functions on lists of integers *)

Lemma sqrt_method n : Predictor.sqrt n = Aggregator.sqrt n.
Proof. done. Qed.

Lemma foldM_sum z ps :
  foldM big_Add (Some z) (Some <$> ps) = Ret (Some (z + Zsum id ps)).
Proof.
  rewrite (foldM_rep_res Some (λ y p, y + default 0 p)).
  - by rewrite foldl_Zsum, Zsum_map.
  - intros y p Hp. apply list_elem_of_fmap in Hp as (q & -> & _). done.
Qed.

Lemma variance_chain m ps :
  ps ≠ [] →
  (variance ← foldM (sum_squared_diffs (Some m)) (NewInt 0) (Some <$> ps);
   variance ← big_Div variance (NewInt (Z.of_nat (length (Some <$> ps))));
   Predictor.sqrt variance) =
    Ret (Some (Z.sqrt (Zsum (λ p, (p - m) * (p - m)) ps / Z.of_nat (length ps)))).
Proof.
  intros Hne. assert (0 < Z.of_nat (length ps)) by (destruct ps; [done|cbn; lia]).
  rewrite foldM_squared_diffs, length_fmap. cbn [mbind res_bind].
  unfold NewInt. rewrite big_Div_Some, euclid_div_pos by lia. cbn [mbind res_bind].
  by rewrite sqrt_method, sqrt_floor.
Qed.

Lemma average_eq ps :
  ps ≠ [] → calculateAverage (Some <$> ps) = Ret (Some (mean_of ps)).
Proof.
  intros Hne. assert (0 < Z.of_nat (length ps)) by (destruct ps; [done|cbn; lia]).
  unfold calculateAverage. rewrite length_fmap, bool_decide_eq_false_2 by lia.
  unfold NewInt. rewrite foldM_sum. cbn [mbind res_bind].
  by rewrite big_Div_Some, euclid_div_pos by lia.
Qed.

Lemma standard_deviation_eq ps :
  ps ≠ [] →
  calculateStandardDeviation (Some <$> ps) (Some (mean_of ps)) = Ret (Some (deviation_of ps)).
Proof.
  intros Hne. unfold calculateStandardDeviation.
  rewrite bool_decide_eq_false_2 by (rewrite length_fmap; by destruct ps).
  by apply variance_chain.
Qed.

Lemma count_above avg ps z :
  foldM (λ aboveAvg price, c ← big_Cmp price (Some avg);
    mret (if bool_decide (0 < c) then aboveAvg + 1 else aboveAvg)) z (Some <$> ps) =
    Ret (z + Zsum (λ p, if bool_decide (avg < p) then 1 else 0) ps).
Proof.
  rewrite (foldM_rep_res (λ y : Z, y)
    (λ y p, y + default 0 ((λ q, if bool_decide (avg < q) then 1 else 0) <$> p))).
  - by rewrite foldl_Zsum, Zsum_map.
  - intros y p Hp. apply list_elem_of_fmap in Hp as (q & -> & _).
    rewrite big_Cmp_Some. cbn [mbind res_bind]. rewrite sgn_gt. cbn.
    case_bool_decide; unfold mret, res_ret; f_equal; lia.
Qed.

Lemma trend_direction_eq ps :
  (2 ≤ length ps)%nat → calculateTrendDirection (Some <$> ps) = Ret (spec_direction ps).
Proof.
  intros Hlen. assert (ps ≠ []) as Hne by (by destruct ps; [cbn in Hlen; lia|]).
  unfold calculateTrendDirection, spec_direction.
  rewrite length_fmap, bool_decide_eq_false_2 by lia.
  unfold NewInt at 1. rewrite foldM_sum, Z.add_0_l. cbn [mbind res_bind]. unfold NewInt at 1.
  rewrite big_Div_Some, euclid_div_pos by lia. cbn [mbind res_bind]. fold (mean_of ps).
  pose proof (variance_chain (mean_of ps) ps Hne) as E. rewrite length_fmap in E.
  destruct (foldM _ _ _) as [v|e|p]; cbn [mbind res_bind] in *; [|done..].
  destruct (big_Div v _) as [v'|e|p]; cbn [mbind res_bind] in *; [|done..].
  rewrite E. cbn [mbind res_bind]. fold (deviation_of ps). unfold NewInt.
  rewrite big_Div_Some, euclid_div_pos by lia. cbn [mbind res_bind].
  rewrite big_Cmp_Some. cbn [mbind res_bind]. rewrite sgn_lt.
  case_bool_decide; [done|].
  rewrite count_above, Z.add_0_l. cbn [mbind res_bind]. unfold len_float. rewrite length_fmap.
  fold (above ps). fold (strength_of ps).
  destruct (f_gtb _ _); [reflexivity|]. destruct (f_ltb _ _); reflexivity.
Qed.

(** ** The trend of a pool *)

Section trend.
Context `{RangeOrder} (σ : St) (gs : GlobalPoolState) (Hwf : wf_chains σ (gs_ChainStates gs)).
Let ss : list PoolState := pools_of σ (gs_ChainStates gs).

Lemma collect_prices_eq i :
  ∃ ps, collect_prices i (gs_ChainStates gs) σ = (σ, Ret (Some <$> ps)) ∧
    ps ≡ₚ price <$> ss ∧ length ps = size (gs_ChainStates gs).
Proof using Hwf.
  exists (price <$> pools_in σ (range_list i (gs_ChainStates gs))).
  split; [exact (range_prices σ _ Hwf i)|].
  rewrite length_fmap. split; [by rewrite pools_in_range|].
  rewrite <- (pools_of_length _ _ Hwf). by rewrite pools_in_range.
Qed.

Lemma trend_confidence_eq :
  (2 ≤ size (gs_ChainStates gs))%nat →
  calculateTrendConfidence (gs_ChainStates gs) σ = (σ, Ret (spec_consistency (price <$> ss))).
Proof using Hwf.
  intros Hsz. unfold calculateTrendConfidence. rewrite bool_decide_eq_false_2 by lia.
  destruct (collect_prices_eq 1) as (ps & E & Hperm & Hlen). erewrite M_bind_ret by exact E.
  assert (ps ≠ []) as Hne by (intros ->; cbn in Hlen; lia).
  erewrite M_bind_ret by (unfold lift; by rewrite average_eq).
  erewrite M_bind_ret by (unfold lift; by rewrite big_Cmp_zero). rewrite sgn_zero.
  rewrite <- Hperm. unfold spec_consistency. case_bool_decide as Hz; [done|].
  erewrite M_bind_ret by (unfold lift; by rewrite standard_deviation_eq).
  erewrite M_bind_ret by done. erewrite M_bind_ret by (unfold lift; by rewrite big_Div_Some).
  by erewrite M_bind_ret by done.
Qed.

Lemma analyze_trend_eq : analyzeTrend gs σ = (σ, Ret (spec_trend (price <$> ss))).
Proof using Hwf.
  unfold analyzeTrend, spec_trend. rewrite length_fmap. unfold ss.
  rewrite (pools_of_length _ _ Hwf). case_bool_decide as Hsz; [done|].
  destruct (collect_prices_eq 0) as (ps & E & Hperm & Hlen). erewrite M_bind_ret by exact E.
  erewrite M_bind_ret by (unfold lift; by rewrite trend_direction_eq by lia).
  erewrite M_bind_ret by (apply trend_confidence_eq; lia).
  by rewrite Hperm.
Qed.

(** What follows the trend, without effects. *)
Definition prediction (now1 now2 : time) (gs : GlobalPoolState) (trend : MarketTrend) (th : Z)
    : res PredictionResult :=
  predictedPrice ← wrap_res "failed to predict price: " (predictPrice gs trend th);
  predictedLiquidity ←
    wrap_res "failed to predict liquidity: " (predictLiquidity gs predictedPrice th);
  mret (mkPredictionResult predictedPrice predictedLiquidity (calculateConfidence now1 gs trend) th
    (unix_u64 now2)).

Lemma predict_eq now1 now2 g th :
  st_globals σ !! g = Some gs →
  PredictPoolState now1 now2 g th σ =
    (σ, prediction now1 now2 gs (spec_trend (price <$> ss)) th).
Proof using Hwf.
  intros Hg. unfold PredictPoolState, prediction. go_ret.
  erewrite M_bind_ret by (apply wrap_ret, analyze_trend_eq).
  destruct (wrap_res _ (predictPrice _ _ _)) as [p|e|pa] eqn:E; cbn [mbind res_bind];
    [|by apply M_bind_err|by apply M_bind_panic].
  erewrite M_bind_ret by done.
  destruct (wrap_res _ (predictLiquidity _ _ _)) as [l|e|pa]; cbn [mbind res_bind];
    [by erewrite M_bind_ret by done|by apply M_bind_err|by apply M_bind_panic].
Qed.
End trend.

(** ** The trend is a small number *)

Definition small_trend (t : MarketTrend) : Prop :=
  within (-221) (-51) (mt_Strength t) ∧ nonneg (mt_Strength t) ∧
  within (-60) 0 (mt_Confidence t) ∧ nonneg (mt_Confidence t).

Lemma above_bounds ps : 0 ≤ above ps ≤ Z.of_nat (length ps).
Proof.
  unfold above. split; [apply Zsum_nonneg; intros; by case_bool_decide|].
  transitivity (Zsum (λ _, 1) ps); [|rewrite Zsum_const; lia].
  apply Zsum_le. intros. case_bool_decide; lia.
Qed.

Lemma strength_small ps :
  (0 < length ps)%nat → Z.of_nat (length ps) < 2 ^ 32 →
  within (-169) (-51) (strength_of ps) ∧ nonneg (strength_of ps).
Proof. intros Hpos Hlen. pose proof (above_bounds ps). apply ratio_within; lia. Qed.

Lemma consistency_small ps : within (-60) 0 (spec_consistency ps) ∧ nonneg (spec_consistency ps).
Proof. unfold spec_consistency. repeat case_match; vm_compute; intuition discriminate. Qed.

Lemma trend_small ps : Z.of_nat (length ps) < 2 ^ 32 → small_trend (spec_trend ps).
Proof.
  intros Hlen. unfold small_trend, spec_trend. case_bool_decide; [done|]. cbn.
  pose proof (strength_small ps ltac:(lia) Hlen) as [W N].
  pose proof (consistency_small ps) as [W' N']. split_and!; try done; unfold spec_direction.
  - destruct (bool_decide _); [done|]. destruct (f_gtb _ _); cbn [snd]; [by eapply within_weaken|].
    destruct (f_ltb _ _) eqn:E; cbn [snd]; [|done].
    destruct (one_minus_within _ _ _ W ltac:(lia) N E). by eapply within_weaken.
  - destruct (bool_decide _); [done|]. destruct (f_gtb _ _); cbn [snd]; [done|].
    destruct (f_ltb _ _) eqn:E; cbn [snd]; [|done].
    by destruct (one_minus_within _ _ _ W ltac:(lia) N E).
Qed.

(** The numbers [calculatePriceChangePercent] goes through. *)
Definition change_floats (t : MarketTrend) (th : Z) : list float64 :=
  let scaled := f_mul (mt_Strength t) (f_of_Z 100) in
  let base := f_of_Z (f_to_i64 scaled) in
  let multiplier := f_div (f_of_Z th) (f_of_Z 300) in
  [mt_Strength t; mt_Confidence t; scaled; base; multiplier; f_mul base multiplier;
   f_mul (f_mul base multiplier) (mt_Confidence t)].

(** They are finite, and the predicted price change is between 0 and 10 percent. *)
Lemma change_percent_bounds t th :
  small_trend t → is_u64 th →
  0 ≤ calculatePriceChangePercent t th ≤ 10 ∧ Forall finite (change_floats t th).
Proof.
  intros (Ws & Ns & Wc & Nc) Hth. unfold calculatePriceChangePercent, change_floats, is_u64 in *.
  assert (within (-52) (-46) (f_of_Z 100) ∧ nonneg (f_of_Z 100)) as [W100 N100]
    by (vm_compute; intuition discriminate).
  pose proof (f_mul_within _ _ _ _ _ _ Ws W100 ltac:(lia) ltac:(lia)) as W0.
  pose proof (trunc_small _ _ W0
    (f_mul_nonneg _ _ _ _ _ _ Ws W100 ltac:(lia) ltac:(lia) Ns N100)) as Hbase.
  cbn zeta. set (base := f_to_i64 (f_mul (mt_Strength t) (f_of_Z 100))) in *. clearbody base.
  destruct (f_of_Z_within base ltac:(lia)) as (Wb & Nb & _).
  destruct (f_of_Z_within th ltac:(lia)) as (Wt & Nt & _).
  destruct (f_of_Z_within 300 ltac:(lia)) as (W3 & N3 & Z3).
  destruct (f_div_within _ _ _ _ _ _ Wt W3 (Z3 ltac:(lia))) as [Wm Nm]; [lia..|].
  specialize (Nb ltac:(lia)). specialize (Nm (Nt ltac:(lia)) (N3 ltac:(lia))).
  pose proof (f_mul_within _ _ _ _ _ _ Wb Wm ltac:(lia) ltac:(lia)) as Wx.
  pose proof (f_mul_nonneg _ _ _ _ _ _ Wb Wm ltac:(lia) ltac:(lia) Nb Nm) as Nx.
  pose proof (f_mul_nonneg _ _ _ _ _ _ Wx Wc ltac:(lia) ltac:(lia) Nx Nc) as Ny.
  apply (f_mul_within _ _ _ _ _ _ Wx) in Wc as Wy; [|lia..].
  split; [|repeat constructor; by eapply within_finite].
  set (y := f_mul (f_mul _ _) _) in *. clearbody y.
  destruct (f_gtb y (f_of_Z 10)) eqn:E1; [vm_compute; split; discriminate|].
  destruct (f_ltb y (f_of_Z (-10))) eqn:E2.
  - rewrite f_minus_ten_eq in E2. unfold f_ltb, SpecFloat.SFltb, SpecFloat.SFcompare in E2.
    destruct y; unfold nonneg in Ny; subst; (discriminate E2 || destruct Ny).
  - destruct (trunc_capped _ _ _ Wy E1 E2) as [? Hn]. specialize (Hn Ny). lia.
Qed.

(** ** Predictions stay in a band *)

Definition moved (t : MarketTrend) (current change : Z) : Z :=
  if bool_decide (mt_Direction t = "up") then current + change
  else if bool_decide (mt_Direction t = "down") then current - change else current.

Lemma predict_price_eq gs t th avg :
  gs_AveragePrice gs = Some avg → 0 < avg → 0 ≤ calculatePriceChangePercent t th ≤ 10 →
  ∃ p, predictPrice gs t th = Ret (Some p) ∧ 10 * Z.abs (p - avg) ≤ avg ∧
    p = moved t avg (avg * calculatePriceChangePercent t th / 100) ∧ 0 ≤ p.
Proof.
  intros Havg Hpos Hpct. unfold predictPrice. rewrite Havg, big_Cmp_zero. cbn [mbind res_bind].
  rewrite sgn_zero, bool_decide_eq_false_2 by lia.
  set (pct := calculatePriceChangePercent t th) in *. clearbody pct.
  unfold NewInt. cbn [big_Mul big_op2 mbind res_bind].
  rewrite big_Div_Some, euclid_div_pos by lia. cbn [mbind res_bind].
  pose proof (Z.div_mod (avg * pct) 100 ltac:(lia)) as Hdm.
  pose proof (Z.mod_pos_bound (avg * pct) 100 ltac:(lia)) as Hmb.
  set (ch := avg * pct / 100) in *. clearbody ch.
  assert (0 ≤ avg * pct ≤ 10 * avg) by nia.
  assert (10 * Z.abs ch ≤ avg) as Hch by lia.
  exists (moved t avg ch).
  assert (10 * Z.abs (moved t avg ch - avg) ≤ avg ∧ 0 ≤ moved t avg ch) as [Hm Hm0].
  { unfold moved. repeat case_bool_decide; lia. }
  split; [|done]. unfold moved in *.
  destruct (bool_decide (mt_Direction t = "up")); [|destruct (bool_decide (mt_Direction t = "down"))];
    cbn [big_Add big_Sub big_op2 mbind res_bind mret res_ret];
    rewrite big_Cmp_Some; cbn [mbind res_bind]; rewrite bool_decide_eq_false_2 by lia; done.
Qed.

(** The liquidity follows half the percentage of the price, both rounded down. *)
Lemma predict_liquidity_eq gs p th avg tl :
  gs_AveragePrice gs = Some avg → gs_TotalLiquidity gs = Some tl → 0 < avg → 0 < tl →
  10 * Z.abs (p - avg) ≤ avg →
  let l := tl + tl * ((p - avg) * 100 / avg) / 200 in
  predictLiquidity gs (Some p) th = Ret (Some l) ∧
  20 * Z.abs (l - tl) ≤ tl + 19 ∧ (avg ≤ p → tl ≤ l) ∧ (p < avg → l < tl).
Proof.
  intros Havg Htl Hpos Htlpos Hp l. unfold predictLiquidity.
  rewrite Htl, big_Cmp_zero. cbn [mbind res_bind]. rewrite sgn_zero, bool_decide_eq_false_2 by lia.
  rewrite Havg, big_Cmp_zero. cbn [mbind res_bind]. rewrite sgn_zero, bool_decide_eq_false_2 by lia.
  unfold NewInt. cbn [big_Sub big_Mul big_op2 mbind res_bind].
  rewrite big_Div_Some, euclid_div_pos by lia. cbn [big_Mul big_op2 mbind res_bind].
  rewrite big_Div_Some, euclid_div_pos by lia. cbn [big_Add big_op2 mbind res_bind]. fold l.
  pose proof (Z.div_mod ((p - avg) * 100) avg ltac:(lia)) as Hdm'.
  pose proof (Z.mod_pos_bound ((p - avg) * 100) avg ltac:(lia)) as Hmb'.
  subst l. set (pct := (p - avg) * 100 / avg) in *. clearbody pct.
  assert (-10 ≤ pct ≤ 10 ∧ (avg ≤ p → 0 ≤ pct) ∧ (p < avg → pct ≤ -1)) as (Hpct & Hup & Hdown)
    by (split_and!; nia).
  pose proof (Z.div_mod (tl * pct) 200 ltac:(lia)) as Hdm.
  pose proof (Z.mod_pos_bound (tl * pct) 200 ltac:(lia)) as Hmb.
  assert (-10 * tl ≤ tl * pct ≤ 10 * tl) by nia.
  split; [rewrite big_Cmp_Some; cbn [mbind res_bind]; by rewrite bool_decide_eq_false_2 by lia|].
  split; [lia|]. split; intros Hcmp; [specialize (Hup Hcmp)|specialize (Hdown Hcmp)]; nia.
Qed.

(** The confidence is one of finitely many products, all between 0 and 1. *)
Definition unit_interval (x : float64) : bool := finite x && f_leb f_zero x && f_leb x f_one.

Lemma prediction_confidence_table :
  Forall (λ c, Forall (λ f, Forall (λ g, unit_interval (f_mul (f_mul c f) g) = true)
    [f_one; f_lit 9 10; f_lit 8 10; f_lit 6 10]) [f_one; f_lit 8 10; f_lit 5 10])
    [f_zero; f_lit 5 10; f_lit 8 10; f_one].
Proof. refine (bool_decide_eq_true_1 _ _). vm_compute. reflexivity. Qed.

Lemma spec_trend_confidence ps :
  mt_Confidence (spec_trend ps) ∈ [f_zero; f_lit 5 10; f_lit 8 10; f_one].
Proof.
  unfold spec_trend, spec_consistency. repeat case_match; cbn [mt_Confidence];
    repeat (first [apply list_elem_of_here | apply list_elem_of_further]).
Qed.

Lemma confidence_unit now gs ps : unit_interval (calculateConfidence now gs (spec_trend ps)).
Proof.
  pose proof (proj1 (Forall_forall _ _) prediction_confidence_table _ (spec_trend_confidence ps)) as T. cbn beta in T.
  apply Is_true_true. unfold calculateConfidence.
  refine (proj1 (Forall_forall _ _) (proj1 (Forall_forall _ _) T _ _) _ _);
    repeat case_bool_decide; repeat (first [apply list_elem_of_here | apply list_elem_of_further]).
Qed.

(** [C14] For a pool with positive average price and liquidity the prediction
    always exists.  The price moves in the direction of the trend by a whole
    percentage between 0 and 10, the one [calculatePriceChangePercent] gives, so
    by at most a tenth.  The liquidity moves by half the percentage of the
    price, both rounded down, hence up when the price rises or stays and down by
    at least one unit when it falls, by at most a twentieth and the rounding.
    Every number on the way to the percentage is finite, whatever the number of
    chains and the time horizon, and the confidence lies between 0 and 1. *)
Theorem PredictPoolState_band `{RangeOrder} σ g gs avg tl now1 now2 th :
  st_globals σ !! g = Some gs → wf_chains σ (gs_ChainStates gs) →
  Z.of_nat (size (gs_ChainStates gs)) < 2 ^ 32 → is_u64 th →
  gs_AveragePrice gs = Some avg → gs_TotalLiquidity gs = Some tl → 0 < avg → 0 < tl →
  let t := spec_trend (price <$> pools_of σ (gs_ChainStates gs)) in
  let pct := calculatePriceChangePercent t th in
  let p := moved t avg (avg * pct / 100) in
  let l := tl + tl * ((p - avg) * 100 / avg) / 200 in
  let confidence := calculateConfidence now1 gs t in
  PredictPoolState now1 now2 g th σ =
    (σ, Ret (mkPredictionResult (Some p) (Some l) confidence th (unix_u64 now2))) ∧
  0 ≤ pct ≤ 10 ∧ 10 * Z.abs (p - avg) ≤ avg ∧
  20 * Z.abs (l - tl) ≤ tl + 19 ∧ (avg ≤ p → tl ≤ l) ∧ (p < avg → l < tl) ∧
  Forall finite (change_floats t th) ∧ unit_interval confidence.
Proof.
  intros Hg Hwf Hsz Hth Havg Htl Ha Hl t pct p l confidence.
  assert (small_trend t) as Ht.
  { apply trend_small. by rewrite length_fmap, (pools_of_length _ _ Hwf). }
  destruct (change_percent_bounds t th Ht Hth) as [Hpct Hfin].
  destruct (predict_price_eq gs t th avg Havg Ha Hpct) as (p' & Ep & Hp & -> & _).
  change (moved t avg _) with p in Ep, Hp.
  destruct (predict_liquidity_eq gs p th avg tl Havg Htl Ha Hl Hp) as (El & Hb & Hup & Hdown).
  split; [|split_and!; try done; try lia; apply confidence_unit].
  rewrite (predict_eq σ gs Hwf now1 now2 g th Hg). unfold prediction. fold t.
  by rewrite Ep; cbn [wrap_res mbind res_bind]; rewrite El.
Qed.

(** ** Independence of the range order *)

Lemma imbalance_eq `{RangeOrder} σ gs i t :
  wf_chains σ (gs_ChainStates gs) → gs_TotalLiquidity gs = Some t →
  let ss := pools_of σ (gs_ChainStates gs) in
  calculateImbalance i gs σ =
    (σ, Ret (Some (if bool_decide (length ss < 2)%nat then 0 else spec_deviation t ss))).
Proof.
  intros Hwf Ht ss. unfold calculateImbalance. unfold ss. rewrite (pools_of_length _ _ Hwf).
  case_bool_decide; [done|]. rewrite Ht.
  erewrite M_bind_ret by (unfold lift, NewInt; by rewrite big_Div_Some by lia).
  rewrite euclid_div_pos by lia.
  rewrite (range_pools_sum _ _ Hwf i _
    (λ p, Z.abs (liq p - t / Z.of_nat (size (gs_ChainStates gs))))).
  - unfold spec_deviation. by rewrite (pools_of_length _ _ Hwf).
  - intros y p (E & _)%wf_pool_fields. by rewrite E, big_AbsDiff_Some.
Qed.

(** Neither a prediction nor a rebalancing decision depends on the order
    in which Go ranges over the chain map, which it does up to four times with
    a fresh order each. *)
Theorem predictions_order_irrelevant (R1 R2 : RangeOrder) σ g gs t now1 now2 th threshold :
  st_globals σ !! g = Some gs → wf_chains σ (gs_ChainStates gs) →
  gs_TotalLiquidity gs = Some t →
  @PredictPoolState R1 now1 now2 g th σ = @PredictPoolState R2 now1 now2 g th σ ∧
  @PredictRebalancingNeed R1 g threshold σ = @PredictRebalancingNeed R2 g threshold σ.
Proof.
  intros Hg Hwf Ht. split; [by rewrite !(predict_eq σ gs Hwf) by done|].
  unfold PredictRebalancingNeed, predictImbalance. go_ret. symmetry. go_ret.
  do 2 erewrite M_bind_ret by (first [apply wrap_ret|idtac]; by apply imbalance_eq).
  symmetry. by do 2 erewrite M_bind_ret by (first [apply wrap_ret|idtac]; by apply imbalance_eq).
Qed.

(** ** Rebalancing *)

(** The decision as arithmetic on the chain states of the pool. *)
Definition imbalance_percent (ss : list PoolState) : Z := spec_imbalance (total_liq ss) ss.
Definition rebalancing_amount (ss : list PoolState) : Z :=
  Z.min (Z.max (spec_deviation (total_liq ss) ss / 2) 1000000000000000000) (total_liq ss / 10).

Lemma imbalance_percent_bounds ss :
  Forall (λ p, 0 ≤ liq p) ss → 0 < total_liq ss → 0 ≤ imbalance_percent ss ≤ 200.
Proof.
  intros Hl Ht. unfold imbalance_percent, spec_imbalance. case_bool_decide; [lia|].
  rewrite euclid_div_pos by done. pose proof (spec_deviation_bounds ss Hl ltac:(lia)).
  split; [apply Z.div_pos; lia|apply Z.div_le_upper_bound; lia].
Qed.

Lemma rebalancing_amount_eq gs t d :
  gs_TotalLiquidity gs = Some t →
  calculateRebalancingAmount gs (Some d) =
    Ret (Some (Z.min (Z.max (d / 2) 1000000000000000000) (t / 10))).
Proof.
  intros Ht. unfold calculateRebalancingAmount, NewInt. rewrite Ht.
  rewrite !big_Div_Some, !euclid_div_pos by lia. cbn [mbind res_bind].
  rewrite big_Cmp_Some. cbn [mbind res_bind]. rewrite sgn_lt.
  case_bool_decide; rewrite big_Cmp_Some; cbn [mbind res_bind]; rewrite sgn_gt;
    case_bool_decide; unfold mret, res_ret; do 2 f_equal; lia.
Qed.

(** The whole percentages against the fraction 0.05. *)
Lemma percent_table :
  Forall (λ n, f_gtb (f_of_Z n) (f_lit 5 100) = bool_decide (1 ≤ n)) (seqZ 0 201).
Proof. refine (bool_decide_eq_true_1 _ _). vm_compute. reflexivity. Qed.

(** [C16] The rebalancing decision in a consistent store: it compares the
    imbalance in whole percents (0 to 200) with the threshold, and proposes half
    the deviation, raised to one token and then cut to a tenth of the liquidity,
    so never more than that tenth even when that is less than one token.  The
    threshold 0.05, meant as 5%, fires from 1% on. *)
Theorem PredictRebalancingNeed_decides `{RangeOrder} σ g gs id threshold :
  Good σ → st_poolStates σ !! id = Some g → st_globals σ !! g = Some gs →
  let ss := pools_of σ (gs_ChainStates gs) in
  Forall (λ p, 0 ≤ liq p) ss → 0 < total_liq ss → (2 ≤ length ss)%nat →
  let need := f_gtb (f_of_Z (imbalance_percent ss)) threshold in
  0 ≤ imbalance_percent ss ≤ 200 ∧
  PredictRebalancingNeed g threshold σ =
    (σ, Ret (need, if need then Some (rebalancing_amount ss) else None)) ∧
  0 ≤ rebalancing_amount ss ≤ total_liq ss / 10 ∧
  (total_liq ss < 10000000000000000000 → rebalancing_amount ss < 1000000000000000000) ∧
  (threshold = f_lit 5 100 → need = bool_decide (1 ≤ imbalance_percent ss)).
Proof.
  intros [HI _] Eid Hg ss Hl Ht Hlen need.
  destruct (inv_pool _ HI _ _ Eid) as (gs' & Hg' & _ & _ & Hwf & Htot & _).
  assert (gs' = gs) as -> by congruence. fold ss in Htot.
  pose proof (imbalance_percent_bounds ss Hl Ht) as Hb. split; [done|].
  pose proof (spec_deviation_bounds ss Hl ltac:(lia)) as Hd.
  pose proof (Z.div_pos (total_liq ss) 10 ltac:(lia) ltac:(lia)).
  assert (total_liq ss < 10000000000000000000 → total_liq ss / 10 < 1000000000000000000) as Hten
    by (intros; apply Z.div_lt_upper_bound; lia).
  split; [|unfold rebalancing_amount; split_and!; [lia..|]]; cycle 1.
  { intros ->. apply (proj1 (Forall_forall _ _) percent_table). apply elem_of_seqZ. lia. }
  unfold PredictRebalancingNeed, predictImbalance. go_ret.
  do 2 erewrite M_bind_ret by (first [apply wrap_ret|idtac]; by apply imbalance_eq).
  fold ss. rewrite bool_decide_eq_false_2 by lia. rewrite Htot.
  assert (calculateImbalancePercent (Some (spec_deviation (total_liq ss) ss)) (Some (total_liq ss)) =
    Ret (f_of_Z (imbalance_percent ss))) as E.
  { unfold calculateImbalancePercent, NewInt. rewrite big_Cmp_Some. cbn [mbind res_bind].
    rewrite bool_decide_eq_false_2 by lia. cbn [big_Mul big_op2 mbind res_bind].
    rewrite big_Div_Some by lia. cbn [big_Int64 mbind res_bind mret res_ret].
    unfold imbalance_percent, spec_imbalance in Hb |- *.
    rewrite bool_decide_eq_false_2 in Hb |- * by lia.
    by rewrite (i64_id (euclid_div _ _)) by (unfold is_i64; lia). }
  erewrite M_bind_ret by (unfold lift; by rewrite E). fold need.
  destruct need; [|done].
  by erewrite M_bind_ret by (unfold lift; by rewrite (rebalancing_amount_eq gs _ _ Htot)).
Qed.

(** ** Freshness is read off a block number *)

Lemma stale_table :
  Forall (λ c, Forall (λ f, f_leb (f_mul (f_mul c f) (f_lit 6 10)) (f_lit 6 10) = true)
    [f_one; f_lit 8 10; f_lit 5 10]) [f_zero; f_lit 5 10; f_lit 8 10; f_one].
Proof. refine (bool_decide_eq_true_1 _ _). vm_compute. reflexivity. Qed.

(** How the number of chains weighs on the confidence. *)
Definition chains_factor (n : nat) : float64 :=
  if bool_decide (3 ≤ n)%nat then f_one else if bool_decide (n = 2)%nat then f_lit 8 10 else f_lit 5 10.

(** [C19] The age in the confidence is the clock minus the latest {e block
    number}: as long as block numbers are smaller than Unix times by ten
    minutes, a prediction always counts as stale.  Its confidence is that of the
    trend times the factors of the number of chains and of the oldest reports,
    0.6, at most 0.6, whatever the clock and whenever the reports were recorded,
    even this very second. *)
Theorem confidence_always_stale `{RangeOrder} σ g gs id now1 now2 th r :
  Good σ → st_poolStates σ !! id = Some g → st_globals σ !! g = Some gs →
  let ss := pools_of σ (gs_ChainStates gs) in
  total_liq ss ≠ 0 → Unix now1 < 2 ^ 63 →
  Forall (λ p, 0 ≤ ps_BlockNumber p ≤ Unix now1 - 600) ss →
  PredictPoolState now1 now2 g th σ = (σ, Ret r) →
  pr_Confidence r = f_mul (f_mul (mt_Confidence (spec_trend (price <$> ss)))
    (chains_factor (size (gs_ChainStates gs)))) (f_lit 6 10) ∧
  f_leb (pr_Confidence r) (f_lit 6 10) = true.
Proof.
  intros [HI _] Eid Hg ss Hnz Hnow Hbl E.
  destruct (inv_pool _ HI _ _ Eid) as (gs' & Hg' & _ & Hne & Hwf & _ & Hm).
  assert (gs' = gs) as -> by congruence. fold ss in Hm. destruct (Hm Hnz) as (_ & _ & Hlatest).
  rewrite (predict_eq σ gs Hwf now1 now2 g th Hg) in E. fold ss in E.
  injection E as E. unfold prediction in E.
  destruct (wrap_res _ (predictPrice _ _ _)); [|done..]. cbn [mbind res_bind] in E.
  destruct (wrap_res _ (predictLiquidity _ _ _)); [|done..]. injection E as <-. cbn [pr_Confidence].
  set (t := spec_trend _). unfold calculateConfidence.
  assert (600 ≤ u64_sub (unix_u64 now1) (gs_LastUpdateBlock gs)) as Hage.
  { assert (ss ≠ []) as Hss.
    { intros Ess. apply Hne, map_size_empty_iff. 
      rewrite <- (pools_of_length _ _ Hwf). fold ss. by rewrite Ess. }
    assert (0 ≤ Unix now1 - 600).
    { destruct ss as [|p ss']; [done|]. apply Forall_inv in Hbl. lia. }
    pose proof (Zmax_list_nonneg ps_BlockNumber ss).
    pose proof (Zmax_list_le ps_BlockNumber ss (Unix now1 - 600) ltac:(lia)
      (Forall_impl _ _ _ Hbl (λ p Hp, proj2 Hp))).
    unfold spec_latest in Hlatest. unfold u64_sub, unix_u64, u64.
    rewrite (Z.mod_small (Unix now1)), Z.mod_small by lia. lia. }
  rewrite !(bool_decide_eq_false_2 (u64_sub _ _ < _)) by lia.
  pose proof (proj1 (Forall_forall _ _) stale_table _ (spec_trend_confidence (price <$> ss))) as T.
  cbn beta in T. fold t in T. rewrite Forall_forall in T. split; [done|]. apply T.
  repeat case_bool_decide; repeat (first [apply list_elem_of_here | apply list_elem_of_further]).
Qed.

(** ** The theorems at the aggregator's demonstration store *)

#[local] Existing Instance forward_order.

Lemma demo3_wf : wf_chains demo3 (gs_ChainStates demo_pool).
Proof.
  assert (Good demo3) as [HI _] by apply reachable_Good, demo3_reachable.
  destruct (inv_pool _ HI "pool" _ demo3_id) as (gs & Hg & _ & _ & Hwf & _).
  assert (Some gs = Some demo_pool) as [= ->] by (etrans; [symmetry; exact Hg|exact demo3_pool]).
  exact Hwf.
Qed.

Lemma PredictPoolState_band_witness :
  ∃ p l c, PredictPoolState 0 0 2%positive 300 demo3 =
    (demo3, Ret (mkPredictionResult (Some p) (Some l) c 300 0)) ∧
    10 * Z.abs (p - 2300) ≤ 2300 ∧ 20 * Z.abs (l - 400) ≤ 419 ∧ unit_interval c.
Proof.
  destruct (PredictPoolState_band demo3 2%positive demo_pool 2300 400 0 0 300)
    as (E & _ & Hp & Hl & _ & _ & _ & Hc).
  - exact demo3_pool.
  - exact demo3_wf.
  - vm_compute. reflexivity.
  - split; vm_compute; (reflexivity || discriminate).
  - reflexivity.
  - reflexivity.
  - lia.
  - lia.
  - eexists _, _, _. split; [exact E|]. split_and!; [exact Hp|exact Hl|exact Hc].
Defined.

Lemma predictions_order_irrelevant_witness :
  @PredictPoolState forward_order 0 0 2%positive 300 demo3 =
    @PredictPoolState backward_order 0 0 2%positive 300 demo3.
Proof.
  apply (predictions_order_irrelevant forward_order backward_order demo3 2%positive demo_pool 400
    0 0 300 f_zero).
  - exact demo3_pool.
  - exact demo3_wf.
  - reflexivity.
Defined.

Lemma PredictRebalancingNeed_decides_witness :
  PredictRebalancingNeed 2%positive (f_lit 5 100) demo3 = (demo3, Ret (true, Some 40)).
Proof.
  destruct (PredictRebalancingNeed_decides demo3 2%positive demo_pool "pool" (f_lit 5 100))
    as (_ & E & _).
  - apply reachable_Good, demo3_reachable.
  - exact demo3_id.
  - exact demo3_pool.
  - vm_compute. repeat constructor; discriminate.
  - vm_compute. reflexivity.
  - vm_compute. repeat constructor.
  - etrans; [exact E|]. vm_compute. reflexivity.
Defined.

Lemma confidence_always_stale_witness :
  ∃ r, PredictPoolState (700 * second) (700 * second) 2%positive 300 demo3 = (demo3, Ret r) ∧
    f_leb (pr_Confidence r) (f_lit 6 10) = true.
Proof.
  eexists. split; [vm_compute; reflexivity|].
  apply (confidence_always_stale demo3 2%positive demo_pool "pool" (700 * second) (700 * second) 300).
  - apply reachable_Good, demo3_reachable.
  - exact demo3_id.
  - exact demo3_pool.
  - vm_compute. discriminate.
  - vm_compute. reflexivity.
  - vm_compute. repeat constructor; discriminate.
  - vm_compute. reflexivity.
Defined.
