(* ===== verification/Sync.v ===== *)
(** * [aggregator/aggregator.go]: the aggregator process

    Tasks, pool states and the periodic passes over both.  Package [aggregator]
    declares its own [PoolState] and [GlobalPoolState] with the fields of
    [pkg/state] (plus [GlobalPoolState.ConsensusReached], which no code reads
    or writes), so the store is the same.  Tasks are owned by their map entry.
    Prometheus counters are integers. *)

From S2P Require Import Prelude Float64 BigInt StateTypes Aggregator Loops.

(** ** Data *)

Record Config := mkConfig {
  cf_ServerIpPortAddress : string;
  cf_EnableGrpc : bool;
  cf_EnableHttp : bool;
  cf_HttpPort : Z;
  cf_RegistryCoordinatorAddress : string;
  cf_OperatorStateRetrieverAddress : string;
  cf_EthRpcUrl : string;
  cf_EthWsUrl : string;
  cf_SyncAVSAddress : string;
  cf_AcrossAddress : string;
  cf_TaskTimeout : Z;
  cf_MaxConcurrentTasks : Z;
  cf_TaskRetryAttempts : Z;
  cf_TaskRetryDelay : Z;
  cf_StateUpdateInterval : Z;
  cf_StateValidationThreshold : float64;
  cf_MaxStateAge : Z;
  cf_RebalancingEnabled : bool;
  cf_RebalancingThreshold : float64;
  cf_MaxRebalancingAmount : string;
  cf_MinRebalancingAmount : string;
  cf_RebalancingTimeout : Z;
  cf_EnableMetrics : bool;
  cf_MetricsPort : Z;
  cf_EnableHealthCheck : bool;
  cf_HealthCheckInterval : Z;
  cf_LogLevel : string;
  cf_LogFormat : string;
}.

Record SyncHookTaskResponse := mkResponse {
  rs_OperatorAddress : list Z;
  rs_Response : list Z;
  rs_Signature : list Z;
  rs_Timestamp : Z;
  rs_Valid : bool;
}.

Record SyncHookTask := mkTask {
  tk_TaskID : Z;
  tk_TaskType : Z;
  tk_ChainID : Z;
  tk_PoolID : list Z;
  tk_Payload : list Z;
  tk_Deadline : Z;
  tk_Status : Z;
  tk_CreatedAt : Z;
  tk_QuorumNumbers : list Z;
  tk_QuorumThresholdPercentage : Z;
  tk_Responses : gmap string SyncHookTaskResponse;
  tk_ConsensusReached : bool;
  tk_Result : list Z;
}.

(** [SyncHookAggregator]: its configuration, counters and maps. *)
Record SyncHookAggregator := mkSync {
  sy_config : Config;
  sy_tasksTotal : Z;
  sy_tasksCompleted : Z;
  sy_tasksFailed : Z;
  sy_stateUpdates : Z;
  sy_rebalancingOps : Z;
  sy_store : St;
  sy_tasks : gmap Z SyncHookTask;
}.

Definition tk_set_Status (s : Z) (t : SyncHookTask) : SyncHookTask :=
  mkTask (tk_TaskID t) (tk_TaskType t) (tk_ChainID t) (tk_PoolID t) (tk_Payload t) (tk_Deadline t)
    s (tk_CreatedAt t) (tk_QuorumNumbers t) (tk_QuorumThresholdPercentage t) (tk_Responses t)
    (tk_ConsensusReached t) (tk_Result t).
Definition tk_set_ConsensusReached (b : bool) (t : SyncHookTask) : SyncHookTask :=
  mkTask (tk_TaskID t) (tk_TaskType t) (tk_ChainID t) (tk_PoolID t) (tk_Payload t) (tk_Deadline t)
    (tk_Status t) (tk_CreatedAt t) (tk_QuorumNumbers t) (tk_QuorumThresholdPercentage t)
    (tk_Responses t) b (tk_Result t).
Definition tk_set_Responses (rs : gmap string SyncHookTaskResponse) (t : SyncHookTask) : SyncHookTask :=
  mkTask (tk_TaskID t) (tk_TaskType t) (tk_ChainID t) (tk_PoolID t) (tk_Payload t) (tk_Deadline t)
    (tk_Status t) (tk_CreatedAt t) (tk_QuorumNumbers t) (tk_QuorumThresholdPercentage t)
    rs (tk_ConsensusReached t) (tk_Result t).

Definition sy_set_store (σ : St) (a : SyncHookAggregator) : SyncHookAggregator :=
  mkSync (sy_config a) (sy_tasksTotal a) (sy_tasksCompleted a) (sy_tasksFailed a)
    (sy_stateUpdates a) (sy_rebalancingOps a) σ (sy_tasks a).
Definition sy_set_tasks (ts : gmap Z SyncHookTask) (a : SyncHookAggregator) : SyncHookAggregator :=
  mkSync (sy_config a) (sy_tasksTotal a) (sy_tasksCompleted a) (sy_tasksFailed a)
    (sy_stateUpdates a) (sy_rebalancingOps a) (sy_store a) ts.

(** The [Inc] of each counter. *)
Definition inc_tasksCompleted (a : SyncHookAggregator) : SyncHookAggregator :=
  mkSync (sy_config a) (sy_tasksTotal a) (sy_tasksCompleted a + 1) (sy_tasksFailed a)
    (sy_stateUpdates a) (sy_rebalancingOps a) (sy_store a) (sy_tasks a).
Definition inc_tasksFailed (a : SyncHookAggregator) : SyncHookAggregator :=
  mkSync (sy_config a) (sy_tasksTotal a) (sy_tasksCompleted a) (sy_tasksFailed a + 1)
    (sy_stateUpdates a) (sy_rebalancingOps a) (sy_store a) (sy_tasks a).
Definition inc_stateUpdates (a : SyncHookAggregator) : SyncHookAggregator :=
  mkSync (sy_config a) (sy_tasksTotal a) (sy_tasksCompleted a) (sy_tasksFailed a)
    (sy_stateUpdates a + 1) (sy_rebalancingOps a) (sy_store a) (sy_tasks a).
Definition inc_rebalancingOps (a : SyncHookAggregator) : SyncHookAggregator :=
  mkSync (sy_config a) (sy_tasksTotal a) (sy_tasksCompleted a) (sy_tasksFailed a)
    (sy_stateUpdates a) (sy_rebalancingOps a + 1) (sy_store a) (sy_tasks a).

Definition NewSyncHookAggregator (config : Config) : SyncHookAggregator :=
  mkSync config 0 0 0 0 0 NewAggregator ∅.

(** A computation on the pool states, as part of the process. *)
Definition on_store {A} (m : M St A) : M SyncHookAggregator A := λ a,
  let '(σ, r) := m (sy_store a) in (sy_set_store σ a, r).

(** ** Tasks *)

(** [a.tasks[taskID]] is a pointer: an assignment through it updates the map. *)
Definition put_task (taskID : Z) (task : SyncHookTask) : M SyncHookAggregator unit :=
  modify (λ a, sy_set_tasks (<[taskID := task]> (sy_tasks a)) a).

Section tasks.
Context `{RangeOrder}.

Definition count_valid (responses : gmap string SyncHookTaskResponse) : Z :=
  foldl (λ validResponses kr, if rs_Valid kr.2 then validResponses + 1 else validResponses) 0
    (range_list 1 responses).

Definition processConsensus (taskID : Z) (task : SyncHookTask) : M SyncHookAggregator unit :=
  if tk_ConsensusReached task then mret tt else
  let validResponses := count_valid (tk_Responses task) in
  if bool_decide (tk_QuorumThresholdPercentage task ≤ validResponses) then
    put_task taskID (tk_set_Status 3 (tk_set_ConsensusReached true task));;
    modify inc_tasksCompleted
  else mret tt.

Definition process_task (now : Z) (taskID : Z) (task : SyncHookTask) : M SyncHookAggregator unit :=
  if bool_decide (tk_Deadline task < now) then
    put_task taskID (tk_set_Status 4 task);;
    modify inc_tasksFailed
  else if bool_decide (tk_QuorumThresholdPercentage task ≤ Z.of_nat (size (tk_Responses task))) then
    processConsensus taskID task
  else mret tt.

Definition processTasks (now : time) : M SyncHookAggregator unit :=
  a ← get;
  foldM (λ _ kt, process_task (unix_u64 now) kt.1 kt.2) tt (range_list 0 (sy_tasks a)).
End tasks.

(** ** Pool states *)

Section pools.
Context `{RangeOrder}.

Definition calculateWeightedAveragePrice (chainStates : gmap Z loc) (globalState : loc) : M St unit :=
  if bool_decide (size chainStates = 0%nat) then throw "no chain states available" else
  sums ← range_pools 1 chainStates
    (λ '(totalWeight, weightedPriceSum) state,
      let weight := ps_TotalLiquidity state in
      totalWeight ← big_Add totalWeight weight;
      weightedPrice ← big_Mul (ps_Price state) weight;
      weightedPriceSum ← big_Add weightedPriceSum weightedPrice;
      mret (totalWeight, weightedPriceSum))
    (NewInt 0, NewInt 0);
  c ← lift (big_Cmp sums.1 (NewInt 0));
  if bool_decide (c = 0) then throw "total weight is zero" else
  avg ← lift (big_Div sums.2 sums.1);
  modify_global globalState (gs_set_AveragePrice avg).

Definition sqrt (n : bigint) : res bigint :=
  c ← big_Cmp n (NewInt 0);
  if bool_decide (c ≤ 0) then Ret (NewInt 0)
  else match n with
       | None => Panic NilDeref
       | Some v =>
           match sqrt_loop (sqrt_fuel v) v 0 v 0 with
           | Some r => Ret (Some r)
           | None => Panic (PanicMsg "sqrt: out of fuel")
           end
       end.

Definition calculateImbalanceScore (chainStates : gmap Z loc) (globalState : loc) : M St unit :=
  if bool_decide (size chainStates < 2)%nat then
    modify_global globalState (gs_set_ImbalanceScore (NewInt 0))
  else
    prices ← range_pools 2 chainStates (λ prices state, mret (prices ++ [ps_Price state])) [];
    gs ← load_global globalState;
    let mean := gs_AveragePrice gs in
    variance ← lift (foldM (sum_squared_diffs mean) (NewInt 0) prices);
    variance ← lift (big_Div variance (NewInt (Z.of_nat (length prices))));
    score ← lift (sqrt variance);
    modify_global globalState (gs_set_ImbalanceScore score).

Definition aggregateChainStates (now : time) (globalState : loc) : M St unit :=
  gs ← load_global globalState;
  let chainStates := gs_ChainStates gs in
  if bool_decide (size chainStates = 0%nat) then throw "no chain states available" else
  totalLiquidity ← range_pools 0 chainStates
    (λ totalLiquidity state, big_Add totalLiquidity (ps_TotalLiquidity state)) (NewInt 0);
  modify_global globalState (gs_set_TotalLiquidity totalLiquidity);;
  wrap "failed to calculate weighted average price: "
    (calculateWeightedAveragePrice chainStates globalState);;
  wrap "failed to calculate imbalance score: "
    (calculateImbalanceScore chainStates globalState);;
  latestBlock ← range_pools 3 chainStates
    (λ latestBlock state,
      mret (if bool_decide (latestBlock < ps_BlockNumber state) then ps_BlockNumber state
            else latestBlock)) 0;
  modify_global globalState (gs_set_LastUpdateBlock latestBlock);;
  modify_global globalState (gs_set_LastUpdated now).

(** [now.Sub(globalState.LastUpdated).Seconds() > float64(a.config.MaxStateAge)] *)
Definition too_old (config : Config) (now lastUpdated : time) : bool :=
  f_gtb (Seconds (time_sub now lastUpdated)) (f_of_Z (cf_MaxStateAge config)).

(** The body of the loop of [aggregateStates]; [now'] is the clock inside
    [aggregateChainStates]. *)
Definition aggregate_pool (now now' : time) (poolID : string) (globalState : loc)
    : M SyncHookAggregator unit :=
  a ← get;
  gs ← on_store (load_global globalState);
  if too_old (sy_config a) now (gs_LastUpdated gs) then
    on_store (modify (st_set_poolStates (delete poolID)))
  else
    r ← try (on_store (aggregateChainStates now' globalState));
    match r with
    | inr _ => mret tt
    | inl _ => modify inc_stateUpdates
    end.

(** [now' poolID] is the clock when that pool is reached. *)
Definition aggregateStates (now : time) (now' : string → time) : M SyncHookAggregator unit :=
  a ← get;
  foldM (λ _ kg, aggregate_pool now (now' kg.1) kg.1 kg.2) tt
    (range_list 4 (st_poolStates (sy_store a))).

Definition calculateImbalance (globalState : GlobalPoolState) : M St bigint :=
  let chainStates := gs_ChainStates globalState in
  if bool_decide (size chainStates < 2)%nat then mret (NewInt 0) else
  expectedPerChain ←
    lift (big_Div (gs_TotalLiquidity globalState) (NewInt (Z.of_nat (size chainStates))));
  range_pools 5 chainStates
    (λ totalDeviation state,
      deviation ← big_AbsDiff (ps_TotalLiquidity state) expectedPerChain;
      big_Add totalDeviation deviation) (NewInt 0).

Definition calculateImbalancePercent (imbalance totalLiquidity : bigint) : res float64 :=
  c ← big_Cmp totalLiquidity (NewInt 0);
  if bool_decide (c = 0) then Ret f_zero else
  percent ← big_Mul imbalance (NewInt 100);
  percent ← big_Div percent totalLiquidity;
  percent ← big_Int64 percent;
  mret (f_of_Z percent).

Definition check_pool (globalState : loc) : M SyncHookAggregator unit :=
  a ← get;
  gs ← on_store (load_global globalState);
  imbalance ← on_store (calculateImbalance gs);
  imbalancePercent ← lift (calculateImbalancePercent imbalance (gs_TotalLiquidity gs));
  if f_gtb imbalancePercent (cf_RebalancingThreshold (sy_config a)) then modify inc_rebalancingOps
  else mret tt.

Definition checkRebalancingNeeds : M SyncHookAggregator unit :=
  a ← get;
  foldM (λ _ kg, check_pool kg.2) tt (range_list 6 (st_poolStates (sy_store a))).
End pools.

Definition performHealthCheck : M SyncHookAggregator unit := mret tt.

(** ** The loops *)

Section loops.
Context `{RangeOrder}.

Definition taskProcessingLoop (events : list event) : M SyncHookAggregator unit :=
  a ← get;
  ticker_loop (seconds (cf_TaskTimeout (sy_config a))) processTasks events.

(** [now' now] gives the readings of the clock inside the pass that begins at [now]. *)
Definition stateAggregationLoop (now' : time → string → time) (events : list event)
    : M SyncHookAggregator unit :=
  a ← get;
  ticker_loop (seconds (cf_StateUpdateInterval (sy_config a)))
    (λ now, aggregateStates now (now' now)) events.

Definition rebalancingLoop (events : list event) : M SyncHookAggregator unit :=
  ticker_loop (seconds 60) (λ _, checkRebalancingNeeds) events.

Definition healthCheckLoop (events : list event) : M SyncHookAggregator unit :=
  a ← get;
  ticker_loop (seconds (cf_HealthCheckInterval (sy_config a))) (λ _, performHealthCheck) events.
End loops.

(** The goroutines [Start] launches. *)
Inductive loop : Type := TaskLoop | StateLoop | RebalancingLoop | HealthLoop.

Definition Start (config : Config) : list loop :=
  [TaskLoop; StateLoop]
    ++ (if cf_RebalancingEnabled config then [RebalancingLoop] else [])
    ++ (if cf_EnableHealthCheck config then [HealthLoop] else []).

Definition run_loop `{RangeOrder} (l : loop) (now' : time → string → time) (events : list event)
    : M SyncHookAggregator unit :=
  match l with
  | TaskLoop => taskProcessingLoop events
  | StateLoop => stateAggregationLoop now' events
  | RebalancingLoop => rebalancingLoop events
  | HealthLoop => healthCheckLoop events
  end.
