(* ===== verification/SyncProps.v ===== *)
(** * The aggregator process's contract ([aggregator/aggregator.go])

    What a pass over the tasks and over the pool states does, the lifecycle of
    a task, and what the loops can reach on their own. *)

From S2P Require Import Prelude Float64 Float64Facts BigInt StateTypes Aggregator AggregatorProps Loops.
From S2P Require Import Predictor PredictorProps Sync.

(** ** One pass over the tasks *)

Definition valid_count (rs : gmap string SyncHookTaskResponse) : Z :=
  Zsum (λ kr, if rs_Valid kr.2 then 1 else 0) (map_to_list rs).

Definition expired (now : Z) (t : SyncHookTask) : bool := bool_decide (tk_Deadline t < now).
Definition newly_agreed (now : Z) (t : SyncHookTask) : bool :=
  negb (expired now t) && negb (tk_ConsensusReached t)
    && bool_decide (tk_QuorumThresholdPercentage t ≤ valid_count (tk_Responses t)).

(** The task after the pass. *)
Definition pass_task (now : Z) (t : SyncHookTask) : SyncHookTask :=
  if expired now t then tk_set_Status 4 t
  else if newly_agreed now t then tk_set_Status 3 (tk_set_ConsensusReached true t)
  else t.

Definition count_tasks (P : SyncHookTask → bool) (ts : list (Z * SyncHookTask)) : Z :=
  Zsum (λ kt, if P kt.2 then 1 else 0) ts.

(** The whole pass. *)
Definition pass_tasks (now : Z) (a : SyncHookAggregator) : SyncHookAggregator :=
  let ts := map_to_list (sy_tasks a) in
  mkSync (sy_config a) (sy_tasksTotal a)
    (sy_tasksCompleted a + count_tasks (newly_agreed now) ts)
    (sy_tasksFailed a + count_tasks (expired now) ts)
    (sy_stateUpdates a) (sy_rebalancingOps a) (sy_store a) (pass_task now <$> sy_tasks a).

Lemma valid_count_bounds rs : 0 ≤ valid_count rs ≤ Z.of_nat (size rs).
Proof.
  unfold valid_count. split; [apply Zsum_nonneg; intros; by case_match|].
  rewrite <- length_map_to_list, <- (Z.mul_1_l (Z.of_nat _)), <- Zsum_const. apply Zsum_le.
  intros. by case_match.
Qed.

Section task_pass.
Context `{RangeOrder}.

Lemma count_valid_eq rs : count_valid rs = valid_count rs.
Proof.
  unfold count_valid, valid_count. rewrite <- (range_perm 1 rs).
  assert (∀ l z, foldl (λ n (kr : string * _), if rs_Valid kr.2 then n + 1 else n) z l =
    z + Zsum (λ kr, if rs_Valid kr.2 then 1 else 0) l) as ->; [|lia].
  induction l as [|kr l IH]; intros z; [cbn; lia|]. cbn [foldl]. rewrite IH, Zsum_cons.
  case_match; lia.
Qed.

(** The effect of the loop body on the entry it visits. *)
Lemma process_task_eq now k t a :
  sy_tasks a !! k = Some t →
  process_task now k t a =
    (mkSync (sy_config a) (sy_tasksTotal a)
       (sy_tasksCompleted a + if newly_agreed now t then 1 else 0)
       (sy_tasksFailed a + if expired now t then 1 else 0)
       (sy_stateUpdates a) (sy_rebalancingOps a) (sy_store a) (<[k := pass_task now t]> (sy_tasks a)),
     Ret tt).
Proof.
  intros Hk. unfold process_task, newly_agreed, pass_task, expired.
  case_bool_decide as Hd; cbn [negb andb].
  { destruct a; cbn. by rewrite Z.add_0_r. }
  assert ((mkSync (sy_config a) (sy_tasksTotal a) (sy_tasksCompleted a + 0) (sy_tasksFailed a + 0)
    (sy_stateUpdates a) (sy_rebalancingOps a) (sy_store a) (<[k := t]> (sy_tasks a))) = a) as Esame.
  { destruct a; cbn in *. by rewrite !Z.add_0_r, insert_id. }
  unfold processConsensus, newly_agreed, expired.
  rewrite (bool_decide_eq_false_2 (tk_Deadline t < now)) by done. cbn [negb andb].
  rewrite count_valid_eq.
  destruct (tk_ConsensusReached t); cbn [negb andb]; [rewrite Esame; by case_match|].
  pose proof (valid_count_bounds (tk_Responses t)).
  case_bool_decide as Hn.
  - case_bool_decide; [destruct a; cbn; by rewrite Z.add_0_r|by rewrite Esame].
  - rewrite (bool_decide_eq_false_2 (_ ≤ valid_count _)) by lia. by rewrite Esame.
Qed.

Lemma process_list_eq now l a :
  NoDup l.*1 → (∀ kt, kt ∈ l → sy_tasks a !! kt.1 = Some kt.2) →
  foldM (λ _ kt, process_task now kt.1 kt.2) tt l a =
    (mkSync (sy_config a) (sy_tasksTotal a)
       (sy_tasksCompleted a + count_tasks (newly_agreed now) l)
       (sy_tasksFailed a + count_tasks (expired now) l)
       (sy_stateUpdates a) (sy_rebalancingOps a) (sy_store a)
       (foldl (λ m kt, <[kt.1 := pass_task now kt.2]> m) (sy_tasks a) l), Ret tt).
Proof.
  revert a. induction l as [|[k t] l IH]; intros a Hnd Hl.
  { destruct a; cbn. by rewrite !Z.add_0_r. }
  cbn [fmap list_fmap fst] in Hnd. apply NoDup_cons in Hnd as [Hk Hnd]. cbn [foldM].
  erewrite M_bind_ret by (apply process_task_eq; apply (Hl (k, t)); by left).
  rewrite IH; [|done|].
  - unfold count_tasks. rewrite !Zsum_cons. cbn -[Zsum]. by rewrite !Z.add_assoc.
  - intros kt Hin. cbn. rewrite lookup_insert_ne; [apply Hl; by right|].
    intros ->. apply Hk. apply list_elem_of_fmap. by exists kt.
Qed.

Lemma process_tasks_eq now a : processTasks now a = (pass_tasks (unix_u64 now) a, Ret tt).
Proof.
  unfold processTasks. erewrite M_bind_ret by done.
  rewrite process_list_eq.
  - unfold pass_tasks, count_tasks.
    by rewrite (foldl_overwrite_range 0 (pass_task (unix_u64 now))), !(range_perm 0 (sy_tasks a)).
  - rewrite range_perm. apply NoDup_fst_map_to_list.
  - intros [k t] Hin. rewrite range_perm in Hin. by apply elem_of_map_to_list in Hin.
Qed.
End task_pass.

(** [C22] A pass over the tasks fails exactly the tasks past their deadline,
    completes exactly the others that have no consensus yet and enough valid
    responses, leaves the rest alone, counts both, and neither depends on the
    order of the map nor touches anything else.  (The earlier test on the
    number of all responses decides nothing.) *)
Theorem processTasks_pass `{RangeOrder} now a :
  ∃ a', processTasks now a = (a', Ret tt) ∧
    (∀ id, sy_tasks a' !! id = pass_task (unix_u64 now) <$> sy_tasks a !! id) ∧
    sy_tasksCompleted a' =
      sy_tasksCompleted a + count_tasks (newly_agreed (unix_u64 now)) (map_to_list (sy_tasks a)) ∧
    sy_tasksFailed a' =
      sy_tasksFailed a + count_tasks (expired (unix_u64 now)) (map_to_list (sy_tasks a)) ∧
    sy_store a' = sy_store a ∧ sy_stateUpdates a' = sy_stateUpdates a ∧
    sy_rebalancingOps a' = sy_rebalancingOps a ∧ sy_tasksTotal a' = sy_tasksTotal a.
Proof.
  eexists. split; [apply process_tasks_eq|]. split_and!; try done.
  intros id. cbn. by rewrite lookup_fmap.
Qed.

(** ** The lifecycle of a task *)

(** The process's own step is the pass.  No code of the program files a task or
    a response, so the environment may do either at will: file a task, over
    another or not, that has not been processed, and change the responses of a
    task, over those of the same operators or not. *)
Inductive task_step : SyncHookAggregator → SyncHookAggregator → Prop :=
  | file_task a id t :
      tk_ConsensusReached t = false → tk_Status t ≠ 3 →
      task_step a (sy_set_tasks (<[id := t]> (sy_tasks a)) a)
  | change_responses a id t rs :
      sy_tasks a !! id = Some t →
      task_step a (sy_set_tasks (<[id := tk_set_Responses rs t]> (sy_tasks a)) a)
  | task_tick (R : RangeOrder) now a a' :
      processTasks now a = (a', Ret tt) → task_step a a'.

(** [t] is [b] but for what passes and responses change. *)
Definition same_task (b t : SyncHookTask) : Prop :=
  tk_set_Responses (tk_Responses t)
    (tk_set_Status (tk_Status t) (tk_set_ConsensusReached (tk_ConsensusReached t) b)) = t.

(** On the way from [a0] to [a], a pass found the task [t] of [id] in time and
    with its quorum of valid responses. *)
Definition agreed_before (a0 a : SyncHookAggregator) (id : Z) (t : SyncHookTask) : Prop :=
  ∃ (R : RangeOrder) now b b' tb,
    rtc task_step a0 b ∧ processTasks now b = (b', Ret tt) ∧ rtc task_step b' a ∧
    sy_tasks b !! id = Some tb ∧ same_task tb t ∧
    unix_u64 now ≤ tk_Deadline tb ∧ tk_ConsensusReached tb = false ∧
    tk_QuorumThresholdPercentage tb ≤ valid_count (tk_Responses tb).

(** A task with consensus is Completed (3) or, later, Failed (4), and Completed
    needs consensus. *)
Definition task_ok (a0 a : SyncHookAggregator) (id : Z) (t : SyncHookTask) : Prop :=
  (tk_ConsensusReached t = true → (tk_Status t = 3 ∨ tk_Status t = 4) ∧ agreed_before a0 a id t) ∧
  (tk_Status t = 3 → tk_ConsensusReached t = true).

Lemma agreed_before_step a0 a a' id t t' :
  agreed_before a0 a id t → task_step a a' →
  (∀ b, same_task b t → same_task b t') → agreed_before a0 a' id t'.
Proof.
  intros (R & now & b & b' & tb & Hb & E & Ha & Hid & Hs & Hq) Hstep Hsame.
  exists R, now, b, b', tb. split_and!; [done|done|by eapply rtc_r|done|by apply Hsame|apply Hq..].
Qed.

Lemma same_task_Responses b t rs : same_task b t → same_task b (tk_set_Responses rs t).
Proof. destruct t. unfold same_task. cbn. by intros [= <- <- <- <- <- <- <- <- <- <-]. Qed.

Lemma same_task_Status b t st : same_task b t → same_task b (tk_set_Status st t).
Proof. destruct t. unfold same_task. cbn. by intros [= <- <- <- <- <- <- <- <- <- <-]. Qed.

Lemma pass_task_ok (R : RangeOrder) now a0 a a' id t :
  rtc task_step a0 a → processTasks now a = (a', Ret tt) → sy_tasks a !! id = Some t →
  task_ok a0 a id t → task_ok a0 a' id (pass_task (unix_u64 now) t).
Proof.
  intros Hr E Hid [H1 H2]. assert (task_step a a') as Hs by by eapply task_tick.
  unfold pass_task. destruct (expired (unix_u64 now) t) eqn:He.
  { split; [|done]. intros Hc. split; [by right|]. destruct (H1 Hc) as [_ Hb].
    eapply agreed_before_step; [exact Hb|exact Hs|]. intros b. apply same_task_Status. }
  destruct (newly_agreed (unix_u64 now) t) eqn:En.
  - split; [|done]. intros _. split; [by left|].
    unfold newly_agreed in En. apply andb_true_iff in En as [En Hq%bool_decide_eq_true_1].
    apply andb_true_iff in En as [_ Hc%negb_true_iff]. apply bool_decide_eq_false_1 in He.
    exists R, now, a, a', t. split_and!; [done|done|done|done|by destruct t|lia|done|done].
  - split; [|done]. intros Hc. destruct (H1 Hc) as [Hst Hb]. split; [done|].
    eapply agreed_before_step; [exact Hb|exact Hs|done].
Qed.

Lemma task_step_ok a0 a a' :
  rtc task_step a0 a → task_step a a' →
  map_Forall (task_ok a0 a) (sy_tasks a) → map_Forall (task_ok a0 a') (sy_tasks a').
Proof.
  intros Hr Hs Ha. pose proof Hs as Hstep.
  destruct Hs as [a id t Hc Hst|a id t rs Hid|R now a a' E].
  - cbn. intros k u [[<- <-]|[_ Hu]]%lookup_insert_Some; [split; [by rewrite Hc|done]|].
    destruct (Ha k u Hu) as [H1 H2]. split; [|done]. intros [Hs Hb]%H1. split; [done|].
    by eapply agreed_before_step.
  - cbn. intros k u [[<- <-]|[_ Hu]]%lookup_insert_Some.
    + destruct (Ha id t Hid) as [H1 H2]. split; [|done]. intros [Hs Hb]%H1. split; [done|].
      eapply agreed_before_step; [exact Hb|done|]. intros b. apply same_task_Responses.
    + destruct (Ha k u Hu) as [H1 H2]. split; [|done]. intros [Hs Hb]%H1. split; [done|].
      by eapply agreed_before_step.
  - pose proof E as E'. rewrite process_tasks_eq in E. injection E as <-. intros id t' Ht'. cbn in Ht'.
    rewrite lookup_fmap in Ht'. destruct (sy_tasks a !! id) as [t|] eqn:Et; [|done].
    injection Ht' as <-. by eapply pass_task_ok; [..|exact (Ha id t Et)].
Qed.

Lemma task_runs_ok config a :
  rtc task_step (NewSyncHookAggregator config) a →
  map_Forall (task_ok (NewSyncHookAggregator config) a) (sy_tasks a).
Proof.
  revert a. apply (rtc_ind_r (λ a, map_Forall (task_ok _ a) (sy_tasks a))); [apply map_Forall_empty|].
  intros a a' Hr Hs IH. by eapply task_step_ok.
Qed.

(** [C5] In every history of tasks filed (neither with consensus nor
    Completed), responses written, replaced or withdrawn, and passes run, in any
    interleaving, a task has consensus only if a pass of that history found it no
    later than its deadline, without consensus and
    with at least its quorum of valid responses; since then only its responses
    and its status have changed, and its status is Completed (3) or Failed (4).
    It is Completed only with consensus.  (No code of the program files tasks or
    responses: the histories are those of an environment that may.) *)
Theorem consensus_needs_quorum config a id t :
  rtc task_step (NewSyncHookAggregator config) a → sy_tasks a !! id = Some t →
  (tk_ConsensusReached t = true →
    (tk_Status t = 3 ∨ tk_Status t = 4) ∧
    ∃ (R : RangeOrder) now b b' tb,
      rtc task_step (NewSyncHookAggregator config) b ∧ processTasks now b = (b', Ret tt) ∧
      rtc task_step b' a ∧ sy_tasks b !! id = Some tb ∧ same_task tb t ∧
      unix_u64 now ≤ tk_Deadline tb ∧ tk_ConsensusReached tb = false ∧
      tk_QuorumThresholdPercentage tb ≤ valid_count (tk_Responses tb)) ∧
  (tk_Status t = 3 → tk_ConsensusReached t = true).
Proof. intros Hr Ht. exact (task_runs_ok config a Hr id t Ht). Qed.

(** *** Completed tasks fail *)

Fixpoint run_passes `{RangeOrder} (nows : list time) (a : SyncHookAggregator) : SyncHookAggregator :=
  match nows with
  | [] => a
  | now :: nows => run_passes nows (processTasks now a).1
  end.

Lemma pass_expired `{RangeOrder} now a id t :
  sy_tasks a !! id = Some t → tk_Deadline t < unix_u64 now →
  sy_tasks (processTasks now a).1 !! id = Some (tk_set_Status 4 t) ∧
  sy_tasksFailed a + 1 ≤ sy_tasksFailed (processTasks now a).1.
Proof.
  intros Hid Hd. rewrite process_tasks_eq. cbn. rewrite lookup_fmap, Hid. split.
  - cbn. unfold pass_task, expired. by rewrite bool_decide_eq_true_2.
  - rewrite <- (insert_delete_id _ _ _ Hid). rewrite map_to_list_insert by apply lookup_delete_eq.
    unfold count_tasks. rewrite Zsum_cons. cbn -[Zsum]. unfold expired at 1. rewrite bool_decide_eq_true_2 by done.
    pose proof (Zsum_nonneg (λ kt : Z * SyncHookTask, if expired (unix_u64 now) kt.2 then 1 else 0)
      (map_to_list (delete id (sy_tasks a))) ltac:(intros; cbn; by destruct (expired _ _))). lia.
Qed.

(** [C35] The deadline also strikes completed tasks: once it has passed, every
    pass turns the task to Failed, consensus or not, and counts one more failed
    task, as many times as there are passes. *)
Theorem completed_tasks_fail_every_pass `{RangeOrder} nows a id t :
  sy_tasks a !! id = Some t → Forall (λ now, tk_Deadline t < unix_u64 now) nows → nows ≠ [] →
  let a' := run_passes nows a in
  sy_tasks a' !! id = Some (tk_set_Status 4 t) ∧
  sy_tasksFailed a + Z.of_nat (length nows) ≤ sy_tasksFailed a'.
Proof.
  intros Hid Hall Hne.
  assert (∀ t a, sy_tasks a !! id = Some t → Forall (λ now, tk_Deadline t < unix_u64 now) nows →
    (nows = [] → tk_set_Status 4 t = t) →
    sy_tasks (run_passes nows a) !! id = Some (tk_set_Status 4 t) ∧
    sy_tasksFailed a + Z.of_nat (length nows) ≤ sy_tasksFailed (run_passes nows a)) as Hgen;
    [|by apply Hgen].
  clear. induction nows as [|now nows IH]; intros t a Hid Hall He.
  - cbn. rewrite He by done. split; [done|lia].
  - apply Forall_cons in Hall as [Hd Hall]. destruct (pass_expired now a id t Hid Hd) as [H1 H2].
    cbn [run_passes]. destruct (IH (tk_set_Status 4 t) _ H1) as [E Hc]; [done|done|].
    split; [exact E|cbn [length]; lia].
Qed.

(** ** One pass over the pool states *)

Section pool_pass.
Context `{RangeOrder}.

(** The methods are copies of those of [pkg/state]. *)
Lemma copies_agree :
  Sync.calculateWeightedAveragePrice = Aggregator.calculateWeightedAveragePrice ∧
  Sync.calculateImbalanceScore = Aggregator.calculateImbalanceScore ∧ Sync.sqrt = Aggregator.sqrt.
Proof. done. Qed.

Lemma aggregate_chain_states_eq now g σ :
  aggregateChainStates now g σ =
    (recalculateGlobalMetrics g;; modify_global g (gs_set_LastUpdated now)) σ.
Proof.
  unfold aggregateChainStates, recalculateGlobalMetrics. rewrite M_bind_assoc.
  apply M_bind_ext. intros σ1 gs _. case_bool_decide; [done|].
  rewrite M_bind_assoc. apply M_bind_ext. intros σ2 tot _.
  do 3 (rewrite M_bind_assoc; apply M_bind_ext; intros ? ? _).
  rewrite M_bind_assoc. apply M_bind_ext. intros ? ? _. done.
Qed.

(** What a successful or failed refresh leaves in a global state. *)
Definition refresh_fails (σ : St) (gs : GlobalPoolState) : bool :=
  bool_decide (gs_ChainStates gs = ∅)
    || bool_decide (total_liq (pools_of σ (gs_ChainStates gs)) = 0).
Definition refreshed (σ : St) (now : time) (gs : GlobalPoolState) : GlobalPoolState :=
  if bool_decide (gs_ChainStates gs = ∅) then gs
  else if bool_decide (total_liq (pools_of σ (gs_ChainStates gs)) = 0)
  then gs_set_TotalLiquidity (Some 0) gs
  else gs_set_LastUpdated now (with_metrics (pools_of σ (gs_ChainStates gs)) gs).

Lemma aggregate_chain_states_result now g gs σ :
  st_globals σ !! g = Some gs → wf_chains σ (gs_ChainStates gs) →
  ∃ r, aggregateChainStates now g σ = (upd_global g (refreshed σ now gs) σ, r) ∧
    (if refresh_fails σ gs then ∃ e, r = Err e else r = Ret tt).
Proof.
  intros Hg Hwf. unfold refresh_fails, refreshed. case_bool_decide as He; cbn [orb].
  - unfold aggregateChainStates. go_ret. rewrite He, map_size_empty, bool_decide_eq_true_2 by done.
    rewrite upd_global_id by done. by repeat eexists.
  - rewrite aggregate_chain_states_eq.
    pose proof (recalculate_eq σ g gs) as E. cbv zeta in E. specialize (E Hg He Hwf).
    case_bool_decide as Hz.
    + erewrite M_bind_err by exact E. by repeat eexists.
    + erewrite M_bind_ret by exact E. erewrite modify_global_eq by apply upd_global_lookup.
      rewrite upd_global_twice. by repeat eexists.
Qed.

Definition sy_globals (a : SyncHookAggregator) := st_globals (sy_store a).
Definition sy_pools (a : SyncHookAggregator) := st_poolStates (sy_store a).

(** Everything the pass over the pools leaves alone. *)
Definition same_rest (a a' : SyncHookAggregator) : Prop :=
  st_pools (sy_store a') = st_pools (sy_store a) ∧ sy_config a' = sy_config a ∧
  sy_tasks a' = sy_tasks a ∧ sy_tasksFailed a' = sy_tasksFailed a ∧
  sy_tasksCompleted a' = sy_tasksCompleted a ∧ sy_rebalancingOps a' = sy_rebalancingOps a ∧
  sy_tasksTotal a' = sy_tasksTotal a.

Lemma same_rest_trans a b c : same_rest a b → same_rest b c → same_rest a c.
Proof. unfold same_rest. intros (?&?&?&?&?&?&?) (?&?&?&?&?&?&?). split_and!; congruence. Qed.

(** A pool's fate in a pass. *)
Definition fate (a a' : SyncHookAggregator) (now now' : time) (id : string) (g : loc)
    (gs : GlobalPoolState) : Prop :=
  if too_old (sy_config a) now (gs_LastUpdated gs)
  then sy_pools a' !! id = None ∧ sy_globals a' !! g = Some gs
  else sy_pools a' !! id = sy_pools a !! id ∧ sy_globals a' !! g = Some (refreshed (sy_store a) now' gs).

Definition counts_update (a : SyncHookAggregator) (now : time) (kg : string * loc) : bool :=
  match sy_globals a !! kg.2 with
  | Some gs => negb (too_old (sy_config a) now (gs_LastUpdated gs)) && negb (refresh_fails (sy_store a) gs)
  | None => false
  end.

Lemma aggregate_pool_eq now now' id g gs a :
  sy_globals a !! g = Some gs → wf_chains (sy_store a) (gs_ChainStates gs) →
  ∃ a', aggregate_pool now now' id g a = (a', Ret tt) ∧ same_rest a a' ∧
    fate a a' now now' id g gs ∧
    (∀ id', id' ≠ id → sy_pools a' !! id' = sy_pools a !! id') ∧
    (∀ g', g' ≠ g → sy_globals a' !! g' = sy_globals a !! g') ∧
    sy_stateUpdates a' = sy_stateUpdates a + if counts_update a now (id, g) then 1 else 0.
Proof.
  intros Hg Hwf. unfold aggregate_pool, fate, counts_update. cbn [snd]. rewrite Hg.
  erewrite M_bind_ret by done.
  assert (on_store (load_global g) a = (a, Ret gs)) as E.
  { unfold on_store. rewrite (load_global_eq _ _ _ Hg). by destruct a. }
  erewrite M_bind_ret by exact E. clear E.
  destruct (too_old _ _ _) eqn:Hold; cbn [negb andb].
  - eexists. split; [reflexivity|]. split; [done|]. split; [split; [apply lookup_delete_eq|done]|].
    split_and!; [|done|cbn; lia].
    intros id' Hne. cbn. by rewrite lookup_delete_ne.
  - destruct (aggregate_chain_states_result now' g gs (sy_store a) Hg Hwf) as (r & E & Hr).
    assert (try (on_store (aggregateChainStates now' g)) a =
      (sy_set_store (upd_global g (refreshed (sy_store a) now' gs) (sy_store a)) a,
       Ret (if refresh_fails (sy_store a) gs then inr (match r with Err e => e | _ => "" end) else inl tt)))
      as Et.
    { unfold try, on_store. rewrite E. destruct (refresh_fails _ _); [by destruct Hr as (e & ->)|by subst]. }
    erewrite M_bind_ret by exact Et.
    destruct (refresh_fails _ _); cbn [negb]; eexists; (split; [reflexivity|]);
      (split; [done|]); (split; [split; [done|apply lookup_insert_eq]|]);
      (split_and!; [done|intros g' Hne; by apply lookup_insert_ne|cbn; lia]).
Qed.

Lemma aggregate_list_eq now now' l a :
  NoDup l.*1 → NoDup l.*2 →
  (∀ kg, kg ∈ l → ∃ gs, sy_globals a !! kg.2 = Some gs ∧ wf_chains (sy_store a) (gs_ChainStates gs)) →
  ∃ a', foldM (λ _ kg, aggregate_pool now (now' kg.1) kg.1 kg.2) tt l a = (a', Ret tt) ∧
    same_rest a a' ∧
    (∀ id g gs, (id, g) ∈ l → sy_globals a !! g = Some gs → fate a a' now (now' id) id g gs) ∧
    (∀ id', id' ∉ l.*1 → sy_pools a' !! id' = sy_pools a !! id') ∧
    (∀ g', g' ∉ l.*2 → sy_globals a' !! g' = sy_globals a !! g') ∧
    sy_stateUpdates a' = sy_stateUpdates a + Zsum (λ kg, if counts_update a now kg then 1 else 0) l.
Proof.
  revert a. induction l as [|[id g] l IH]; intros a Hnd1 Hnd2 Hl.
  { exists a. split; [done|]. split_and!; try done; [|cbn; lia].
    intros ? ? ? Hin. by apply elem_of_nil in Hin. }
  cbn in Hnd1, Hnd2. apply NoDup_cons in Hnd1 as [Hid Hnd1]. apply NoDup_cons in Hnd2 as [Hgl Hnd2].
  destruct (Hl (id, g) ltac:(by left)) as (gs & Hg & Hwf). cbn [snd] in Hg.
  destruct (aggregate_pool_eq now (now' id) id g gs a Hg Hwf)
    as (a1 & E1 & Hr1 & Hf1 & Hp1 & Hg1 & Hc1).
  assert (∀ kg, kg ∈ l → kg.2 ≠ g) as Hneg.
  { intros kg Hin <-. apply Hgl. apply list_elem_of_fmap. by exists kg. }
  assert (∀ kg, kg ∈ l → kg.1 ≠ id) as Hneid.
  { intros kg Hin <-. apply Hid. apply list_elem_of_fmap. by exists kg. }
  pose proof Hr1 as (Hps & Hcfg & _).
  assert (∀ cs, pools_of (sy_store a1) cs = pools_of (sy_store a) cs) as Hpo
    by (intros cs; unfold pools_of, pools_in; by rewrite Hps).
  assert (∀ kg, kg ∈ l → counts_update a1 now kg = counts_update a now kg) as Hcu.
  { intros kg Hin. unfold counts_update. rewrite Hg1, Hcfg by by apply Hneg.
    destruct (sy_globals a !! kg.2); [|done]. unfold refresh_fails. by rewrite Hpo. }
  destruct (IH a1 Hnd1 Hnd2) as (a' & E & Hr' & Hf & Hp' & Hg' & Hc).
  { intros kg Hin. rewrite Hg1 by by apply Hneg. destruct (Hl kg ltac:(by right)) as (gs' & ? & Hw).
    exists gs'. split; [done|]. intros c l' Hcl. rewrite Hps. exact (Hw c l' Hcl). }
  exists a'. split; [|split; [|split]].
  - cbn [foldM fst snd]. erewrite M_bind_ret by exact E1. exact E.
  - by eapply same_rest_trans.
  - intros id' g' gs' [Heq|Hin]%elem_of_cons Hgs'.
    + injection Heq as -> ->. assert (gs' = gs) as -> by congruence.
      unfold fate in *. rewrite Hp', Hg' by done. exact Hf1.
    + specialize (Hf id' g' gs' Hin). unfold fate in *.
      rewrite Hg1 in Hf by by apply (Hneg (id', g')). specialize (Hf Hgs').
      rewrite Hcfg, (Hp1 id') in Hf by by apply (Hneid (id', g')).
      unfold refreshed in *. by rewrite Hpo in Hf.
  - split_and!.
    + intros id' Hin. cbn in Hin. apply not_elem_of_cons in Hin as [Hne Hin].
      rewrite Hp' by done. by apply Hp1.
    + intros g' Hin. cbn in Hin. apply not_elem_of_cons in Hin as [Hne Hin].
      rewrite Hg' by done. by apply Hg1.
    + rewrite Zsum_cons, Hc, Hc1, (Zsum_ext _ (λ kg, if counts_update a now kg then 1 else 0)); [lia|].
      intros kg Hin. by rewrite Hcu.
Qed.
End pool_pass.

(** Registered pools are allocated under their own name, over allocated chain
    states; [pkg/state]'s invariant implies it. *)
Definition pools_ok (σ : St) : Prop :=
  ∀ id g, st_poolStates σ !! id = Some g →
    ∃ gs, st_globals σ !! g = Some gs ∧ gs_PoolID gs = id ∧ wf_chains σ (gs_ChainStates gs).

Lemma Inv_pools_ok σ : Inv σ → pools_ok σ.
Proof.
  intros HI id g Hg. destruct (inv_pool _ HI _ _ Hg) as (gs & ? & ? & _ & ? & _). eauto.
Qed.

Lemma aggregate_states_eq `{RangeOrder} now now' a :
  pools_ok (sy_store a) →
  ∃ a', aggregateStates now now' a = (a', Ret tt) ∧ same_rest a a' ∧
    (∀ id g gs, sy_pools a !! id = Some g → sy_globals a !! g = Some gs →
      fate a a' now (now' id) id g gs) ∧
    (∀ id, sy_pools a !! id = None → sy_pools a' !! id = None) ∧
    sy_stateUpdates a' = sy_stateUpdates a +
      Zsum (λ kg, if counts_update a now kg then 1 else 0) (map_to_list (sy_pools a)).
Proof.
  intros Hok. unfold aggregateStates. erewrite M_bind_ret by done.
  set (l := range_list 4 (st_poolStates (sy_store a))).
  assert (l ≡ₚ map_to_list (sy_pools a)) as Hperm by apply range_perm.
  assert (∀ id g, (id, g) ∈ l ↔ sy_pools a !! id = Some g) as Hin
    by (intros id g; rewrite Hperm; apply elem_of_map_to_list).
  destruct (aggregate_list_eq now now' l a) as (a' & E & Hr & Hf & Hp & _ & Hc).
  - rewrite Hperm. apply NoDup_fst_map_to_list.
  - apply NoDup_fmap_2_strong; [|rewrite Hperm; apply NoDup_map_to_list].
    intros [i g] [j g'] Hi%Hin Hj%Hin. cbn. intros <-.
    destruct (Hok _ _ Hi) as (gs & Hg & <- & _), (Hok _ _ Hj) as (gs' & Hg' & <- & _).
    assert (gs = gs') as -> by congruence. done.
  - intros [id g] Hkg%Hin. destruct (Hok _ _ Hkg) as (gs & ? & _ & ?). eauto.
  - exists a'. split; [exact E|]. split; [exact Hr|]. split_and!.
    + intros id g gs Hid Hg. by apply Hf; [apply Hin|].
    + intros id Hid. rewrite Hp; [done|]. intros ([i g] & -> & Hi%Hin)%list_elem_of_fmap.
      cbn in Hid. congruence.
    + rewrite Hc. by rewrite Hperm.
Qed.

(** [C23] A pass over the pool states decides each pool by its own age alone: a
    pool older than the limit is dropped, another one gets the total of its
    chains and, when that is not zero, its exact metrics and a fresh time stamp;
    failures of one pool do not stop the others, no pool appears, the reports
    are untouched and [stateUpdates] counts the pools refreshed. *)
Theorem aggregateStates_pass `{RangeOrder} now now' a :
  pools_ok (sy_store a) →
  ∃ a', aggregateStates now now' a = (a', Ret tt) ∧ same_rest a a' ∧
    (∀ id g gs, sy_pools a !! id = Some g → sy_globals a !! g = Some gs →
      fate a a' now (now' id) id g gs) ∧
    (∀ id, sy_pools a !! id = None → sy_pools a' !! id = None) ∧
    sy_stateUpdates a' = sy_stateUpdates a +
      Zsum (λ kg, if counts_update a now kg then 1 else 0) (map_to_list (sy_pools a)).
Proof. apply aggregate_states_eq. Qed.

(** *** Passes keep refreshing *)

Lemma refreshed_same σ now gs :
  gs_PoolID (refreshed σ now gs) = gs_PoolID gs ∧
  gs_ChainStates (refreshed σ now gs) = gs_ChainStates gs.
Proof. unfold refreshed. repeat case_bool_decide; done. Qed.

Lemma wf_chains_same σ σ' cs : st_pools σ' = st_pools σ → wf_chains σ cs → wf_chains σ' cs.
Proof. intros E Hwf c l Hl. rewrite E. exact (Hwf c l Hl). Qed.

Lemma pass_pools_ok `{RangeOrder} now now' a :
  pools_ok (sy_store a) → pools_ok (sy_store (aggregateStates now now' a).1).
Proof.
  intros Hok. destruct (aggregate_states_eq now now' a Hok) as (a' & -> & Hr & Hf & Hn & _).
  cbn [fst]. intros id g Hid. destruct (sy_pools a !! id) as [g0|] eqn:E0; cycle 1.
  { apply Hn in E0. unfold sy_pools in E0. congruence. }
  destruct (Hok _ _ E0) as (gs & Hg & Hpid & Hwf). specialize (Hf id g0 gs E0 Hg).
  unfold fate in Hf. case_match; destruct Hf as [Hp Hgl]; unfold sy_pools, sy_globals in *; [congruence|].
  assert (g0 = g) as -> by congruence.
  destruct (refreshed_same (sy_store a) (now' id) gs) as [E1 E2].
  exists (refreshed (sy_store a) (now' id) gs). split; [done|]. rewrite E1, E2. split; [done|].
  by apply (wf_chains_same (sy_store a)); [apply Hr|].
Qed.

Fixpoint run_states `{RangeOrder} (passes : list (time * (string → time))) (a : SyncHookAggregator)
    : SyncHookAggregator :=
  match passes with
  | [] => a
  | (now, now') :: passes => run_states passes (aggregateStates now now' a).1
  end.

(** Passes at most [M] seconds after the previous refresh of the pool. *)
Fixpoint in_time (M : Z) (id : string) (last : time) (passes : list (time * (string → time))) : Prop :=
  match passes with
  | [] => True
  | (now, now') :: passes => 0 ≤ now - last ≤ M * second ∧ in_time M id (now' id) passes
  end.

Lemma not_too_old config now last :
  0 < cf_MaxStateAge config < 2 ^ 53 → 0 ≤ now - last ≤ cf_MaxStateAge config * second →
  too_old config now last = false.
Proof. intros HM Hd. apply Seconds_not_over; [|done]. unfold time_sub. lia. Qed.

(** [C25] The age limit never removes a pool that is being aggregated: each pass
    stamps the pool itself, so as long as passes come within [MaxStateAge] of
    each other a pool with liquidity stays registered forever, however old the
    reports of its chains are. *)
Theorem aggregation_defeats_staleness `{RangeOrder} passes a id g gs :
  pools_ok (sy_store a) → sy_pools a !! id = Some g → sy_globals a !! g = Some gs →
  gs_ChainStates gs ≠ ∅ → total_liq (pools_of (sy_store a) (gs_ChainStates gs)) ≠ 0 →
  0 < cf_MaxStateAge (sy_config a) < 2 ^ 53 →
  in_time (cf_MaxStateAge (sy_config a)) id (gs_LastUpdated gs) passes →
  let a' := run_states passes a in
  st_pools (sy_store a') = st_pools (sy_store a) ∧
  sy_pools a' !! id = Some g ∧
  ∃ gs', sy_globals a' !! g = Some gs' ∧ gs_ChainStates gs' = gs_ChainStates gs.
Proof.
  revert a gs. induction passes as [|[now now'] passes IH]; intros a gs Hok Hid Hg Hne Hnz HM Hin a'.
  { unfold a'. cbn. eauto. }
  destruct Hin as [Hd Hin]. pose proof (pass_pools_ok now now' a Hok) as Hok1.
  destruct (aggregate_states_eq now now' a Hok) as (a1 & E & Hr & Hf & _).
  unfold a'. cbn [run_states]. rewrite E in Hok1 |- *. cbn [fst] in *.
  destruct Hr as (Hps & Hcfg & _). specialize (Hf id g gs Hid Hg). unfold fate in Hf.
  rewrite (not_too_old _ _ _ HM Hd) in Hf. destruct Hf as [Hid1 Hg1].
  assert (refreshed (sy_store a) (now' id) gs =
    gs_set_LastUpdated (now' id) (with_metrics (pools_of (sy_store a) (gs_ChainStates gs)) gs)) as Er.
  { unfold refreshed. by rewrite !bool_decide_eq_false_2. }
  assert (pools_of (sy_store a1) (gs_ChainStates gs) = pools_of (sy_store a) (gs_ChainStates gs)) as Hpo
    by (unfold pools_of, pools_in; by rewrite Hps).
  rewrite Er in Hg1. destruct (IH a1 _ Hok1 ltac:(by rewrite Hid1) Hg1) as (E1 & E2 & gs' & E3 & E4).
  - done.
  - cbn. by rewrite Hpo.
  - by rewrite Hcfg.
  - by rewrite Hcfg.
  - split; [by rewrite E1|]. split; [done|]. exists gs'. by split.
Qed.

(** ** The rebalancing monitor *)

Definition needs_rebalancing `{RangeOrder} (threshold : float64) (σ : St) (kg : string * loc) : bool :=
  match PredictRebalancingNeed kg.2 threshold σ with
  | (_, Ret (need, _)) => need
  | _ => false
  end.

Lemma check_pool_eq `{RangeOrder} a id g gs t :
  sy_globals a !! g = Some gs → wf_chains (sy_store a) (gs_ChainStates gs) →
  gs_TotalLiquidity gs = Some t →
  let need := needs_rebalancing (cf_RebalancingThreshold (sy_config a)) (sy_store a) (id, g) in
  (∃ amount, PredictRebalancingNeed g (cf_RebalancingThreshold (sy_config a)) (sy_store a) =
    (sy_store a, Ret (need, amount))) ∧
  check_pool g a = (if need then inc_rebalancingOps a else a, Ret tt).
Proof.
  intros Hg Hwf Ht. unfold needs_rebalancing, PredictRebalancingNeed, predictImbalance, check_pool.
  cbn [snd]. assert (∀ A (m : M St A) r, m (sy_store a) = (sy_store a, r) → on_store m a = (a, r)) as Hon.
  { intros A m r E. unfold on_store. rewrite E. by destruct a. }
  pose proof (load_global_eq _ _ _ Hg) as El.
  erewrite !(M_bind_ret (load_global g)) by exact El.
  erewrite !(M_bind_ret (Predictor.calculateImbalance 0 gs)) by by apply imbalance_eq.
  erewrite !(M_bind_ret (wrap _ (Predictor.calculateImbalance 1 gs)))
    by (apply wrap_ret; by apply imbalance_eq).
  erewrite (M_bind_ret get) by done.
  erewrite (M_bind_ret (on_store (load_global g))) by exact (Hon _ _ _ El).
  erewrite (M_bind_ret (on_store (calculateImbalance gs)))
    by (apply Hon; exact (imbalance_eq _ _ 5 _ Hwf Ht)).
  match goal with |- context [Predictor.calculateImbalancePercent (Some ?x) _] => set (d := x) end.
  assert (∃ f, Predictor.calculateImbalancePercent (Some d) (gs_TotalLiquidity gs) = Ret f) as (f & Ef).
  { rewrite Ht. unfold Predictor.calculateImbalancePercent. rewrite big_Cmp_zero. cbn [mbind res_bind].
    case_bool_decide; [by eexists|]. cbn [big_Mul NewInt big_op2 mbind res_bind].
    rewrite big_Div_Some by lia. by eexists. }
  change (calculateImbalancePercent (Some d) (gs_TotalLiquidity gs)) with
    (Predictor.calculateImbalancePercent (Some d) (gs_TotalLiquidity gs)).
  erewrite !(M_bind_ret (lift (Predictor.calculateImbalancePercent _ _)))
    by (unfold lift; rewrite Ef; reflexivity).
  destruct (f_gtb f _); cbv iota; [|by split; [eexists|]].
  erewrite !(M_bind_ret (lift (calculateRebalancingAmount _ _)))
    by (unfold lift; by rewrite (rebalancing_amount_eq gs _ _ Ht)).
  by split; [eexists|].
Qed.

(** [C26] The monitor of the aggregator process and the predictor of
    [pkg/state] agree: a check counts exactly the registered pools for which
    [PredictRebalancingNeed] answers yes at the configured threshold, and
    changes nothing else. *)
Theorem checkRebalancingNeeds_agrees `{RangeOrder} a :
  pools_ok (sy_store a) →
  (∀ g gs, sy_globals a !! g = Some gs → is_Some (gs_TotalLiquidity gs)) →
  checkRebalancingNeeds a =
    (mkSync (sy_config a) (sy_tasksTotal a) (sy_tasksCompleted a) (sy_tasksFailed a)
       (sy_stateUpdates a)
       (sy_rebalancingOps a + Zsum (λ kg,
          if needs_rebalancing (cf_RebalancingThreshold (sy_config a)) (sy_store a) kg then 1 else 0)
          (map_to_list (sy_pools a)))
       (sy_store a) (sy_tasks a), Ret tt).
Proof.
  intros Hok Ht. unfold checkRebalancingNeeds. erewrite M_bind_ret by done.
  rewrite <- (range_perm 6 (sy_pools a)). fold (sy_pools a).
  assert (∀ kg, kg ∈ range_list 6 (sy_pools a) → ∃ gs t, sy_globals a !! kg.2 = Some gs ∧
    wf_chains (sy_store a) (gs_ChainStates gs) ∧ gs_TotalLiquidity gs = Some t) as Hel.
  { intros [id g] Hin. rewrite range_perm in Hin. apply elem_of_map_to_list in Hin.
    destruct (Hok _ _ Hin) as (gs & Hg & _ & Hwf). destruct (Ht g gs Hg) as [t ?]. eauto. }
  set (l := range_list 6 _) in *. clearbody l.
  assert (∀ n, foldM (λ _ kg, check_pool kg.2) tt l
      (mkSync (sy_config a) (sy_tasksTotal a) (sy_tasksCompleted a) (sy_tasksFailed a)
        (sy_stateUpdates a) n (sy_store a) (sy_tasks a)) =
    (mkSync (sy_config a) (sy_tasksTotal a) (sy_tasksCompleted a) (sy_tasksFailed a)
       (sy_stateUpdates a) (n + Zsum (λ kg, if needs_rebalancing (cf_RebalancingThreshold (sy_config a))
          (sy_store a) kg then 1 else 0) l) (sy_store a) (sy_tasks a), Ret tt)) as Hfold.
  { induction l as [|[id g] l IH]; intros n; [cbn; by rewrite Z.add_0_r|].
    destruct (Hel (id, g) ltac:(by left)) as (gs & t & Hg & Hwf & Htl).
    set (b := mkSync _ _ _ _ _ n _ _).
    destruct (check_pool_eq b id g gs t Hg Hwf Htl) as [_ E]. cbn [foldM snd].
    erewrite M_bind_ret by exact E. rewrite Zsum_cons. cbn [sy_config sy_store b].
    destruct (needs_rebalancing _ _ (id, g)).
    - unfold inc_rebalancingOps, b. cbn -[Zsum]. rewrite IH by (intros; apply Hel; by right).
      by rewrite Z.add_assoc.
    - unfold b. rewrite IH by (intros; apply Hel; by right). by rewrite Z.add_0_l. }
  rewrite <- Hfold. by destruct a.
Qed.

(** ** The process on its own *)

(** A tick of any loop; each holds the mutex of what it touches. *)
Inductive loop_step : SyncHookAggregator → SyncHookAggregator → Prop :=
  | task_loop (R : RangeOrder) now a a' r : processTasks now a = (a', r) → loop_step a a'
  | state_loop (R : RangeOrder) now now' a a' r :
      aggregateStates now now' a = (a', r) → loop_step a a'
  | rebalancing_loop (R : RangeOrder) a a' r : checkRebalancingNeeds a = (a', r) → loop_step a a'
  | health_loop a a' r : performHealthCheck a = (a', r) → loop_step a a'.

Lemma range_empty `{RangeOrder} {K V} `{Countable K} i : range_list i (∅ : gmap K V) = [].
Proof. apply Permutation_nil. rewrite range_perm. by rewrite map_to_list_empty. Qed.

(** Passes over no task and no pool. *)
Section empty.
Context `{RangeOrder} (config : Config).
Abbreviation a0 := (NewSyncHookAggregator config).

Lemma processTasks_empty now : processTasks now a0 = (a0, Ret tt).
Proof. by rewrite process_tasks_eq. Qed.

Lemma aggregateStates_empty now now' : aggregateStates now now' a0 = (a0, Ret tt).
Proof.
  unfold aggregateStates. erewrite M_bind_ret by done.
  cbn [sy_store NewSyncHookAggregator st_poolStates NewAggregator]. by rewrite range_empty.
Qed.

Lemma checkRebalancingNeeds_empty : checkRebalancingNeeds a0 = (a0, Ret tt).
Proof.
  unfold checkRebalancingNeeds. erewrite M_bind_ret by done.
  cbn [sy_store NewSyncHookAggregator st_poolStates NewAggregator]. by rewrite range_empty.
Qed.

(** The interval of a loop, in nanoseconds. *)
Definition interval (l : loop) : Z :=
  match l with
  | TaskLoop => seconds (cf_TaskTimeout config)
  | StateLoop => seconds (cf_StateUpdateInterval config)
  | RebalancingLoop => 60 * second
  | HealthLoop => seconds (cf_HealthCheckInterval config)
  end.

Lemma ticker_loop_idle d (body : time → M SyncHookAggregator unit) events a :
  (∀ now, body now a = (a, Ret tt)) →
  ticker_loop d body events a =
    (a, if bool_decide (d ≤ 0) then Panic (PanicMsg "non-positive interval for NewTicker") else Ret tt).
Proof.
  intros Hb. unfold ticker_loop, NewTicker. case_bool_decide; [done|]. erewrite M_bind_ret by reflexivity.
  induction events as [|[|now] events IH]; [done..|]. cbn [select_loop]. by rewrite (M_bind_ret _ _ _ _ _ (Hb now)).
Qed.

Lemma run_loop_empty l now' events :
  run_loop l now' events a0 =
    (a0, if bool_decide (interval l ≤ 0) then Panic (PanicMsg "non-positive interval for NewTicker") else Ret tt).
Proof.
  destruct l; cbn [run_loop interval];
    unfold taskProcessingLoop, stateAggregationLoop, rebalancingLoop, healthCheckLoop;
    try (erewrite M_bind_ret by reflexivity); apply ticker_loop_idle; intros now.
  - apply processTasks_empty.
  - apply aggregateStates_empty.
  - apply checkRebalancingNeeds_empty.
  - done.
Qed.
End empty.

(** The started aggregator is inert: no code files a task or registers a
    pool, so from its initial state no interleaving of the loops ever changes
    anything, not even a counter. *)
Theorem loops_are_inert config a :
  rtc loop_step (NewSyncHookAggregator config) a → a = NewSyncHookAggregator config.
Proof.
  intros Hr. remember (NewSyncHookAggregator config) as a0 eqn:E0.
  induction Hr as [|x y z Hs _ IH]; [done|]. subst x.
  assert (y = NewSyncHookAggregator config) as ->; [|auto].
  inversion Hs as [R now ? ? r E|R now now' ? ? r E|R ? ? r E|? ? r E]; subst; clear Hs.
  - rewrite processTasks_empty in E. by injection E.
  - rewrite aggregateStates_empty in E. by injection E.
  - rewrite checkRebalancingNeeds_empty in E. by injection E.
  - by injection E.
Qed.

(** ** Concrete runs *)

#[local] Existing Instance forward_order.

Definition demo_config : Config :=
  mkConfig "" false false 0 "" "" "" "" "" "" 30 10 3 5 10 f_zero 60 true (f_lit 5 100) "" "" 300
    false 0 false 30 "" "".

Definition demo_task : SyncHookTask := mkTask 7 0 1 [] [] 1000 0 0 [] 1 ∅ false [].
Definition demo_response : SyncHookTaskResponse := mkResponse [1] [2] [3] 5 true.

Definition run0 : SyncHookAggregator := NewSyncHookAggregator demo_config.
Definition run1 : SyncHookAggregator := sy_set_tasks (<[7 := demo_task]> (sy_tasks run0)) run0.
Definition run2 : SyncHookAggregator :=
  sy_set_tasks (<[7 := tk_set_Responses (<["op" := demo_response]> (tk_Responses demo_task)) demo_task]>
    (sy_tasks run1)) run1.
Definition run3 : SyncHookAggregator := (processTasks (500 * second) run2).1.
Definition agreed_task : SyncHookTask :=
  mkTask 7 0 1 [] [] 1000 3 0 [] 1 {["op" := demo_response]} true [].

(** The response is then replaced by one that is not valid. *)
Definition replaced : gmap string SyncHookTaskResponse := {["op" := mkResponse [1] [2] [3] 6 false]}.
Definition run4 : SyncHookAggregator :=
  sy_set_tasks (<[7 := tk_set_Responses replaced agreed_task]> (sy_tasks run3)) run3.

Lemma run3_task : sy_tasks run3 !! 7 = Some agreed_task.
Proof. vm_compute. reflexivity. Qed.

Lemma run4_reachable : rtc task_step run0 run4.
Proof.
  eapply rtc_l; [by apply (file_task run0 7 demo_task)|].
  eapply rtc_l; [by apply (change_responses run1 7 demo_task {["op" := demo_response]})|].
  eapply rtc_l; [|apply rtc_once, (change_responses run3 7 agreed_task replaced run3_task)].
  eapply (task_tick _ (500 * second)). rewrite process_tasks_eq. unfold run3. rewrite process_tasks_eq. reflexivity.
Qed.

Lemma consensus_needs_quorum_witness :
  valid_count (tk_Responses (tk_set_Responses replaced agreed_task)) = 0 ∧
  ∃ b tb, rtc task_step run0 b ∧ sy_tasks b !! 7 = Some tb ∧
    tk_ConsensusReached tb = false ∧ 1 ≤ valid_count (tk_Responses tb).
Proof.
  split; [reflexivity|].
  destruct (consensus_needs_quorum demo_config run4 7 (tk_set_Responses replaced agreed_task) run4_reachable)
    as [Hc _]; [apply lookup_insert_eq|].
  destruct (Hc eq_refl) as (_ & R & now & b & b' & tb & Hb & _ & _ & Hid & Hs & _ & Hn & Hq).
  exists b, tb. split_and!; [done..|].
  pose proof (f_equal tk_QuorumThresholdPercentage Hs) as Hs1. cbn in Hs1. lia.
Defined.

Lemma completed_tasks_fail_every_pass_witness :
  let a' := run_passes [2000 * second; 3000 * second] run3 in
  sy_tasks a' !! 7 = Some (tk_set_Status 4 agreed_task) ∧ sy_tasksFailed run3 + 2 ≤ sy_tasksFailed a'.
Proof.
  apply (completed_tasks_fail_every_pass [2000 * second; 3000 * second] run3 7 agreed_task run3_task).
  - repeat constructor; vm_compute; reflexivity.
  - discriminate.
Defined.

(** The aggregator process over the demonstration store. *)
Definition live : SyncHookAggregator := mkSync demo_config 0 0 0 0 0 demo3 ∅.

Lemma live_ok : pools_ok (sy_store live).
Proof. apply Inv_pools_ok. apply reachable_Good, demo3_reachable. Qed.

Lemma live_total : total_liq (pools_of demo3 (gs_ChainStates demo_pool)) = 400.
Proof. vm_compute. reflexivity. Qed.

Lemma aggregateStates_pass_witness :
  ∃ a', aggregateStates (10 * second) (λ _, 11 * second) live = (a', Ret tt) ∧
    fate live a' (10 * second) (11 * second) "pool" 2%positive demo_pool.
Proof.
  destruct (aggregateStates_pass (10 * second) (λ _, 11 * second) live live_ok)
    as (a' & E & _ & Hf & _).
  exists a'. split; [exact E|]. apply Hf; [exact demo3_id|exact demo3_pool].
Defined.

Lemma aggregation_defeats_staleness_witness :
  sy_pools (run_states [(50 * second, λ _, 51 * second); (100 * second, λ _, 101 * second)] live)
    !! "pool" = Some 2%positive.
Proof.
  apply (aggregation_defeats_staleness
    [(50 * second, λ _, 51 * second); (100 * second, λ _, 101 * second)] live "pool" 2%positive demo_pool).
  - exact live_ok.
  - exact demo3_id.
  - exact demo3_pool.
  - apply insert_non_empty.
  - change (sy_store live) with demo3. rewrite live_total. discriminate.
  - vm_compute. split; reflexivity.
  - cbn. unfold second. repeat split; lia.
Defined.

Lemma live_totals : map_Forall (λ _ gs, is_Some (gs_TotalLiquidity gs)) (sy_globals live).
Proof. refine (bool_decide_eq_true_1 _ _). vm_compute. reflexivity. Qed.

Lemma checkRebalancingNeeds_agrees_witness :
  sy_rebalancingOps (checkRebalancingNeeds live).1 = 1.
Proof.
  rewrite (checkRebalancingNeeds_agrees live live_ok); [vm_compute; reflexivity|].
  exact live_totals.
Defined.

Lemma loops_are_inert_witness : (processTasks (500 * second) run0).1 = run0.
Proof.
  apply loops_are_inert. apply rtc_once. eapply (task_loop _ (500 * second)).
  apply surjective_pairing.
Defined.
