(* ===== verification/Alerts.v ===== *)
(** * [pkg/monitoring/alerts.go]: the alert manager

    Alerts are shared: the map, the channel and the callers hold pointers to
    the same object, so they live in a heap.  Handlers are clients' code behind
    the [AlertHandler] interface; the calls made to them are logged in order.
    [time.Now()] readings are arguments. *)

From S2P Require Import Prelude Float64 Loops.

(** ** Data *)

(** The values the program puts in a [map[string]interface{}]. *)
Inductive value : Type :=
  | VFloat (x : float64)
  | VInt (n : Z)
  | VString (s : string)
  | VTime (t : time).

Record Alert := mkAlert {
  al_ID : string;
  al_Type : string;
  al_Severity : string;
  al_Message : string;
  al_Timestamp : Z;
  al_Resolved : bool;
  al_ResolvedAt : Z;
  al_Metadata : gmap string value;
  al_Source : string;
  al_Tags : list string;
}.

Record AlertThresholds := mkAlertThresholds {
  th_PriceDeviation : float64;
  th_LiquidityImbalance : float64;
  th_ResponseTime : Z;
  th_ErrorRate : float64;
  th_Uptime : float64;
  th_MemoryUsage : float64;
  th_CPUUsage : float64;
}.

(** [AlertHandler]: what a handler answers to each call. *)
Record AlertHandler := mkAlertHandler {
  HandleAlert : Alert → res unit;
  HandleAlertResolved : string → res unit;
}.

(** A call made to the [i]-th handler. *)
Inductive call : Type :=
  | CallAlert (i : nat) (alert : Alert)
  | CallResolved (i : nat) (alertID : string).

Definition ptr : Type := positive.

Record AlertManager := mkAlertManager {
  am_alerts : gmap string ptr;
  am_alertChan : list ptr;
  am_resolveChan : list string;
  am_thresholds : AlertThresholds;
  am_handlers : list AlertHandler;
  am_heap : gmap ptr Alert;
  am_next : ptr;
  am_calls : list call;
}.

Definition am_set_alerts (m : gmap string ptr) (am : AlertManager) : AlertManager :=
  mkAlertManager m (am_alertChan am) (am_resolveChan am) (am_thresholds am) (am_handlers am)
    (am_heap am) (am_next am) (am_calls am).
Definition am_set_alertChan (c : list ptr) (am : AlertManager) : AlertManager :=
  mkAlertManager (am_alerts am) c (am_resolveChan am) (am_thresholds am) (am_handlers am)
    (am_heap am) (am_next am) (am_calls am).
Definition am_set_resolveChan (c : list string) (am : AlertManager) : AlertManager :=
  mkAlertManager (am_alerts am) (am_alertChan am) c (am_thresholds am) (am_handlers am)
    (am_heap am) (am_next am) (am_calls am).
Definition am_set_heap (h : gmap ptr Alert) (am : AlertManager) : AlertManager :=
  mkAlertManager (am_alerts am) (am_alertChan am) (am_resolveChan am) (am_thresholds am)
    (am_handlers am) h (am_next am) (am_calls am).
Definition am_log (c : call) (am : AlertManager) : AlertManager :=
  mkAlertManager (am_alerts am) (am_alertChan am) (am_resolveChan am) (am_thresholds am)
    (am_handlers am) (am_heap am) (am_next am) (am_calls am ++ [c]).

Definition NewAlertManager (thresholds : AlertThresholds) : AlertManager :=
  mkAlertManager ∅ [] [] thresholds [] ∅ 1%positive [].

Definition AddHandler (handler : AlertHandler) : M AlertManager unit :=
  modify (λ am, mkAlertManager (am_alerts am) (am_alertChan am) (am_resolveChan am)
    (am_thresholds am) (am_handlers am ++ [handler]) (am_heap am) (am_next am) (am_calls am)).

(** [make(chan _, 100)]; [select { case c <- x: default: }] drops [x] when full. *)
Definition chan_cap : nat := 100.
Definition try_send {A} (x : A) (c : list A) : list A :=
  if bool_decide (length c < chan_cap)%nat then c ++ [x] else c.

Definition new_alert (a : Alert) : M AlertManager ptr := λ am,
  (mkAlertManager (am_alerts am) (am_alertChan am) (am_resolveChan am) (am_thresholds am)
     (am_handlers am) (<[am_next am := a]> (am_heap am)) (Pos.succ (am_next am)) (am_calls am),
   Ret (am_next am)).

Definition load_alert (p : ptr) : M AlertManager Alert := λ am,
  match am_heap am !! p with
  | Some a => (am, Ret a)
  | None => (am, Panic NilDeref)
  end.

(** ** Alerts *)

(** [fmt.Sprintf("%s_%d", alertType, time.Now().UnixNano())] *)
Definition alert_id (alertType : string) (now : time) : string :=
  alertType +:+ "_" +:+ pretty (UnixNano now).

Definition CreateAlert (now1 now2 : time) (alertType severity message source : string)
    (metadata : gmap string value) (tags : list string) : M AlertManager string :=
  let alertID := alert_id alertType now1 in
  alert ← new_alert (mkAlert alertID alertType severity message (unix_u64 now2) false 0 metadata
                       source tags);
  modify (λ am, am_set_alerts (<[alertID := alert]> (am_alerts am)) am);;
  modify (λ am, am_set_alertChan (try_send alert (am_alertChan am)) am);;
  mret alertID.

Definition resolve (now : time) (a : Alert) : Alert :=
  mkAlert (al_ID a) (al_Type a) (al_Severity a) (al_Message a) (al_Timestamp a) true (unix_u64 now)
    (al_Metadata a) (al_Source a) (al_Tags a).

Definition ResolveAlert (now : time) (alertID : string) : M AlertManager unit :=
  am ← get;
  match am_alerts am !! alertID with
  | None => throw ("alert not found: " +:+ alertID)
  | Some p =>
      alert ← load_alert p;
      if al_Resolved alert then throw ("alert already resolved: " +:+ alertID) else
      modify (λ am, am_set_heap (<[p := resolve now alert]> (am_heap am)) am);;
      modify (λ am, am_set_resolveChan (try_send alertID (am_resolveChan am)) am)
  end.

Definition GetAlert (alertID : string) : M AlertManager ptr :=
  am ← get;
  match am_alerts am !! alertID with
  | None => throw ("alert not found: " +:+ alertID)
  | Some p => mret p
  end.

Section alerts.
Context `{RangeOrder}.

(** The loop of [GetAlerts]: it stops once [limit] alerts are collected. *)
Fixpoint filter_loop (severity : string) (resolved : bool) (limit : Z)
    (filteredAlerts : list ptr) (count : Z) (alerts : list (string * ptr))
    : M AlertManager (list ptr) :=
  match alerts with
  | [] => mret filteredAlerts
  | kp :: alerts =>
      if bool_decide (0 < limit ∧ limit ≤ count) then mret filteredAlerts else
      alert ← load_alert kp.2;
      if bool_decide (severity ≠ "" ∧ al_Severity alert ≠ severity) then
        filter_loop severity resolved limit filteredAlerts count alerts
      else if negb (Bool.eqb (al_Resolved alert) resolved) then
        filter_loop severity resolved limit filteredAlerts count alerts
      else filter_loop severity resolved limit (filteredAlerts ++ [kp.2]) (count + 1) alerts
  end.

Definition GetAlerts (severity : string) (resolved : bool) (limit : Z) : M AlertManager (list ptr) :=
  am ← get;
  filter_loop severity resolved limit [] 0 (range_list 0 (am_alerts am)).

Definition GetActiveAlerts : M AlertManager (list ptr) := GetAlerts "" false 0.
Definition GetCriticalAlerts : M AlertManager (list ptr) := GetAlerts "critical" false 0.

(** [stats[k] = stats[k].(int) + 1] *)
Definition bump (k : string) (stats : gmap string Z) : gmap string Z :=
  <[k := default 0 (stats !! k) + 1]> stats.

Definition count_alert (stats : gmap string Z) (alert : Alert) : gmap string Z :=
  let stats := bump "total" stats in
  let stats := if al_Resolved alert then bump "resolved" stats else bump "active" stats in
  if bool_decide (al_Severity alert = "critical") then bump "critical" stats
  else if bool_decide (al_Severity alert = "high") then bump "high" stats
  else if bool_decide (al_Severity alert = "medium") then bump "medium" stats
  else if bool_decide (al_Severity alert = "low") then bump "low" stats
  else stats.

Definition GetAlertStats : M AlertManager (gmap string Z) :=
  am ← get;
  let stats := list_to_map ((λ k, (k, 0)) <$>
    ["total"; "active"; "resolved"; "critical"; "high"; "medium"; "low"]) in
  foldM (λ stats kp, alert ← load_alert kp.2; mret (count_alert stats alert)) stats
    (range_list 0 (am_alerts am)).

(** ** Cleanup *)

Definition cleanupOldAlerts (now : time) : M AlertManager unit :=
  am ← get;
  let cutoff := u64_sub (unix_u64 now) (7 * 24 * 60 * 60) in
  toDelete ← foldM (λ toDelete kp,
      alert ← load_alert kp.2;
      mret (if al_Resolved alert && bool_decide (al_ResolvedAt alert < cutoff)
            then toDelete ++ [kp.1] else toDelete)) [] (range_list 0 (am_alerts am));
  foldM (λ _ alertID, modify (λ am, am_set_alerts (delete alertID (am_alerts am)) am)) tt toDelete.

(** Every hour. *)
Definition cleanupAlerts (events : list event) : M AlertManager unit :=
  ticker_loop (3600 * second) cleanupOldAlerts events.
End alerts.

(** ** Delivery *)

(** The handlers are called in order; their errors are only logged. *)
Fixpoint call_handlers (mk : nat → call) (f : AlertHandler → res unit) (i : nat)
    (handlers : list AlertHandler) : M AlertManager unit :=
  match handlers with
  | [] => mret tt
  | h :: handlers =>
      modify (am_log (mk i));;
      try (lift (f h));;
      call_handlers mk f (S i) handlers
  end.

Definition handleAlert (p : ptr) : M AlertManager unit :=
  alert ← load_alert p;
  am ← get;
  call_handlers (λ i, CallAlert i alert) (λ h, HandleAlert h alert) 0 (am_handlers am).

Definition handleAlertResolved (alertID : string) : M AlertManager unit :=
  am ← get;
  call_handlers (λ i, CallResolved i alertID) (λ h, HandleAlertResolved h alertID) 0 (am_handlers am).

(** One iteration of [processAlerts]; when both channels are ready [select]
    picks either. *)
Inductive choice : Type := FromAlerts | FromResolves.

Definition process_one (c : choice) : M AlertManager unit :=
  am ← get;
  match c with
  | FromAlerts =>
      match am_alertChan am with
      | [] => mret tt
      | p :: rest => modify (am_set_alertChan rest);; handleAlert p
      end
  | FromResolves =>
      match am_resolveChan am with
      | [] => mret tt
      | alertID :: rest => modify (am_set_resolveChan rest);; handleAlertResolved alertID
      end
  end.

Fixpoint processAlerts (choices : list choice) : M AlertManager unit :=
  match choices with
  | [] => mret tt
  | c :: choices => process_one c;; processAlerts choices
  end.

(** The goroutines [Start] launches. *)
Inductive alert_goroutine : Type := Processing | Cleanup.
Definition AlertManager_Start : list alert_goroutine := [Processing; Cleanup].

(** ** Thresholds *)

Definition percent (x : float64) : string := fmt_2f (f_mul x (f_of_Z 100)) +:+ "%".

(** [if x, exists := metrics[key]; exists { if test(x) { am.CreateAlert(...) } }];
    [clock] gives the two readings of the clock. *)
Definition check_threshold (clock : time * time) (metrics : gmap string float64) (key : string)
    (test : float64 → bool) (severity : string) (message : float64 → string) (threshold : value)
    (tags : list string) : M AlertManager unit :=
  match metrics !! key with
  | None => mret tt
  | Some x =>
      if test x then
        CreateAlert clock.1 clock.2 key severity (message x) "monitoring"
          (<["threshold" := threshold]> {[key := VFloat x]}) tags;;
        mret tt
      else mret tt
  end.

Definition CheckThresholds (clock : nat → time * time) (metrics : gmap string float64)
    : M AlertManager unit :=
  am ← get;
  let t := am_thresholds am in
  check_threshold (clock 0%nat) metrics "price_deviation"
    (λ x, f_gtb x (th_PriceDeviation t)) "high"
    (λ x, "Price deviation exceeded threshold: " +:+ percent x +:+ " > "
            +:+ percent (th_PriceDeviation t))
    (VFloat (th_PriceDeviation t)) ["price"; "deviation"];;
  check_threshold (clock 1%nat) metrics "liquidity_imbalance"
    (λ x, f_gtb x (th_LiquidityImbalance t)) "high"
    (λ x, "Liquidity imbalance exceeded threshold: " +:+ percent x +:+ " > "
            +:+ percent (th_LiquidityImbalance t))
    (VFloat (th_LiquidityImbalance t)) ["liquidity"; "imbalance"];;
  check_threshold (clock 2%nat) metrics "response_time"
    (λ x, f_gtb x (f_of_Z (th_ResponseTime t))) "medium"
    (λ x, "Response time exceeded threshold: " +:+ fmt_2f x +:+ "s > "
            +:+ pretty (th_ResponseTime t) +:+ "s")
    (VInt (th_ResponseTime t)) ["response"; "time"];;
  check_threshold (clock 3%nat) metrics "error_rate"
    (λ x, f_gtb x (th_ErrorRate t)) "high"
    (λ x, "Error rate exceeded threshold: " +:+ percent x +:+ " > " +:+ percent (th_ErrorRate t))
    (VFloat (th_ErrorRate t)) ["error"; "rate"];;
  check_threshold (clock 4%nat) metrics "uptime"
    (λ x, f_ltb x (th_Uptime t)) "critical"
    (λ x, "Uptime below threshold: " +:+ percent x +:+ " < " +:+ percent (th_Uptime t))
    (VFloat (th_Uptime t)) ["uptime"];;
  check_threshold (clock 5%nat) metrics "memory_usage"
    (λ x, f_gtb x (th_MemoryUsage t)) "medium"
    (λ x, "Memory usage exceeded threshold: " +:+ percent x +:+ " > "
            +:+ percent (th_MemoryUsage t))
    (VFloat (th_MemoryUsage t)) ["memory"; "usage"];;
  check_threshold (clock 6%nat) metrics "cpu_usage"
    (λ x, f_gtb x (th_CPUUsage t)) "medium"
    (λ x, "CPU usage exceeded threshold: " +:+ percent x +:+ " > " +:+ percent (th_CPUUsage t))
    (VFloat (th_CPUUsage t)) ["cpu"; "usage"].

Definition GetDefaultThresholds : AlertThresholds :=
  mkAlertThresholds (f_lit 1 10) (f_lit 2 10) 30 (f_lit 5 100) (f_lit 99 100) (f_lit 8 10)
    (f_lit 8 10).
