(* ===== verification/AlertsProps.v ===== *)
(** * The alert manager's contract ([pkg/monitoring/alerts.go])

    Identifiers, the life of an alert under every operation, what the queries
    return and what the threshold checks raise. *)

From Stdlib Require Import Ascii.
From S2P Require Import Prelude Float64 Alerts.

(** ** Identifiers *)

Fixpoint no_underscore (s : string) : Prop :=
  match s with
  | EmptyString => True
  | String c s => c ≠ "_"%char ∧ no_underscore s
  end.

Lemma no_underscore_app s1 s2 : no_underscore (s1 +:+ "_" +:+ s2) → False.
Proof. induction s1 as [|c s1 IH]; cbn; [by intros [? _]|by intros [_ ?]]. Qed.

Lemma split_last_underscore t1 t2 d1 d2 :
  no_underscore d1 → no_underscore d2 →
  t1 +:+ "_" +:+ d1 = t2 +:+ "_" +:+ d2 → t1 = t2 ∧ d1 = d2.
Proof.
  intros H1 H2. revert t2. induction t1 as [|c1 t1 IH]; intros [|c2 t2] E.
  - by injection E.
  - exfalso. injection E as <- E. change (d1 = t2 +:+ "_" +:+ d2) in E. rewrite E in H1. by apply no_underscore_app in H1.
  - exfalso. injection E as -> E. change (t1 +:+ "_" +:+ d1 = d2) in E. rewrite <- E in H2. by apply no_underscore_app in H2.
  - injection E as <- E. destruct (IH t2 E) as [-> ->]. done.
Qed.

Lemma pretty_go_no_underscore x s : no_underscore s → no_underscore (pretty_N_go x s).
Proof.
  revert s. induction x as [x IH] using (well_founded_induction N.lt_wf_0). intros s Hs.
  destruct (decide (x = 0)%N) as [->|Hx]; [by rewrite pretty_N_go_0|].
  rewrite pretty_N_go_step by lia. apply IH; [apply N.div_lt; lia|].
  split; [|done]. unfold pretty_N_char. by repeat case_match.
Qed.

Lemma pretty_no_underscore (z : Z) : no_underscore (pretty z).
Proof.
  destruct z as [|p|p]; [by split|..]; [|split; [done|]]; apply (pretty_go_no_underscore (N.pos p) "");
    done.
Qed.

(** Identifiers clash only for the same type at the same nanosecond. *)
Lemma alert_id_inj t1 t2 n1 n2 :
  is_i64 n1 → is_i64 n2 → alert_id t1 n1 = alert_id t2 n2 → t1 = t2 ∧ n1 = n2.
Proof.
  intros H1 H2 E. unfold alert_id, UnixNano in E. rewrite !i64_id in E by done.
  apply split_last_underscore in E as [-> E]; [|apply pretty_no_underscore..].
  by apply (inj pretty) in E.
Qed.

(** ** The invariant *)

Record AmInv (am : AlertManager) : Prop := {
  ai_alerts : ∀ id p, am_alerts am !! id = Some p → ∃ a, am_heap am !! p = Some a ∧ al_ID a = id;
  ai_chan : ∀ p, p ∈ am_alertChan am → is_Some (am_heap am !! p);
  ai_fresh : ∀ p, is_Some (am_heap am !! p) → (p < am_next am)%positive;
  ai_bounded : (length (am_alertChan am) ≤ chan_cap)%nat ∧ (length (am_resolveChan am) ≤ chan_cap)%nat;
}.

Lemma try_send_bounded {A} (x : A) c : (length c ≤ chan_cap → length (try_send x c) ≤ chan_cap)%nat.
Proof. unfold try_send. case_bool_decide; rewrite ?length_app; cbn; lia. Qed.

Lemma try_send_elem {A} (x y : A) c : y ∈ try_send x c → y = x ∨ y ∈ c.
Proof.
  unfold try_send. case_bool_decide; [|by right].
  intros [?|Hy]%elem_of_app; [by right|left; by apply list_elem_of_singleton].
Qed.

(** ** Each operation as a function of the state *)

Definition created (now1 now2 : time) (alertType severity message source : string)
    (metadata : gmap string value) (tags : list string) (am : AlertManager) : AlertManager :=
  let id := alert_id alertType now1 in
  mkAlertManager (<[id := am_next am]> (am_alerts am)) (try_send (am_next am) (am_alertChan am))
    (am_resolveChan am) (am_thresholds am) (am_handlers am)
    (<[am_next am := mkAlert id alertType severity message (unix_u64 now2) false 0 metadata source tags]>
      (am_heap am)) (Pos.succ (am_next am)) (am_calls am).

Lemma create_eq now1 now2 ty sev msg src meta tags am :
  CreateAlert now1 now2 ty sev msg src meta tags am =
    (created now1 now2 ty sev msg src meta tags am, Ret (alert_id ty now1)).
Proof. done. Qed.

(** A state whose alerts only differ by what [f] does to some of them. *)
Lemma resolve_eq now id p a am :
  am_alerts am !! id = Some p → am_heap am !! p = Some a →
  ResolveAlert now id am =
    if al_Resolved a then (am, Err ("alert already resolved: " +:+ id))
    else (mkAlertManager (am_alerts am) (am_alertChan am) (try_send id (am_resolveChan am))
            (am_thresholds am) (am_handlers am) (<[p := resolve now a]> (am_heap am))
            (am_next am) (am_calls am), Ret tt).
Proof.
  intros Hid Hp. unfold ResolveAlert. erewrite M_bind_ret by done. rewrite Hid.
  erewrite M_bind_ret by (unfold load_alert; by rewrite Hp). by destruct (al_Resolved a).
Qed.

Definition alert_at (am : AlertManager) (p : ptr) : Alert :=
  default (mkAlert "" "" "" "" 0 false 0 ∅ "" []) (am_heap am !! p).

Definition outdated (now : time) (a : Alert) : bool :=
  al_Resolved a && bool_decide (al_ResolvedAt a < u64_sub (unix_u64 now) (7 * 24 * 60 * 60)).

Section with_order.
Context `{RangeOrder}.

(** Every pointer of the map is allocated: loops over it do not fail. *)
Lemma range_loads am i kp :
  AmInv am → kp ∈ range_list i (am_alerts am) → load_alert kp.2 am = (am, Ret (alert_at am kp.2)).
Proof.
  intros HI Hin. rewrite range_perm in Hin. destruct kp as [id p].
  apply elem_of_map_to_list in Hin. destruct (ai_alerts _ HI _ _ Hin) as (a & Ha & _).
  unfold load_alert, alert_at. cbn. by rewrite Ha.
Qed.

Lemma foldM_delete (l : list string) am :
  foldM (λ _ id, modify (λ am, am_set_alerts (delete id (am_alerts am)) am)) tt l am =
    (am_set_alerts (foldl (λ m id, delete id m) (am_alerts am) l) am, Ret tt).
Proof.
  revert am. induction l as [|id l IH]; intros am; [by destruct am|].
  cbn [foldM foldl]. erewrite M_bind_ret by done. by rewrite IH.
Qed.

Lemma foldl_delete_lookup {A} (l : list string) (m : gmap string A) id :
  foldl (λ m id, delete id m) m l !! id = if decide (id ∈ l) then None else m !! id.
Proof.
  revert m. induction l as [|k l IH]; intros m; cbn [foldl].
  - by rewrite decide_False by apply not_elem_of_nil.
  - rewrite IH. destruct (decide (id ∈ l)) as [Hin|Hin].
    + rewrite decide_True; [done|]. by right.
    + destruct (decide (id = k)) as [->|Hne].
      * rewrite decide_True by by left. apply lookup_delete_eq.
      * rewrite decide_False, lookup_delete_ne; [done..|]. by intros [?|?]%elem_of_cons.
Qed.

Lemma cleanup_eq now am :
  AmInv am →
  ∃ m, cleanupOldAlerts now am = (am_set_alerts m am, Ret tt) ∧
    ∀ id, m !! id = match am_alerts am !! id with
                    | Some p => if outdated now (alert_at am p) then None else Some p
                    | None => None
                    end.
Proof.
  intros HI. unfold cleanupOldAlerts. erewrite M_bind_ret by done.
  set (P := λ kp : string * ptr, outdated now (alert_at am kp.2)).
  erewrite M_bind_ret; [|apply (foldM_rep (λ l, l) (λ l kp, if P kp then l ++ [kp.1] else l));
    intros l kp Hin;
    rewrite (M_bind_ret _ _ am am (alert_at am kp.2)) by (by apply (range_loads am 0)); done].
  rewrite foldl_filter, foldM_delete. eexists. split; [done|]. intros id.
  rewrite foldl_delete_lookup. cbn [app].
  assert (id ∈ (filter P (range_list 0 (am_alerts am))).*1 ↔
    ∃ p, am_alerts am !! id = Some p ∧ outdated now (alert_at am p) = true) as Hel.
  { rewrite list_elem_of_fmap. split.
    - intros ([id' p] & -> & [Ho Hin]%list_elem_of_filter). rewrite range_perm in Hin.
      apply elem_of_map_to_list in Hin. exists p. split; [done|]. by apply Is_true_eq_true.
    - intros (p & Hp & Ho). exists (id, p). split; [done|]. apply list_elem_of_filter.
      split; [by apply Is_true_eq_left|]. rewrite range_perm. by apply elem_of_map_to_list. }
  case_decide as Hd.
  - apply Hel in Hd as (p & -> & ->). done.
  - destruct (am_alerts am !! id) as [p|] eqn:Eid; [|done].
    destruct (outdated now (alert_at am p)) eqn:Eo; [|done].
    exfalso. apply Hd, Hel. eauto.
Qed.
End with_order.

(** Handlers see alerts but cannot change the manager: only the log grows. *)
Definition logged (am : AlertManager) (calls : list call) : AlertManager :=
  mkAlertManager (am_alerts am) (am_alertChan am) (am_resolveChan am) (am_thresholds am)
    (am_handlers am) (am_heap am) (am_next am) calls.

Lemma call_handlers_logged mk f i hs am :
  ∃ calls r, call_handlers mk f i hs am = (logged am calls, r).
Proof.
  revert i am. induction hs as [|h hs IH]; intros i am; [exists (am_calls am), (Ret tt); by destruct am|].
  cbn [call_handlers]. erewrite M_bind_ret by done. set (am1 := am_log (mk i) am).
  assert (try (lift (f h)) am1 = (am1, match f h with
    | Ret u => Ret (inl u) | Err e => Ret (inr e) | Panic p => Panic p end)) as E
    by (unfold try, lift; by destruct (f h)).
  destruct (f h) as [u|e|p].
  - erewrite M_bind_ret by exact E. destruct (IH (S i) am1) as (calls & r & ->). by exists calls, r.
  - erewrite M_bind_ret by exact E. destruct (IH (S i) am1) as (calls & r & ->). by exists calls, r.
  - erewrite M_bind_panic by exact E. by eexists _, _.
Qed.

Lemma process_one_eq c am :
  ∃ calls r chan1 chan2, process_one c am =
    (logged (am_set_alertChan chan1 (am_set_resolveChan chan2 am)) calls, r) ∧
    (∀ p, p ∈ chan1 → p ∈ am_alertChan am) ∧
    (length chan1 ≤ length (am_alertChan am))%nat ∧ (length chan2 ≤ length (am_resolveChan am))%nat.
Proof.
  unfold process_one. erewrite M_bind_ret by done. destruct c.
  - destruct (am_alertChan am) as [|p rest] eqn:Ec.
    { exists (am_calls am), (Ret tt), [], (am_resolveChan am). split; [|done].
      destruct am; cbn in *; by subst. }
    erewrite M_bind_ret by done. unfold handleAlert, load_alert. cbn [am_heap am_set_alertChan].
    destruct (am_heap am !! p) as [a|] eqn:Ep.
    + erewrite M_bind_ret by (cbn; by rewrite Ep). erewrite M_bind_ret by done.
      edestruct call_handlers_logged as (calls & r & ->). exists calls, r, rest, (am_resolveChan am).
      split; [done|]. split; [by right|cbn; lia].
    + erewrite M_bind_panic by (cbn; by rewrite Ep).
      exists (am_calls am), (Panic NilDeref), rest, (am_resolveChan am).
      split; [by destruct am|]. split; [by right|cbn; lia].
  - destruct (am_resolveChan am) as [|id rest] eqn:Ec.
    { exists (am_calls am), (Ret tt), (am_alertChan am), []. split; [|done].
      destruct am; cbn in *; by subst. }
    erewrite M_bind_ret by done. unfold handleAlertResolved. erewrite M_bind_ret by done.
    edestruct call_handlers_logged as (calls & r & ->). exists calls, r, (am_alertChan am), rest.
    split; [done|]. split; [done|cbn; lia].
Qed.

(** ** Creating an alert *)

Lemma fresh_ne am p : AmInv am → is_Some (am_heap am !! p) → p ≠ am_next am.
Proof. intros HI Hp%(ai_fresh _ HI) E. rewrite E in Hp. lia. Qed.

Lemma created_inv now1 now2 ty sev msg src meta tags am :
  AmInv am → AmInv (created now1 now2 ty sev msg src meta tags am).
Proof.
  intros HI. split; cbn.
  - intros id p Hid. destruct (decide (id = alert_id ty now1)) as [->|Hne].
    + rewrite lookup_insert_eq in Hid. injection Hid as <-. rewrite lookup_insert_eq. by eexists.
    + rewrite lookup_insert_ne in Hid by done. destruct (ai_alerts _ HI _ _ Hid) as (a & Ha & Hi).
      exists a. rewrite lookup_insert_ne; [done|]. apply not_eq_sym, fresh_ne; [done|by eexists].
  - intros p [Hp|Hp]%try_send_elem; [rewrite Hp, lookup_insert_eq; by eexists|].
    pose proof (ai_chan _ HI _ Hp) as Ha. rewrite lookup_insert_ne; [done|].
    by apply not_eq_sym, fresh_ne.
  - intros p Hp. destruct (decide (p = am_next am)) as [Hpn|Hpn]; [lia|].
    rewrite lookup_insert_ne in Hp by done. apply (ai_fresh _ HI) in Hp. lia.
  - destruct (ai_bounded _ HI). split; [by apply try_send_bounded|done].
Qed.

(** ** The threshold checks *)

Record check := mkCheck {
  ck_key : string;
  ck_test : float64 → bool;
  ck_severity : string;
  ck_message : float64 → string;
  ck_threshold : value;
  ck_tags : list string;
}.

(** The seven checks in order. *)
Definition checks (t : AlertThresholds) : list check :=
  [mkCheck "price_deviation" (λ x, f_gtb x (th_PriceDeviation t)) "high"
     (λ x, "Price deviation exceeded threshold: " +:+ percent x +:+ " > "
             +:+ percent (th_PriceDeviation t))
     (VFloat (th_PriceDeviation t)) ["price"; "deviation"];
   mkCheck "liquidity_imbalance" (λ x, f_gtb x (th_LiquidityImbalance t)) "high"
     (λ x, "Liquidity imbalance exceeded threshold: " +:+ percent x +:+ " > "
             +:+ percent (th_LiquidityImbalance t))
     (VFloat (th_LiquidityImbalance t)) ["liquidity"; "imbalance"];
   mkCheck "response_time" (λ x, f_gtb x (f_of_Z (th_ResponseTime t))) "medium"
     (λ x, "Response time exceeded threshold: " +:+ fmt_2f x +:+ "s > "
             +:+ pretty (th_ResponseTime t) +:+ "s")
     (VInt (th_ResponseTime t)) ["response"; "time"];
   mkCheck "error_rate" (λ x, f_gtb x (th_ErrorRate t)) "high"
     (λ x, "Error rate exceeded threshold: " +:+ percent x +:+ " > " +:+ percent (th_ErrorRate t))
     (VFloat (th_ErrorRate t)) ["error"; "rate"];
   mkCheck "uptime" (λ x, f_ltb x (th_Uptime t)) "critical"
     (λ x, "Uptime below threshold: " +:+ percent x +:+ " < " +:+ percent (th_Uptime t))
     (VFloat (th_Uptime t)) ["uptime"];
   mkCheck "memory_usage" (λ x, f_gtb x (th_MemoryUsage t)) "medium"
     (λ x, "Memory usage exceeded threshold: " +:+ percent x +:+ " > "
             +:+ percent (th_MemoryUsage t))
     (VFloat (th_MemoryUsage t)) ["memory"; "usage"];
   mkCheck "cpu_usage" (λ x, f_gtb x (th_CPUUsage t)) "medium"
     (λ x, "CPU usage exceeded threshold: " +:+ percent x +:+ " > " +:+ percent (th_CPUUsage t))
     (VFloat (th_CPUUsage t)) ["cpu"; "usage"]].

Definition run_check (clock : time * time) (metrics : gmap string float64) (c : check)
    : M AlertManager unit :=
  check_threshold clock metrics (ck_key c) (ck_test c) (ck_severity c) (ck_message c)
    (ck_threshold c) (ck_tags c).

Fixpoint run_checks (i : nat) (clock : nat → time * time) (metrics : gmap string float64)
    (cs : list check) : M AlertManager unit :=
  match cs with
  | [] => mret tt
  | c :: cs => run_check (clock i) metrics c;; run_checks (S i) clock metrics cs
  end.

(** The reading that breaches check [c], if there is one. *)
Definition breach (metrics : gmap string float64) (c : check) : option float64 :=
  match metrics !! ck_key c with
  | Some x => if ck_test c x then Some x else None
  | None => None
  end.

(** The alert check [c] raises for reading [x]. *)
Definition raised (now1 now2 : time) (c : check) (x : float64) : Alert :=
  mkAlert (alert_id (ck_key c) now1) (ck_key c) (ck_severity c) (ck_message c x) (unix_u64 now2)
    false 0 (<["threshold" := ck_threshold c]> {[ck_key c := VFloat x]}) "monitoring" (ck_tags c).

Lemma run_check_cases clock metrics c am :
  run_check clock metrics c am =
    (match breach metrics c with
     | Some x => created clock.1 clock.2 (ck_key c) (ck_severity c) (ck_message c x) "monitoring"
                   (<["threshold" := ck_threshold c]> {[ck_key c := VFloat x]}) (ck_tags c) am
     | None => am
     end, Ret tt).
Proof.
  unfold run_check, check_threshold, breach. destruct (metrics !! ck_key c) as [x|]; [|done].
  by destruct (ck_test c x).
Qed.

Lemma check_thresholds_eq clock metrics am :
  CheckThresholds clock metrics am = run_checks 0 clock metrics (checks (am_thresholds am)) am.
Proof.
  unfold CheckThresholds. erewrite M_bind_ret by done. cbn [checks run_checks].
  do 6 (apply M_bind_ext; intros ? ? _). by rewrite M_bind_tt.
Qed.

(** The alerts that checks [cs], the first of them number [i], raise in order. *)
Fixpoint raised_alerts (i : nat) (clock : nat → time * time) (metrics : gmap string float64)
    (cs : list check) : list Alert :=
  match cs with
  | [] => []
  | c :: cs =>
      match breach metrics c with
      | Some x => raised (clock i).1 (clock i).2 c x :: raised_alerts (S i) clock metrics cs
      | None => raised_alerts (S i) clock metrics cs
      end
  end.

(** [am'] is [am] with the alerts of [news] filed under their identifiers and
    queued in order, as long as the channel has room. *)
Record filed_new (news : list (ptr * Alert)) (am am' : AlertManager) : Prop := {
  fn_fresh : Forall (λ pa, am_next am ≤ pa.1)%positive news;
  fn_distinct : NoDup news.*1;
  fn_alerts : am_alerts am' = list_to_map ((λ pa, (al_ID pa.2, pa.1)) <$> news) ∪ am_alerts am;
  fn_heap : am_heap am' = list_to_map news ∪ am_heap am;
  fn_alertChan : am_alertChan am' = take chan_cap (am_alertChan am ++ news.*1);
  fn_resolveChan : am_resolveChan am' = am_resolveChan am;
  fn_thresholds : am_thresholds am' = am_thresholds am;
  fn_handlers : am_handlers am' = am_handlers am;
  fn_calls : am_calls am' = am_calls am;
}.

Lemma try_send_take {A} (x : A) c l :
  (length c ≤ chan_cap)%nat → take chan_cap (try_send x c ++ l) = take chan_cap (c ++ x :: l).
Proof.
  intros Hc. unfold try_send. case_bool_decide; [by rewrite <- app_assoc|].
  assert (length c = chan_cap) as <- by lia. by rewrite !take_app_length.
Qed.

Lemma raised_alerts_ids i clock metrics cs id :
  id ∈ al_ID <$> raised_alerts i clock metrics cs →
  ∃ j c, cs !! j = Some c ∧ id = alert_id (ck_key c) (clock (i + j)%nat).1.
Proof.
  revert i. induction cs as [|c cs IH]; intros i; cbn [raised_alerts]; [by intros ?%not_elem_of_nil|].
  intros Hin. assert (id = alert_id (ck_key c) (clock i).1 ∨
    id ∈ al_ID <$> raised_alerts (S i) clock metrics cs) as [->|(j & d & Hd & ->)%IH].
  { destruct (breach metrics c); [|by right]. cbn in Hin. apply elem_of_cons in Hin as [->|?]; [by left|by right]. }
  - exists 0%nat, c. by rewrite Nat.add_0_r.
  - exists (S j), d. by rewrite Nat.add_succ_r.
Qed.

Lemma raised_alerts_unresolved i clock metrics cs :
  Forall (λ a, al_Resolved a = false) (raised_alerts i clock metrics cs).
Proof.
  revert i. induction cs as [|c cs IH]; intros i; cbn [raised_alerts]; [constructor|].
  destruct (breach metrics c); [by constructor|done].
Qed.

(** The checks have identifiers of their own. *)
Lemma raised_alerts_NoDup i clock metrics cs :
  (∀ j, is_i64 (clock j).1) → NoDup (ck_key <$> cs) → NoDup (al_ID <$> raised_alerts i clock metrics cs).
Proof.
  intros Hclock. revert i. induction cs as [|c cs IH]; intros i Hnd; [constructor|].
  cbn in Hnd. apply NoDup_cons in Hnd as [Hc Hnd]. cbn [raised_alerts].
  destruct (breach metrics c); [|by apply IH]. cbn. apply NoDup_cons. split; [|by apply IH].
  intros (j & d & Hd & [E _]%alert_id_inj)%raised_alerts_ids; [|apply Hclock..].
  apply Hc. rewrite E. apply list_elem_of_fmap. exists d. split; [done|]. by eapply list_elem_of_lookup_2.
Qed.

Lemma filed_new_nil am : AmInv am → filed_new [] am am.
Proof.
  intros HI. split; cbn; try done; [constructor|by rewrite (left_id_L ∅ _)..|].
  rewrite app_nil_r, take_ge; [done|]. apply HI.
Qed.

Lemma new_ids (news : list (ptr * Alert)) :
  ((λ pa, (al_ID pa.2, pa.1)) <$> news).*1 = al_ID <$> news.*2.
Proof. by rewrite <- !list_fmap_compose. Qed.

Lemma filed_new_cons now1 now2 ty sev msg src meta tags news am am' :
  AmInv am → let am1 := created now1 now2 ty sev msg src meta tags am in
  let a := mkAlert (alert_id ty now1) ty sev msg (unix_u64 now2) false 0 meta src tags in
  al_ID a ∉ al_ID <$> news.*2 → filed_new news am1 am' → filed_new ((am_next am, a) :: news) am am'.
Proof.
  intros HI am1 a Hid [Hf Hd Ha Hh Hc Hr Ht Hhs Hl].
  assert (am_next am ∉ news.*1) as Hp.
  { intros ([q b] & Eq & Hin)%list_elem_of_fmap. rewrite Forall_forall in Hf. specialize (Hf _ Hin). cbn in *. lia. }
  split; try done.
  - constructor; [cbn; lia|]. eapply Forall_impl; [exact Hf|]. cbn. lia.
  - cbn. by constructor.
  - rewrite Ha. cbn. rewrite <- insert_union_l. symmetry. apply insert_union_r, not_elem_of_list_to_map_1.
    by rewrite new_ids.
  - rewrite Hh. cbn. rewrite <- insert_union_l. symmetry. by apply insert_union_r, not_elem_of_list_to_map_1.
  - rewrite Hc. cbn. apply try_send_take, HI.
Qed.

Lemma run_checks_ran clock metrics cs i am :
  (∀ j, is_i64 (clock j).1) → NoDup (ck_key <$> cs) → AmInv am →
  ∃ am' news, run_checks i clock metrics cs am = (am', Ret tt) ∧ AmInv am' ∧
    news.*2 = raised_alerts i clock metrics cs ∧ filed_new news am am'.
Proof.
  intros Hclock. revert i am. induction cs as [|c cs IH]; intros i am Hnd HI.
  { exists am, []. split_and!; [done..|]. by apply filed_new_nil. }
  pose proof (raised_alerts_NoDup i clock metrics (c :: cs) Hclock Hnd) as Hids.
  cbn in Hnd. apply NoDup_cons in Hnd as [Hc Hnd]. cbn [run_checks raised_alerts] in *.
  erewrite M_bind_ret by apply run_check_cases.
  destruct (breach metrics c) as [x|] eqn:Eb; [|by apply IH].
  edestruct (IH (S i)) as (am' & news & -> & HI' & Hn & Hf); [done|by apply created_inv|].
  exists am', ((am_next am, raised (clock i).1 (clock i).2 c x) :: news). split_and!; [done..| |].
  - cbn. by rewrite Hn.
  - apply filed_new_cons; [done| |exact Hf]. rewrite Hn. cbn in Hids. by apply NoDup_cons in Hids as [? _].
Qed.

Lemma checks_keys th : NoDup (ck_key <$> checks th).
Proof. refine (bool_decide_eq_true_1 _ _). vm_compute. reflexivity. Qed.

(** ** What each operation does to a filed alert *)

Inductive am_op : Type :=
  | do_handler (h : AlertHandler)
  | do_create (now1 now2 : time) (alertType severity message source : string)
      (metadata : gmap string value) (tags : list string)
  | do_check (clock : nat → time * time) (metrics : gmap string float64)
  | do_resolve (now : time) (id : string)
  | do_cleanup (R : RangeOrder) (now : time)
  | do_process (c : choice).

Definition operate (o : am_op) (am : AlertManager) : AlertManager :=
  match o with
  | do_handler h => (AddHandler h am).1
  | do_create now1 now2 ty sev msg src meta tags => (CreateAlert now1 now2 ty sev msg src meta tags am).1
  | do_check clock metrics => (CheckThresholds clock metrics am).1
  | do_resolve now id => (ResolveAlert now id am).1
  | do_cleanup R now => (cleanupOldAlerts now am).1
  | do_process c => (process_one c am).1
  end.

(** The readings of the checks fit in an [int64] of nanoseconds. *)
Definition in_range (o : am_op) : Prop :=
  match o with do_check clock _ => ∀ j, is_i64 (clock j).1 | _ => True end.

Definition am_step (am am' : AlertManager) : Prop := ∃ o, in_range o ∧ am' = operate o am.

(** What operation [o] makes of the alert [a], the object [p] filed under [id]. *)
Definition fate (o : am_op) (am am' : AlertManager) (id : string) (p : ptr) (a : Alert) : Prop :=
  match o with
  | do_create now1 now2 ty sev msg src meta tags =>
      am_heap am' !! p = Some a ∧
      if bool_decide (id = alert_id ty now1)
      then am_alerts am' !! id = Some (am_next am) ∧
           am_heap am' !! am_next am = Some (mkAlert id ty sev msg (unix_u64 now2) false 0 meta src tags)
      else am_alerts am' !! id = Some p
  | do_check _ _ =>
      am_heap am' !! p = Some a ∧
      (am_alerts am' !! id = Some p ∨
       ∃ p' a', am_alerts am' !! id = Some p' ∧ am_heap am' !! p' = Some a' ∧
         (am_next am ≤ p')%positive ∧ al_ID a' = id ∧ al_Resolved a' = false)
  | do_resolve now id' =>
      am_alerts am' !! id = Some p ∧
      am_heap am' !! p = Some (if bool_decide (id' = id) && negb (al_Resolved a) then resolve now a else a)
  | do_cleanup _ now =>
      am_heap am' !! p = Some a ∧
      am_alerts am' !! id =
        if al_Resolved a && bool_decide (al_ResolvedAt a < u64_sub (unix_u64 now) (7 * 24 * 60 * 60))
        then None else Some p
  | do_handler _ | do_process _ => am_alerts am' !! id = Some p ∧ am_heap am' !! p = Some a
  end.

Definition fates (o : am_op) (am : AlertManager) : Prop :=
  ∀ id p a, am_alerts am !! id = Some p → am_heap am !! p = Some a → fate o am (operate o am) id p a.

Lemma create_fates now1 now2 ty sev msg src meta tags am :
  AmInv am → fates (do_create now1 now2 ty sev msg src meta tags) am.
Proof.
  intros HI. unfold fates. cbn [operate]. rewrite create_eq. intros id p a Hid Hp. cbn.
  split; [rewrite lookup_insert_ne; [done|]; apply not_eq_sym, fresh_ne; [done|by eexists]|].
  case_bool_decide as Hi; [by rewrite Hi, !lookup_insert_eq|by rewrite lookup_insert_ne].
Qed.

Lemma checks_step clock metrics am :
  (∀ j, is_i64 (clock j).1) → AmInv am →
  AmInv (operate (do_check clock metrics) am) ∧ fates (do_check clock metrics) am.
Proof.
  intros Hclock HI. unfold fates. cbn [operate]. rewrite check_thresholds_eq.
  destruct (run_checks_ran clock metrics (checks (am_thresholds am)) 0 am)
    as (am' & news & -> & HI' & Hn & Hf); [done|apply checks_keys|done|]. cbn [fst].
  split; [done|]. intros id p a Hid Hp. destruct Hf as [Hf Hd Ha Hh _ _ _ _ _].
  rewrite Forall_forall in Hf. cbn [fate]. split.
  - rewrite Hh, lookup_union_r; [done|]. apply not_elem_of_list_to_map_1.
    intros ([q b] & Eq & Hin)%list_elem_of_fmap. specialize (Hf _ Hin). cbn in *.
    pose proof (ai_fresh _ HI p ltac:(by eexists)). subst. lia.
  - rewrite Ha. set (m := list_to_map ((λ pa, (al_ID pa.2, pa.1)) <$> news) : gmap string ptr).
    destruct (m !! id) as [p'|] eqn:Em; [right|left; by rewrite lookup_union_r].
    assert (am_alerts am' !! id = Some p') as Hp' by (rewrite Ha; by apply lookup_union_Some_l).
    rewrite (lookup_union_Some_l _ _ _ _ Em).
    apply elem_of_list_to_map_2, list_elem_of_fmap in Em as ([q b] & [= -> ->] & Hin). cbn [fst snd] in *.
    exists q, b. rewrite Hh, (lookup_union_Some_l _ _ q b) by by apply elem_of_list_to_map_1.
    split_and!; [done..|exact (Hf _ Hin)|done|].
    assert (b ∈ raised_alerts 0 clock metrics (checks (am_thresholds am))) as Hb
      by (rewrite <- Hn; apply list_elem_of_fmap; by exists (q, b)).
    exact (proj1 (Forall_forall _ _) (raised_alerts_unresolved _ _ _ _) b Hb).
Qed.

Lemma resolve_step now id am :
  AmInv am → AmInv (operate (do_resolve now id) am) ∧ fates (do_resolve now id) am.
Proof.
  intros HI. unfold fates. cbn [operate fate]. destruct (am_alerts am !! id) as [p|] eqn:Eid.
  2:{ assert (ResolveAlert now id am = (am, Err ("alert not found: " +:+ id))) as ->
        by (unfold ResolveAlert; erewrite M_bind_ret by done; by rewrite Eid).
      split; [done|]. intros id' q b Hq Hb. rewrite bool_decide_eq_false_2 by congruence. done. }
  destruct (ai_alerts _ HI _ _ Eid) as (a & Hp & Ha). rewrite (resolve_eq now id p a am Eid Hp).
  assert (∀ id' b, am_alerts am !! id' = Some p → am_heap am !! p = Some b → id' = id ∧ b = a) as Hsame.
  { intros id' b Hq Hb. destruct (ai_alerts _ HI _ _ Hq) as (c & Hc & <-). split; congruence. }
  destruct (al_Resolved a) eqn:Er.
  { split; [done|]. intros id' q b Hq Hb. split; [done|]. cbn. rewrite Hb.
    case_bool_decide as Hi; [|done]. rewrite <- Hi, Eid in Hq. injection Hq as <-.
    destruct (Hsame _ _ Eid Hb) as [_ ->]. by rewrite Er. }
  split.
  - destruct HI as [H1 H2 H3 H4]. split; cbn.
    + intros id' q Hq. destruct (H1 _ _ Hq) as (b & Hb & Hi). destruct (decide (q = p)) as [->|Hne].
      * exists (resolve now a). rewrite lookup_insert_eq. split; [done|]. cbn. congruence.
      * exists b. by rewrite lookup_insert_ne.
    + intros q Hq%H2. destruct (decide (q = p)) as [->|Hne];
        [rewrite lookup_insert_eq; by eexists|by rewrite lookup_insert_ne].
    + intros q Hq. apply H3. destruct (decide (q = p)) as [->|Hne]; [by eexists|].
      by rewrite lookup_insert_ne in Hq.
    + split; [apply H4|]. apply try_send_bounded, H4.
  - intros id' q b Hq Hb. cbn. split; [done|]. destruct (decide (q = p)) as [->|Hne].
    + destruct (Hsame _ _ Hq Hb) as [-> ->]. by rewrite lookup_insert_eq, bool_decide_eq_true_2, Er.
    + rewrite lookup_insert_ne, bool_decide_eq_false_2; [done|congruence|done].
Qed.

Lemma cleanup_step (R : RangeOrder) now am :
  AmInv am → AmInv (operate (do_cleanup R now) am) ∧ fates (do_cleanup R now) am.
Proof.
  intros HI. unfold fates. cbn [operate fate]. destruct (cleanup_eq now am HI) as (m & -> & Hm). split.
  - destruct HI as [H1 H2 H3 H4]. split; cbn; [|done..]. intros id p Hp. apply H1.
    rewrite Hm in Hp. destruct (am_alerts am !! id); [|done]. by destruct (outdated _ _).
  - intros id p a Hid Hp. split; [done|]. specialize (Hm id). rewrite Hid in Hm. unfold alert_at in Hm.
    rewrite Hp in Hm. exact Hm.
Qed.

Lemma process_step c am : AmInv am → AmInv (operate (do_process c) am) ∧ fates (do_process c) am.
Proof.
  intros [H1 H2 H3 H4]. unfold fates. cbn [operate fate].
  destruct (process_one_eq c am) as (calls & r & c1 & c2 & -> & Hin & L1 & L2).
  split; [|done]. split; cbn; [done|auto|done|]. lia.
Qed.

Lemma operate_ok o am : in_range o → AmInv am → AmInv (operate o am) ∧ fates o am.
Proof.
  intros Ho HI. destruct o.
  - split; [by destruct HI|done].
  - split; [cbn [operate]; rewrite create_eq; by apply created_inv|by apply create_fates].
  - by apply checks_step.
  - by apply resolve_step.
  - by apply cleanup_step.
  - by apply process_step.
Qed.

Lemma new_inv th : AmInv (NewAlertManager th).
Proof.
  split; cbn.
  - intros id p Hp. by rewrite lookup_empty in Hp.
  - intros p Hp. by apply not_elem_of_nil in Hp.
  - intros p [a Ha]. by rewrite lookup_empty in Ha.
  - lia.
Qed.

Lemma reachable_inv th am : rtc am_step (NewAlertManager th) am → AmInv am.
Proof.
  intros Hr. assert (AmInv (NewAlertManager th)) as HI by apply new_inv.
  induction Hr as [|x y z (o & Ho & ->) _ IH]; [done|]. by apply IH, operate_ok.
Qed.

(** ** Queries *)

(** What [GetAlerts] keeps. *)
Definition matching (severity : string) (resolved : bool) (a : Alert) : Prop :=
  (severity = "" ∨ al_Severity a = severity) ∧ al_Resolved a = resolved.

#[global] Instance matching_dec severity resolved a : Decision (matching severity resolved a) := _.

Definition first_of {A} (limit : Z) (l : list A) : list A :=
  if bool_decide (0 < limit) then take (Z.to_nat limit) l else l.

Section queries.
Context `{RangeOrder}.

Lemma filter_loop_eq sev res limit l acc am :
  (∀ kp, kp ∈ l → load_alert kp.2 am = (am, Ret (alert_at am kp.2))) →
  (0 < limit → Z.of_nat (length acc) ≤ limit) →
  filter_loop sev res limit acc (Z.of_nat (length acc)) l am =
    (am, Ret (first_of limit (acc ++ filter (λ p, matching sev res (alert_at am p)) l.*2))).
Proof.
  revert acc. induction l as [|kp l IH]; intros acc Hl Hlim; cbn [filter_loop].
  { cbn. rewrite app_nil_r. unfold first_of. case_bool_decide; [|done].
    rewrite take_ge; [done|]. specialize (Hlim ltac:(done)). lia. }
  case_bool_decide as Hc.
  { unfold first_of. rewrite bool_decide_true by lia. rewrite take_app_length'; [done|]. lia. }
  erewrite M_bind_ret by (apply Hl; by left).
  assert (∀ kp, kp ∈ l → load_alert kp.2 am = (am, Ret (alert_at am kp.2))) as Hl'
    by (intros; apply Hl; by right).
  rewrite fmap_cons, filter_cons. set (a := alert_at am kp.2).
  case_bool_decide as Hs.
  { rewrite decide_False by (intros [[?|?] _]; by destruct Hs). by apply IH. }
  destruct (Bool.eqb (al_Resolved a) res) eqn:Er; cbn [negb].
  - apply eqb_prop in Er. rewrite decide_True.
    + replace (Z.of_nat (length acc) + 1)%Z with (Z.of_nat (length (acc ++ [kp.2])))
        by (rewrite length_app; cbn; lia).
      rewrite IH by (auto; rewrite length_app; cbn; lia). by rewrite <- app_assoc.
    + split; [|done]. destruct (decide (sev = "")); [by left|]. right.
      apply dec_stable. naive_solver.
  - apply eqb_false_iff in Er. rewrite decide_False by (by intros [_ ?]). by apply IH.
Qed.

(** The objects of the filed alerts, in the order a loop ranges over them. *)
Definition filed (am : AlertManager) : list ptr := (range_list 0 (am_alerts am)).*2.

Lemma GetAlerts_eq sev res limit am :
  AmInv am → GetAlerts sev res limit am =
    (am, Ret (first_of limit (filter (λ p, matching sev res (alert_at am p)) (filed am)))).
Proof.
  intros HI. unfold GetAlerts. erewrite M_bind_ret by done.
  apply (filter_loop_eq sev res limit _ []); [|cbn; lia]. intros kp Hin. by eapply range_loads.
Qed.

(** The alerts a counter of [GetAlertStats] counts. *)
Definition counts (k : string) (a : Alert) : bool :=
  if bool_decide (k = "total") then true
  else if bool_decide (k = "active") then negb (al_Resolved a)
  else if bool_decide (k = "resolved") then al_Resolved a
  else bool_decide (al_Severity a = k).

Definition counters : list string :=
  ["total"; "active"; "resolved"; "critical"; "high"; "medium"; "low"].

Lemma bump_lookup k k' n stats :
  stats !! k = Some n → bump k' stats !! k = Some (n + (if bool_decide (k = k') then 1 else 0)).
Proof.
  intros Hk. unfold bump. case_bool_decide as Hd; [subst; by rewrite Hk, lookup_insert_eq|].
  rewrite lookup_insert_ne by congruence. rewrite Hk. f_equal. lia.
Qed.

Lemma lookup_if (P : Prop) `{Decision P} (k : string) (f g : Z) (x y : gmap string Z) :
  (P → x !! k = Some f) → (¬ P → y !! k = Some g) →
  (if bool_decide P then x else y) !! k = Some (if bool_decide P then f else g).
Proof. intros Hx Hy. case_bool_decide; auto. Qed.

Lemma count_alert_lookup k n stats a :
  k ∈ counters → stats !! k = Some n →
  count_alert stats a !! k = Some (n + Z.of_nat (if counts k a then 1 else 0)).
Proof.
    intros Hin Hk. unfold count_alert.
    pose proof (bump_lookup k "total" n stats Hk) as H1. set (s1 := bump "total" stats) in *.
    set (d := if bool_decide (k = "total") then 1 else 0) in *.
    set (s2 := if al_Resolved a then bump "resolved" s1 else bump "active" s1).
    set (e := if bool_decide (k = if al_Resolved a then "resolved" else "active") then 1 else 0).
    assert (s2 !! k = Some (n + d + e)) as H2 by (unfold s2, e; destruct (al_Resolved a); by apply bump_lookup).
    etransitivity.
    { do 4 (apply lookup_if; intros _; [by apply bump_lookup|]). exact H2. }
    f_equal. unfold counts, d, e. unfold counters in Hin.
  repeat (apply elem_of_cons in Hin as [->|Hin]; [clear; destruct (al_Resolved a);
    repeat match goal with |- context [bool_decide (al_Severity a = ?s)] =>
      destruct (bool_decide_reflect (al_Severity a = s)) end;
    repeat match goal with |- context [bool_decide (String ?c ?s = ?t)] =>
      let b := eval vm_compute in (bool_decide (String c s = t)) in
      change (bool_decide (String c s = t)) with b end; cbn; congruence || lia|]).
  by apply not_elem_of_nil in Hin.
Qed.

Lemma count_alerts k l n stats (f : string * ptr → Alert) :
  k ∈ counters → stats !! k = Some n →
  foldl (λ stats kp, count_alert stats (f kp)) stats l !! k =
    Some (n + Z.of_nat (length (filter (λ kp, counts k (f kp)) l))).
Proof.
  intros Hin. revert n stats. induction l as [|kp l IH]; intros n stats Hk; cbn [foldl].
  { rewrite Hk. cbn. f_equal. lia. }
  erewrite IH by (by apply count_alert_lookup). rewrite filter_cons.
  destruct (counts k (f kp)) eqn:Ec.
  - rewrite decide_True by done. cbn. f_equal. lia.
  - rewrite decide_False by (by intros []). f_equal. lia.
Qed.

Lemma length_filter_snd {A B} (P : B → bool) (l : list (A * B)) :
  length (filter (λ b, P b) l.*2) = length (filter (λ ab, P ab.2) l).
Proof.
  induction l as [|ab l IH]; [done|]. rewrite fmap_cons, !filter_cons.
  case_decide; [|done]. cbn [length]. by rewrite IH.
Qed.

Lemma GetAlertStats_eq am :
  AmInv am → ∃ stats, GetAlertStats am = (am, Ret stats) ∧
    ∀ k, k ∈ counters →
      stats !! k = Some (Z.of_nat (length (filter (λ p, counts k (alert_at am p)) (filed am)))).
Proof.
  intros HI. unfold GetAlertStats. erewrite M_bind_ret by done. eexists. split.
  - apply (foldM_rep (λ s, s) (λ stats kp, count_alert stats (alert_at am kp.2))).
    intros s kp Hin. rewrite (M_bind_ret _ _ am am (alert_at am kp.2)) by (by apply (range_loads am 0)). done.
  - intros k Hk. rewrite (count_alerts k _ 0); [|done|].
    + unfold filed. by rewrite (length_filter_snd (λ p, counts k (alert_at am p))).
    + revert k Hk. apply Forall_forall. repeat constructor.
Qed.

Lemma filed_size am : size (am_alerts am) = length (filed am).
Proof. unfold filed. by rewrite length_fmap, range_perm, length_map_to_list. Qed.

Lemma count_total (f : ptr → Alert) ps :
  length (filter (λ p, counts "total" (f p)) ps) = length ps.
Proof.
  induction ps as [|p ps IH]; [done|]. rewrite filter_cons, decide_True by done. cbn [length].
  by f_equal.
Qed.

Lemma count_active (f : ptr → Alert) ps :
  length (filter (λ p, counts "active" (f p)) ps) =
  length (filter (λ p, matching "" false (f p)) ps).
Proof.
  f_equal. apply list_filter_iff. intros p. unfold matching, counts.
  rewrite bool_decide_false, bool_decide_true by done.
  destruct (al_Resolved (f p)); cbn; split; [done|by intros []|auto|done].
Qed.

Lemma count_severity k (f : ptr → Alert) ps :
  k ∈ ["critical"; "high"; "medium"; "low"] →
  Z.of_nat (length (filter (λ p, counts k (f p)) ps)) =
  Z.of_nat (length (filter (λ p, matching k false (f p)) ps)) +
  Z.of_nat (length (filter (λ p, matching k true (f p)) ps)).
Proof.
  intros Hk. assert (∀ a, counts k a = bool_decide (al_Severity a = k) ∧ k ≠ "") as Hc.
  { intros a. repeat (apply elem_of_cons in Hk as [->|Hk]; [done|]). by apply not_elem_of_nil in Hk. }
  induction ps as [|p ps IH]; [done|]. rewrite !filter_cons. destruct (Hc (f p)) as [-> Hne]. clear Hc.
  assert (∀ b, matching k b (f p) ↔ al_Severity (f p) = k ∧ al_Resolved (f p) = b) as Hm
    by (intros b; unfold matching; split; [intros [[?|?] ?]; by subst|intros [? ?]; auto]).
  case_bool_decide as Hs; [destruct (al_Resolved (f p)) eqn:Er|].
  - assert (matching k true (f p)) as H1 by by apply Hm.
    assert (¬ matching k false (f p)) as H2 by (rewrite Hm; by intros [_ ?]).
    rewrite (decide_True _ _ H1), (decide_False _ _ H2), (decide_True (P := Is_true true) _ _ I). cbn [length]. lia.
  - assert (matching k false (f p)) as H1 by by apply Hm.
    assert (¬ matching k true (f p)) as H2 by (rewrite Hm; by intros [_ ?]).
    rewrite (decide_True _ _ H1), (decide_False _ _ H2), (decide_True (P := Is_true true) _ _ I). cbn [length]. lia.
  - assert (∀ b, ¬ matching k b (f p)) as Hno by (intros b; rewrite Hm; by intros [? _]).
    rewrite (decide_False _ _ (Hno true)), (decide_False _ _ (Hno false)), (decide_False (P := Is_true false) _ _ (λ x, x)).
    exact IH.
Qed.

Lemma severity_number k (f : ptr → Alert) ps :
  k ∈ ["critical"; "high"; "medium"; "low"] →
  Some (Z.of_nat (length (filter (λ p, counts k (f p)) ps))) =
  Some (Z.of_nat (length (filter (λ p, al_Severity (f p) = k) ps))).
Proof.
  intros Hk. do 3 f_equal. apply list_filter_iff. intros p.
  assert (counts k (f p) = bool_decide (al_Severity (f p) = k)) as ->.
  { repeat (apply elem_of_cons in Hk as [->|Hk]; [done|]). by apply not_elem_of_nil in Hk. }
  by rewrite bool_decide_spec.
Qed.
End queries.

(** ** Claims *)

(** [C17] The life of an alert.  From [NewAlertManager], whatever calls follow
    each other (their results ignored), both channels hold at most 100 entries
    and every filed or queued alert is allocated under its own identifier.  Any
    further call [o] keeps a filed alert filed and its object as it is, but for
    three: [ResolveAlert] of its identifier marks it resolved at that call's
    clock if it was not; a creation (by a caller or a threshold check) at the
    same nanosecond with the same type files a new unresolved object in its
    place; and [cleanupOldAlerts now] drops it exactly when it is resolved and
    was resolved before the clock of that cleanup less seven days ([uint64]
    seconds, which wrap). *)
Theorem alert_lifecycle th am o id p a :
  rtc am_step (NewAlertManager th) am → in_range o →
  am_alerts am !! id = Some p → am_heap am !! p = Some a →
  AmInv (operate o am) ∧ al_ID a = id ∧ fate o am (operate o am) id p a ∧
  (∀ R now, o = do_cleanup R now →
    (am_alerts (operate o am) !! id = None ↔
     al_Resolved a = true ∧ al_ResolvedAt a < u64_sub (unix_u64 now) (7 * 24 * 60 * 60))).
Proof.
  intros Hr%reachable_inv Ho Hid Hp. destruct (operate_ok o am Ho Hr) as [HI Hf].
  specialize (Hf id p a Hid Hp). split; [done|]. split.
  - destruct (ai_alerts _ Hr _ _ Hid) as (b & Hb & ?). congruence.
  - split; [done|]. intros R now ->. destruct Hf as [_ ->].
    destruct (al_Resolved a); cbn [andb]; [case_bool_decide|]; intuition discriminate.
Qed.

(** Alert "a_0" is created at time 0, resolved at second 5, still there seven
    days and five seconds later, and dropped a second after that. *)
Lemma alert_lifecycle_witness :
  let am := operate (do_resolve (5 * second) "a_0")
    (operate (do_create 0 0 "a" "low" "m" "s" ∅ []) (NewAlertManager GetDefaultThresholds)) in
  let later n := operate (do_cleanup forward_order ((7 * 24 * 60 * 60 + n) * second)) am in
  am_alerts (later 5) !! "a_0" = Some 1%positive ∧ am_alerts (later 6) !! "a_0" = None.
Proof.
  intros am later. set (a := resolve (5 * second) (mkAlert "a_0" "a" "low" "m" 0 false 0 ∅ "s" [])).
  assert (rtc am_step (NewAlertManager GetDefaultThresholds) am) as Hr.
  { eapply rtc_l; [by exists (do_create 0 0 "a" "low" "m" "s" ∅ [])|].
    apply rtc_once. by exists (do_resolve (5 * second) "a_0"). }
  assert (am_alerts am !! "a_0" = Some 1%positive) as Hid by (vm_compute; reflexivity).
  assert (am_heap am !! 1%positive = Some a) as Hp by (vm_compute; reflexivity).
  destruct (alert_lifecycle GetDefaultThresholds am (do_cleanup forward_order ((7 * 24 * 60 * 60 + 5) * second))
    "a_0" 1%positive a Hr I Hid Hp) as (_ & _ & [_ H5] & _).
  destruct (alert_lifecycle GetDefaultThresholds am (do_cleanup forward_order ((7 * 24 * 60 * 60 + 6) * second))
    "a_0" 1%positive a Hr I Hid Hp) as (_ & _ & _ & H6).
  split; [exact H5|]. apply (H6 forward_order _ eq_refl). split; vm_compute; reflexivity.
Defined.

(** [C24] The threshold checks raise exactly the alerts they should.  The
    readings over their thresholds (under it for the uptime), in the order of the
    checks, each give one new unresolved alert with the reading's type, severity
    and message and an identifier of its own, in a new object.  These objects
    are filed under their identifiers, over any alert of the same identifier,
    and queued in that order behind what is queued, up to the 100 entries of the
    channel.  Nothing else changes: not the other entries of the map, the other
    objects, the resolutions, the thresholds, the handlers or the calls made to
    them. *)
Theorem CheckThresholds_raises clock metrics am :
  AmInv am → (∀ j, is_i64 (clock j).1) →
  let alerts := raised_alerts 0 clock metrics (checks (am_thresholds am)) in
  ∃ am' new, CheckThresholds clock metrics am = (am', Ret tt) ∧
    length new = length alerts ∧ NoDup new ∧ (∀ p, p ∈ new → am_heap am !! p = None) ∧
    NoDup (al_ID <$> alerts) ∧
    am_alerts am' = list_to_map (zip (al_ID <$> alerts) new) ∪ am_alerts am ∧
    am_heap am' = list_to_map (zip new alerts) ∪ am_heap am ∧
    am_alertChan am' = take chan_cap (am_alertChan am ++ new) ∧
    am_resolveChan am' = am_resolveChan am ∧ am_thresholds am' = am_thresholds am ∧
    am_handlers am' = am_handlers am ∧ am_calls am' = am_calls am.
Proof.
  intros HI Hclock alerts. rewrite check_thresholds_eq.
  destruct (run_checks_ran clock metrics (checks (am_thresholds am)) 0 am)
    as (am' & news & -> & _ & Hn & [Hf Hd Ha Hh Hc Hr Ht Hhs Hl]); [done|apply checks_keys|done|].
  fold alerts in Hn. exists am', news.*1. split; [done|]. split; [by rewrite <- Hn, !length_fmap|].
  split; [done|]. split.
  { intros p (pa & -> & Hin)%list_elem_of_fmap. rewrite Forall_forall in Hf. specialize (Hf _ Hin).
    apply eq_None_not_Some. intros Hs%(ai_fresh _ HI). exact (proj1 (Pos.lt_nle _ _) Hs Hf). }
  split; [apply raised_alerts_NoDup; [done|apply checks_keys]|].
  rewrite <- Hn, zip_fst_snd. split_and!; try done. rewrite Ha. do 2 f_equal. clear.
  induction news as [|[q b] news IH]; [done|]. cbn. by rewrite IH.
Qed.

(** Two of the three readings breach; a resolution is already queued. *)
Lemma CheckThresholds_raises_witness :
  let am := am_set_resolveChan ["x"] (NewAlertManager GetDefaultThresholds) in
  let clock := λ j : nat, (1700000000000000000 + Z.of_nat (Nat.min j 6), 1700000000000000000) in
  let metrics := {["uptime" := f_lit 1 2; "error_rate" := f_lit 1 2; "cpu_usage" := f_lit 1 2]} in
  al_ID <$> raised_alerts 0 clock metrics (checks (am_thresholds am)) =
    ["error_rate_1700000000000000003"; "uptime_1700000000000000004"] ∧
  ∃ am', CheckThresholds clock metrics am = (am', Ret tt) ∧ length (am_alertChan am') = 2%nat ∧
    am_resolveChan am' = ["x"].
Proof.
  intros am clock metrics.
  assert (al_ID <$> raised_alerts 0 clock metrics (checks (am_thresholds am)) =
    ["error_rate_1700000000000000003"; "uptime_1700000000000000004"]) as E by (vm_compute; reflexivity).
  split; [exact E|].
  destruct (CheckThresholds_raises clock metrics am)
    as (am' & new & H1 & H2 & _ & _ & _ & _ & _ & H3 & H4 & _).
  - destruct (new_inv GetDefaultThresholds) as [I1 I2 I3 I4].
    split; [exact I1|exact I2|exact I3|split; [apply I4|cbn; unfold chan_cap; lia]].
  - intros j. unfold is_i64, clock. cbn [fst]. lia.
  - exists am'. split; [exact H1|]. rewrite H3, H4.
    apply (f_equal length) in E. rewrite length_fmap in E. rewrite length_take, length_app, H2, E. by split.
Defined.

(** [C27] The queries agree.  [GetAlerts] returns, in the order it ranges, the
    first [limit] of the filed alerts that match (all when [limit] is not
    positive).  Each counter of [GetAlertStats] is the number of filed alerts it
    is named after: all, the unresolved ones that [GetActiveAlerts] lists, the
    resolved ones, and those of each severity.  The severities count resolved
    alerts as well: [critical] exceeds the length of [GetCriticalAlerts] by the
    number of resolved critical alerts. *)
Theorem queries_agree (R : RangeOrder) am sev res limit :
  AmInv am →
  let those P `{∀ a, Decision (P a)} := filter (λ p, P (alert_at am p)) (filed am) in
  let number P `{∀ a, Decision (P a)} := Some (Z.of_nat (length (those P))) in
  ∃ active critical stats,
    GetAlerts sev res limit am = (am, Ret (first_of limit (those (matching sev res)))) ∧
    GetActiveAlerts am = (am, Ret active) ∧ GetCriticalAlerts am = (am, Ret critical) ∧
    GetAlertStats am = (am, Ret stats) ∧
    stats !! "total" = Some (Z.of_nat (size (am_alerts am))) ∧
    stats !! "active" = number (λ a, al_Resolved a = false) ∧
    stats !! "active" = Some (Z.of_nat (length active)) ∧
    stats !! "resolved" = number (λ a, al_Resolved a = true) ∧
    stats !! "critical" = number (λ a, al_Severity a = "critical") ∧
    stats !! "high" = number (λ a, al_Severity a = "high") ∧
    stats !! "medium" = number (λ a, al_Severity a = "medium") ∧
    stats !! "low" = number (λ a, al_Severity a = "low") ∧
    stats !! "critical" = Some (Z.of_nat (length critical) +
      Z.of_nat (length (those (λ a, al_Severity a = "critical" ∧ al_Resolved a = true)))).
Proof.
  intros HI those number. destruct (GetAlertStats_eq am HI) as (stats & Hs & Hk).
  exists (filter (λ p, matching "" false (alert_at am p)) (filed am)).
  exists (filter (λ p, matching "critical" false (alert_at am p)) (filed am)), stats.
  split; [by apply GetAlerts_eq|]. split; [exact (GetAlerts_eq "" false 0 am HI)|].
  split; [exact (GetAlerts_eq "critical" false 0 am HI)|]. split; [done|].
  split_and!; rewrite Hk by (unfold counters; rewrite !elem_of_cons; tauto).
  - rewrite filed_size. do 2 f_equal. apply count_total.
  - unfold number, those. do 3 f_equal. apply list_filter_iff. intros p.
    assert (counts "active" (alert_at am p) = negb (al_Resolved (alert_at am p))) as -> by done.
    by destruct (al_Resolved _).
  - do 2 f_equal. apply (count_active (alert_at am)).
  - unfold number, those. do 3 f_equal. apply list_filter_iff. intros p.
    assert (counts "resolved" (alert_at am p) = al_Resolved (alert_at am p)) as -> by done.
    by destruct (al_Resolved _).
  - apply severity_number, list_elem_of_here.
  - apply severity_number. by right; left.
  - apply severity_number. by right; right; left.
  - apply severity_number. by do 3 right; left.
  - f_equal. rewrite (count_severity _ (alert_at am)) by by left. do 3 f_equal.
    apply list_filter_iff. intros p. unfold matching.
    split; [intros [[?|?] ?]; [done|by split]|intros [? ?]; split; [by right|done]].
Qed.

(** One active and one resolved critical alert: one is listed, two are counted. *)
Lemma queries_agree_witness :
  let am0 := NewAlertManager GetDefaultThresholds in
  let am1 := (CreateAlert 0 0 "a" "critical" "m" "s" ∅ [] am0).1 in
  let am2 := (CreateAlert 1 1 "b" "critical" "m" "s" ∅ [] am1).1 in
  let am := (ResolveAlert 2 "a_0" am2).1 in
  ∃ critical stats, @GetCriticalAlerts forward_order am = (am, Ret critical) ∧
    @GetAlertStats forward_order am = (am, Ret stats) ∧
    stats !! "critical" = Some (Z.of_nat (length critical) + 1) ∧ critical = [2%positive].
Proof.
  intros am0 am1 am2 am.
  assert (AmInv am) as HI.
  { apply (reachable_inv GetDefaultThresholds).
    eapply rtc_l; [by exists (do_create 0 0 "a" "critical" "m" "s" ∅ [])|].
    eapply rtc_l; [by exists (do_create 1 1 "b" "critical" "m" "s" ∅ [])|].
    apply rtc_once. by exists (do_resolve 2 "a_0"). }
  destruct (queries_agree forward_order am "" false 0 HI)
    as (active & critical & stats & _ & Ha & Hc & Hs & _ & _ & _ & _ & _ & _ & _ & _ & Hcr).
  exists critical, stats. split; [exact Hc|]. split; [exact Hs|].
  split; [rewrite Hcr; do 2 f_equal; vm_compute; reflexivity|].
  assert (@GetCriticalAlerts forward_order am = (am, Ret [2%positive])) as E by (vm_compute; reflexivity).
  pose proof (eq_trans (eq_sym (f_equal snd Hc)) (f_equal snd E)) as Hl. cbn [snd] in Hl.
  injection Hl as Hl. exact Hl.
Defined.
