(* ===== verification/Prometheus.v ===== *)
(** * What the monitoring code relies on in [prometheus/client_golang]

    The default registry and its collectors, behind an interface: the library
    is not part of the repository.  A collector counts (counters), holds a
    value (gauges) or collects observations (histograms). *)

From S2P Require Import Prelude Float64.

Inductive buckets : Type :=
  | NoBuckets
  | DefBuckets
  | ExponentialBuckets (start factor : float64) (count : Z).

Inductive kind : Type := Gauge | Counter | Histogram.

Record Opts := mkOpts {
  op_kind : kind;
  op_Name : string;
  op_Help : string;
  op_Buckets : buckets;
}.

(** The state of a collector, as the registry would expose it. *)
Inductive sample : Type :=
  | Counted (n : Z)
  | Valued (x : float64)
  | Observed (xs : list float64).

Definition new_sample (k : kind) : sample :=
  match k with Gauge => Valued f_zero | Counter => Counted 0 | Histogram => Observed [] end.

(** The operations, on the default registry [R] with collectors [C]. *)
Class Prometheus (R C : Type) := {
  promauto_New : Opts → M R C;
  Inc : C → R → R;
  Set_ : C → float64 → R → R;
  Observe : C → float64 → R → R;
  registered : R → gset string;
  collector_name : C → string;
  sample_of : R → C → sample;
}.

(** Their documented behaviour: [promauto] panics when the name is taken;
    otherwise the new collector carries it.  An operation acts on its own
    collector, according to its kind, and registers nothing. *)
Class PrometheusLaws (R C : Type) `{Prometheus R C} := {
  new_taken o r : op_Name o ∈ registered r →
    ∃ p, promauto_New o r = (r, Panic p);
  new_fresh o r : op_Name o ∉ registered r →
    ∃ r' c, promauto_New o r = (r', Ret c) ∧ collector_name c = op_Name o ∧
      registered r' = {[op_Name o]} ∪ registered r ∧ sample_of r' c = new_sample (op_kind o) ∧
      ∀ c', collector_name c' ≠ op_Name o → sample_of r' c' = sample_of r c';
  inc_registered c r : registered (Inc c r) = registered r;
  set_registered c x r : registered (Set_ c x r) = registered r;
  observe_registered c x r : registered (Observe c x r) = registered r;
  inc_sample c r n : collector_name c ∈ registered r →
    sample_of r c = Counted n → sample_of (Inc c r) c = Counted (n + 1);
  set_sample c x r y : collector_name c ∈ registered r →
    sample_of r c = Valued y → sample_of (Set_ c x r) c = Valued x;
  observe_sample c x r xs : collector_name c ∈ registered r →
    sample_of r c = Observed xs → sample_of (Observe c x r) c = Observed (xs ++ [x]);
  inc_other c c' r : collector_name c' ≠ collector_name c → sample_of (Inc c r) c' = sample_of r c';
  set_other c c' x r :
    collector_name c' ≠ collector_name c → sample_of (Set_ c x r) c' = sample_of r c';
  observe_other c c' x r :
    collector_name c' ≠ collector_name c → sample_of (Observe c x r) c' = sample_of r c';
}.

(** ** An instance: samples by name *)

Definition upd (c : string) (f : sample → sample) (r : gmap string sample) : gmap string sample :=
  partial_alter (fmap f) c r.

#[export] Instance map_prometheus : Prometheus (gmap string sample) string := {
  promauto_New o r :=
    match r !! op_Name o with
    | Some _ => (r, Panic (PanicMsg "duplicate metrics collector registration attempted"))
    | None => (<[op_Name o := new_sample (op_kind o)]> r, Ret (op_Name o))
    end;
  Inc c := upd c (λ s, match s with Counted n => Counted (n + 1) | _ => s end);
  Set_ c x := upd c (λ s, match s with Valued _ => Valued x | _ => s end);
  Observe c x := upd c (λ s, match s with Observed xs => Observed (xs ++ [x]) | _ => s end);
  registered r := dom r;
  collector_name c := c;
  sample_of r c := default (Counted 0) (r !! c);
}.

Lemma upd_dom c f r : dom (upd c f r) = dom r.
Proof.
  apply set_eq. intros k. rewrite !elem_of_dom. unfold upd. destruct (decide (k = c)) as [->|Hne].
  - by rewrite lookup_partial_alter_eq, fmap_is_Some.
  - by rewrite lookup_partial_alter_ne.
Qed.

Lemma upd_sample c f r s s' :
  c ∈ dom r → default (Counted 0) (r !! c) = s → f s = s' →
  default (Counted 0) (upd c f r !! c) = s'.
Proof.
  intros [x Hx]%elem_of_dom <- <-. unfold upd. by rewrite lookup_partial_alter_eq, Hx.
Qed.

Lemma upd_other c c' f r :
  c' ≠ c → default (Counted 0) (upd c f r !! c') = default (Counted 0) (r !! c').
Proof. intros Hne. unfold upd. by rewrite lookup_partial_alter_ne. Qed.

#[export] Instance map_prometheus_laws : PrometheusLaws (gmap string sample) string.
Proof.
  split; intros; cbn in *.
  - apply elem_of_dom in H as [x ->]. by eexists.
  - apply not_elem_of_dom in H. rewrite H. eexists _, _. split; [done|]. split; [done|].
    split; [by rewrite dom_insert_L|]. split; [by rewrite lookup_insert_eq|].
    intros c' Hne. by rewrite lookup_insert_ne.
  - apply upd_dom.
  - apply upd_dom.
  - apply upd_dom.
  - by eapply upd_sample.
  - by eapply upd_sample.
  - by eapply upd_sample.
  - by apply upd_other.
  - by apply upd_other.
  - by apply upd_other.
Qed.
