(* ===== verification/Metrics.v ===== *)
(** * [pkg/monitoring/metrics.go]: the metrics collector

    The collectors of one [Metrics] value and the calls that update them; the
    state is the default Prometheus registry. *)

From S2P Require Import Prelude Float64 Alerts Prometheus Loops.

Record Metrics (C : Type) := mkMetrics {
  mt_operatorUptime : C;
  mt_operatorStatus : C;
  mt_poolStatesTotal : C;
  mt_poolStatesActive : C;
  mt_poolStatesStale : C;
  mt_stateUpdatesTotal : C;
  mt_stateUpdateLatency : C;
  mt_stateUpdateErrors : C;
  mt_rebalancingRequests : C;
  mt_rebalancingSuccess : C;
  mt_rebalancingFailures : C;
  mt_rebalancingAmount : C;
  mt_rebalancingCost : C;
  mt_tasksTotal : C;
  mt_tasksCompleted : C;
  mt_tasksFailed : C;
  mt_taskProcessingTime : C;
  mt_consensusReached : C;
  mt_consensusFailed : C;
  mt_consensusLatency : C;
  mt_crossChainOps : C;
  mt_crossChainSuccess : C;
  mt_crossChainFailures : C;
  mt_crossChainLatency : C;
  mt_alertsTotal : C;
  mt_alertsActive : C;
  mt_alertsResolved : C;
  mt_cpuUsage : C;
  mt_memoryUsage : C;
  mt_diskUsage : C;
  mt_networkLatency : C;
}.
Arguments mt_operatorUptime {C} _.
Arguments mt_operatorStatus {C} _.
Arguments mt_poolStatesTotal {C} _.
Arguments mt_poolStatesActive {C} _.
Arguments mt_poolStatesStale {C} _.
Arguments mt_stateUpdatesTotal {C} _.
Arguments mt_stateUpdateLatency {C} _.
Arguments mt_stateUpdateErrors {C} _.
Arguments mt_rebalancingRequests {C} _.
Arguments mt_rebalancingSuccess {C} _.
Arguments mt_rebalancingFailures {C} _.
Arguments mt_rebalancingAmount {C} _.
Arguments mt_rebalancingCost {C} _.
Arguments mt_tasksTotal {C} _.
Arguments mt_tasksCompleted {C} _.
Arguments mt_tasksFailed {C} _.
Arguments mt_taskProcessingTime {C} _.
Arguments mt_consensusReached {C} _.
Arguments mt_consensusFailed {C} _.
Arguments mt_consensusLatency {C} _.
Arguments mt_crossChainOps {C} _.
Arguments mt_crossChainSuccess {C} _.
Arguments mt_crossChainFailures {C} _.
Arguments mt_crossChainLatency {C} _.
Arguments mt_alertsTotal {C} _.
Arguments mt_alertsActive {C} _.
Arguments mt_alertsResolved {C} _.
Arguments mt_cpuUsage {C} _.
Arguments mt_memoryUsage {C} _.
Arguments mt_diskUsage {C} _.
Arguments mt_networkLatency {C} _.
Arguments mkMetrics {C} _ _ _ _ _ _ _ _ _ _ _ _ _ _ _ _ _ _ _ _ _ _ _ _ _ _ _ _ _ _ _.

(** [promauto.NewGauge], [NewCounter] and [NewHistogram]. *)
Section constructors.
Context {R C : Type} `{Prometheus R C}.

Definition NewGauge (name help : string) : M R C :=
  promauto_New (mkOpts Gauge name help NoBuckets).
Definition NewCounter (name help : string) : M R C :=
  promauto_New (mkOpts Counter name help NoBuckets).
Definition NewHistogram (name help : string) (b : buckets) : M R C :=
  promauto_New (mkOpts Histogram name help b).
End constructors.

Section metrics.
Context {R C : Type} `{Prometheus R C}.

Definition NewMetrics : M R (Metrics C) :=
  operatorUptime ← NewGauge "synchook_operator_uptime_seconds" "Operator uptime in seconds";
  operatorStatus ← NewGauge "synchook_operator_status" "Operator status (1=healthy, 0=unhealthy)";
  poolStatesTotal ← NewGauge "synchook_pool_states_total"
    "Total number of pool states being tracked";
  poolStatesActive ← NewGauge "synchook_pool_states_active" "Number of active pool states";
  poolStatesStale ← NewGauge "synchook_pool_states_stale" "Number of stale pool states";
  stateUpdatesTotal ← NewCounter "synchook_state_updates_total" "Total number of state updates";
  stateUpdateLatency ← NewHistogram "synchook_state_update_latency_seconds"
    "Latency of state updates in seconds" DefBuckets;
  stateUpdateErrors ← NewCounter "synchook_state_update_errors_total"
    "Total number of state update errors";
  rebalancingRequests ← NewCounter "synchook_rebalancing_requests_total"
    "Total number of rebalancing requests";
  rebalancingSuccess ← NewCounter "synchook_rebalancing_success_total"
    "Total number of successful rebalancing operations";
  rebalancingFailures ← NewCounter "synchook_rebalancing_failures_total"
    "Total number of failed rebalancing operations";
  rebalancingAmount ← NewHistogram "synchook_rebalancing_amount_tokens"
    "Amount of tokens rebalanced" (ExponentialBuckets (f_of_Z 1000) (f_of_Z 10) 6);
  rebalancingCost ← NewHistogram "synchook_rebalancing_cost_eth"
    "Cost of rebalancing operations in ETH" (ExponentialBuckets (f_lit 1 1000) (f_of_Z 10) 4);
  tasksTotal ← NewCounter "synchook_tasks_total" "Total number of tasks processed";
  tasksCompleted ← NewCounter "synchook_tasks_completed_total" "Total number of completed tasks";
  tasksFailed ← NewCounter "synchook_tasks_failed_total" "Total number of failed tasks";
  taskProcessingTime ← NewHistogram "synchook_task_processing_time_seconds"
    "Time taken to process tasks in seconds" DefBuckets;
  consensusReached ← NewCounter "synchook_consensus_reached_total"
    "Total number of consensus reached";
  consensusFailed ← NewCounter "synchook_consensus_failed_total"
    "Total number of consensus failures";
  consensusLatency ← NewHistogram "synchook_consensus_latency_seconds"
    "Time taken to reach consensus in seconds" DefBuckets;
  crossChainOps ← NewCounter "synchook_cross_chain_operations_total"
    "Total number of cross-chain operations";
  crossChainSuccess ← NewCounter "synchook_cross_chain_success_total"
    "Total number of successful cross-chain operations";
  crossChainFailures ← NewCounter "synchook_cross_chain_failures_total"
    "Total number of failed cross-chain operations";
  crossChainLatency ← NewHistogram "synchook_cross_chain_latency_seconds"
    "Latency of cross-chain operations in seconds" (ExponentialBuckets (f_of_Z 1) (f_of_Z 2) 10);
  alertsTotal ← NewCounter "synchook_alerts_total" "Total number of alerts generated";
  alertsActive ← NewGauge "synchook_alerts_active" "Number of active alerts";
  alertsResolved ← NewCounter "synchook_alerts_resolved_total" "Total number of resolved alerts";
  cpuUsage ← NewGauge "synchook_cpu_usage_percent" "CPU usage percentage";
  memoryUsage ← NewGauge "synchook_memory_usage_bytes" "Memory usage in bytes";
  diskUsage ← NewGauge "synchook_disk_usage_bytes" "Disk usage in bytes";
  networkLatency ← NewHistogram "synchook_network_latency_seconds"
    "Network latency in seconds" (ExponentialBuckets (f_lit 1 1000) (f_of_Z 2) 10);
  mret (mkMetrics operatorUptime operatorStatus poolStatesTotal poolStatesActive poolStatesStale
    stateUpdatesTotal stateUpdateLatency stateUpdateErrors rebalancingRequests
    rebalancingSuccess rebalancingFailures rebalancingAmount rebalancingCost tasksTotal
    tasksCompleted tasksFailed taskProcessingTime consensusReached consensusFailed
    consensusLatency crossChainOps crossChainSuccess crossChainFailures crossChainLatency
    alertsTotal alertsActive alertsResolved cpuUsage memoryUsage diskUsage networkLatency).

Implicit Types m : Metrics C.

Definition RecordOperatorUptime m (uptime : float64) : M R unit :=
  modify (Set_ (mt_operatorUptime m) uptime).

Definition RecordOperatorStatus m (healthy : bool) : M R unit :=
  if healthy then modify (Set_ (mt_operatorStatus m) (f_of_Z 1))
  else modify (Set_ (mt_operatorStatus m) (f_of_Z 0)).

Definition RecordPoolStates m (total : Z) (active : Z) (stale : Z) : M R unit :=
  modify (Set_ (mt_poolStatesTotal m) (f_of_Z total));;
  modify (Set_ (mt_poolStatesActive m) (f_of_Z active));;
  modify (Set_ (mt_poolStatesStale m) (f_of_Z stale)).

Definition RecordStateUpdate m (latency : Z) : M R unit :=
  modify (Inc (mt_stateUpdatesTotal m));;
  modify (Observe (mt_stateUpdateLatency m) (Seconds latency)).

Definition RecordStateUpdateError m : M R unit :=
  modify (Inc (mt_stateUpdateErrors m)).

Definition RecordRebalancingRequest m (amount : float64) : M R unit :=
  modify (Inc (mt_rebalancingRequests m));;
  modify (Observe (mt_rebalancingAmount m) amount).

Definition RecordRebalancingSuccess m (amount : float64) (cost : float64) : M R unit :=
  modify (Inc (mt_rebalancingSuccess m));;
  modify (Observe (mt_rebalancingAmount m) amount);;
  modify (Observe (mt_rebalancingCost m) cost).

Definition RecordRebalancingFailure m (amount : float64) : M R unit :=
  modify (Inc (mt_rebalancingFailures m));;
  modify (Observe (mt_rebalancingAmount m) amount).

Definition RecordTaskProcessed m (processingTime : Z) : M R unit :=
  modify (Inc (mt_tasksTotal m));;
  modify (Observe (mt_taskProcessingTime m) (Seconds processingTime)).

Definition RecordTaskCompleted m : M R unit :=
  modify (Inc (mt_tasksCompleted m)).

Definition RecordTaskFailed m : M R unit :=
  modify (Inc (mt_tasksFailed m)).

Definition RecordConsensusReached m (latency : Z) : M R unit :=
  modify (Inc (mt_consensusReached m));;
  modify (Observe (mt_consensusLatency m) (Seconds latency)).

Definition RecordConsensusFailed m : M R unit :=
  modify (Inc (mt_consensusFailed m)).

Definition RecordCrossChainOperation m (latency : Z) : M R unit :=
  modify (Inc (mt_crossChainOps m));;
  modify (Observe (mt_crossChainLatency m) (Seconds latency)).

Definition RecordCrossChainSuccess m : M R unit :=
  modify (Inc (mt_crossChainSuccess m)).

Definition RecordCrossChainFailure m : M R unit :=
  modify (Inc (mt_crossChainFailures m)).

Definition RecordAlert m : M R unit :=
  modify (Inc (mt_alertsTotal m)).

Definition RecordAlertsActive m (count : Z) : M R unit :=
  modify (Set_ (mt_alertsActive m) (f_of_Z count)).

Definition RecordAlertResolved m : M R unit :=
  modify (Inc (mt_alertsResolved m)).

Definition RecordPerformanceMetrics m (cpu : float64) (memory : float64) (disk : float64) : M R unit :=
  modify (Set_ (mt_cpuUsage m) cpu);;
  modify (Set_ (mt_memoryUsage m) memory);;
  modify (Set_ (mt_diskUsage m) disk).

Definition RecordNetworkLatency m (latency : Z) : M R unit :=
  modify (Observe (mt_networkLatency m) (Seconds latency)).

Definition GetMetricsSummary m : gmap string value :=
  list_to_map [
    ("operator_uptime", VString "running");
    ("operator_status", VString "active");
    ("pool_states_total", VInt 10);
    ("pool_states_active", VInt 8);
    ("pool_states_stale", VInt 2);
    ("state_updates_total", VInt 150);
    ("rebalancing_requests", VInt 25);
    ("rebalancing_success", VInt 20);
    ("rebalancing_failures", VInt 5);
    ("tasks_total", VInt 100);
    ("tasks_completed", VInt 95);
    ("tasks_failed", VInt 5);
    ("consensus_reached", VInt 90);
    ("consensus_failed", VInt 10);
    ("cross_chain_ops", VInt 15);
    ("cross_chain_success", VInt 12);
    ("cross_chain_failures", VInt 3);
    ("alerts_total", VInt 5);
    ("alerts_active", VInt 2);
    ("alerts_resolved", VInt 3)].

(** One tick of [StartMetricsCollection]: 25% CPU, 1GB of memory, 10GB of disk. *)
Definition collectSystemMetrics m : M R unit :=
  RecordPerformanceMetrics m (f_of_Z 25) (f_of_Z (1024 * 1024 * 1024))
    (f_of_Z (10 * 1024 * 1024 * 1024)).

(** Every 30 seconds. *)
Definition StartMetricsCollection m (events : list event) : M R unit :=
  ticker_loop (30 * second) (λ _, collectSystemMetrics m) events.
End metrics.
