(* ===== verification/Monitor.v ===== *)
(** * [pkg/monitoring/monitor.go]: the monitor

    Its own alerts (objects of [Alerts.Alert] in a heap shared with callers),
    performance counters and Prometheus collectors.  The goroutines of [Start]
    are the tick functions below. *)

From S2P Require Import Prelude Float64 BigInt Alerts Prometheus Metrics Loops.

(** ** Data *)

Record PerformanceTracker := mkPerformance {
  pf_StateUpdates : Z;
  pf_RebalancingOps : Z;
  pf_SuccessfulOps : Z;
  pf_FailedOps : Z;
  pf_AverageLatency : float64;
  pf_Uptime : float64;
  pf_LastUpdate : time;
}.

Record MonitorCollectors (C : Type) := mkCollectors {
  mc_poolStatesTotal : C;
  mc_rebalancingRequests : C;
  mc_rebalancingSuccess : C;
  mc_rebalancingFailures : C;
  mc_stateUpdateLatency : C;
  mc_operatorUptime : C;
}.
Arguments mkCollectors {C} _ _ _ _ _ _.
Arguments mc_poolStatesTotal {C} _.
Arguments mc_rebalancingRequests {C} _.
Arguments mc_rebalancingSuccess {C} _.
Arguments mc_rebalancingFailures {C} _.
Arguments mc_stateUpdateLatency {C} _.
Arguments mc_operatorUptime {C} _.

(** [Monitor] together with the global state it uses: the registry, the heap
    of alerts and the log lines of active critical alerts. *)
Record Monitor (R C : Type) := mkMonitor {
  mo_collectors : MonitorCollectors C;
  mo_alerts : gmap string ptr;
  mo_performance : PerformanceTracker;
  mo_registry : R;
  mo_heap : gmap ptr Alert;
  mo_next : ptr;
  mo_critical_log : list (string * string * Z);
}.
Arguments mkMonitor {R C} _ _ _ _ _ _ _.
Arguments mo_collectors {R C} _.
Arguments mo_alerts {R C} _.
Arguments mo_performance {R C} _.
Arguments mo_registry {R C} _.
Arguments mo_heap {R C} _.
Arguments mo_next {R C} _.
Arguments mo_critical_log {R C} _.

(** [&PerformanceTracker{}] *)
Definition zero_performance : PerformanceTracker :=
  mkPerformance 0 0 0 0 f_zero f_zero zero_time.

Definition pf_set_update (n : Z) (now : time) (p : PerformanceTracker) : PerformanceTracker :=
  mkPerformance n (pf_RebalancingOps p) (pf_SuccessfulOps p) (pf_FailedOps p)
    (pf_AverageLatency p) (pf_Uptime p) now.
Definition pf_set_ops (r s f : Z) (p : PerformanceTracker) : PerformanceTracker :=
  mkPerformance (pf_StateUpdates p) r s f (pf_AverageLatency p) (pf_Uptime p) (pf_LastUpdate p).
Definition pf_set_uptime (x : float64) (p : PerformanceTracker) : PerformanceTracker :=
  mkPerformance (pf_StateUpdates p) (pf_RebalancingOps p) (pf_SuccessfulOps p) (pf_FailedOps p)
    (pf_AverageLatency p) x (pf_LastUpdate p).

(** ** [time.Duration.String] *)

(** The decimal digits of [v], [n] of them. *)
Fixpoint digits (n : nat) (v : Z) : string :=
  match n with
  | O => ""
  | S n => digits n (v / 10) +:+ pretty (v mod 10)
  end.

(** [fmtFrac]: the fraction [v / 10^n] without trailing zeros. *)
Fixpoint fmtFrac (n : nat) (v : Z) : string :=
  match n with
  | O => ""
  | S k => if bool_decide (v mod 10 = 0) then fmtFrac k (v / 10) else "." +:+ digits n v
  end.

Definition Duration_String (d : Z) : string :=
  let u := Z.abs d in
  let s :=
    if bool_decide (u = 0) then "0s"
    else if bool_decide (u < 1000) then pretty u +:+ "ns"
    else if bool_decide (u < 1000000) then pretty (u / 1000) +:+ fmtFrac 3 (u mod 1000) +:+ "µs"
    else if bool_decide (u < second) then
      pretty (u / 1000000) +:+ fmtFrac 6 (u mod 1000000) +:+ "ms"
    else
      let secs := u / second in
      let tail := pretty (secs mod 60) +:+ fmtFrac 9 (u mod second) +:+ "s" in
      if bool_decide (secs < 60) then tail
      else if bool_decide (secs < 3600) then pretty (secs / 60) +:+ "m" +:+ tail
      else pretty (secs / 3600) +:+ "h" +:+ pretty (secs / 60 mod 60) +:+ "m" +:+ tail in
  if bool_decide (d < 0) then "-" +:+ s else s.

Example duration_minutes : Duration_String (90 * second) = "1m30s".
Proof. vm_compute. reflexivity. Qed.
Example duration_millis : Duration_String 1500000 = "1.5ms".
Proof. vm_compute. reflexivity. Qed.
Example duration_max : Duration_String (2 ^ 63 - 1) = "2562047h47m16.854775807s".
Proof. vm_compute. reflexivity. Qed.

Section monitor.
Context {R C : Type} `{Prometheus R C, RangeOrder}.
Abbreviation Mon := (Monitor R C).
Implicit Types m : Mon.

Definition mo_set_alerts (a : gmap string ptr) m : Mon :=
  mkMonitor (mo_collectors m) a (mo_performance m) (mo_registry m) (mo_heap m) (mo_next m)
    (mo_critical_log m).
Definition mo_set_performance (p : PerformanceTracker) m : Mon :=
  mkMonitor (mo_collectors m) (mo_alerts m) p (mo_registry m) (mo_heap m) (mo_next m)
    (mo_critical_log m).
Definition mo_set_registry (r : R) m : Mon :=
  mkMonitor (mo_collectors m) (mo_alerts m) (mo_performance m) r (mo_heap m) (mo_next m)
    (mo_critical_log m).
Definition mo_set_heap (h : gmap ptr Alert) m : Mon :=
  mkMonitor (mo_collectors m) (mo_alerts m) (mo_performance m) (mo_registry m) h (mo_next m)
    (mo_critical_log m).

Definition NewMonitor : M R Mon :=
  poolStatesTotal ← NewGauge "synchook_pool_states_total"
    "Total number of pool states being tracked";
  rebalancingRequests ← NewCounter "synchook_rebalancing_requests_total"
    "Total number of rebalancing requests";
  rebalancingSuccess ← NewCounter "synchook_rebalancing_success_total"
    "Total number of successful rebalancing operations";
  rebalancingFailures ← NewCounter "synchook_rebalancing_failures_total"
    "Total number of failed rebalancing operations";
  stateUpdateLatency ← NewHistogram "synchook_state_update_latency_seconds"
    "Latency of state updates in seconds" DefBuckets;
  operatorUptime ← NewGauge "synchook_operator_uptime_seconds" "Operator uptime in seconds";
  r ← get;
  mret (mkMonitor (mkCollectors poolStatesTotal rebalancingRequests rebalancingSuccess
          rebalancingFailures stateUpdateLatency operatorUptime) ∅ zero_performance r ∅ 1%positive []).

Definition on_registry (f : MonitorCollectors C → R → R) : M Mon unit :=
  modify (λ m, mo_set_registry (f (mo_collectors m) (mo_registry m)) m).
Definition on_performance (f : PerformanceTracker → PerformanceTracker) : M Mon unit :=
  modify (λ m, mo_set_performance (f (mo_performance m)) m).

(** ** Alerts *)

Definition new_alert (a : Alert) : M Mon ptr := λ m,
  (mkMonitor (mo_collectors m) (mo_alerts m) (mo_performance m) (mo_registry m)
     (<[mo_next m := a]> (mo_heap m)) (Pos.succ (mo_next m)) (mo_critical_log m),
   Ret (mo_next m)).

Definition load_alert (p : ptr) : M Mon Alert := λ m,
  match mo_heap m !! p with
  | Some a => (m, Ret a)
  | None => (m, Panic NilDeref)
  end.

Definition CreateAlert (now1 now2 : time) (alertType severity message : string)
    (metadata : gmap string value) : M Mon string :=
  let alertID := alert_id alertType now1 in
  alert ← new_alert (mkAlert alertID alertType severity message (unix_u64 now2) false 0 metadata
                       "" []);
  modify (λ m, mo_set_alerts (<[alertID := alert]> (mo_alerts m)) m);;
  mret alertID.

Definition ResolveAlert (now : time) (alertID : string) : M Mon unit :=
  m ← get;
  match mo_alerts m !! alertID with
  | None => throw ("alert not found: " +:+ alertID)
  | Some p =>
      alert ← load_alert p;
      modify (λ m, mo_set_heap (<[p := resolve now alert]> (mo_heap m)) m)
  end.

Definition GetAlerts (severity : string) (resolved : bool) : M Mon (list ptr) :=
  m ← get;
  foldM (λ filteredAlerts kp,
      alert ← load_alert kp.2;
      mret (if bool_decide (severity ≠ "" ∧ al_Severity alert ≠ severity) then filteredAlerts
            else if negb (Bool.eqb (al_Resolved alert) resolved) then filteredAlerts
            else filteredAlerts ++ [kp.2])) [] (range_list 0 (mo_alerts m)).

(** ** Records *)

Definition RecordStateUpdate (now : time) (poolID : string) (latency : Z) : M Mon unit :=
  on_registry (λ c, Observe (mc_stateUpdateLatency c) (Seconds latency));;
  on_performance (λ p, pf_set_update (i64 (pf_StateUpdates p + 1)) now p).

Definition RecordRebalancingRequest (poolID : string) (amount : bigint) : M Mon unit :=
  on_registry (λ c, Inc (mc_rebalancingRequests c));;
  on_performance (λ p, pf_set_ops (i64 (pf_RebalancingOps p + 1)) (pf_SuccessfulOps p)
                         (pf_FailedOps p) p).

Definition RecordRebalancingSuccess (poolID : string) (amount cost : bigint) : M Mon unit :=
  on_registry (λ c, Inc (mc_rebalancingSuccess c));;
  on_performance (λ p, pf_set_ops (pf_RebalancingOps p) (i64 (pf_SuccessfulOps p + 1))
                         (pf_FailedOps p) p).

Definition RecordRebalancingFailure (now1 now2 : time) (poolID : string) (amount : bigint)
    (error : string) : M Mon unit :=
  on_registry (λ c, Inc (mc_rebalancingFailures c));;
  on_performance (λ p, pf_set_ops (pf_RebalancingOps p) (pf_SuccessfulOps p)
                         (i64 (pf_FailedOps p + 1)) p);;
  CreateAlert now1 now2 "rebalancing_failure" "high"
    ("Rebalancing failed for pool " +:+ poolID +:+ ": " +:+ error)
    (<["poolID" := VString poolID]> (<["amount" := VString (big_String amount)]>
       {["error" := VString error]}));;
  mret tt.

Definition UpdatePoolStatesCount (count : Z) : M Mon unit :=
  on_registry (λ c, Set_ (mc_poolStatesTotal c) (f_of_Z count)).

Definition GetPerformanceMetrics m : PerformanceTracker := mo_performance m.

(** ** Ticks *)

(** [trackUptime] *)
Definition uptime_tick (startTime now : time) : M Mon unit :=
  let uptime := Seconds (time_sub now startTime) in
  on_registry (λ c, Set_ (mc_operatorUptime c) uptime);;
  on_performance (pf_set_uptime uptime).

Definition expire (now : Z) (alert : Alert) : Alert :=
  mkAlert (al_ID alert) (al_Type alert) (al_Severity alert) (al_Message alert) (al_Timestamp alert)
    true now (al_Metadata alert) (al_Source alert) (al_Tags alert).

Definition expired (now : Z) (alert : Alert) : bool :=
  negb (al_Resolved alert) && bool_decide (24 * 60 * 60 < u64_sub now (al_Timestamp alert)).

Definition processExpiredAlerts (now_ : time) : M Mon unit :=
  let now := unix_u64 now_ in
  m ← get;
  foldM (λ _ kp,
      alert ← load_alert kp.2;
      if expired now alert then
        modify (λ m, mo_set_heap (<[kp.2 := expire now alert]> (mo_heap m)) m)
      else mret tt) tt (range_list 0 (mo_alerts m)).

Definition log_critical (l : string * string * Z) m : Mon :=
  mkMonitor (mo_collectors m) (mo_alerts m) (mo_performance m) (mo_registry m) (mo_heap m)
    (mo_next m) (mo_critical_log m ++ [l]).

Definition processCriticalAlerts : M Mon unit :=
  criticalAlerts ← GetAlerts "critical" false;
  foldM (λ _ p,
      alert ← load_alert p;
      modify (log_critical (al_ID alert, al_Message alert, al_Timestamp alert))) tt criticalAlerts.

(** One tick of [processAlerts]. *)
Definition alerts_tick (now : time) : M Mon unit :=
  processExpiredAlerts now;;
  processCriticalAlerts.

(** One tick of [monitorPerformance]; the success rate is only logged. *)
Definition calculatePerformanceMetrics : M Mon unit :=
  on_performance (λ p,
    if bool_decide (1000 < pf_StateUpdates p) then
      pf_set_ops 0 0 0 (pf_set_update 0 (pf_LastUpdate p) p)
    else p).

(** The goroutines [Start] launches, with their tickers; [startTime] is the
    clock when [trackUptime] begins. *)
Definition trackUptime (startTime : time) (events : list event) : M Mon unit :=
  ticker_loop second (uptime_tick startTime) events.

Definition processAlerts (events : list event) : M Mon unit :=
  ticker_loop (30 * second) alerts_tick events.

Definition monitorPerformance (events : list event) : M Mon unit :=
  ticker_loop (60 * second) (λ _, calculatePerformanceMetrics) events.

Inductive monitor_goroutine : Type := Uptime | AlertProcessing | Performance.
Definition Monitor_Start : list monitor_goroutine := [Uptime; AlertProcessing; Performance].

(** ** Health *)

Definition HealthCheck (now : time) : M Mon (gmap string value) :=
  m ← get;
  let p := mo_performance m in
  let timeSinceUpdate := time_sub now (pf_LastUpdate p) in
  active ← GetAlerts "" false;
  critical ← GetAlerts "critical" false;
  let health := list_to_map [
    ("status", VString "healthy");
    ("uptime", VFloat (pf_Uptime p));
    ("lastUpdate", VTime (pf_LastUpdate p));
    ("timeSinceUpdate", VString (Duration_String timeSinceUpdate));
    ("stateUpdates", VInt (pf_StateUpdates p));
    ("rebalancingOps", VInt (pf_RebalancingOps p));
    ("successfulOps", VInt (pf_SuccessfulOps p));
    ("failedOps", VInt (pf_FailedOps p));
    ("activeAlerts", VInt (Z.of_nat (length active)));
    ("criticalAlerts", VInt (Z.of_nat (length critical)))] in
  mret (if bool_decide (5 * 60 * second < timeSinceUpdate) then
          <["reason" := VString "No updates in 5 minutes"]>
            (<["status" := VString "unhealthy"]> health)
        else health).
End monitor.
