(* ===== verification/MetricsProps.v ===== *)
(** * The metrics collector's contract ([pkg/monitoring/metrics.go])

    Registration, and what the counters count. *)

From S2P Require Import Prelude Float64 Alerts Prometheus Monitor Metrics.

(** The calls of the [Record] methods. *)
Inductive recorded : Type :=
  | RecOperatorUptime (uptime : float64)
  | RecOperatorStatus (healthy : bool)
  | RecPoolStates (total : Z) (active : Z) (stale : Z)
  | RecStateUpdate (latency : Z)
  | RecStateUpdateError
  | RecRebalancingRequest (amount : float64)
  | RecRebalancingSuccess (amount : float64) (cost : float64)
  | RecRebalancingFailure (amount : float64)
  | RecTaskProcessed (processingTime : Z)
  | RecTaskCompleted
  | RecTaskFailed
  | RecConsensusReached (latency : Z)
  | RecConsensusFailed
  | RecCrossChainOperation (latency : Z)
  | RecCrossChainSuccess
  | RecCrossChainFailure
  | RecAlert
  | RecAlertsActive (count : Z)
  | RecAlertResolved
  | RecPerformanceMetrics (cpu : float64) (memory : float64) (disk : float64)
  | RecNetworkLatency (latency : Z).

(** The effect of a call on a collector. *)
Inductive effect (C : Type) : Type :=
  | OnInc (c : C)
  | OnSet (c : C) (x : float64)
  | OnObserve (c : C) (x : float64).
Arguments OnInc {C} _.
Arguments OnSet {C} _ _.
Arguments OnObserve {C} _ _.

(** Refutes that two collectors with different names have the same name. *)
Ltac names_clash E :=
  match type of E with
  | collector_name ?c1 = collector_name ?c2 =>
      match goal with
      | H1 : collector_name c1 = _, H2 : collector_name c2 = _ |- _ =>
          rewrite H1, H2 in E; discriminate E
      end
  end.

Section metrics_props.
Context {R C : Type} `{PrometheusLaws R C}.
Implicit Types m : Metrics C.

Definition record m (c : recorded) : M R unit :=
  match c with
  | RecOperatorUptime uptime => RecordOperatorUptime m uptime
  | RecOperatorStatus healthy => RecordOperatorStatus m healthy
  | RecPoolStates total active stale => RecordPoolStates m total active stale
  | RecStateUpdate latency => RecordStateUpdate m latency
  | RecStateUpdateError => RecordStateUpdateError m
  | RecRebalancingRequest amount => RecordRebalancingRequest m amount
  | RecRebalancingSuccess amount cost => RecordRebalancingSuccess m amount cost
  | RecRebalancingFailure amount => RecordRebalancingFailure m amount
  | RecTaskProcessed processingTime => RecordTaskProcessed m processingTime
  | RecTaskCompleted => RecordTaskCompleted m
  | RecTaskFailed => RecordTaskFailed m
  | RecConsensusReached latency => RecordConsensusReached m latency
  | RecConsensusFailed => RecordConsensusFailed m
  | RecCrossChainOperation latency => RecordCrossChainOperation m latency
  | RecCrossChainSuccess => RecordCrossChainSuccess m
  | RecCrossChainFailure => RecordCrossChainFailure m
  | RecAlert => RecordAlert m
  | RecAlertsActive count => RecordAlertsActive m count
  | RecAlertResolved => RecordAlertResolved m
  | RecPerformanceMetrics cpu memory disk => RecordPerformanceMetrics m cpu memory disk
  | RecNetworkLatency latency => RecordNetworkLatency m latency
  end.

(** The effects of a call, in order. *)
Definition effects m (c : recorded) : list (effect C) :=
  match c with
  | RecOperatorUptime uptime =>
    [OnSet (mt_operatorUptime m) uptime]
  | RecOperatorStatus healthy =>
    [OnSet (mt_operatorStatus m) (f_of_Z (if healthy then 1 else 0))]
  | RecPoolStates total active stale =>
    [OnSet (mt_poolStatesTotal m) (f_of_Z total);
     OnSet (mt_poolStatesActive m) (f_of_Z active);
     OnSet (mt_poolStatesStale m) (f_of_Z stale)]
  | RecStateUpdate latency =>
    [OnInc (mt_stateUpdatesTotal m);
     OnObserve (mt_stateUpdateLatency m) (Seconds latency)]
  | RecStateUpdateError =>
    [OnInc (mt_stateUpdateErrors m)]
  | RecRebalancingRequest amount =>
    [OnInc (mt_rebalancingRequests m);
     OnObserve (mt_rebalancingAmount m) amount]
  | RecRebalancingSuccess amount cost =>
    [OnInc (mt_rebalancingSuccess m);
     OnObserve (mt_rebalancingAmount m) amount;
     OnObserve (mt_rebalancingCost m) cost]
  | RecRebalancingFailure amount =>
    [OnInc (mt_rebalancingFailures m);
     OnObserve (mt_rebalancingAmount m) amount]
  | RecTaskProcessed processingTime =>
    [OnInc (mt_tasksTotal m);
     OnObserve (mt_taskProcessingTime m) (Seconds processingTime)]
  | RecTaskCompleted =>
    [OnInc (mt_tasksCompleted m)]
  | RecTaskFailed =>
    [OnInc (mt_tasksFailed m)]
  | RecConsensusReached latency =>
    [OnInc (mt_consensusReached m);
     OnObserve (mt_consensusLatency m) (Seconds latency)]
  | RecConsensusFailed =>
    [OnInc (mt_consensusFailed m)]
  | RecCrossChainOperation latency =>
    [OnInc (mt_crossChainOps m);
     OnObserve (mt_crossChainLatency m) (Seconds latency)]
  | RecCrossChainSuccess =>
    [OnInc (mt_crossChainSuccess m)]
  | RecCrossChainFailure =>
    [OnInc (mt_crossChainFailures m)]
  | RecAlert =>
    [OnInc (mt_alertsTotal m)]
  | RecAlertsActive count =>
    [OnSet (mt_alertsActive m) (f_of_Z count)]
  | RecAlertResolved =>
    [OnInc (mt_alertsResolved m)]
  | RecPerformanceMetrics cpu memory disk =>
    [OnSet (mt_cpuUsage m) cpu;
     OnSet (mt_memoryUsage m) memory;
     OnSet (mt_diskUsage m) disk]
  | RecNetworkLatency latency =>
    [OnObserve (mt_networkLatency m) (Seconds latency)]
  end.

Definition run_effect (e : effect C) (r : R) : R :=
  match e with
  | OnInc c => Inc c r
  | OnSet c x => Set_ c x r
  | OnObserve c x => Observe c x r
  end.

Lemma record_effects m c r :
  record m c r = (foldl (λ r e, run_effect e r) r (effects m c), Ret tt).
Proof. destruct c as [?|[]|? ? ?|?| |?|? ?|?|?| | |?| |?| | | |?| |? ? ?|?]; reflexivity. Qed.

(** The counters of a [Metrics] value, and the calls each counts. *)
Definition counters : list ((Metrics C → C) * string * (recorded → bool)) :=
    [
  (mt_stateUpdatesTotal, "synchook_state_updates_total",
  λ c, match c with RecStateUpdate _ => true | _ => false end);
  (mt_stateUpdateErrors, "synchook_state_update_errors_total",
  λ c, match c with RecStateUpdateError => true | _ => false end);
  (mt_rebalancingRequests, "synchook_rebalancing_requests_total",
  λ c, match c with RecRebalancingRequest _ => true | _ => false end);
  (mt_rebalancingSuccess, "synchook_rebalancing_success_total",
  λ c, match c with RecRebalancingSuccess _ _ => true | _ => false end);
  (mt_rebalancingFailures, "synchook_rebalancing_failures_total",
  λ c, match c with RecRebalancingFailure _ => true | _ => false end);
  (mt_tasksTotal, "synchook_tasks_total",
  λ c, match c with RecTaskProcessed _ => true | _ => false end);
  (mt_tasksCompleted, "synchook_tasks_completed_total",
  λ c, match c with RecTaskCompleted => true | _ => false end);
  (mt_tasksFailed, "synchook_tasks_failed_total",
  λ c, match c with RecTaskFailed => true | _ => false end);
  (mt_consensusReached, "synchook_consensus_reached_total",
  λ c, match c with RecConsensusReached _ => true | _ => false end);
  (mt_consensusFailed, "synchook_consensus_failed_total",
  λ c, match c with RecConsensusFailed => true | _ => false end);
  (mt_crossChainOps, "synchook_cross_chain_operations_total",
  λ c, match c with RecCrossChainOperation _ => true | _ => false end);
  (mt_crossChainSuccess, "synchook_cross_chain_success_total",
  λ c, match c with RecCrossChainSuccess => true | _ => false end);
  (mt_crossChainFailures, "synchook_cross_chain_failures_total",
  λ c, match c with RecCrossChainFailure => true | _ => false end);
  (mt_alertsTotal, "synchook_alerts_total",
  λ c, match c with RecAlert => true | _ => false end);
  (mt_alertsResolved, "synchook_alerts_resolved_total",
  λ c, match c with RecAlertResolved => true | _ => false end)].

(** What is registered, in the order of the struct. *)
Definition metrics_opts : list Opts := [
  mkOpts Gauge "synchook_operator_uptime_seconds"
  "Operator uptime in seconds" NoBuckets;
  mkOpts Gauge "synchook_operator_status"
  "Operator status (1=healthy, 0=unhealthy)" NoBuckets;
  mkOpts Gauge "synchook_pool_states_total"
  "Total number of pool states being tracked" NoBuckets;
  mkOpts Gauge "synchook_pool_states_active"
  "Number of active pool states" NoBuckets;
  mkOpts Gauge "synchook_pool_states_stale"
  "Number of stale pool states" NoBuckets;
  mkOpts Counter "synchook_state_updates_total"
  "Total number of state updates" NoBuckets;
  mkOpts Histogram "synchook_state_update_latency_seconds"
  "Latency of state updates in seconds" DefBuckets;
  mkOpts Counter "synchook_state_update_errors_total"
  "Total number of state update errors" NoBuckets;
  mkOpts Counter "synchook_rebalancing_requests_total"
  "Total number of rebalancing requests" NoBuckets;
  mkOpts Counter "synchook_rebalancing_success_total"
  "Total number of successful rebalancing operations" NoBuckets;
  mkOpts Counter "synchook_rebalancing_failures_total"
  "Total number of failed rebalancing operations" NoBuckets;
  mkOpts Histogram "synchook_rebalancing_amount_tokens"
  "Amount of tokens rebalanced" (ExponentialBuckets (f_of_Z 1000) (f_of_Z 10) 6);
  mkOpts Histogram "synchook_rebalancing_cost_eth"
  "Cost of rebalancing operations in ETH" (ExponentialBuckets (f_lit 1 1000) (f_of_Z 10) 4);
  mkOpts Counter "synchook_tasks_total"
  "Total number of tasks processed" NoBuckets;
  mkOpts Counter "synchook_tasks_completed_total"
  "Total number of completed tasks" NoBuckets;
  mkOpts Counter "synchook_tasks_failed_total"
  "Total number of failed tasks" NoBuckets;
  mkOpts Histogram "synchook_task_processing_time_seconds"
  "Time taken to process tasks in seconds" DefBuckets;
  mkOpts Counter "synchook_consensus_reached_total"
  "Total number of consensus reached" NoBuckets;
  mkOpts Counter "synchook_consensus_failed_total"
  "Total number of consensus failures" NoBuckets;
  mkOpts Histogram "synchook_consensus_latency_seconds"
  "Time taken to reach consensus in seconds" DefBuckets;
  mkOpts Counter "synchook_cross_chain_operations_total"
  "Total number of cross-chain operations" NoBuckets;
  mkOpts Counter "synchook_cross_chain_success_total"
  "Total number of successful cross-chain operations" NoBuckets;
  mkOpts Counter "synchook_cross_chain_failures_total"
  "Total number of failed cross-chain operations" NoBuckets;
  mkOpts Histogram "synchook_cross_chain_latency_seconds"
  "Latency of cross-chain operations in seconds" (ExponentialBuckets (f_of_Z 1) (f_of_Z 2) 10);
  mkOpts Counter "synchook_alerts_total"
  "Total number of alerts generated" NoBuckets;
  mkOpts Gauge "synchook_alerts_active"
  "Number of active alerts" NoBuckets;
  mkOpts Counter "synchook_alerts_resolved_total"
  "Total number of resolved alerts" NoBuckets;
  mkOpts Gauge "synchook_cpu_usage_percent"
  "CPU usage percentage" NoBuckets;
  mkOpts Gauge "synchook_memory_usage_bytes"
  "Memory usage in bytes" NoBuckets;
  mkOpts Gauge "synchook_disk_usage_bytes"
  "Disk usage in bytes" NoBuckets;
  mkOpts Histogram "synchook_network_latency_seconds"
  "Network latency in seconds" (ExponentialBuckets (f_lit 1 1000) (f_of_Z 2) 10)].

Definition metrics_names : list string := op_Name <$> metrics_opts.

Definition collectors m : list C := [
  mt_operatorUptime m;
  mt_operatorStatus m;
  mt_poolStatesTotal m;
  mt_poolStatesActive m;
  mt_poolStatesStale m;
  mt_stateUpdatesTotal m;
  mt_stateUpdateLatency m;
  mt_stateUpdateErrors m;
  mt_rebalancingRequests m;
  mt_rebalancingSuccess m;
  mt_rebalancingFailures m;
  mt_rebalancingAmount m;
  mt_rebalancingCost m;
  mt_tasksTotal m;
  mt_tasksCompleted m;
  mt_tasksFailed m;
  mt_taskProcessingTime m;
  mt_consensusReached m;
  mt_consensusFailed m;
  mt_consensusLatency m;
  mt_crossChainOps m;
  mt_crossChainSuccess m;
  mt_crossChainFailures m;
  mt_crossChainLatency m;
  mt_alertsTotal m;
  mt_alertsActive m;
  mt_alertsResolved m;
  mt_cpuUsage m;
  mt_memoryUsage m;
  mt_diskUsage m;
  mt_networkLatency m].

(** ** Registration *)

Lemma new_ret o r r' c :
  promauto_New o r = (r', Ret c) →
  op_Name o ∉ registered r ∧ registered r' = {[op_Name o]} ∪ registered r ∧
  collector_name c = op_Name o ∧ sample_of r' c = new_sample (op_kind o) ∧
  ∀ c', collector_name c' ≠ op_Name o → sample_of r' c' = sample_of r c'.
Proof.
  intros E. destruct (decide (op_Name o ∈ registered r)) as [Hin|Hin].
  - destruct (new_taken o r Hin) as [p Hp]. congruence.
  - destruct (new_fresh o r Hin) as (r2 & c2 & E2 & Hrest). rewrite E in E2.
    injection E2 as <- <-. tauto.
Qed.

Lemma new_result o r :
  (∃ r' c, promauto_New o r = (r', Ret c)) ∨ ∃ p, promauto_New o r = (r, Panic p).
Proof.
  destruct (decide (op_Name o ∈ registered r)) as [Hin|Hin].
  - right. by apply new_taken.
  - left. destruct (new_fresh o r Hin) as (r' & c & E & _). eauto.
Qed.

Fixpoint register_all (os : list Opts) : M R (list C) :=
  match os with
  | [] => mret []
  | o :: os => c ← promauto_New o; cs ← register_all os; mret (c :: cs)
  end.

Definition same_outcome (x : R * res (Metrics C)) (y : R * res (list C)) : Prop :=
  x.1 = y.1 ∧
  match x.2, y.2 with
  | Ret m, Ret cs => cs = collectors m
  | Err e, Err e' => e = e'
  | Panic p, Panic p' => p = p'
  | _, _ => False
  end.

Lemma NewMetrics_all r : same_outcome (NewMetrics r) (register_all metrics_opts r).
Proof.
  unfold NewMetrics, NewGauge, NewCounter, NewHistogram, metrics_opts, register_all, mbind, M_bind.
  repeat match goal with
  | |- context [promauto_New ?o ?s] => destruct (promauto_New o s) as [? [?|?|?]]; [|by split..]
  end.
  by split.
Qed.

Lemma register_all_ret os r r' cs :
  register_all os r = (r', Ret cs) →
  (∀ o, o ∈ os → op_Name o ∉ registered r) ∧ NoDup (op_Name <$> os) ∧
  registered r' = list_to_set (op_Name <$> os) ∪ registered r ∧
  Forall2 (λ c o, collector_name c = op_Name o ∧ sample_of r' c = new_sample (op_kind o)) cs os ∧
  ∀ c', collector_name c' ∉ op_Name <$> os → sample_of r' c' = sample_of r c'.
Proof.
  revert r cs. induction os as [|o os IH]; intros r cs E.
  { injection E as <- <-. split_and!; [by intros ? ?%not_elem_of_nil|constructor|set_solver|done..]. }
  cbn [register_all] in E. apply M_bind_inv in E as (r1 & c & E1 & E).
  apply M_bind_inv in E as (r2 & cs2 & E2 & E). injection E as <- <-.
  apply new_ret in E1 as (Hn & Hr1 & Hname & Hs & Ho).
  apply IH in E2 as (Hn2 & Hnd & Hr2 & Hall & Ho2).
  assert (op_Name o ∉ op_Name <$> os) as Hno.
  { intros (o' & Eo & Hin)%list_elem_of_fmap. apply (Hn2 o' Hin). rewrite Hr1, Eo. set_solver. }
  split_and!.
  - intros o' [->|Hin]%elem_of_cons; [done|]. specialize (Hn2 o' Hin). rewrite Hr1 in Hn2.
    set_solver.
  - by constructor.
  - rewrite Hr2, Hr1. cbn. set_solver.
  - constructor; [|done]. split; [done|]. rewrite Ho2 by (by rewrite Hname). done.
  - intros c' Hc'. cbn in Hc'. apply not_elem_of_cons in Hc' as [Hc1 Hc2].
    rewrite Ho2, Ho by done. done.
Qed.

Lemma register_all_fresh os r :
  (∀ o, o ∈ os → op_Name o ∉ registered r) → NoDup (op_Name <$> os) →
  ∃ r' cs, register_all os r = (r', Ret cs).
Proof.
  revert r. induction os as [|o os IH]; intros r Hf Hnd; [by eexists _, _|].
  cbn in Hnd. apply NoDup_cons in Hnd as [Ho Hnd]. cbn [register_all].
  destruct (new_fresh o r) as (r1 & c & E1 & _ & Hr1 & _); [apply Hf; by left|].
  destruct (IH r1) as (r2 & cs & E2); [|done|].
  - intros o' Hin. rewrite Hr1. assert (op_Name o' ≠ op_Name o).
    { intros E. apply Ho. rewrite <- E. by apply list_elem_of_fmap_2. }
    specialize (Hf o' ltac:(by right)). set_solver.
  - eexists _, _. erewrite M_bind_ret by exact E1. by erewrite M_bind_ret by exact E2.
Qed.

Lemma register_all_cases os r :
  (∃ r' cs, register_all os r = (r', Ret cs)) ∨ ∃ r' p, register_all os r = (r', Panic p).
Proof.
  revert r. induction os as [|o os IH]; intros r; [left; by eexists _, _|]. cbn [register_all].
  destruct (new_result o r) as [(r1 & c & E1)|[p E1]].
  - erewrite M_bind_ret by exact E1. destruct (IH r1) as [(r2 & cs & E2)|(r2 & p & E2)].
    + left. eexists _, _. by erewrite M_bind_ret by exact E2.
    + right. eexists _, _. by erewrite M_bind_panic by exact E2.
  - right. eexists _, _. by erewrite M_bind_panic by exact E1.
Qed.

Lemma metrics_names_nodup : NoDup metrics_names.
Proof. refine (bool_decide_eq_true_1 _ _). vm_compute. reflexivity. Qed.

Lemma NewMetrics_ret r r' m :
  NewMetrics r = (r', Ret m) → register_all metrics_opts r = (r', Ret (collectors m)).
Proof.
  intros E. pose proof (NewMetrics_all r) as Hs. rewrite E in Hs.
  destruct (register_all metrics_opts r) as [r2 [cs|e|p]]; destruct Hs as [Hr Hc]; cbn in *;
    [congruence|done..].
Qed.

Lemma NewMetrics_cases r :
  ((∀ n, n ∈ metrics_names → n ∉ registered r) ∧ ∃ r' m, NewMetrics r = (r', Ret m)) ∨
  ((∃ n, n ∈ metrics_names ∧ n ∈ registered r) ∧ ∃ r' p, NewMetrics r = (r', Panic p)).
Proof.
  pose proof (NewMetrics_all r) as Hs.
  destruct (decide (Exists (λ n, n ∈ registered r) metrics_names)) as [He|He].
  - right. apply Exists_exists in He as (n & Hin & Hr). split; [by exists n|].
    destruct (register_all_cases metrics_opts r) as [(r' & cs & E)|(r' & p & E)].
    + exfalso. apply register_all_ret in E as (Hf & _).
      apply list_elem_of_fmap in Hin as (o & -> & Ho). by apply (Hf o).
    + rewrite E in Hs. destruct (NewMetrics r) as [r2 [m|e|q]]; destruct Hs as [_ Hs]; cbn in Hs;
        [done..|eauto].
  - left. assert (∀ n, n ∈ metrics_names → n ∉ registered r) as Hf
      by (intros n Hin Hr; apply He, Exists_exists; eauto).
    split; [done|]. destruct (register_all_fresh metrics_opts r) as (r' & cs & E);
      [|apply metrics_names_nodup|].
    + intros o Ho. apply Hf. by apply list_elem_of_fmap_2.
    + rewrite E in Hs. destruct (NewMetrics r) as [r2 [m|e|q]]; destruct Hs as [_ Hs]; cbn in Hs;
        [eauto|done..].
Qed.

Lemma NewMonitor_registers r r' mo :
  NewMonitor r = (r', Ret mo) → "synchook_operator_uptime_seconds" ∈ registered r'.
Proof.
  intros E. unfold NewMonitor, NewGauge, NewCounter, NewHistogram in E.
  do 5 (apply M_bind_inv in E as (? & ? & _ & E)). apply M_bind_inv in E as (r1 & c & E1 & E).
  apply M_bind_inv in E as (? & ? & E2 & E). injection E2 as <- <-. injection E as <- _.
  apply new_ret in E1 as (_ & -> & _). cbn. set_solver.
Qed.

(** ** Counting *)

Definition inc_of (e : effect C) : option string :=
  match e with OnInc c => Some (collector_name c) | _ => None end.
Definition target (e : effect C) : C :=
  match e with OnInc c => c | OnSet c _ => c | OnObserve c _ => c end.

Lemma effects_registered es r : registered (foldl (λ r e, run_effect e r) r es) = registered r.
Proof.
  revert r. induction es as [|[c|c x|c x] es IH]; intros r; [done|..]; cbn [foldl run_effect];
    rewrite IH; [apply inc_registered|apply set_registered|apply observe_registered].
Qed.

Lemma effects_count c es r n :
  Forall (λ e, e = OnInc c ∨ collector_name (target e) ≠ collector_name c) es →
  collector_name c ∈ registered r → sample_of r c = Counted n →
  sample_of (foldl (λ r e, run_effect e r) r es) c =
    Counted (n + Z.of_nat (length (filter (λ e, inc_of e = Some (collector_name c)) es))).
Proof.
  intros Hall. revert r n. induction Hall as [|e es He Hall IH]; intros r n Hreg Hs.
  { cbn. by rewrite Z.add_0_r. }
  cbn [foldl]. rewrite filter_cons. destruct He as [->|Hne].
  - rewrite decide_True by done. cbn [length]. rewrite (IH _ (n + 1)).
    + f_equal. lia.
    + cbn. by rewrite inc_registered.
    + by apply inc_sample.
  - rewrite decide_False.
    + apply IH.
      * destruct e; cbn; by rewrite ?inc_registered, ?set_registered, ?observe_registered.
      * rewrite <- Hs. destruct e; cbn in *; [apply inc_other|apply set_other|apply observe_other];
          done.
    + destruct e; cbn in *; [congruence|done..].
Qed.

(** Every entry of [counters] is a counter, and [effects] agrees with it. *)
Lemma counter_index f n b :
  (f, n, b) ∈ counters → ∀ m, ∃ i h,
    collectors m !! i = Some (f m) ∧ metrics_opts !! i = Some (mkOpts Counter n h NoBuckets).
Proof.
  intros Hin m. revert f n b Hin.
  assert (Forall (λ x, ∃ i h, collectors m !! i = Some (x.1.1 m) ∧
    metrics_opts !! i = Some (mkOpts Counter x.1.2 h NoBuckets)) counters) as Hall.
  { unfold counters. repeat (apply Forall_cons_2; [
      first [exists 5%nat; eexists; split; reflexivity | exists 7%nat; eexists; split; reflexivity
        |exists 8%nat; eexists; split; reflexivity | exists 9%nat; eexists; split; reflexivity
        |exists 10%nat; eexists; split; reflexivity | exists 13%nat; eexists; split; reflexivity
        |exists 14%nat; eexists; split; reflexivity | exists 15%nat; eexists; split; reflexivity
        |exists 17%nat; eexists; split; reflexivity | exists 18%nat; eexists; split; reflexivity
        |exists 20%nat; eexists; split; reflexivity | exists 21%nat; eexists; split; reflexivity
        |exists 22%nat; eexists; split; reflexivity | exists 24%nat; eexists; split; reflexivity
        |exists 26%nat; eexists; split; reflexivity]|]). apply Forall_nil_2. }
  intros f n b Hin. rewrite Forall_forall in Hall. by apply (Hall (f, n, b)).
Qed.

Lemma effects_agree m (f : Metrics C → C) n (b : recorded → bool) call :
  collector_name <$> collectors m = metrics_names → (f, n, b) ∈ counters →
  Forall (λ e, e = OnInc (f m) ∨ collector_name (target e) ≠ collector_name (f m)) (effects m call) ∧
  length (filter (λ e, inc_of e = Some (collector_name (f m))) (effects m call)) =
    if b call then 1%nat else 0%nat.
Proof.
  intros Hnames. revert f n b.
  assert (Forall (λ x : (Metrics C → C) * string * (recorded → bool),
    Forall (λ e, e = OnInc (x.1.1 m) ∨ collector_name (target e) ≠ collector_name (x.1.1 m))
      (effects m call) ∧
    length (filter (λ e, inc_of e = Some (collector_name (x.1.1 m))) (effects m call)) =
      if x.2 call then 1%nat else 0%nat) counters) as Hall.
  { destruct m. unfold collectors in Hnames. cbn in Hnames. injection Hnames as Hnames.
    destruct call; unfold counters; repeat (apply Forall_cons_2; [|]); try apply Forall_nil_2;
      cbn -[filter]; (split;
        [repeat (apply Forall_cons_2; [first [left; reflexivity | right; cbn; intros E; names_clash E]|]);
           apply Forall_nil_2|]);
      rewrite ?filter_cons; cbn -[filter];
      repeat first [rewrite decide_True by reflexivity | rewrite decide_False by
        first [discriminate | intros E; injection E as E; names_clash E]]; reflexivity. }
  intros f n b Hin. rewrite Forall_forall in Hall. by apply (Hall (f, n, b)).
Qed.
End metrics_props.

Section counting.
Context {R C : Type} `{PrometheusLaws R C}.

Lemma counters_count_from (m : Metrics C) calls r :
  collector_name <$> collectors m = metrics_names →
  (∀ (f : Metrics C → C) n (b : recorded → bool), (f, n, b) ∈ counters →
    collector_name (f m) ∈ registered r) →
  ∃ r', foldM (λ _, record m) tt calls r = (r', Ret tt) ∧
    ∀ (f : Metrics C → C) n (b : recorded → bool) k, (f, n, b) ∈ counters →
      sample_of r (f m) = Counted k →
      sample_of r' (f m) = Counted (k + Z.of_nat (length (filter (λ c, b c) calls))).
Proof.
  intros Hnames. revert r. induction calls as [|call calls IH]; intros r Hreg.
  { exists r. split; [done|]. intros f n b k _ ->. cbn. by rewrite Z.add_0_r. }
  cbn [foldM]. erewrite M_bind_ret by apply record_effects.
  destruct (IH (foldl (λ r e, run_effect e r) r (effects m call))) as (r' & E & Hr').
  { intros f n b Hin. rewrite effects_registered. by eapply Hreg. }
  exists r'. split; [exact E|]. intros f n b k Hin Hk.
  destruct (effects_agree m f n b call Hnames Hin) as [Hall Hlen].
  rewrite (Hr' f n b (k + Z.of_nat (if b call then 1 else 0)) Hin).
  - rewrite filter_cons. f_equal. destruct (b call); [rewrite decide_True by done|rewrite decide_False
      by (by intros [])]; cbn [length]; lia.
  - rewrite <- Hlen. apply effects_count; [done|by eapply Hreg|done].
Qed.

Lemma NewMetrics_collectors r r' m :
  NewMetrics r = (r', Ret m) →
  collector_name <$> collectors m = metrics_names ∧
  registered r' = list_to_set metrics_names ∪ registered r ∧
  ∀ (f : Metrics C → C) n (b : recorded → bool), (f, n, b) ∈ counters →
    collector_name (f m) = n ∧ n ∈ metrics_names ∧ sample_of r' (f m) = Counted 0.
Proof.
  intros E%NewMetrics_ret%register_all_ret. destruct E as (_ & _ & Hr & Hall & _).
  split; [|split; [exact Hr|]].
  - unfold metrics_names. generalize (collectors m) metrics_opts Hall. clear.
    intros cs os Hall. induction Hall as [|c o cs os [Hc _] _ IH]; [done|].
    rewrite !fmap_cons. by rewrite Hc, IH.
  - intros f n b Hin. destruct (counter_index f n b Hin m) as (i & h & Hi & Ho).
    destruct (Forall2_lookup_lr _ _ _ _ _ _ Hall Hi Ho) as [Hn Hs]. split; [exact Hn|].
    split; [|exact Hs]. apply list_elem_of_fmap. eexists. split; [|by eapply list_elem_of_lookup_2].
    done.
Qed.
End counting.

(** ** Claims *)

(** [C40] Registration.  [NewMetrics] succeeds exactly on the registries that
    hold none of its 31 names, and then it registers just these; otherwise it
    panics.  So a process has at most one [Metrics] value, and none once
    [NewMonitor] has succeeded: the two constructors of package [monitoring]
    exclude each other. *)
Theorem NewMetrics_registers {R C} `{PrometheusLaws R C} r :
  (match NewMetrics r with
   | (r', Ret m) => (∀ n, n ∈ metrics_names → n ∉ registered r) ∧
       registered r' = list_to_set metrics_names ∪ registered r ∧
       ∃ r2 p, NewMetrics r' = (r2, Panic p)
   | (r', Err _) => False
   | (r', Panic _) => ∃ n, n ∈ metrics_names ∧ n ∈ registered r
   end) ∧
  ∀ r' mo, NewMonitor r = (r', Ret mo) → ∃ r2 p, NewMetrics r' = (r2, Panic p).
Proof.
  split.
  - destruct (NewMetrics_cases r) as [(Hf & r' & m & E)|(He & r' & p & E)]; rewrite E; [|done].
    pose proof (NewMetrics_collectors _ _ _ E) as (_ & Hr & _). split; [done|]. split; [done|].
    destruct (NewMetrics_cases r') as [[Hf' _]|[_ Hp]]; [|exact Hp]. exfalso.
    apply (Hf' "synchook_tasks_total"); [|rewrite Hr; apply elem_of_union_l, elem_of_list_to_set];
      refine (bool_decide_eq_true_1 _ _); vm_compute; reflexivity.
  - intros r' mo E%NewMonitor_registers. destruct (NewMetrics_cases r') as [[Hf _]|[_ Hp]]; [|exact Hp].
    exfalso. apply (Hf _) in E; [done|]. refine (bool_decide_eq_true_1 _ _). vm_compute. reflexivity.
Qed.

Lemma NewMetrics_registers_witness :
  ∃ r' m r2 p, NewMetrics (R := gmap string sample) ∅ = (r', Ret m) ∧
    NewMetrics r' = (r2, Panic p).
Proof.
  pose proof (NewMetrics_registers (R := gmap string sample) ∅) as [Hc _].
  assert (∃ r' m, NewMetrics (R := gmap string sample) ∅ = (r', Ret m)) as (r' & m & E)
    by (eexists _, _; reflexivity).
  rewrite E in Hc. destruct Hc as (_ & _ & r2 & p & Hp). exists r', m, r2, p. split; [exact E|exact Hp].
Defined.

(** The counters count.  After [NewMetrics], whatever [Record] methods are
    called in whatever order, no call fails and each of the 15 counters equals
    the number of calls of the method that counts it. *)
Theorem counters_count_calls {R C} `{PrometheusLaws R C} r r0 m calls :
  NewMetrics r = (r0, Ret m) →
  ∃ r', foldM (λ _, record m) tt calls r0 = (r', Ret tt) ∧
    ∀ (f : Metrics C → C) n (b : recorded → bool), (f, n, b) ∈ counters →
      sample_of r' (f m) = Counted (Z.of_nat (length (filter (λ c, b c) calls))).
Proof.
  intros E. destruct (NewMetrics_collectors _ _ _ E) as (Hnames & Hr & Hc).
  destruct (counters_count_from m calls r0 Hnames) as (r' & Er & Hr').
  { intros f n b Hin. destruct (Hc f n b Hin) as (-> & Hn & _). rewrite Hr.
    by apply elem_of_union_l, elem_of_list_to_set. }
  exists r'. split; [exact Er|]. intros f n b Hin. destruct (Hc f n b Hin) as (_ & _ & Hs).
  by rewrite (Hr' f n b 0 Hin Hs).
Qed.

(** Two failed tasks and one completed one. *)
Lemma counters_count_calls_witness :
  ∃ r0 m r', NewMetrics (R := gmap string sample) ∅ = (r0, Ret m) ∧
    foldM (λ _, record m) tt [RecTaskFailed; RecTaskCompleted; RecTaskFailed] r0 = (r', Ret tt) ∧
    sample_of r' (mt_tasksFailed m) = Counted 2.
Proof.
  assert (∃ r' m, NewMetrics (R := gmap string sample) ∅ = (r', Ret m)) as (r0 & m & E)
    by (eexists _, _; reflexivity).
  destruct (counters_count_calls ∅ r0 m [RecTaskFailed; RecTaskCompleted; RecTaskFailed] E)
    as (r' & Er & Hc).
  exists r0, m, r'. split; [exact E|]. split; [exact Er|].
  rewrite (Hc mt_tasksFailed "synchook_tasks_failed_total"
    (λ c, match c with RecTaskFailed => true | _ => false end)); [reflexivity|].
  unfold counters. do 7 right. left.
Defined.
