(* ===== verification/MonitorProps.v ===== *)
(** * The monitor's contract ([pkg/monitoring/monitor.go])

    Expiry of alerts, the health report and its counts. *)

From S2P Require Import Prelude Float64 BigInt Alerts AlertsProps Prometheus Metrics Monitor.

(** Every filed alert is allocated, under its own identifier. *)
Record MoInv {R C} (m : Monitor R C) : Prop := {
  mi_alerts : ∀ id p, mo_alerts m !! id = Some p → ∃ a, mo_heap m !! p = Some a ∧ al_ID a = id;
  mi_fresh : ∀ p, is_Some (mo_heap m !! p) → (p < mo_next m)%positive;
}.

(** What an expiry pass at [now] makes of an alert. *)
Definition aged (now : Z) (a : Alert) : Alert := if expired now a then expire now a else a.

Lemma aged_idem now a : aged now (aged now a) = aged now a.
Proof. unfold aged at 2 3. destruct (expired now a) eqn:E; unfold aged; [done|by rewrite E]. Qed.

(** The age of an alert wraps: one stamped after [now] is expired as well. *)
Lemma expired_iff now a :
  0 ≤ now < 2 ^ 63 → 0 ≤ al_Timestamp a < 2 ^ 63 →
  expired now a = true ↔
    al_Resolved a = false ∧ (24 * 60 * 60 < now - al_Timestamp a ∨ now < al_Timestamp a).
Proof.
  intros Hn Ht. unfold expired. rewrite andb_true_iff, negb_true_iff, bool_decide_eq_true.
  assert (24 * 60 * 60 < u64_sub now (al_Timestamp a) ↔
    24 * 60 * 60 < now - al_Timestamp a ∨ now < al_Timestamp a); [|tauto].
  unfold u64_sub, u64. destruct (decide (al_Timestamp a ≤ now)).
  - rewrite Z.mod_small by lia. lia.
  - replace ((now - al_Timestamp a) mod 2 ^ 64) with (now - al_Timestamp a + 2 ^ 64); [lia|].
    apply (Z.mod_unique_pos _ _ (-1)); lia.
Qed.

Section monitor_props.
Context {R C : Type} `{Prometheus R C, RangeOrder}.
Implicit Types m : Monitor R C.

Lemma range_mem m i kp : kp ∈ range_list i (mo_alerts m) ↔ mo_alerts m !! kp.1 = Some kp.2.
Proof. rewrite range_perm. destruct kp. apply elem_of_map_to_list. Qed.

Lemma expire_loop now l m :
  (∀ kp, kp ∈ l → is_Some (mo_heap m !! kp.2)) →
  ∃ h, foldM (λ (_ : unit) (kp : string * ptr),
      alert ← load_alert kp.2;
      if expired now alert then
        modify (λ m, mo_set_heap (<[kp.2 := expire now alert]> (mo_heap m)) m)
      else mret tt) tt l m = (mo_set_heap h m, Ret tt) ∧
    ∀ p, h !! p = if decide (p ∈ l.*2) then aged now <$> mo_heap m !! p else mo_heap m !! p.
Proof.
  revert m. induction l as [|[id p] l IH]; intros m Hl.
  { exists (mo_heap m). split; [by destruct m|]. intros p.
    by rewrite decide_False by apply not_elem_of_nil. }
  cbn [foldM]. destruct (Hl (id, p)) as [a Ha]; [by left|]. cbn in Ha.
  set (m1 := mo_set_heap (<[p := aged now a]> (mo_heap m)) m).
  assert (mo_heap m1 = <[p := aged now a]> (mo_heap m)) as Hm1 by done.
  rewrite (M_bind_ret _ _ m m1 tt).
  2:{ rewrite (M_bind_ret _ _ m m a) by (unfold load_alert; cbn; by rewrite Ha).
      unfold m1, aged. destruct (expired now a); [done|]. rewrite insert_id by done.
      by destruct m. }
  destruct (IH m1) as (h & E & Hh).
  { intros kp Hin. rewrite Hm1. destruct (decide (kp.2 = p)) as [->|Hne];
      [rewrite lookup_insert_eq; by eexists|rewrite lookup_insert_ne by done; apply Hl; by right]. }
  exists h. split; [exact E|]. intros q. rewrite Hh, Hm1. cbn [fmap list_fmap].
  destruct (decide (q = p)) as [->|Hne].
  - rewrite lookup_insert_eq, (decide_True (P := p ∈ p :: _)) by (by left). cbn. rewrite Ha. cbn.
    rewrite aged_idem. by destruct (decide _).
  - rewrite lookup_insert_ne by done. destruct (decide (q ∈ l.*2)) as [Hin|Hin].
    + by rewrite decide_True by (by right).
    + rewrite decide_False; [done|]. by intros [?|?]%elem_of_cons.
Qed.

Lemma processExpired_eq now m :
  MoInv m → ∃ h, processExpiredAlerts now m = (mo_set_heap h m, Ret tt) ∧
    (∀ id p, mo_alerts m !! id = Some p → h !! p = aged (unix_u64 now) <$> mo_heap m !! p) ∧
    (∀ p, (∀ id, mo_alerts m !! id ≠ Some p) → h !! p = mo_heap m !! p).
Proof.
  intros HI. unfold processExpiredAlerts. erewrite M_bind_ret by done.
  destruct (expire_loop (unix_u64 now) (range_list 0 (mo_alerts m)) m) as (h & -> & Hh).
  { intros kp Hin%range_mem. destruct (mi_alerts _ HI _ _ Hin) as (a & Ha & _). by eexists. }
  exists h. split; [done|]. split.
  - intros id p Hid. rewrite Hh, decide_True; [done|]. apply list_elem_of_fmap.
    exists (id, p). split; [done|]. by apply range_mem.
  - intros p Hp. rewrite Hh, decide_False; [done|]. intros ([id q] & -> & Hin)%list_elem_of_fmap.
    apply range_mem in Hin. by eapply Hp.
Qed.

(** ** Queries *)

Definition mo_alert_at m (p : ptr) : Alert :=
  default (mkAlert "" "" "" "" 0 false 0 ∅ "" []) (mo_heap m !! p).
Definition mo_filed m : list ptr := (range_list 0 (mo_alerts m)).*2.

Lemma foldl_select {A B} (P : B → Prop) `{∀ b, Decision (P b)} (f : A → B) (g : list B → A → list B) l acc :
  (∀ acc a, g acc a = if decide (P (f a)) then acc ++ [f a] else acc) →
  foldl g acc l = acc ++ filter P (f <$> l).
Proof.
  intros Hg. revert acc. induction l as [|a l IH]; intros acc; [by rewrite app_nil_r|].
  cbn [foldl fmap list_fmap]. rewrite IH, Hg, filter_cons. destruct (decide (P (f a))); [|done].
  by rewrite <- app_assoc.
Qed.

Lemma mo_GetAlerts_eq sev res m :
  MoInv m → GetAlerts sev res m =
    (m, Ret (filter (λ p, matching sev res (mo_alert_at m p)) (mo_filed m))).
Proof.
  intros HI. unfold GetAlerts. erewrite M_bind_ret by done.
  rewrite (foldM_rep (λ l, l) (λ l kp,
    if decide (matching sev res (mo_alert_at m kp.2)) then l ++ [kp.2] else l)).
  - erewrite (foldl_select (λ p, matching sev res (mo_alert_at m p)) snd) by done. done.
  - intros l kp Hin%range_mem. destruct (mi_alerts _ HI _ _ Hin) as (a & Ha & _).
    rewrite (M_bind_ret _ _ m m a) by (unfold load_alert; by rewrite Ha).
    assert (mo_alert_at m kp.2 = a) as -> by (unfold mo_alert_at; by rewrite Ha).
    f_equal. f_equal. unfold matching.
    destruct (decide _) as [[Hs Hr]|Hn]; case_bool_decide as Hb.
    + destruct Hs; tauto.
    + by rewrite Hr, eqb_reflx.
    + done.
    + destruct (Bool.eqb (al_Resolved a) res) eqn:Er; [|done]. apply eqb_prop in Er. destruct Hn.
      split; [|done]. destruct (decide (sev = "")); [by left|right]. apply dec_stable. tauto.
Qed.

(** ** Every operation keeps the invariant *)

Inductive mo_step : Monitor R C → Monitor R C → Prop :=
  | mo_update now id latency m : mo_step m (RecordStateUpdate now id latency m).1
  | mo_request id amount m : mo_step m (RecordRebalancingRequest id amount m).1
  | mo_success id amount cost m : mo_step m (RecordRebalancingSuccess id amount cost m).1
  | mo_failure now1 now2 id amount err m :
      mo_step m (RecordRebalancingFailure now1 now2 id amount err m).1
  | mo_count n m : mo_step m (UpdatePoolStatesCount n m).1
  | mo_create now1 now2 ty sev msg meta m : mo_step m (CreateAlert now1 now2 ty sev msg meta m).1
  | mo_resolve now id m : mo_step m (ResolveAlert now id m).1
  | mo_uptime start now m : mo_step m (uptime_tick start now m).1
  | mo_expired now m : mo_step m (processExpiredAlerts now m).1
  | mo_performance_tick m : mo_step m (calculatePerformanceMetrics m).1.

Lemma mo_inv_same m m' :
  mo_alerts m' = mo_alerts m → mo_heap m' = mo_heap m → mo_next m' = mo_next m →
  MoInv m → MoInv m'.
Proof. intros E1 E2 E3 [H1 H2]. split; by rewrite ?E1, E2, ?E3. Qed.

(** A heap that only changes the contents of allocated alerts. *)
Lemma mo_inv_heap h m :
  (∀ p a, mo_heap m !! p = Some a → ∃ a', h !! p = Some a' ∧ al_ID a' = al_ID a) →
  (∀ p, is_Some (h !! p) → is_Some (mo_heap m !! p)) →
  MoInv m → MoInv (mo_set_heap h m).
Proof.
  intros Hsome Hdom [H1 H2]. split; cbn; [|auto].
  intros id p (a & Ha & <-)%H1. by apply Hsome in Ha.
Qed.

Lemma create_alerts now1 now2 ty sev msg meta m :
  mo_alerts (CreateAlert now1 now2 ty sev msg meta m).1 =
    <[alert_id ty now1 := mo_next m]> (mo_alerts m).
Proof. done. Qed.

Lemma create_heap now1 now2 ty sev msg meta m :
  mo_heap (CreateAlert now1 now2 ty sev msg meta m).1 =
    <[mo_next m := mkAlert (alert_id ty now1) ty sev msg (unix_u64 now2) false 0 meta "" []]>
      (mo_heap m).
Proof. done. Qed.

Lemma mo_inv_create now1 now2 ty sev msg meta m :
  MoInv m → MoInv (CreateAlert now1 now2 ty sev msg meta m).1.
Proof.
  intros [H1 H2]. split.
  - intros id p. rewrite create_alerts, create_heap. intros Hid.
    destruct (decide (id = alert_id ty now1)) as [->|Hne].
    + rewrite lookup_insert_eq in Hid. injection Hid as <-. rewrite lookup_insert_eq. by eexists.
    + rewrite lookup_insert_ne in Hid by done. destruct (H1 _ _ Hid) as (a & Ha & Hi).
      exists a. rewrite lookup_insert_ne; [done|]. intros E.
      apply (Pos.lt_irrefl p). rewrite <- E at 2. apply H2. by eexists.
  - intros p. rewrite create_heap. intros Hp.
    change (p < Pos.succ (mo_next m))%positive.
    destruct (decide (p = mo_next m)) as [E|Hne]; [lia|].
    rewrite lookup_insert_ne in Hp by done. apply H2 in Hp. lia.
Qed.

Lemma aged_ID now a : al_ID (aged now a) = al_ID a.
Proof. unfold aged. by destruct (expired now a). Qed.

Lemma mo_inv_expired now m : MoInv m → MoInv (processExpiredAlerts now m).1.
Proof.
  intros HI. destruct (processExpired_eq now m HI) as (h & -> & Hf & Hu). cbn [fst].
  assert (∀ p, h !! p = mo_heap m !! p ∨ h !! p = aged (unix_u64 now) <$> mo_heap m !! p) as Hh.
  { intros p. destruct (decide (Exists (λ kp, kp.2 = p) (map_to_list (mo_alerts m)))) as [He|He].
    - right. apply Exists_exists in He as ([id q] & Hin & <-). apply elem_of_map_to_list in Hin.
      by eapply Hf.
    - left. apply Hu. intros id Hid. apply He, Exists_exists. exists (id, p).
      split; [by apply elem_of_map_to_list|done]. }
  apply mo_inv_heap; [| |done].
  - intros p a Ha. destruct (Hh p) as [->| ->]; rewrite Ha; cbn; eexists; split; [done..|].
    apply aged_ID.
  - intros p Hp. destruct (Hh p) as [E|E]; rewrite E in Hp; [done|by apply fmap_is_Some in Hp].
Qed.

Lemma mo_inv_resolve now id m : MoInv m → MoInv (ResolveAlert now id m).1.
Proof.
  intros HI. unfold ResolveAlert. erewrite M_bind_ret by done.
  destruct (mo_alerts m !! id) as [p|] eqn:Ep; [|done].
  destruct (mi_alerts _ HI _ _ Ep) as (a & Ha & _).
  rewrite (M_bind_ret _ _ m m a) by (unfold load_alert; by rewrite Ha).
  apply mo_inv_heap; [| |done].
  - intros q b Hb. destruct (decide (q = p)) as [->|Hne].
    + rewrite lookup_insert_eq. eexists. split; [done|]. cbn. congruence.
    + rewrite lookup_insert_ne by done. by eexists.
  - intros q Hq. destruct (decide (q = p)) as [->|Hne]; [by eexists|].
    by rewrite lookup_insert_ne in Hq.
Qed.

Lemma mo_step_inv m m' : mo_step m m' → MoInv m → MoInv m'.
Proof.
  intros Hs HI. destruct Hs;
    [eapply mo_inv_same; [..|exact HI]; done| eapply mo_inv_same; [..|exact HI]; done
    |eapply mo_inv_same; [..|exact HI]; done| |eapply mo_inv_same; [..|exact HI]; done
    |by apply mo_inv_create|by apply mo_inv_resolve|eapply mo_inv_same; [..|exact HI]; done
    |by apply mo_inv_expired|eapply mo_inv_same; [..|exact HI]; done].
  unfold RecordRebalancingFailure. do 2 (erewrite M_bind_ret by done).
  erewrite M_bind_ret by done. cbn [fst].
  set (m1 := mo_set_performance _ (mo_set_registry _ m)).
  change (MoInv (CreateAlert now1 now2 "rebalancing_failure" "high"
    ("Rebalancing failed for pool " +:+ id +:+ ": " +:+ err)
    (<["poolID" := VString id]> (<["amount" := VString (big_String amount)]>
       {["error" := VString err]})) m1).1).
  apply mo_inv_create. by eapply mo_inv_same; [..|exact HI].
Qed.

Lemma mo_reachable_inv r r' m0 m : NewMonitor r = (r', Ret m0) → rtc mo_step m0 m → MoInv m.
Proof.
  intros Hn Hr. assert (MoInv m0) as HI.
  { assert (mo_alerts m0 = ∅ ∧ mo_heap m0 = ∅) as [E1 E2].
    { unfold NewMonitor in Hn. repeat apply M_bind_inv in Hn as (? & ? & ? & Hn). by injection Hn as <- <-. }
    split; rewrite ?E1, E2.
    - intros id p Hp. by rewrite lookup_empty in Hp.
    - intros p [? Hp]. by rewrite lookup_empty in Hp. }
  clear Hn. induction Hr; [done|]. apply IHHr. by eapply mo_step_inv.
Qed.
End monitor_props.

(** ** Claims *)

(** The monitor [NewMonitor] makes on an empty map registry. *)
Definition toy_monitor : Monitor (gmap string sample) string :=
  mkMonitor (mkCollectors "synchook_pool_states_total" "synchook_rebalancing_requests_total"
    "synchook_rebalancing_success_total" "synchook_rebalancing_failures_total"
    "synchook_state_update_latency_seconds" "synchook_operator_uptime_seconds") ∅ zero_performance
    (NewMonitor (R := gmap string sample) ∅).1 ∅ 1%positive [].

Lemma toy_monitor_new :
  NewMonitor (R := gmap string sample) ∅ = ((NewMonitor (R := gmap string sample) ∅).1, Ret toy_monitor).
Proof. reflexivity. Qed.

(** [C37] Expiry.  On every monitor the calls can reach, an expiry pass in any
    map order succeeds, keeps every alert filed, and resolves (at the time of
    the pass) exactly the unresolved ones that are more than 24 hours old or,
    because the age wraps, stamped after the pass's own clock reading; every
    other alert keeps its contents, and a second pass at the same time changes
    nothing. *)
Theorem processExpiredAlerts_resolves {R C} `{Prometheus R C} (RO : RangeOrder) r r' m0 m now :
  NewMonitor r = (r', Ret m0) → rtc mo_step m0 m → 0 ≤ now < 2 ^ 63 →
  ∃ m', processExpiredAlerts now m = (m', Ret tt) ∧ mo_alerts m' = mo_alerts m ∧
    (∀ id p a, mo_alerts m !! id = Some p → mo_heap m !! p = Some a →
      0 ≤ al_Timestamp a < 2 ^ 63 →
      (al_Resolved a = false ∧
         (24 * 60 * 60 < Unix now - al_Timestamp a ∨ Unix now < al_Timestamp a) ∧
         mo_heap m' !! p = Some (expire (Unix now) a)) ∨
      (¬ (al_Resolved a = false ∧
         (24 * 60 * 60 < Unix now - al_Timestamp a ∨ Unix now < al_Timestamp a)) ∧
         mo_heap m' !! p = Some a)) ∧
    (∃ m'', processExpiredAlerts now m' = (m'', Ret tt) ∧
      ∀ p, mo_heap m'' !! p = mo_heap m' !! p).
Proof.
  intros Hn Hr Hnow. pose proof (mo_reachable_inv _ _ _ _ Hn Hr) as HI.
  pose proof (mo_inv_expired now m HI) as HI'.
  destruct (processExpired_eq now m HI) as (h & E & Hf & Hu). rewrite E in HI'. cbn [fst] in HI'.
  assert (unix_u64 now = Unix now ∧ 0 ≤ Unix now < 2 ^ 63) as [Eu Hu64].
  { assert (0 ≤ Unix now < 2 ^ 63) as Hb.
    { unfold Unix, second. split; [apply Z.div_pos; lia|].
      apply Z.le_lt_trans with now; [apply Z.div_le_upper_bound; lia|lia]. }
    split; [|done]. unfold unix_u64, u64. apply Z.mod_small. lia. }
  rewrite Eu in Hf. exists (mo_set_heap h m). split; [done|]. split; [done|]. split.
  - intros id p a Hid Ha Hts. pose proof (Hf id p Hid) as Hp. rewrite Ha in Hp. cbn in Hp.
    change (mo_heap (mo_set_heap h m) !! p) with (h !! p). rewrite Hp. unfold aged.
    pose proof (expired_iff (Unix now) a Hu64 Hts) as He. destruct (expired (Unix now) a).
    + left. destruct He as [He _]. destruct (He eq_refl). auto.
    + right. split; [|done]. intros Hc. by apply He in Hc.
  - destruct (processExpired_eq now (mo_set_heap h m) HI') as (h2 & E2 & Hf2 & Hu2).
    exists (mo_set_heap h2 (mo_set_heap h m)). split; [done|]. intros p.
    change (h2 !! p = h !! p).
    destruct (decide (Exists (λ kp, kp.2 = p) (map_to_list (mo_alerts m)))) as [He|He].
    + apply Exists_exists in He as ([id q] & Hin & <-). apply elem_of_map_to_list in Hin.
      rewrite Eu in Hf2. cbn [snd]. rewrite (Hf2 id q Hin). cbn [mo_heap mo_set_heap].
      rewrite (Hf id q Hin). destruct (mo_heap m !! q); [|done]. cbn. by rewrite aged_idem.
    + apply Hu2. intros id Hid. apply He, Exists_exists. exists (id, p).
      split; [by apply elem_of_map_to_list|done].
Qed.

(** An alert stamped one second ahead of the pass is resolved at once. *)
Lemma processExpiredAlerts_resolves_witness :
  let m := (CreateAlert 0 (101 * second) "a" "high" "m" ∅ toy_monitor).1 in
  ∃ m' a, @processExpiredAlerts _ _ forward_order (100 * second) m = (m', Ret tt) ∧
    mo_heap m !! 1%positive = Some a ∧ al_Resolved a = false ∧
    mo_heap m' !! 1%positive = Some (expire 100 a).
Proof.
  intros m.
  destruct (processExpiredAlerts_resolves forward_order _ _ toy_monitor m (100 * second)
    toy_monitor_new) as (m' & E & _ & Ha & _); [apply rtc_once, mo_create|by vm_compute|].
  exists m'. eexists. split; [exact E|]. split; [reflexivity|]. split; [reflexivity|].
  destruct (Ha "a_0" 1%positive _ eq_refl eq_refl) as [(_ & _ & Hp)|[Hn _]];
    [vm_compute; split; congruence|exact Hp|].
  destruct Hn. split; [reflexivity|]. right. reflexivity.
Defined.

(** The health report.  On every monitor the calls can reach the health
    check succeeds and changes nothing; it reports the performance counters,
    the number of unresolved alerts, of which the critical ones are a part,
    and the status: healthy exactly when the last state update is at most five
    minutes old.  A monitor without any state update is unhealthy from the
    start. *)
Theorem HealthCheck_reports {R C} `{Prometheus R C} (RO : RangeOrder) r r' m0 m now :
  NewMonitor r = (r', Ret m0) → rtc mo_step m0 m →
  ∃ health n k, HealthCheck now m = (m, Ret health) ∧
    health !! "activeAlerts" = Some (VInt (Z.of_nat n)) ∧
    n = length (filter (λ p, al_Resolved (mo_alert_at m p) = false) (mo_filed m)) ∧
    health !! "criticalAlerts" = Some (VInt (Z.of_nat k)) ∧ (k ≤ n)%nat ∧
    health !! "stateUpdates" = Some (VInt (pf_StateUpdates (mo_performance m))) ∧
    health !! "failedOps" = Some (VInt (pf_FailedOps (mo_performance m))) ∧
    health !! "status" = Some (VString
      (if bool_decide (now - pf_LastUpdate (mo_performance m) ≤ 5 * 60 * second)
       then "healthy" else "unhealthy")) ∧
    (pf_LastUpdate (mo_performance m) = zero_time → 0 ≤ now →
      health !! "status" = Some (VString "unhealthy")).
Proof.
  intros Hn Hr. pose proof (mo_reachable_inv _ _ _ _ Hn Hr) as HI.
  unfold HealthCheck. erewrite M_bind_ret by done.
  erewrite M_bind_ret by by apply mo_GetAlerts_eq. erewrite M_bind_ret by by apply mo_GetAlerts_eq.
  eexists _, _, _. split; [reflexivity|].
  set (d := time_sub now (pf_LastUpdate (mo_performance m))).
  assert (bool_decide (5 * 60 * second < d) =
    negb (bool_decide (now - pf_LastUpdate (mo_performance m) ≤ 5 * 60 * second))) as ->.
  { unfold d, time_sub. do 2 case_bool_decide; try done; unfold second in *; lia. }
  assert (∀ b : bool, ∀ k (h : gmap string value) v1 v2, k ∉ ["reason"; "status"] →
    (if b then <["reason" := v1]> (<["status" := v2]> h) else h) !! k = h !! k) as Hother.
  { intros [] k h v1 v2 Hk; [|done]. rewrite !lookup_insert_ne; [done|..];
      intros <-; apply Hk; rewrite !elem_of_cons; tauto. }
  rewrite !Hother by (refine (bool_decide_eq_true_1 _ _); vm_compute; reflexivity).
  split; [reflexivity|]. split; [|split; [reflexivity|split; [|split; [reflexivity|]]]].
  - f_equal. apply list_filter_iff. intros p. unfold matching. tauto.
  - induction (mo_filed m) as [|p ps IH]; [done|]. rewrite !filter_cons. case_decide as H1.
    + rewrite decide_True; [cbn [length]; lia|]. split; [by left|apply H1].
    + case_decide; cbn [length]; lia.
  - split; [reflexivity|].
    assert (∀ b : bool, ∀ (h : gmap string value), h !! "status" = Some (VString "healthy") →
      (if negb b then <["reason" := VString "No updates in 5 minutes"]>
         (<["status" := VString "unhealthy"]> h) else h) !! "status" =
      Some (VString (if b then "healthy" else "unhealthy"))) as Hst.
    { intros [] h Hh; [exact Hh|]. cbn [negb].
      by rewrite lookup_insert_ne, lookup_insert_eq by done. }
    split; [by apply Hst|]. intros Hz Hnow. rewrite Hst by reflexivity.
    rewrite bool_decide_false; [done|]. rewrite Hz. unfold zero_time, second. lia.
Qed.

Lemma HealthCheck_reports_witness :
  ∃ health, @HealthCheck _ _ forward_order (1700000000 * second) toy_monitor = (toy_monitor, Ret health) ∧
    health !! "status" = Some (VString "unhealthy") ∧ health !! "activeAlerts" = Some (VInt 0).
Proof.
  destruct (HealthCheck_reports forward_order _ _ toy_monitor toy_monitor (1700000000 * second)
    toy_monitor_new (rtc_refl _ _)) as (health & n & k & E & Hn & Hc & _ & _ & _ & _ & _ & Hs).
  exists health. split; [exact E|]. split; [apply Hs; [reflexivity|vm_compute; discriminate]|].
  rewrite Hn, Hc. vm_compute. reflexivity.
Defined.
