(* ===== verification/MonitorRaces.v ===== *)
(** * The monitor's performance counters under concurrent calls

    The Prometheus collectors are atomic, but the monitor's own counters are
    plain fields no mutex guards: [m.performance.RebalancingOps++] reads the
    field and writes it back, and another goroutine can do the same in between. *)

From S2P Require Import Prelude Float64 BigInt Alerts Prometheus Metrics Loops Monitor Programs.

Section requests.
Context {R C : Type} `{PrometheusLaws R C}.
Abbreviation Mon := (Monitor R C).
Implicit Types m : Mon.

Definition read_ops : M Mon Z := λ m, (m, Ret (pf_RebalancingOps (mo_performance m))).
Definition write_ops (n : Z) : M Mon unit :=
  on_performance (λ p, pf_set_ops n (pf_SuccessfulOps p) (pf_FailedOps p) p).

Definition go_increment_ops : prog Mon unit :=
  n ← call read_ops;
  call (write_ops (i64 (n + 1))).

Definition go_RecordRebalancingRequest (poolID : string) (amount : bigint) : prog Mon unit :=
  call (on_registry (λ c, Inc (mc_rebalancingRequests c)));;
  go_increment_ops.

(** Alone, it is the method. *)
Lemma run_RecordRebalancingRequest poolID amount m :
  run (go_RecordRebalancingRequest poolID amount) m = RecordRebalancingRequest poolID amount m.
Proof.
  unfold go_RecordRebalancingRequest, go_increment_ops, RecordRebalancingRequest.
  rewrite run_bind. apply M_bind_congr; [apply run_call|]. intros m' _. rewrite run_bind.
  erewrite M_bind_ret by by rewrite run_call. by rewrite run_call.
Qed.

(** ** Where a call is *)

Inductive stage : Type :=
  | Called
  | Counting
  | HasRead (n : Z)
  | Written.

Definition prog_at (st : stage) : prog Mon unit :=
  match st with
  | Called => go_RecordRebalancingRequest "" (NewInt 0)
  | Counting => go_increment_ops
  | HasRead n => call (write_ops (i64 (n + 1)))
  | Written => mret tt
  end.

Definition stage_next (st : stage) (m : Mon) : option (Mon * stage) :=
  match st with
  | Called => Some ((on_registry (λ c, Inc (mc_rebalancingRequests c)) m).1, Counting)
  | Counting => Some (m, HasRead (pf_RebalancingOps (mo_performance m)))
  | HasRead n => Some ((write_ops (i64 (n + 1)) m).1, Written)
  | Written => None
  end.

Lemma prog_at_next st m : prog_next (prog_at st) m = prod_map id prog_at <$> stage_next st m.
Proof. by destruct st. Qed.

Abbreviation stages_step := (stages_step stage_next).

(** ** What cannot be lost *)

Definition ops m : Z := pf_RebalancingOps (mo_performance m).
Definition counted (st : stage) : Z := match st with Called => 0 | _ => 1 end.
Definition written (st : stage) : Z := match st with Written => 1 | _ => 0 end.

(** Every value read is a value the counter had, and no write takes it further
    than one per write. *)
Definition race_ok (m0 : Mon) (c0 : Z) (a : Mon * list stage) : Prop :=
  let '(m, sts) := a in
  mo_collectors m = mo_collectors m0 ∧
  collector_name (mc_rebalancingRequests (mo_collectors m0)) ∈ registered (mo_registry m) ∧
  sample_of (mo_registry m) (mc_rebalancingRequests (mo_collectors m0)) =
    Counted (c0 + Zsum counted sts) ∧
  ops m0 ≤ ops m ≤ ops m0 + Zsum written sts ∧ (0 < Zsum written sts → ops m0 < ops m) ∧
  ∀ n, HasRead n ∈ sts → ops m0 ≤ n ≤ ops m0 + Zsum written sts.

Lemma Zsum_written_le sts : 0 ≤ Zsum written sts ≤ Z.of_nat (length sts).
Proof.
  split; [apply Zsum_nonneg; by intros []|]. rewrite <- (Z.mul_1_l (Z.of_nat _)), <- (Zsum_const 1 sts).
  apply Zsum_le. by intros [].
Qed.

Lemma stages_step_ok m0 c0 a b :
  0 ≤ ops m0 → ops m0 + Z.of_nat (length a.2) < 2 ^ 63 →
  stages_step a b → race_ok m0 c0 a → race_ok m0 c0 b ∧ length b.2 = length a.2.
Proof.
  intros Hz Hn Hs. destruct Hs as [m sts i st m' st' Hi Hnx].
  intros (Hc & Hreg & Hsam & Hops & Hpos & Hread). cbn [snd] in *.
  pose proof (Zsum_written_le sts) as Hw. split; [|apply length_insert].
  assert (∀ n, HasRead n ∈ <[i := st']> sts → HasRead n = st' ∨ HasRead n ∈ sts) as Hin.
  { intros n Hel. apply list_elem_of_lookup in Hel as [j Hj].
    apply list_lookup_insert_Some in Hj as [(_ & <- & _)|[_ Hj]]; [by left|right].
    by eapply list_elem_of_lookup_2. }
  unfold race_ok, ops in *. rewrite !(Zsum_insert _ _ _ _ _ Hi).
  destruct st as [| |n|]; cbn in Hnx; simplify_eq; cbn [counted written].
  - cbn. rewrite Hc. split_and!; [done|by rewrite inc_registered| |lia|lia|lia|].
    + rewrite (inc_sample _ _ (c0 + Zsum counted sts)) by done. f_equal. lia.
    + intros n Hel. destruct (Hin n Hel) as [|Hel']; [done|]. specialize (Hread n Hel'). lia.
  - rewrite Z.sub_0_r, Z.add_0_r. split_and!; [done|done| |lia|lia|lia|].
    + rewrite Hsam. f_equal. lia.
    + intros n Hel. destruct (Hin n Hel) as [[= ->]|Hel']; [lia|]. specialize (Hread n Hel'). lia.
  - assert (HasRead n ∈ sts) as Hel by (by eapply list_elem_of_lookup_2).
    specialize (Hread n Hel) as Hn'. pose proof (Zsum_written_le (<[i := Written]> sts)) as Hw'.
    rewrite (Zsum_insert _ _ _ _ _ Hi), length_insert in Hw'. cbn [written] in Hw'.
    assert (i64 (n + 1) = n + 1) as Ho by (apply i64_id; unfold is_i64; lia).
    cbn. rewrite Ho. split_and!; [done|done| |lia|lia|lia|].
    + rewrite Hsam. f_equal. lia.
    + intros n1 Hel1. destruct (Hin n1 Hel1) as [|Hel']; [done|]. specialize (Hread n1 Hel'). lia.
Qed.

Lemma stages_ok m0 c0 a b :
  0 ≤ ops m0 → ops m0 + Z.of_nat (length a.2) < 2 ^ 63 →
  rtc stages_step a b → race_ok m0 c0 a → race_ok m0 c0 b ∧ length b.2 = length a.2.
Proof.
  intros Hz Hn Hr. induction Hr as [a|a b c Hs _ IH]; intros Ha; [done|].
  destruct (stages_step_ok m0 c0 a b Hz Hn Hs Ha) as [Hb Hl]. rewrite <- Hl. apply IH; [|done]. by rewrite Hl.
Qed.
(** ** What can be lost *)

(** [n] goroutines read the counter before any of them writes it. *)
Lemma all_read n m pre rest :
  ∃ m', rtc stages_step (m, pre ++ replicate n Called ++ rest)
          (m', pre ++ replicate n (HasRead (ops m)) ++ rest) ∧ ops m' = ops m.
Proof.
  revert m pre. induction n as [|n IH]; intros m pre; [by exists m|]. cbn [replicate app].
  destruct (IH (on_registry (λ c, Inc (mc_rebalancingRequests c)) m).1 (pre ++ [HasRead (ops m)]))
    as (m' & Hr & Ho).
  exists m'. split; [|done]. rewrite <- !app_assoc in Hr. cbn [app] in Hr.
  eapply rtc_l; [by eapply one_step|]. eapply rtc_l; [by eapply one_step|]. exact Hr.
Qed.

(** They write the same value. *)
Lemma all_write n v m pre rest :
  ∃ m', rtc stages_step (m, pre ++ replicate n (HasRead v) ++ rest)
          (m', pre ++ replicate n Written ++ rest) ∧
    ops m' = match n with O => ops m | S _ => i64 (v + 1) end.
Proof.
  revert m pre. induction n as [|n IH]; intros m pre; [by exists m|]. cbn [replicate app].
  destruct (IH (write_ops (i64 (v + 1)) m).1 (pre ++ [Written])) as (m' & Hr & Ho).
  exists m'. rewrite <- !app_assoc in Hr. cbn [app] in Hr.
  split; [eapply rtc_l; [by eapply one_step|exact Hr]|]. by rewrite Ho; destruct n.
Qed.

(** [n] goroutines one after the other. *)
Lemma one_by_one n m pre rest :
  0 ≤ ops m → ops m + Z.of_nat n < 2 ^ 63 →
  ∃ m', rtc stages_step (m, pre ++ replicate n Called ++ rest)
          (m', pre ++ replicate n Written ++ rest) ∧ ops m' = ops m + Z.of_nat n.
Proof.
  revert m pre. induction n as [|n IH]; intros m pre H0' Hn; [exists m; split; [done|lia]|].
  destruct (all_read 1 m pre (replicate n Called ++ rest)) as (m1 & Hr1 & Ho1).
  destruct (all_write 1 (ops m) m1 pre (replicate n Called ++ rest)) as (m2 & Hr2 & Ho2).
  rewrite i64_id in Ho2 by (unfold is_i64; lia).
  destruct (IH m2 (pre ++ [Written])) as (m3 & Hr3 & Ho3); [lia..|].
  exists m3. rewrite <- !app_assoc in Hr3. cbn [replicate app] in *.
  split; [by etrans; [exact Hr1|]; etrans|lia].
Qed.

Lemma some_lost n k m :
  (0 < k ≤ n)%nat → 0 ≤ ops m → ops m + Z.of_nat n < 2 ^ 63 →
  ∃ m', rtc stages_step (m, replicate n Called) (m', replicate n Written) ∧ ops m' = ops m + Z.of_nat k.
Proof.
  intros Hk Hz Hn. destruct (all_read (S (n - k)) m [] (replicate (k - 1) Called)) as (m1 & Hr1 & Ho1).
  destruct (all_write (S (n - k)) (ops m) m1 [] (replicate (k - 1) Called)) as (m2 & Hr2 & Ho2).
  rewrite i64_id in Ho2 by (unfold is_i64; lia).
  destruct (one_by_one (k - 1) m2 (replicate (S (n - k)) Written) []) as (m3 & Hr3 & Ho3); [lia..|].
  exists m3. rewrite !app_nil_r in Hr3. cbn [app] in Hr1, Hr2.
  assert (∀ st : stage, replicate n st = replicate (S (n - k)) st ++ replicate (k - 1) st) as Hrep.
  { intros st. rewrite <- replicate_add. f_equal. lia. }
  rewrite !Hrep.
  split; [by etrans; [exact Hr1|]; etrans|lia].
Qed.
End requests.

(** [C20] The monitor's counters lose updates.  When [n] goroutines each record a
    rebalancing request, whatever the order of their calls, the Prometheus
    counter of requests goes up by exactly [n]; the monitor's own
    [RebalancingOps], which [HealthCheck] reports, goes up by at least one and
    at most [n], and by each of these in some order. *)
Theorem lost_updates {R C} `{PrometheusLaws R C} (m : Monitor R C) c0 (requests : list (string * bigint)) :
  let c := mc_rebalancingRequests (mo_collectors m) in
  let goroutines := (λ r, go_RecordRebalancingRequest r.1 r.2) <$> requests in
  let n := Z.of_nat (length requests) in
  collector_name c ∈ registered (mo_registry m) → sample_of (mo_registry m) c = Counted c0 →
  requests ≠ [] → 0 ≤ ops m → ops m + n < 2 ^ 63 →
  (∀ m', rtc interleave (m, goroutines) (m', replicate (length requests) (mret tt)) →
     sample_of (mo_registry m') c = Counted (c0 + n) ∧ ops m + 1 ≤ ops m' ≤ ops m + n) ∧
  (∀ k, 1 ≤ k ≤ n → ∃ m',
     rtc interleave (m, goroutines) (m', replicate (length requests) (mret tt)) ∧ ops m' = ops m + k).
Proof.
  intros c goroutines n Hreg Hsam Hne Hz Hn.
  assert (goroutines = prog_at <$> replicate (length requests) Called) as ->.
  { unfold goroutines. clear. induction requests as [|r l IH]; [done|]. cbn. by f_equal. }
  assert (Forall (λ st, st = Called) (replicate (length requests) Called)) as Hall by by apply Forall_replicate.
  split.
  - intros m' Hr. apply (interleave_stages _ _ prog_at_next) in Hr as (sts & Hps & Hr).
    assert (sts = replicate (length requests) Written) as ->.
    { clear -Hps. revert sts Hps. induction (length requests) as [|j IH]; intros [|st sts] Hps; try done.
      injection Hps as Hst Hps. cbn [replicate]. f_equal; [by destruct st|by apply IH]. }
    apply (stages_ok m c0) in Hr as [(Hc & _ & Hs & Ho & Hp & _) _]; [|done| |].
    + rewrite (Zsum_ext _ (λ _, 1)) in Hs by by intros st [-> _]%elem_of_replicate.
      rewrite (Zsum_ext written (λ _, 1)) in Ho, Hp by by intros st [-> _]%elem_of_replicate.
      rewrite Zsum_const, length_replicate in Hs, Ho, Hp.
      assert (0 < n) by (unfold n; destruct requests; [done|cbn; lia]).
      split; [unfold c; rewrite Hs; f_equal; lia|lia].
    + cbn. by rewrite length_replicate.
    + assert (Zsum counted (replicate (length requests) Called) = 0 ∧
        Zsum written (replicate (length requests) Called) = 0) as [E1 E2].
      { split; rewrite (Zsum_ext _ (λ _, 0)) by (by intros st [-> _]%elem_of_replicate); by rewrite Zsum_const. }
      unfold race_ok. rewrite E1, E2. split_and!; [done|done|by rewrite Z.add_0_r|lia..|].
      intros v [? _]%elem_of_replicate. done.
  - intros k Hk. destruct (some_lost (length requests) (Z.to_nat k) m) as (m' & Hr & Ho); [lia|done|done|].
    exists m'. apply (stages_interleave _ _ prog_at_next) in Hr. cbn [fst snd] in Hr. rewrite !fmap_replicate in Hr.
    rewrite fmap_replicate. split; [exact Hr|]. rewrite Ho. lia.
Qed.

(** Three requests on a new monitor: at once, they may count as one. *)
Lemma lost_updates_witness :
  ∃ m : Monitor (gmap string sample) string, (NewMonitor ∅).2 = Ret m ∧
    (∃ m', rtc interleave (m, replicate 3 (go_RecordRebalancingRequest "pool" (NewInt 5)))
             (m', replicate 3 (mret tt)) ∧ pf_RebalancingOps (mo_performance m') = 1) ∧
    (∀ m', rtc interleave (m, replicate 3 (go_RecordRebalancingRequest "pool" (NewInt 5)))
             (m', replicate 3 (mret tt)) →
       sample_of (mo_registry m') "synchook_rebalancing_requests_total" = Counted 3).
Proof.
  assert (match (@NewMonitor (gmap string sample) string _ ∅).2 with
    | Ret m =>
        let c := mc_rebalancingRequests (mo_collectors m) in
        bool_decide (c = "synchook_rebalancing_requests_total") &&
        bool_decide (is_Some (mo_registry m !! c)) && bool_decide (ops m = 0) &&
        match sample_of (mo_registry m) c with Counted z => bool_decide (z = 0) | _ => false end
    | _ => false
    end = true) as E by (vm_compute; reflexivity).
  destruct (@NewMonitor (gmap string sample) string _ ∅).2 as [m|e|q]; [|done..].
  apply andb_true_iff in E as [[[Hc Hr]%andb_true_iff Ho]%andb_true_iff Hs].
  apply bool_decide_eq_true in Hc, Hr, Ho.
  assert (sample_of (mo_registry m) (mc_rebalancingRequests (mo_collectors m)) = Counted 0) as Hs'.
  { destruct (sample_of _ _) as [z|?|?]; [|done..]. by apply bool_decide_eq_true in Hs as ->. }
  assert (collector_name (mc_rebalancingRequests (mo_collectors m)) ∈ registered (mo_registry m)) as Hr'
    by by apply elem_of_dom.
  exists m. split; [done|].
  destruct (lost_updates m 0 (replicate 3 ("pool", NewInt 5)) Hr' Hs') as [Hall Hsome]; [done|lia|cbn; lia|].
  split.
  - destruct (Hsome 1) as (m' & Hm & Hk); [cbn; lia|]. exists m'. split; [exact Hm|]. unfold ops in *. lia.
  - intros m' Hm. destruct (Hall m' Hm) as [H3 _]. rewrite Hc in H3. exact H3.
Defined.
