(* ===== verification/AlertRaces.v ===== *)
(** * The alert manager under concurrent calls ([pkg/monitoring/alerts.go])

    [Alerts] takes an operation as one step.  Here operations are programs: a
    goroutine loses the processor between the locked section of [CreateAlert]
    and its send, and between a receive and each call of a handler.
    [ResolveAlert] sends under the lock, and [cleanupOldAlerts] is one locked
    section: each is one call. *)

From S2P Require Import Prelude Float64 Alerts AlertsProps Programs.

Abbreviation goroutine_of A := (prog AlertManager A).

(** ** The operations as programs *)

Definition file_alert (alertID : string) (p : ptr) : M AlertManager unit :=
  modify (λ am, am_set_alerts (<[alertID := p]> (am_alerts am)) am).
Definition queue_alert (p : ptr) : M AlertManager unit :=
  modify (λ am, am_set_alertChan (try_send p (am_alertChan am)) am).

Definition go_CreateAlert (now1 now2 : time) (alertType severity message source : string)
    (metadata : gmap string value) (tags : list string) : goroutine_of string :=
  let alertID := alert_id alertType now1 in
  alert ← call (new_alert (mkAlert alertID alertType severity message (unix_u64 now2) false 0
                             metadata source tags));
  call (file_alert alertID alert);;
  call (queue_alert alert);;
  mret alertID.

Definition receive_alert : M AlertManager (option ptr) :=
  am ← get;
  match am_alertChan am with
  | [] => mret None
  | p :: rest => modify (am_set_alertChan rest);; mret (Some p)
  end.

Definition receive_resolve : M AlertManager (option string) :=
  am ← get;
  match am_resolveChan am with
  | [] => mret None
  | alertID :: rest => modify (am_set_resolveChan rest);; mret (Some alertID)
  end.

(** The handlers of the loop are those at its start; each is called with what the
    alert is by then. *)
Fixpoint go_call_handlers (m : nat → AlertHandler → M AlertManager unit) (i : nat)
    (handlers : list AlertHandler) : goroutine_of unit :=
  match handlers with
  | [] => mret tt
  | h :: handlers => go_try (call (m i h));; go_call_handlers m (S i) handlers
  end.

Definition announce (p : ptr) (i : nat) (h : AlertHandler) : M AlertManager unit :=
  alert ← load_alert p;
  modify (am_log (CallAlert i alert));;
  lift (HandleAlert h alert).

Definition tell (alertID : string) (i : nat) (h : AlertHandler) : M AlertManager unit :=
  modify (am_log (CallResolved i alertID));;
  lift (HandleAlertResolved h alertID).

(** The loop comes after the fields of the alert are read for the log. *)
Definition begin_alert (p : ptr) : M AlertManager (list AlertHandler) :=
  load_alert p;; am ← get; mret (am_handlers am).
Definition begin_resolved : M AlertManager (list AlertHandler) :=
  am ← get; mret (am_handlers am).

Definition go_handleAlert (p : ptr) : goroutine_of unit :=
  handlers ← call (begin_alert p);
  go_call_handlers (announce p) 0 handlers.

Definition go_handleAlertResolved (alertID : string) : goroutine_of unit :=
  handlers ← call begin_resolved;
  go_call_handlers (tell alertID) 0 handlers.

Definition go_process_one (c : choice) : goroutine_of unit :=
  match c with
  | FromAlerts =>
      p ← call receive_alert;
      match p with None => mret tt | Some p => go_handleAlert p end
  | FromResolves =>
      alertID ← call receive_resolve;
      match alertID with None => mret tt | Some alertID => go_handleAlertResolved alertID end
  end.

(** What a goroutine does with the manager, one operation after the other: a
    caller creates and resolves, [processAlerts] takes from its channels,
    [cleanupAlerts] cleans up. *)
Inductive operation : Type :=
  | Create (now1 now2 : time) (alertType severity message source : string)
      (metadata : gmap string value) (tags : list string)
  | Resolve (now : time) (alertID : string)
  | Clean (R : RangeOrder) (now : time)
  | Process (c : choice).

Definition go_operation (op : operation) : goroutine_of unit :=
  match op with
  | Create now1 now2 alertType severity message source metadata tags =>
      go_CreateAlert now1 now2 alertType severity message source metadata tags;; mret tt
  | Resolve now alertID => go_try (call (ResolveAlert now alertID));; mret tt
  | Clean R now => call (cleanupOldAlerts now)
  | Process c => go_process_one c
  end.

Fixpoint go_operations (l : list operation) : goroutine_of unit :=
  match l with
  | [] => mret tt
  | op :: l => go_operation op;; go_operations l
  end.

(** Alone, a program is its operation. *)
Lemma run_CreateAlert now1 now2 ty sev msg src meta tags am :
  run (go_CreateAlert now1 now2 ty sev msg src meta tags) am =
    CreateAlert now1 now2 ty sev msg src meta tags am.
Proof. done. Qed.

Lemma run_call_handlers (mk : nat → Alerts.call) (f : AlertHandler → res unit)
    (m : nat → AlertHandler → M AlertManager unit) (same : AlertManager → Prop) i hs am :
  (∀ i h am, same am → m i h am = (modify (am_log (mk i));; lift (f h)) am ∧ same (am_log (mk i) am)) →
  same am → run (go_call_handlers m i hs) am = call_handlers mk f i hs am.
Proof.
  intros Hm. revert i am. induction hs as [|h hs IH]; intros i am Ha; [done|].
  cbn [go_call_handlers call_handlers]. rewrite run_bind. unfold mbind, M_bind.
  rewrite run_try. destruct (Hm i h am Ha) as [Em Ha']. unfold try at 1. rewrite run_call, Em.
  unfold mbind, M_bind, modify, try, lift. destruct (f h); [by apply IH..|done].
Qed.

Lemma receive_alert_eq am :
  receive_alert am = match am_alertChan am with
                     | [] => (am, Ret None)
                     | p :: rest => (am_set_alertChan rest am, Ret (Some p))
                     end.
Proof. unfold receive_alert. erewrite M_bind_ret by done. by destruct (am_alertChan am). Qed.

Lemma receive_resolve_eq am :
  receive_resolve am = match am_resolveChan am with
                       | [] => (am, Ret None)
                       | alertID :: rest => (am_set_resolveChan rest am, Ret (Some alertID))
                       end.
Proof. unfold receive_resolve. erewrite M_bind_ret by done. by destruct (am_resolveChan am). Qed.

Lemma run_process_one c am : AmInv am → run (go_process_one c) am = process_one c am.
Proof.
  intros HI. unfold process_one. erewrite M_bind_ret by done. destruct c; cbn [go_process_one]; rewrite run_bind.
  - pose proof (receive_alert_eq am) as E. pose proof (ai_chan _ HI) as Hin.
    destruct (am_alertChan am) as [|p rest];
      (erewrite M_bind_ret by (rewrite run_call; exact E)); [done|].
    erewrite M_bind_ret by done. destruct (Hin p) as [a Ha]; [by left|].
    unfold go_handleAlert, handleAlert. rewrite run_bind.
    assert (load_alert p (am_set_alertChan rest am) = (am_set_alertChan rest am, Ret a)) as El
      by (unfold load_alert; cbn; by rewrite Ha).
    rewrite (M_bind_ret _ _ _ _ _ El).
    erewrite M_bind_ret by (rewrite run_call; unfold begin_alert; by rewrite (M_bind_ret _ _ _ _ _ El)).
    erewrite M_bind_ret by done. apply (run_call_handlers _ _ _ (λ am, am_heap am !! p = Some a)); [|done].
    intros i h am' Ha'. split; [|done]. unfold announce. by erewrite M_bind_ret by (unfold load_alert; by rewrite Ha').
  - pose proof (receive_resolve_eq am) as E.
    destruct (am_resolveChan am) as [|id rest];
      (erewrite M_bind_ret by (rewrite run_call; exact E)); [done|].
    erewrite M_bind_ret by done. unfold go_handleAlertResolved, handleAlertResolved. rewrite run_bind.
    erewrite M_bind_ret by (by rewrite run_call). erewrite M_bind_ret by done.
    by apply (run_call_handlers _ _ _ (λ _, True)).
Qed.

(** ** Where a goroutine is *)

Inductive stage : Type :=
  | At (l : list operation)
  | Filing (alertID : string) (p : ptr) (l : list operation)
  | Queueing (alertID : string) (p : ptr) (l : list operation)
  | Received (p : ptr) (l : list operation)
  | Announcing (p : ptr) (i : nat) (handlers : list AlertHandler) (l : list operation)
  | ToTell (alertID : string) (l : list operation)
  | Telling (alertID : string) (i : nat) (handlers : list AlertHandler) (l : list operation).

Definition prog_at (st : stage) : goroutine_of unit :=
  match st with
  | At l => go_operations l
  | Filing alertID p l =>
      ((call (file_alert alertID p);; call (queue_alert p);; mret alertID);; mret tt);; go_operations l
  | Queueing alertID p l => ((call (queue_alert p);; mret alertID);; mret tt);; go_operations l
  | Received p l => go_handleAlert p;; go_operations l
  | Announcing p i handlers l => go_call_handlers (announce p) i handlers;; go_operations l
  | ToTell alertID l => go_handleAlertResolved alertID;; go_operations l
  | Telling alertID i handlers l => go_call_handlers (tell alertID) i handlers;; go_operations l
  end.

(** The state a call leaves and the place after it. *)
Definition after {X} (m : M AlertManager X) (next : X → stage) (am : AlertManager)
    : option (AlertManager * stage) :=
  match m am with
  | (am', Ret x) => Some (am', next x)
  | _ => None
  end.

Definition operation_next (op : operation) (l : list operation)
    : AlertManager → option (AlertManager * stage) :=
  match op with
  | Create now1 now2 ty severity message source metadata tags =>
      after (new_alert (mkAlert (alert_id ty now1) ty severity message (unix_u64 now2) false 0
                          metadata source tags)) (λ p, Filing (alert_id ty now1) p l)
  | Resolve now alertID => after (try (ResolveAlert now alertID)) (λ _, At l)
  | Clean R now => after (cleanupOldAlerts now) (λ _, At l)
  | Process FromAlerts =>
      after receive_alert (λ p, match p with None => At l | Some p => Received p l end)
  | Process FromResolves =>
      after receive_resolve (λ id, match id with None => At l | Some id => ToTell id l end)
  end.

Definition operations_next (l : list operation) (am : AlertManager)
    : option (AlertManager * stage) :=
  match l with
  | [] => None
  | op :: l => operation_next op l am
  end.

Definition stage_next (st : stage) : AlertManager → option (AlertManager * stage) :=
  match st with
  | At l | Announcing _ _ [] l | Telling _ _ [] l => operations_next l
  | Filing alertID p l => after (file_alert alertID p) (λ _, Queueing alertID p l)
  | Queueing alertID p l => after (queue_alert p) (λ _, At l)
  | Received p l => after (begin_alert p) (λ handlers, Announcing p 0 handlers l)
  | Announcing p i (h :: handlers) l =>
      after (try (announce p i h)) (λ _, Announcing p (S i) handlers l)
  | ToTell alertID l => after begin_resolved (λ handlers, Telling alertID 0 handlers l)
  | Telling alertID i (h :: handlers) l =>
      after (try (tell alertID i h)) (λ _, Telling alertID (S i) handlers l)
  end.

(** A cleanup has no error to return. *)
Lemma cleanup_no_error `{RangeOrder} now am e : (cleanupOldAlerts now am).2 ≠ Err e.
Proof.
  unfold cleanupOldAlerts. erewrite M_bind_ret by done. unfold mbind at 1, M_bind at 1.
  assert (∀ (f : list string → string * ptr → Alert → list string) kps l am e,
    (foldM (λ l kp, alert ← load_alert kp.2; mret (f l kp alert)) l kps am).2 ≠ Err e) as Hno.
  { clear. intros f kps. induction kps as [|kp kps IH]; intros l am e; [done|]. cbn [foldM].
    unfold mbind, M_bind, load_alert. destruct (am_heap am !! kp.2); [apply IH|done]. }
  match goal with |- context [foldM ?g [] ?kps am] =>
    pose proof (Hno (λ l kp alert, if al_Resolved alert && bool_decide (al_ResolvedAt alert <
      u64_sub (unix_u64 now) (7 * 24 * 60 * 60)) then l ++ [kp.1] else l) kps [] am e) as Hn;
    change (λ _ _, _) with g in Hn; destruct (foldM g [] kps am) as [am' [l|e'|q]] end;
    [by rewrite foldM_delete| |done].
  intros [= ->]. by apply Hn.
Qed.

Lemma operation_at_next op l am :
  prog_next (go_operation op;; go_operations l) am = prod_map id prog_at <$> operation_next op l am.
Proof.
  destruct op as [| | |[|]].
  - done.
  - cbn. unfold after, try. by destruct (ResolveAlert now alertID am) as [am' [[]|e|q]].
  - cbn. unfold after, try. pose proof (cleanup_no_error now am) as Hno.
    by destruct (cleanupOldAlerts now am) as [am' [[]|e|q]]; [|destruct (Hno e)|].
  - cbn. unfold after, try. rewrite receive_alert_eq. by destruct (am_alertChan am).
  - cbn. unfold after, try. rewrite receive_resolve_eq. by destruct (am_resolveChan am).
Qed.

Lemma manager_prog_next st am : prog_next (prog_at st) am = prod_map id prog_at <$> stage_next st am.
Proof.
  assert (∀ l, prog_next (go_operations l) am = prod_map id prog_at <$> operations_next l am) as Hops.
  { intros [|op l]; [done|]. apply operation_at_next. }
  assert (∀ m i (h : AlertHandler) hs l, prog_next (go_call_handlers m i (h :: hs);; go_operations l) am =
    match try (m i h) am with
    | (am', Ret _) => Some (am', go_call_handlers m (S i) hs;; go_operations l)
    | _ => None
    end) as Hcall.
  { intros. cbn. unfold try. by destruct (m i h am) as [am' [[]|e|q]]. }
  destruct st as [l|id p l|id p l|p l|p i [|h hs] l|id l|id i [|h hs] l]; cbn [stage_next].
  - apply Hops.
  - done.
  - done.
  - assert (∀ e, (begin_alert p am).2 ≠ Err e) as Hno.
    { intros e. unfold begin_alert, load_alert, mbind, M_bind. by destruct (am_heap am !! p). }
    cbn. unfold after, try. by destruct (begin_alert p am) as [am' [hs|e|q]]; [|destruct (Hno e)|].
  - apply Hops.
  - unfold prog_at at 1. rewrite Hcall. unfold after. by destruct (try _ am) as [am' [x|e|q]].
  - done.
  - apply Hops.
  - unfold prog_at at 1. rewrite Hcall. unfold after. by destruct (try _ am) as [am' [x|e|q]].
Qed.

(** ** Accounts *)

Definition one_if (P : Prop) `{Decision P} : Z := if decide P then 1 else 0.

Definition msum (f : Alert → Z) (m : gmap ptr Alert) : Z := Zsum (λ kp, f kp.2) (map_to_list m).

Lemma msum_empty f : msum f ∅ = 0.
Proof. unfold msum. by rewrite map_to_list_empty. Qed.

Lemma msum_new f m k v : m !! k = None → msum f (<[k := v]> m) = f v + msum f m.
Proof. intros Hk. unfold msum. by rewrite map_to_list_insert. Qed.

Lemma msum_set f m k v w : m !! k = Some w → msum f (<[k := v]> m) = msum f m - f w + f v.
Proof.
  intros Hk. assert (delete k m !! k = None) as Hd by apply lookup_delete_eq.
  pose proof (msum_new f (delete k m) k v Hd) as E1. pose proof (msum_new f (delete k m) k w Hd) as E2.
  rewrite insert_delete_eq in E1. rewrite insert_delete_id in E2 by done. lia.
Qed.

Lemma Zsum_app {A} (f : A → Z) l1 l2 : Zsum f (l1 ++ l2) = Zsum f l1 + Zsum f l2.
Proof. induction l1 as [|a l1 IH]; [done|]. cbn [app]. rewrite !Zsum_cons, IH. lia. Qed.

Lemma Zsum_singleton {A} (f : A → Z) a : Zsum f [a] = f a.
Proof. cbn. lia. Qed.

(** How many alerts are called [id], and how many of them are resolved. *)
Definition alerts_named (id : string) (am : AlertManager) : Z := msum (λ a, one_if (al_ID a = id)) (am_heap am).
Definition resolved_named (id : string) (am : AlertManager) : Z :=
  msum (λ a, one_if (al_ID a = id ∧ al_Resolved a = true)) (am_heap am).

(** How often the [i]-th handler has been called for them. *)
Definition announced (i : nat) (id : string) (am : AlertManager) : Z :=
  Zsum (λ c, match c with CallAlert j a => one_if (j = i ∧ al_ID a = id) | _ => 0 end) (am_calls am).
Definition told (i : nat) (id : string) (am : AlertManager) : Z :=
  Zsum (λ c, match c with CallResolved j id' => one_if (j = i ∧ id' = id) | _ => 0 end) (am_calls am).

(** What is under way: in a channel, or in a goroutine. *)
Definition names (am : AlertManager) (id : string) (p : ptr) : Z :=
  one_if (al_ID <$> am_heap am !! p = Some id).

Definition announcing (am : AlertManager) (i : nat) (id : string) (st : stage) : Z :=
  match st with
  | Filing _ p _ | Queueing _ p _ | Received p _ => names am id p
  | Announcing p j _ _ => if decide (j ≤ i)%nat then names am id p else 0
  | _ => 0
  end.

Definition telling (i : nat) (id : string) (st : stage) : Z :=
  match st with
  | ToTell id' _ => one_if (id' = id)
  | Telling id' j _ _ => if decide (j ≤ i)%nat then one_if (id' = id) else 0
  | _ => 0
  end.

(** Sends and creations to come. *)
Definition creations (l : list operation) : Z :=
  Zsum (λ op, match op with Create _ _ _ _ _ _ _ _ => 1 | _ => 0 end) l.

Definition rest (st : stage) : list operation :=
  match st with
  | At l | Filing _ _ l | Queueing _ _ l | Received _ l | Announcing _ _ _ l | ToTell _ l
  | Telling _ _ _ l => l
  end.

Definition to_create (st : stage) : Z := creations (rest st).
Definition to_send (st : stage) : Z :=
  to_create st + match st with Filing _ _ _ | Queueing _ _ _ => 1 | _ => 0 end.

Definition unresolved (am : AlertManager) : Z :=
  msum (λ a, one_if (al_Resolved a = false)) (am_heap am).
Definition queued {A} (c : list A) : Z := Z.of_nat (length c).

(** What a goroutine holds is allocated, and it has the handlers left to call. *)
Definition stage_ok (am : AlertManager) (st : stage) : Prop :=
  match st with
  | At _ | ToTell _ _ => True
  | Filing id p _ => ∃ a, am_heap am !! p = Some a ∧ al_ID a = id
  | Queueing _ p _ | Received p _ => is_Some (am_heap am !! p)
  | Announcing p i hs _ => is_Some (am_heap am !! p) ∧ hs = drop i (am_handlers am)
  | Telling _ i hs _ => hs = drop i (am_handlers am)
  end.

(** What a goroutine at [st] and the manager owe a handler, less the alerts
    there are: nothing, unless an alert was dropped. *)
Definition balance (am : AlertManager) (i : nat) (id : string) (st : stage) : Z :=
  Zsum (names am id) (am_alertChan am) + announcing am i id st + announced i id am -
  alerts_named id am.
Definition rbalance (am : AlertManager) (i : nat) (id : string) (st : stage) : Z :=
  Zsum (λ id', one_if (id' = id)) (am_resolveChan am) + telling i id st + told i id am -
  resolved_named id am.

Definition sends (am : AlertManager) (st : stage) : Z := queued (am_alertChan am) + to_send st.
Definition rsends (am : AlertManager) (st : stage) : Z :=
  queued (am_resolveChan am) + unresolved am + to_create st.

(** A step of one goroutine. *)
Record fair (am : AlertManager) (st : stage) (am' : AlertManager) (st' : stage) : Prop := {
  fr_inv : AmInv am';
  fr_handlers : am_handlers am' = am_handlers am;
  fr_ids p : is_Some (am_heap am !! p) → al_ID <$> am_heap am' !! p = al_ID <$> am_heap am !! p;
  fr_ok : stage_ok am' st';
  fr_sends : sends am' st' ≤ sends am st;
  fr_rsends : rsends am' st' ≤ rsends am st;
  fr_balance i id : (i < length (am_handlers am))%nat →
    balance am' i id st' ≤ balance am i id st ∧
    (sends am st ≤ Z.of_nat chan_cap → balance am' i id st' = balance am i id st);
  fr_rbalance i id : (i < length (am_handlers am))%nat →
    rbalance am' i id st' ≤ rbalance am i id st ∧
    (rsends am st ≤ Z.of_nat chan_cap → rbalance am' i id st' = rbalance am i id st);
}.

Lemma creations_nonneg l : 0 ≤ creations l.
Proof. apply Zsum_nonneg. by intros []. Qed.

Lemma msum_nonneg f m : (∀ a, 0 ≤ f a) → 0 ≤ msum f m.
Proof. intros Hf. apply Zsum_nonneg. intros kp _. apply Hf. Qed.

Lemma one_if_nonneg (P : Prop) `{Decision P} : 0 ≤ one_if P.
Proof. unfold one_if. case_decide; lia. Qed.

Lemma announcing_nonneg am i id st : 0 ≤ announcing am i id st.
Proof. destruct st; cbn; try case_decide; try apply one_if_nonneg; lia. Qed.

Lemma telling_nonneg i id st : 0 ≤ telling i id st.
Proof. destruct st; cbn; try case_decide; try apply one_if_nonneg; lia. Qed.

(** Names last. *)
Lemma names_kept am am' id l :
  (∀ p, is_Some (am_heap am !! p) → al_ID <$> am_heap am' !! p = al_ID <$> am_heap am !! p) →
  (∀ p, p ∈ l → is_Some (am_heap am !! p)) → Zsum (names am' id) l = Zsum (names am id) l.
Proof. intros Hids Hl. apply Zsum_ext. intros p Hp%Hl. unfold names. by rewrite Hids. Qed.

Lemma announcing_kept am am' i id st :
  (∀ p, is_Some (am_heap am !! p) → al_ID <$> am_heap am' !! p = al_ID <$> am_heap am !! p) →
  stage_ok am st → announcing am' i id st = announcing am i id st.
Proof.
  intros Hids. destruct st as [l|n p l|n p l|p l|p j hs l|n l|n j hs l]; cbn; try done; unfold names.
  - intros (a & Ha & _). rewrite Hids; [done|by eexists].
  - intros Hp. by rewrite Hids.
  - intros Hp. by rewrite Hids.
  - intros [Hp _]. by rewrite Hids.
Qed.

Lemma stage_ok_kept am am' st :
  am_handlers am' = am_handlers am →
  (∀ p, is_Some (am_heap am !! p) → al_ID <$> am_heap am' !! p = al_ID <$> am_heap am !! p) →
  stage_ok am st → stage_ok am' st.
Proof.
  intros Hh Hids.
  assert (∀ p, is_Some (am_heap am !! p) → is_Some (am_heap am' !! p)) as Hsome.
  { intros p Hp. pose proof (Hids p Hp) as E. destruct Hp as [a Ha]. rewrite Ha in E.
    destruct (am_heap am' !! p); [by eexists|done]. }
  destruct st as [l|n p l|n p l|p l|p j hs l|n l|n j hs l]; cbn; rewrite ?Hh; auto.
  - intros (a & Ha & Hid). specialize (Hids p ltac:(by eexists)). rewrite Ha in Hids.
    destruct (am_heap am' !! p) as [b|]; [|done]. injection Hids as E. exists b. split; [done|congruence].
  - intros [Hp ->]. auto.
Qed.

(** Steps that leave the heap alone. *)
Lemma same_heap am am' : am_heap am' = am_heap am →
  ∀ p, is_Some (am_heap am !! p) → al_ID <$> am_heap am' !! p = al_ID <$> am_heap am !! p.
Proof. by intros ->. Qed.

Ltac count := unfold one_if; repeat case_decide; first [lia | exfalso; intuition congruence].

#[local] Arguments Zsum : simpl never.
#[local] Arguments msum : simpl never.
#[local] Arguments one_if : simpl never.

Section steps.
Implicit Types (am : AlertManager) (l : list operation).

Lemma new_alert_inv a am : AmInv am → AmInv (new_alert a am).1.
Proof.
  intros HI. pose proof (fresh_ne am) as Hf. destruct HI as [H1 H2 H3 H4] eqn:E. split; cbn; [| | |done].
  - intros id p Hp. destruct (H1 _ _ Hp) as (b & Hb & Hi). exists b. rewrite lookup_insert_ne; [done|].
    apply not_eq_sym, Hf; [done|by eexists].
  - intros p Hp%H2. rewrite lookup_insert_ne; [done|]. by apply not_eq_sym, Hf.
  - intros p. destruct (decide (p = am_next am)) as [->|Hne]; [lia|].
    rewrite lookup_insert_ne by done. intros ?%H3. lia.
Qed.

Lemma fair_create now1 now2 ty sev msg src meta tags l am am' st' :
  AmInv am → operation_next (Create now1 now2 ty sev msg src meta tags) l am = Some (am', st') →
  fair am (At (Create now1 now2 ty sev msg src meta tags :: l)) am' st'.
Proof.
  intros HI. cbn. unfold after. set (a := mkAlert _ _ _ _ _ _ _ _ _ _).
  destruct (new_alert a am) as [am1 [p|e|q]] eqn:En; [|done..]. intros [= <- <-].
  pose proof (new_alert_inv a am HI) as HI'. rewrite En in HI'. cbn in HI'. injection En as <- <-.
  assert (am_heap am !! am_next am = None) as Hnone.
  { destruct (am_heap am !! am_next am) eqn:Ea; [|done].
    by destruct (fresh_ne am (am_next am) HI ltac:(by eexists)). }
  assert (∀ p, is_Some (am_heap am !! p) →
    al_ID <$> <[am_next am := a]> (am_heap am) !! p = al_ID <$> am_heap am !! p) as Hids.
  { intros p Hp. rewrite lookup_insert_ne; [done|]. by apply not_eq_sym, (fresh_ne am). }
  split; [done|done|exact Hids| | | | |].
  - exists a. cbn. by rewrite lookup_insert_eq.
  - unfold sends, to_send, to_create, creations, queued. cbn. rewrite Zsum_cons. lia.
  - unfold rsends, unresolved, to_create, creations, queued. cbn. rewrite Zsum_cons, msum_new by done.
    change (one_if (al_Resolved a = false)) with 1. lia.
  - intros i id _. unfold balance. rewrite (names_kept am) by (first [exact Hids|apply (ai_chan _ HI)]).
    unfold announcing, alerts_named, announced. cbn. unfold names at 2 5. cbn.
    rewrite lookup_insert_eq, msum_new by done.
    assert (one_if (al_ID <$> Some a = Some id) = one_if (al_ID a = id)) as -> by (cbn; count). lia.
  - intros i id _. unfold rbalance, telling, resolved_named, told. cbn. rewrite msum_new by done.
    assert (one_if (al_ID a = id ∧ al_Resolved a = true) = 0) as -> by (cbn; count). lia.
Qed.

(** Only the channel of the resolutions and the alert resolved change. *)
Lemma fair_resolve now id0 l am am' st' :
  AmInv am → operation_next (Resolve now id0) l am = Some (am', st') →
  fair am (At (Resolve now id0 :: l)) am' st'.
Proof.
  intros HI. cbn. unfold after, try. destruct (resolve_step now id0 am HI) as [HI' _]. cbn [operate] in HI'.
  assert (fair am (At (Resolve now id0 :: l)) am (At l)) as Hsame.
  { split; [done..| | |]; try done. all: unfold sends, rsends, to_send, to_create, creations; cbn; rewrite ?Zsum_cons; lia. }
  destruct (am_alerts am !! id0) as [p|] eqn:Hid.
  2:{ unfold ResolveAlert. erewrite M_bind_ret by done. rewrite Hid. by intros [= <- <-]. }
  destruct (ai_alerts _ HI _ _ Hid) as (a & Ha & Hn). rewrite (resolve_eq now id0 p a am Hid Ha) in *.
  destruct (al_Resolved a) eqn:Hr; intros [= <- <-]; [done|]. cbn [fst] in HI'.
  assert (∀ q, is_Some (am_heap am !! q) →
    al_ID <$> <[p := resolve now a]> (am_heap am) !! q = al_ID <$> am_heap am !! q) as Hids.
  { intros q Hq. destruct (decide (q = p)) as [->|Hne]; [by rewrite lookup_insert_eq, Ha|by rewrite lookup_insert_ne]. }
  assert (∀ f, msum f (<[p := resolve now a]> (am_heap am)) = msum f (am_heap am) - f a + f (resolve now a)) as Hsum
    by (intros f; by apply msum_set).
  split; [done|done|exact Hids|done| | | |].
  - unfold sends, to_send, to_create, creations. cbn. rewrite Zsum_cons. lia.
  - unfold rsends, unresolved, to_create, creations, queued. cbn. rewrite Zsum_cons, Hsum. cbn. rewrite Hr.
    change (one_if (false = false)) with 1. change (one_if (true = false)) with 0.
    unfold try_send. case_bool_decide; rewrite ?length_app; cbn; lia.
  - intros i id _. unfold balance. rewrite (names_kept am) by (first [exact Hids|apply (ai_chan _ HI)]).
    unfold announcing, alerts_named, announced. cbn. rewrite Hsum. cbn. lia.
  - intros i id _. unfold rbalance, telling, resolved_named, told. cbn. rewrite Hsum. cbn. rewrite Hr, Hn.
    assert (one_if (id0 = id ∧ false = true) = 0) as -> by count.
    assert (one_if (id0 = id ∧ true = true) = one_if (id0 = id)) as -> by count.
    assert (0 ≤ unresolved am - 1) as Hu.
    { unfold unresolved. rewrite <- (insert_id _ _ _ Ha), (msum_set _ _ _ _ a Ha).
      pose proof (msum_set (λ a, one_if (al_Resolved a = false)) _ p (resolve now a) a Ha) as E. cbn in E.
      rewrite Hr in E. change (one_if (false = false)) with 1 in E. change (one_if (true = false)) with 0 in E.
      pose proof (msum_nonneg (λ a, one_if (al_Resolved a = false)) (<[p:=resolve now a]> (am_heap am))
        (λ a, one_if_nonneg _)). lia. }
    pose proof (creations_nonneg l) as Hl. pose proof (one_if_nonneg (id0 = id)).
    unfold try_send. case_bool_decide as Hc; [rewrite Zsum_app, Zsum_singleton; lia|].
    split; [lia|]. unfold rsends, to_create, creations, queued in *. cbn. rewrite Zsum_cons. lia.
Qed.

Ltac unfold_accounts :=
  unfold balance, rbalance, sends, rsends, announcing, telling, announced, told, alerts_named,
    resolved_named, unresolved, to_send, to_create, creations, queued, names; cbn.

(** Steps that only change the map, or nothing of the accounts. *)
Lemma fair_clean (R : RangeOrder) now l am am' st' :
  AmInv am → operation_next (Clean R now) l am = Some (am', st') →
  fair am (At (Clean R now :: l)) am' st'.
Proof.
  intros HI. cbn. unfold after. destruct (cleanup_step R now am HI) as [HI' _]. cbn [operate] in HI'.
  destruct (cleanup_eq now am HI) as (m & E & _). rewrite E in *. intros [= <- <-].
  split; [done..| | | |]; unfold_accounts; rewrite ?Zsum_cons; try lia; intros; split; lia.
Qed.

Lemma fair_process c l am am' st' :
  AmInv am → operation_next (Process c) l am = Some (am', st') →
  fair am (At (Process c :: l)) am' st'.
Proof.
  intros HI. destruct c; cbn; unfold after; rewrite ?receive_alert_eq, ?receive_resolve_eq.
  - destruct (am_alertChan am) as [|p rest] eqn:Hc; intros [= <- <-].
    { split; [done..| | | |]; unfold_accounts; rewrite ?Zsum_cons; try lia; intros; split; lia. }
    assert (∀ q, q ∈ p :: rest → is_Some (am_heap am !! q)) as Hin by (rewrite <- Hc; apply (ai_chan _ HI)).
    split; [|done|done| | | | |].
    + destruct HI as [H1 H2 H3 [H4 H5]]. split; [done| |done|].
      * intros q Hq. apply Hin. by right.
      * split; [|done]. rewrite Hc in H4. cbn in *. lia.
    + apply Hin. by left.
    + unfold_accounts. rewrite Hc, Zsum_cons. cbn. lia.
    + unfold_accounts. rewrite Zsum_cons. lia.
    + intros i id _. unfold_accounts. rewrite Hc, Zsum_cons. split; lia.
    + intros i id _. unfold_accounts. split; lia.
  - destruct (am_resolveChan am) as [|id0 rest] eqn:Hc; intros [= <- <-].
    { split; [done..| | | |]; unfold_accounts; rewrite ?Zsum_cons; try lia; intros; split; lia. }
    split; [|done|done|done| | | |].
    + destruct HI as [H1 H2 H3 [H4 H5]]. split; [done..|]. split; [done|]. rewrite Hc in H5. cbn in *. lia.
    + unfold_accounts. rewrite Zsum_cons. lia.
    + unfold_accounts. rewrite Hc, Zsum_cons. cbn. lia.
    + intros i id _. unfold_accounts. split; lia.
    + intros i id _. unfold_accounts. rewrite Hc, Zsum_cons. split; lia.
Qed.

Lemma fair_operations l am am' st' :
  AmInv am → operations_next l am = Some (am', st') → fair am (At l) am' st'.
Proof.
  intros HI. destruct l as [|op l]; [done|]. destruct op.
  - by apply fair_create.
  - by apply fair_resolve.
  - by apply fair_clean.
  - by apply fair_process.
Qed.

(** Between two operations, wherever the last one ended. *)
Lemma fair_from st l am am' st' :
  rest st = l → to_send st = to_create st →
  (∀ i id, (i < length (am_handlers am))%nat → announcing am i id st = 0 ∧ telling i id st = 0) →
  fair am (At l) am' st' → fair am st am' st'.
Proof.
  intros <- Hs Hz [F1 F2 F3 F4 F5 F6 F7 F8].
  assert (sends am st = sends am (At (rest st))) as Es.
  { unfold sends. rewrite Hs. unfold to_send, to_create. cbn. lia. }
  assert (rsends am st = rsends am (At (rest st))) as Er by done.
  split; [done..|by rewrite Es|by rewrite Er| |].
  - intros i id Hi. destruct (Hz i id Hi) as [Ha _].
    assert (balance am i id st = balance am i id (At (rest st))) as -> by (unfold balance; rewrite Ha; done).
    rewrite Es. by apply F7.
  - intros i id Hi. destruct (Hz i id Hi) as [_ Ht].
    assert (rbalance am i id st = rbalance am i id (At (rest st))) as -> by (unfold rbalance; rewrite Ht; done).
    rewrite Er. by apply F8.
Qed.

Lemma fair_filing id0 p l am am' st' :
  AmInv am → stage_ok am (Filing id0 p l) → stage_next (Filing id0 p l) am = Some (am', st') →
  fair am (Filing id0 p l) am' st'.
Proof.
  intros HI (a & Ha & Hn) [= <- <-]. split; [|done|done|by eexists| | | |]; unfold_accounts; try lia; try (intros; split; lia).
  destruct HI as [H1 H2 H3 H4]. split; cbn; [|done..]. intros id q.
  destruct (decide (id0 = id)) as [->|Hne]; [rewrite lookup_insert_eq; intros [= <-]; by exists a|].
  rewrite lookup_insert_ne by done. apply H1.
Qed.

Lemma fair_queueing id0 p l am am' st' :
  AmInv am → stage_ok am (Queueing id0 p l) → stage_next (Queueing id0 p l) am = Some (am', st') →
  fair am (Queueing id0 p l) am' st'.
Proof.
  intros HI Hp [= <- <-]. cbn in Hp.
  pose proof (creations_nonneg l) as Hl. unfold creations in Hl.
  split; [|done|done|done| | | |]; unfold_accounts; try lia; try (intros; split; lia).
  - destruct HI as [H1 H2 H3 [H4 H5]]. split; cbn; [done| |done|by split; [apply try_send_bounded|]].
    intros q [->|?]%try_send_elem; auto.
  - unfold try_send. case_bool_decide; rewrite ?length_app; cbn; lia.
  - intros i id _. pose proof (one_if_nonneg (al_ID <$> am_heap am !! p = Some id)).
    unfold try_send. case_bool_decide; [rewrite Zsum_app, Zsum_singleton|]; split; lia.
Qed.

(** The calls of the handlers: a call moves from what is owed to the log. *)
Lemma fair_received p l am am' st' :
  AmInv am → stage_ok am (Received p l) → stage_next (Received p l) am = Some (am', st') →
  fair am (Received p l) am' st'.
Proof.
  intros HI [a Ha]. cbn. unfold after, begin_alert, load_alert, mbind, M_bind. rewrite Ha. intros [= <- <-].
  split; [done|done|done|split; [by eexists|done]| | | |]; unfold_accounts; try lia;
    intros; rewrite ?(decide_True (P := (0 ≤ _)%nat)) by lia; split; lia.
Qed.

Lemma fair_to_tell id0 l am am' st' :
  AmInv am → stage_next (ToTell id0 l) am = Some (am', st') → fair am (ToTell id0 l) am' st'.
Proof.
  intros HI [= <- <-]. split; [done..| | | |]; unfold_accounts; try lia;
    intros; rewrite ?(decide_True (P := (0 ≤ _)%nat)) by lia; split; lia.
Qed.

Lemma log_inv c am : AmInv am → AmInv (am_log c am).
Proof. by intros [H1 H2 H3 H4]. Qed.

Lemma owed_call i j (P : Prop) `{Decision P} x :
  x = one_if P →
  (if decide (S j ≤ i)%nat then x else 0) + one_if (j = i ∧ P) = if decide (j ≤ i)%nat then x else 0.
Proof.
  intros ->. unfold one_if. destruct (decide (j = i)) as [->|Hne].
  - rewrite (decide_False (P := (S i ≤ i)%nat)), (decide_True (P := (i ≤ i)%nat)) by lia.
    destruct (decide P); [rewrite decide_True by done|rewrite decide_False by tauto]; lia.
  - rewrite (decide_False (P := j = i ∧ P)) by tauto. repeat case_decide; lia.
Qed.

Lemma fair_announcing p j h hs l am am' st' :
  AmInv am → stage_ok am (Announcing p j (h :: hs) l) →
  stage_next (Announcing p j (h :: hs) l) am = Some (am', st') →
  fair am (Announcing p j (h :: hs) l) am' st'.
Proof.
  intros HI [[a Ha] Hhs] Hn.
  assert (am' = am_log (CallAlert j a) am ∧ st' = Announcing p (S j) hs l) as [-> ->].
  { cbn in Hn. unfold after, try, announce in Hn. erewrite M_bind_ret in Hn by (unfold load_alert; by rewrite Ha).
    unfold mbind, M_bind, modify, lift in Hn. by destruct (HandleAlert h a); simplify_eq. }
  assert (hs = drop (S j) (am_handlers am)) as Hhs'.
  { by rewrite <- Nat.add_1_r, <- drop_drop, <- Hhs. }
  split; [by apply log_inv|done|done|split; [by eexists|done]| | | |]; unfold_accounts; try lia; intros i id Hi;
    rewrite ?Zsum_app, ?Zsum_singleton, ?Ha; try (split; lia).
  assert (one_if (al_ID <$> Some a = Some id) = one_if (al_ID a = id)) as E by (cbn; count).
  pose proof (owed_call i j (al_ID a = id) _ E). split; lia.
Qed.

Lemma fair_telling id0 j h hs l am am' st' :
  AmInv am → stage_ok am (Telling id0 j (h :: hs) l) →
  stage_next (Telling id0 j (h :: hs) l) am = Some (am', st') →
  fair am (Telling id0 j (h :: hs) l) am' st'.
Proof.
  intros HI Hhs Hn. cbn in Hhs.
  assert (am' = am_log (CallResolved j id0) am ∧ st' = Telling id0 (S j) hs l) as [-> ->].
  { cbn in Hn. unfold after, try, tell, mbind, M_bind, modify, lift in Hn.
    by destruct (HandleAlertResolved h id0); simplify_eq. }
  assert (hs = drop (S j) (am_handlers am)) as Hhs'.
  { by rewrite <- Nat.add_1_r, <- drop_drop, <- Hhs. }
  split; [by apply log_inv|done..| | | |]; unfold_accounts; try lia; intros i id Hi;
    rewrite ?Zsum_app, ?Zsum_singleton; try (split; lia).
  pose proof (owed_call i j (id0 = id) _ eq_refl). split; lia.
Qed.

Lemma stage_fair st am am' st' :
  AmInv am → stage_ok am st → stage_next st am = Some (am', st') → fair am st am' st'.
Proof.
  intros HI Hok Hn.
  destruct st as [l|id p l|id p l|p l|p j [|h hs] l|id l|id j [|h hs] l].
  - by apply fair_operations.
  - by apply fair_filing.
  - by apply fair_queueing.
  - by apply fair_received.
  - destruct Hok as [_ Hd]. apply (fair_from _ l); [done|unfold to_send; lia| |by apply fair_operations].
    intros i id Hi. split; [|done]. cbn. rewrite decide_False; [done|]. symmetry in Hd. apply drop_nil_inv in Hd. lia.
  - by apply fair_announcing.
  - by apply fair_to_tell.
  - cbn in Hok. apply (fair_from _ l); [done|unfold to_send; lia| |by apply fair_operations].
    intros i id' Hi. split; [done|]. cbn. rewrite decide_False; [done|]. symmetry in Hok. apply drop_nil_inv in Hok. lia.
  - by apply fair_telling.
Qed.
End steps.

(** ** All goroutines together *)

Section totals.
Context (hs : list AlertHandler) (few : Prop).

Record accounted (a : AlertManager * list stage) : Prop := {
  ac_inv : AmInv a.1;
  ac_handlers : am_handlers a.1 = hs;
  ac_ok : ∀ st, st ∈ a.2 → stage_ok a.1 st;
  ac_sends : few → queued (am_alertChan a.1) + Zsum to_send a.2 ≤ Z.of_nat chan_cap;
  ac_rsends : few →
    queued (am_resolveChan a.1) + unresolved a.1 + Zsum to_create a.2 ≤ Z.of_nat chan_cap;
  ac_due i id : (i < length hs)%nat →
    let due := Zsum (names a.1 id) (am_alertChan a.1) + Zsum (announcing a.1 i id) a.2 + announced i id a.1 in
    due ≤ alerts_named id a.1 ∧ (few → due = alerts_named id a.1);
  ac_rdue i id : (i < length hs)%nat →
    let due := Zsum (λ id', one_if (id' = id)) (am_resolveChan a.1) + Zsum (telling i id) a.2 + told i id a.1 in
    due ≤ resolved_named id a.1 ∧ (few → due = resolved_named id a.1);
}.

Lemma Zsum_elem_le {A} (f : A → Z) l i x : (∀ x, 0 ≤ f x) → l !! i = Some x → f x ≤ Zsum f l.
Proof.
  intros Hf Hi. pose proof (Zsum_insert f l i x x Hi). revert i Hi H.
  induction l as [|y l IH]; intros [|i] Hi _; [done..| |]; rewrite Zsum_cons.
  - injection Hi as ->. pose proof (Zsum_nonneg f l (λ a _, Hf a)). lia.
  - specialize (IH i Hi). pose proof (Hf y). rewrite (Zsum_insert f l i x x Hi) in IH. lia.
Qed.

Lemma to_send_nonneg st : 0 ≤ to_send st.
Proof. pose proof (creations_nonneg (rest st)). unfold to_send, to_create. destruct st; lia. Qed.

Lemma accounted_step a b : stages_step stage_next a b → accounted a → accounted b.
Proof.
  intros Hs HA. destruct Hs as [am sts k st am' st' Hk Hn].
  destruct HA as [HI Hh Hok Hsd Hrs Hdue Hrdue]. cbn [fst snd] in *.
  pose proof (Hok st ltac:(by eapply list_elem_of_lookup_2)) as Hst.
  destruct (stage_fair st am am' st' HI Hst Hn) as [F1 F2 F3 F4 F5 F6 F7 F8]. rewrite Hh in *.
  pose proof (Zsum_elem_le to_send sts k st to_send_nonneg Hk) as Ls.
  pose proof (Zsum_elem_le to_create sts k st (λ st, creations_nonneg _) Hk) as Lc.
  split; cbn [fst snd]; rewrite ?(Zsum_insert _ _ _ _ _ Hk); unfold sends, rsends in *.
  - done.
  - done.
  - intros st1 [j Hj]%list_elem_of_lookup. apply list_lookup_insert_Some in Hj as [(_ & <- & _)|[_ Hj]]; [done|].
    apply (stage_ok_kept am); [by rewrite F2|done|]. apply Hok. by eapply list_elem_of_lookup_2.
  - intros Hf. specialize (Hsd Hf). lia.
  - intros Hf. specialize (Hrs Hf). lia.
  - intros i id Hi. specialize (Hdue i id Hi). destruct (F7 i id Hi) as [G1 G2]. unfold balance in *.
    rewrite (Zsum_insert _ _ _ _ _ Hk), (announcing_kept am am' i id st F3 Hst).
    rewrite (Zsum_ext (announcing am' i id) (announcing am i id)) by (intros; by apply announcing_kept, Hok).
    cbn zeta in *. destruct Hdue as [Hle Heq]. split; [lia|]. intros Hf. specialize (Heq Hf). specialize (Hsd Hf).
    specialize (G2 ltac:(lia)). lia.
  - intros i id Hi. specialize (Hrdue i id Hi). destruct (F8 i id Hi) as [G1 G2]. unfold rbalance in *.
    rewrite (Zsum_insert _ _ _ _ _ Hk). cbn zeta in *. destruct Hrdue as [Hle Heq].
    split; [lia|]. intros Hf. specialize (Heq Hf). specialize (Hrs Hf). specialize (G2 ltac:(lia)). lia.
Qed.

Lemma accounted_steps a b : rtc (stages_step stage_next) a b → accounted a → accounted b.
Proof. induction 1; [done|]. intros. by eauto using accounted_step. Qed.
End totals.

(** ** A manager and its goroutines *)

(** A new manager to which the handlers have been added. *)
Definition with_handlers (thresholds : AlertThresholds) (hs : list AlertHandler) : AlertManager :=
  (foldM (λ _ h, AddHandler h) tt hs (NewAlertManager thresholds)).1.

Lemma with_handlers_eq th hs : with_handlers th hs = mkAlertManager ∅ [] [] th hs ∅ 1%positive [].
Proof.
  unfold with_handlers, NewAlertManager. change hs with ([] ++ hs) at 2. generalize (@nil AlertHandler).
  induction hs as [|h hs IH]; intros l; [by rewrite app_nil_r|]. cbn [foldM].
  erewrite M_bind_ret by done. rewrite IH. by rewrite <- app_assoc.
Qed.

Lemma accounted_start th hs goroutines :
  accounted hs (Zsum creations goroutines ≤ Z.of_nat chan_cap) (with_handlers th hs, At <$> goroutines).
Proof.
  rewrite with_handlers_eq.
  assert (∀ f : stage → Z, (∀ l, f (At l) = 0) → Zsum f (At <$> goroutines) = 0) as Hz.
  { intros f Hf. rewrite Zsum_map, (Zsum_ext _ (λ _, 0)) by (intros; apply Hf). by rewrite Zsum_const. }
  assert (∀ f : stage → Z, (∀ l, f (At l) = creations l) →
    Zsum f (At <$> goroutines) = Zsum creations goroutines) as Hc.
  { intros f Hf. rewrite Zsum_map. apply Zsum_ext. intros. apply Hf. }
  split; cbn [fst snd].
  - split; cbn; [by intros|by intros ? ?%elem_of_nil|by intros p [? ?]|split; lia].
  - done.
  - by intros st (l & -> & _)%list_elem_of_fmap.
  - intros Hf. rewrite Hc by (intros; unfold to_send, to_create; cbn; lia). done.
  - intros Hf. rewrite Hc by done. unfold unresolved. cbn. by rewrite msum_empty.
  - intros i id _. rewrite Hz by done. unfold alerts_named. cbn. by rewrite msum_empty.
  - intros i id _. rewrite Hz by done. unfold resolved_named. cbn. by rewrite msum_empty.
Qed.

Lemma finished_owes am i id st :
  stage_ok am st → (i < length (am_handlers am))%nat → prog_at st = mret tt →
  announcing am i id st = 0 ∧ telling i id st = 0.
Proof.
  intros Hok Hi Hst.
  assert (∀ j, drop j (am_handlers am) = [] → ¬ (j ≤ i)%nat) as Hd by (intros j ?%drop_nil_inv; lia).
  destruct st as [l|n p l|n p l|p l|p j [|h hs] l|n l|n j [|h hs] l]; try done; cbn in *.
  - destruct Hok as [_ E]. by rewrite decide_False by by apply Hd.
  - by rewrite decide_False by by apply Hd.
Qed.

(** [C18] Delivery of alerts.  Let goroutines create and resolve alerts, clean up
    and take from the channels, their calls in any order.  No handler is ever
    called more often for the alerts of a name than there are such alerts, nor
    told more often of their resolution than some have been resolved.  As long
    as no more than 100 alerts are created nothing is dropped: once the
    goroutines are done and the channels empty, every handler has been called
    exactly once for each alert and each resolution. *)
Theorem alerts_delivered_once th hs (goroutines : list (list operation)) am ps :
  rtc interleave (with_handlers th hs, go_operations <$> goroutines) (am, ps) →
  (∀ i id, (i < length hs)%nat →
     announced i id am ≤ alerts_named id am ∧ told i id am ≤ resolved_named id am) ∧
  (Zsum creations goroutines ≤ 100 → am_alertChan am = [] → am_resolveChan am = [] →
   (∀ p, p ∈ ps → p = mret tt) →
   ∀ i id, (i < length hs)%nat →
     announced i id am = alerts_named id am ∧ told i id am = resolved_named id am).
Proof.
  intros Hr. assert (go_operations <$> goroutines = prog_at <$> (At <$> goroutines)) as E
    by (rewrite <- list_fmap_compose; done). rewrite E in Hr.
  apply (interleave_stages _ _ manager_prog_next) in Hr as (sts & -> & Hr).
  destruct (accounted_steps hs _ _ _ Hr (accounted_start th hs goroutines)) as [HI Hh Hok _ _ Hdue Hrdue].
  cbn [fst snd] in *.
  split.
  - intros i id Hi. destruct (Hdue i id Hi) as [Hle _]. destruct (Hrdue i id Hi) as [Hle' _]. cbn zeta in *.
    pose proof (Zsum_nonneg (names am id) (am_alertChan am) (λ p _, one_if_nonneg _)).
    pose proof (Zsum_nonneg (λ id', one_if (id' = id)) (am_resolveChan am) (λ p _, one_if_nonneg _)).
    pose proof (Zsum_nonneg (announcing am i id) sts (λ st _, announcing_nonneg _ _ _ st)).
    pose proof (Zsum_nonneg (telling i id) sts (λ st _, telling_nonneg _ _ st)). lia.
  - intros Hf Hc Hrc Hdone i id Hi. destruct (Hdue i id Hi) as [_ Heq]. destruct (Hrdue i id Hi) as [_ Heq'].
    specialize (Heq Hf). specialize (Heq' Hf). rewrite Hc in Heq. rewrite Hrc in Heq'. cbn zeta in *.
    assert (∀ st, st ∈ sts → announcing am i id st = 0 ∧ telling i id st = 0) as Hz.
    { intros st Hst. apply finished_owes; [by apply Hok|by rewrite Hh|]. apply Hdone, list_elem_of_fmap. by exists st. }
    rewrite (Zsum_ext (announcing am i id) (λ _, 0)) in Heq by (intros st Hst; by apply Hz).
    rewrite (Zsum_ext (telling i id) (λ _, 0)) in Heq' by (intros st Hst; by apply Hz).
    rewrite Zsum_const in Heq, Heq'. change (Zsum _ []) with 0 in Heq, Heq'. lia.
Qed.

(** An alert is resolved between the locked section and the send of its
    creation: the handler hears of the resolution first, and is then called for
    an alert that is resolved. *)
Definition resolved_first : list nat := [0; 0; 1; 2; 2; 2; 0; 2; 2; 2]%nat.
Definition three_goroutines : list (list operation) :=
  [[Create 0 0 "a" "low" "m" "s" ∅ []]; [Resolve second "a_0"]; [Process FromResolves; Process FromAlerts]].

Lemma alerts_delivered_once_witness :
  let hs := [mkAlertHandler (λ _, Ret tt) (λ _, Err "unreachable")] in
  ∃ am ps, take_turns resolved_first (with_handlers GetDefaultThresholds hs, go_operations <$> three_goroutines)
      = Some (am, ps) ∧
    ((λ c, match c with CallAlert _ a => al_Resolved a | CallResolved _ _ => false end) <$> am_calls am
       = [false; true]) ∧
    announced 0 "a_0" am = alerts_named "a_0" am ∧ told 0 "a_0" am = resolved_named "a_0" am.
Proof.
  intros hs.
  assert (match take_turns resolved_first (with_handlers GetDefaultThresholds hs, go_operations <$> three_goroutines) with
    | Some (am, [Finish (Ret tt); Finish (Ret tt); Finish (Ret tt)]) =>
        bool_decide ((λ c, match c with CallAlert _ a => al_Resolved a | CallResolved _ _ => false end) <$> am_calls am
          = [false; true]) && bool_decide (am_alertChan am = []) && bool_decide (am_resolveChan am = [])
    | _ => false
    end = true) as E by (vm_compute; reflexivity).
  destruct (take_turns _ _) as [[am ps]|] eqn:Ht; [|done]. exists am, ps. split; [done|].
  destruct ps as [|[[[]|?|?]|] [|[[[]|?|?]|] [|[[[]|?|?]|] [|? ?]]]]; try done.
  apply andb_true_iff in E as [[E1 E2]%andb_true_iff E3]. apply bool_decide_eq_true in E1, E2, E3.
  split; [done|]. apply take_turns_interleave in Ht.
  destruct (alerts_delivered_once _ _ _ _ _ Ht) as [_ Hd]. apply Hd; [|done|done| |cbn; lia].
  - unfold Zsum, creations. cbn. done.
  - intros p Hp. repeat (apply elem_of_cons in Hp as [->|Hp]; [done|]). by apply elem_of_nil in Hp.
Defined.
