(* ===== verification/GoEthereum.v ===== *)
(** * What the clients rely on in [go-ethereum/common]

    [common.Address] and [common.Hash] are byte arrays of 20 and 32 bytes,
    compared with [==].  The conversions from and to hexadecimal text belong to
    the library and are parameters. *)

From S2P Require Import Prelude.

Abbreviation Address := (list Z).
Abbreviation Hash := (list Z).

(** [common.Address{}] *)
Definition zero_address : Address := replicate 20 0.

Class Common := {
  HexToAddress : string → Address;
  HexToHash : string → Hash;
  Address_Hex : Address → string;
  Hash_Hex : Hash → string;
}.

(** An instance for concrete runs: the bytes of the text, padded or cropped on
    the left. *)
Definition left_pad (n : nat) (l : list Z) : list Z :=
  drop (length l) (replicate n 0 ++ l).
Definition text_bytes (s : string) : list Z :=
  (λ c, Z.of_N (Ascii.N_of_ascii c)) <$> String.list_ascii_of_string s.

Definition text_common : Common := {|
  HexToAddress s := left_pad 20 (text_bytes s);
  HexToHash s := left_pad 32 (text_bytes s);
  Address_Hex a := String.concat "," (pretty <$> a);
  Hash_Hex h := String.concat "," (pretty <$> h);
|}.
