(* ===== verification/ChainClient.v ===== *)
(** * [pkg/blockchain/client.go]: the chain client interface and its generic client

    Every call answers with fixed data; [now1] and [now2] are readings of the
    clock in source order. *)

From S2P Require Import Prelude BigInt GoEthereum.

(** ** Data *)

Record PoolState := mkPoolState {
  cp_PoolID : Hash;
  cp_TotalLiquidity : bigint;
  cp_Price : bigint;
  cp_Volume24h : bigint;
  cp_Fees24h : bigint;
  cp_Timestamp : Z;
  cp_BlockNumber : Z;
}.

Record Transaction := mkTransaction {
  tx_To : Address;
  tx_Value : bigint;
  tx_Data : list Z;
  tx_GasLimit : Z;
  tx_GasPrice : bigint;
  tx_Nonce : Z;
}.

Record Log := mkLog {
  lg_Address : Address;
  lg_Topics : list Hash;
  lg_Data : list Z;
}.

Record TransactionReceipt := mkTransactionReceipt {
  tr_TxHash : Hash;
  tr_BlockNumber : Z;
  tr_Status : Z;
  tr_GasUsed : Z;
  tr_Logs : list Log;
}.

Record Block := mkBlock {
  bk_Number : Z;
  bk_Hash : Hash;
  bk_Timestamp : Z;
  bk_ParentHash : Hash;
}.

(** [uint64(time.Now().Unix() / n)] *)
Definition block_at (n : Z) (now : time) : Z := u64 (Z.quot (Unix now) n).

(** ** The channel of [SubscribeToNewBlocks] *)

(** Its goroutine waits for a tick, makes a block, and waits until the channel
    has room for it; both waits end with the context. *)
Record Subscription := mkSubscription {
  sb_chan : list Block;
  sb_sending : option Block;
  sb_closed : bool;
}.

Definition block_cap : nat := 10.

Inductive sub_event : Type :=
  | Tick (block : Block)
  | Receive
  | Done.

(** The state after an event, if the event can happen, and the block received. *)
Definition sub_step (e : sub_event) (s : Subscription) : option (Subscription * option Block) :=
  match e with
  | Tick b =>
      if sb_closed s then None else
      match sb_sending s with
      | Some _ => None
      | None =>
          if bool_decide (length (sb_chan s) < block_cap)%nat
          then Some (mkSubscription (sb_chan s ++ [b]) None false, None)
          else Some (mkSubscription (sb_chan s) (Some b) false, None)
      end
  | Receive =>
      match sb_chan s with
      | [] => None
      | b :: rest =>
          match sb_sending s with
          | Some b' => Some (mkSubscription (rest ++ [b']) None (sb_closed s), Some b)
          | None => Some (mkSubscription rest None (sb_closed s), Some b)
          end
      end
  | Done => Some (mkSubscription (sb_chan s) None true, None)
  end.

Definition new_subscription : Subscription := mkSubscription [] None false.

(** ** The interface *)

Class Client (T : Type) := {
  GetChainID : T → Z;
  GetLatestBlockNumber : time → T → res Z;
  GetPoolState : time → time → Hash → T → res PoolState;
  GetTokenBalance : Address → Address → T → res bigint;
  GetTokenPrice : Address → T → res bigint;
  GetGasPrice : T → res bigint;
  EstimateGas : Address → list Z → T → res Z;
  SendTransaction : option Transaction → T → res Hash;
  GetTransactionReceipt : time → Hash → T → res TransactionReceipt;
  SubscribeToNewBlocks : T → res Subscription;
  (** the block a tick of the subscription makes *)
  tick_block : time → time → T → Block;
}.

(** ** The generic client *)

Record client := mkClient {
  cl_chainID : Z;
  cl_rpcURL : string;
}.

Definition NewClient (chainID : Z) (rpcURL : string) : res client := Ret (mkClient chainID rpcURL).

Section generic.
Context `{Common}.

Definition client_GetChainID (c : client) : Z := cl_chainID c.

Definition client_GetLatestBlockNumber (now : time) (c : client) : res Z := Ret (block_at 12 now).

Definition client_GetPoolState (now1 now2 : time) (poolID : Hash) (c : client) : res PoolState :=
  TotalLiquidity ← MustSetString "1000000000000000000000000";
  Price ← MustSetString "2000000000000000000000";
  Volume24h ← MustSetString "50000000000000000000000";
  Fees24h ← MustSetString "1000000000000000000000";
  Ret (mkPoolState poolID TotalLiquidity Price Volume24h Fees24h (unix_u64 now1)
         (block_at 12 now2)).

Definition client_GetTokenBalance (token account : Address) (c : client) : res bigint :=
  MustSetString "1000000000000000000000".

Definition client_GetTokenPrice (token : Address) (c : client) : res bigint :=
  MustSetString "2000000000000000000000".

Definition client_GetGasPrice (c : client) : res bigint :=
  if bool_decide (cl_chainID c = 1) then MustSetString "20000000000"
  else if bool_decide (cl_chainID c = 42161) then MustSetString "1000000000"
  else if bool_decide (cl_chainID c = 137) then MustSetString "30000000000"
  else MustSetString "10000000000".

Definition client_EstimateGas (to : Address) (data : list Z) (c : client) : res Z := Ret 21000.

(** The log line reads [tx.To]. *)
Definition client_SendTransaction (tx : option Transaction) (c : client) : res Hash :=
  match tx with
  | None => Panic NilDeref
  | Some _ => Ret (HexToHash "0x1234567890abcdef")
  end.

Definition client_GetTransactionReceipt (now : time) (txHash : Hash) (c : client)
    : res TransactionReceipt :=
  Ret (mkTransactionReceipt txHash (block_at 12 now) 1 21000 []).

Definition client_tick_block (now1 now2 : time) (c : client) : Block :=
  mkBlock (block_at 12 now1) (HexToHash "0xabcdef1234567890") (unix_u64 now2)
    (HexToHash "0x1234567890abcdef").

Definition client_SubscribeToNewBlocks (c : client) : res Subscription := Ret new_subscription.

#[export] Instance client_Client : Client client := {
  GetChainID := client_GetChainID;
  GetLatestBlockNumber := client_GetLatestBlockNumber;
  GetPoolState := client_GetPoolState;
  GetTokenBalance := client_GetTokenBalance;
  GetTokenPrice := client_GetTokenPrice;
  GetGasPrice := client_GetGasPrice;
  EstimateGas := client_EstimateGas;
  SendTransaction := client_SendTransaction;
  GetTransactionReceipt := client_GetTransactionReceipt;
  SubscribeToNewBlocks := client_SubscribeToNewBlocks;
  tick_block := client_tick_block;
}.
End generic.
