(* ===== verification/EthereumClient.v ===== *)
(** * [pkg/blockchain/ethereum.go]: the client for Ethereum *)

From S2P Require Import Prelude BigInt GoEthereum ChainClient.

Record EthereumClient := mkEthereumClient {
  eth_chainID : Z;
  eth_rpcURL : string;
}.

Record NetworkInfo := mkNetworkInfo {
  ni_ChainID : Z;
  ni_Name : string;
  ni_BlockTime : Z;
  ni_GasPrice : bigint;
  ni_IsTestnet : bool;
}.

Definition NewEthereumClient (rpcURL : string) : res EthereumClient := Ret (mkEthereumClient 1 rpcURL).

Section ethereum.
Context `{Common}.

Definition eth_GetChainID (c : EthereumClient) : Z := eth_chainID c.

Definition eth_GetLatestBlockNumber (now : time) (c : EthereumClient) : res Z := Ret (block_at 12 now).

Definition eth_GetPoolState (now1 now2 : time) (poolID : Hash) (c : EthereumClient) : res PoolState :=
  TotalLiquidity ← MustSetString "1000000000000000000000000";
  Price ← MustSetString "2000000000000000000000";
  Volume24h ← MustSetString "50000000000000000000000";
  Fees24h ← MustSetString "1000000000000000000000";
  Ret (mkPoolState poolID TotalLiquidity Price Volume24h Fees24h (unix_u64 now1)
         (block_at 12 now2)).

Definition eth_GetTokenBalance (token account : Address) (c : EthereumClient) : res bigint :=
  MustSetString "1000000000000000000000".

Definition eth_GetTokenPrice (token : Address) (c : EthereumClient) : res bigint :=
  MustSetString "2000000000000000000000".

Definition eth_GetGasPrice (c : EthereumClient) : res bigint := Ret (NewInt 20000000000).

Definition eth_EstimateGas (to : Address) (data : list Z) (c : EthereumClient) : res Z := Ret 21000.

Definition eth_SendTransaction (tx : option Transaction) (c : EthereumClient) : res Hash :=
  match tx with
  | None => Panic NilDeref
  | Some _ => Ret (HexToHash "0x1234567890abcdef")
  end.

Definition eth_GetTransactionReceipt (now : time) (txHash : Hash) (c : EthereumClient)
    : res TransactionReceipt :=
  Ret (mkTransactionReceipt txHash (block_at 12 now) 1 21000 []).

Definition eth_tick_block (now1 now2 : time) (c : EthereumClient) : Block :=
  mkBlock (block_at 12 now1) (HexToHash "0xabcdef1234567890") (unix_u64 now2)
    (HexToHash "0x1234567890abcdef").

Definition eth_SubscribeToNewBlocks (c : EthereumClient) : res Subscription := Ret new_subscription.

Definition eth_GetNetworkInfo (c : EthereumClient) : res NetworkInfo :=
  Ret (mkNetworkInfo (eth_chainID c) "Ethereum" 12 (NewInt 20000000000) false).

#[export] Instance eth_Client : Client EthereumClient := {
  GetChainID := eth_GetChainID;
  GetLatestBlockNumber := eth_GetLatestBlockNumber;
  GetPoolState := eth_GetPoolState;
  GetTokenBalance := eth_GetTokenBalance;
  GetTokenPrice := eth_GetTokenPrice;
  GetGasPrice := eth_GetGasPrice;
  EstimateGas := eth_EstimateGas;
  SendTransaction := eth_SendTransaction;
  GetTransactionReceipt := eth_GetTransactionReceipt;
  SubscribeToNewBlocks := eth_SubscribeToNewBlocks;
  tick_block := eth_tick_block;
}.
End ethereum.
