(* ===== verification/ArbitrumClient.v ===== *)
(** * [pkg/blockchain/arbitrum.go]: the client for Arbitrum *)

From S2P Require Import Prelude BigInt GoEthereum ChainClient EthereumClient.

Record ArbitrumClient := mkArbitrumClient {
  arb_chainID : Z;
  arb_rpcURL : string;
}.

Definition NewArbitrumClient (rpcURL : string) : res ArbitrumClient := Ret (mkArbitrumClient 42161 rpcURL).

Section arbitrum.
Context `{Common}.

Definition arb_GetChainID (c : ArbitrumClient) : Z := arb_chainID c.

Definition arb_GetLatestBlockNumber (now : time) (c : ArbitrumClient) : res Z := Ret (block_at 1 now).

Definition arb_GetPoolState (now1 now2 : time) (poolID : Hash) (c : ArbitrumClient) : res PoolState :=
  TotalLiquidity ← MustSetString "500000000000000000000000";
  Price ← MustSetString "2000000000000000000000";
  Volume24h ← MustSetString "25000000000000000000000";
  Fees24h ← MustSetString "500000000000000000000";
  Ret (mkPoolState poolID TotalLiquidity Price Volume24h Fees24h (unix_u64 now1)
         (block_at 1 now2)).

Definition arb_GetTokenBalance (token account : Address) (c : ArbitrumClient) : res bigint :=
  MustSetString "500000000000000000000".

Definition arb_GetTokenPrice (token : Address) (c : ArbitrumClient) : res bigint :=
  MustSetString "2000000000000000000000".

Definition arb_GetGasPrice (c : ArbitrumClient) : res bigint := Ret (NewInt 1000000000).

Definition arb_EstimateGas (to : Address) (data : list Z) (c : ArbitrumClient) : res Z := Ret 21000.

Definition arb_SendTransaction (tx : option Transaction) (c : ArbitrumClient) : res Hash :=
  match tx with
  | None => Panic NilDeref
  | Some _ => Ret (HexToHash "0xabcdef1234567890")
  end.

Definition arb_GetTransactionReceipt (now : time) (txHash : Hash) (c : ArbitrumClient)
    : res TransactionReceipt :=
  Ret (mkTransactionReceipt txHash (block_at 1 now) 1 21000 []).

Definition arb_tick_block (now1 now2 : time) (c : ArbitrumClient) : Block :=
  mkBlock (block_at 1 now1) (HexToHash "0xabcdef1234567890") (unix_u64 now2)
    (HexToHash "0x1234567890abcdef").

Definition arb_SubscribeToNewBlocks (c : ArbitrumClient) : res Subscription := Ret new_subscription.

Definition arb_GetNetworkInfo (c : ArbitrumClient) : res NetworkInfo :=
  Ret (mkNetworkInfo (arb_chainID c) "Arbitrum" 1 (NewInt 1000000000) false).

#[export] Instance arb_Client : Client ArbitrumClient := {
  GetChainID := arb_GetChainID;
  GetLatestBlockNumber := arb_GetLatestBlockNumber;
  GetPoolState := arb_GetPoolState;
  GetTokenBalance := arb_GetTokenBalance;
  GetTokenPrice := arb_GetTokenPrice;
  GetGasPrice := arb_GetGasPrice;
  EstimateGas := arb_EstimateGas;
  SendTransaction := arb_SendTransaction;
  GetTransactionReceipt := arb_GetTransactionReceipt;
  SubscribeToNewBlocks := arb_SubscribeToNewBlocks;
  tick_block := arb_tick_block;
}.
End arbitrum.
