(* ===== verification/PolygonClient.v ===== *)
(** * [pkg/blockchain/polygon.go]: the client for Polygon *)

From S2P Require Import Prelude BigInt GoEthereum ChainClient EthereumClient.

Record PolygonClient := mkPolygonClient {
  pol_chainID : Z;
  pol_rpcURL : string;
}.

Definition NewPolygonClient (rpcURL : string) : res PolygonClient := Ret (mkPolygonClient 137 rpcURL).

Section polygon.
Context `{Common}.

Definition pol_GetChainID (c : PolygonClient) : Z := pol_chainID c.

Definition pol_GetLatestBlockNumber (now : time) (c : PolygonClient) : res Z := Ret (block_at 2 now).

Definition pol_GetPoolState (now1 now2 : time) (poolID : Hash) (c : PolygonClient) : res PoolState :=
  TotalLiquidity ← MustSetString "750000000000000000000000";
  Price ← MustSetString "2000000000000000000000";
  Volume24h ← MustSetString "37500000000000000000000";
  Fees24h ← MustSetString "750000000000000000000";
  Ret (mkPoolState poolID TotalLiquidity Price Volume24h Fees24h (unix_u64 now1)
         (block_at 2 now2)).

Definition pol_GetTokenBalance (token account : Address) (c : PolygonClient) : res bigint :=
  MustSetString "750000000000000000000".

Definition pol_GetTokenPrice (token : Address) (c : PolygonClient) : res bigint :=
  MustSetString "2000000000000000000000".

Definition pol_GetGasPrice (c : PolygonClient) : res bigint := Ret (NewInt 30000000000).

Definition pol_EstimateGas (to : Address) (data : list Z) (c : PolygonClient) : res Z := Ret 21000.

Definition pol_SendTransaction (tx : option Transaction) (c : PolygonClient) : res Hash :=
  match tx with
  | None => Panic NilDeref
  | Some _ => Ret (HexToHash "0x1234567890abcdef")
  end.

Definition pol_GetTransactionReceipt (now : time) (txHash : Hash) (c : PolygonClient)
    : res TransactionReceipt :=
  Ret (mkTransactionReceipt txHash (block_at 2 now) 1 21000 []).

Definition pol_tick_block (now1 now2 : time) (c : PolygonClient) : Block :=
  mkBlock (block_at 2 now1) (HexToHash "0x1234567890abcdef") (unix_u64 now2)
    (HexToHash "0xabcdef1234567890").

Definition pol_SubscribeToNewBlocks (c : PolygonClient) : res Subscription := Ret new_subscription.

Definition pol_GetNetworkInfo (c : PolygonClient) : res NetworkInfo :=
  Ret (mkNetworkInfo (pol_chainID c) "Polygon" 2 (NewInt 30000000000) false).

#[export] Instance pol_Client : Client PolygonClient := {
  GetChainID := pol_GetChainID;
  GetLatestBlockNumber := pol_GetLatestBlockNumber;
  GetPoolState := pol_GetPoolState;
  GetTokenBalance := pol_GetTokenBalance;
  GetTokenPrice := pol_GetTokenPrice;
  GetGasPrice := pol_GetGasPrice;
  EstimateGas := pol_EstimateGas;
  SendTransaction := pol_SendTransaction;
  GetTransactionReceipt := pol_GetTransactionReceipt;
  SubscribeToNewBlocks := pol_SubscribeToNewBlocks;
  tick_block := pol_tick_block;
}.
End polygon.
