(* ===== verification/ChainProps.v ===== *)
(** * The chain clients' contract ([pkg/blockchain])

    How the four clients relate, and what a block subscription delivers. *)

From S2P Require Import Prelude BigInt GoEthereum ChainClient EthereumClient ArbitrumClient PolygonClient.

(** ** Block numbers *)

Lemma unix_bounds now : 0 ≤ now < 2 ^ 63 → 0 ≤ Unix now < 2 ^ 63.
Proof.
  intros H. unfold Unix, second. split; [apply Z.div_pos; lia|].
  apply Z.le_lt_trans with now; [apply Z.div_le_upper_bound; lia|lia].
Qed.

Lemma block_at_eq n now : 0 < n → 0 ≤ now < 2 ^ 63 → block_at n now = Unix now / n.
Proof.
  intros Hn Hnow%unix_bounds. unfold block_at, u64. rewrite Z.quot_div_nonneg by lia.
  apply Z.mod_small. split; [apply Z.div_pos; lia|].
  apply Z.le_lt_trans with (Unix now); [|lia]. apply Z.div_le_upper_bound; nia.
Qed.

Lemma block_at_mono n now1 now2 :
  0 < n → 0 ≤ now1 ≤ now2 → now2 < 2 ^ 63 → block_at n now1 ≤ block_at n now2.
Proof.
  intros Hn H1 H2. rewrite !block_at_eq by lia. apply Z.div_le_mono; [done|].
  unfold Unix, second. apply Z.div_le_mono; lia.
Qed.

Lemma block_at_coarser n k now :
  0 < n → 0 < k → 0 ≤ now < 2 ^ 63 → block_at (n * k) now = block_at n now / k.
Proof. intros. rewrite !block_at_eq by nia. by rewrite Z.div_div by lia. Qed.

(** ** What a client promises: its report is stamped with its own clock and
    block numbers that advance with it *)

Class ClientLaws (T : Type) `{Client T} := {
  block_time : T → Z;
  block_time_pos c : 0 < block_time c;
  latest_block_at c now : GetLatestBlockNumber now c = Ret (block_at (block_time c) now);
  pool_report c now1 now2 id : ∃ s, GetPoolState now1 now2 id c = Ret s ∧ cp_PoolID s = id ∧
    cp_Timestamp s = unix_u64 now1 ∧ cp_BlockNumber s = block_at (block_time c) now2 ∧
    (∃ l p v f, cp_TotalLiquidity s = Some l ∧ cp_Price s = Some p ∧ cp_Volume24h s = Some v ∧
       cp_Fees24h s = Some f ∧ 0 < l ∧ 0 < p ∧ 0 < v ∧ 0 < f);
  receipt_block c now h : ∃ r, GetTransactionReceipt now h c = Ret r ∧ tr_TxHash r = h ∧
    tr_BlockNumber r = block_at (block_time c) now;
  tick_number c now1 now2 : bk_Number (tick_block now1 now2 c) = block_at (block_time c) now1;
}.

Section instances.
Context `{Common}.

#[export] Instance client_laws_generic : ClientLaws client.
Proof.
  refine {| block_time := λ _, 12 |}; intros; try lia; try reflexivity.
  - eexists. split; [reflexivity|]. do 3 (split; [reflexivity|]).
    do 4 eexists. repeat (split; [reflexivity|]). lia.
  - eexists. split; [reflexivity|done].
Defined.

#[export] Instance client_laws_ethereum : ClientLaws EthereumClient.
Proof.
  refine {| block_time := λ _, 12 |}; intros; try lia; try reflexivity.
  - eexists. split; [reflexivity|]. do 3 (split; [reflexivity|]).
    do 4 eexists. repeat (split; [reflexivity|]). lia.
  - eexists. split; [reflexivity|done].
Defined.

#[export] Instance client_laws_arbitrum : ClientLaws ArbitrumClient.
Proof.
  refine {| block_time := λ _, 1 |}; intros; try lia; try reflexivity.
  - eexists. split; [reflexivity|]. do 3 (split; [reflexivity|]).
    do 4 eexists. repeat (split; [reflexivity|]). lia.
  - eexists. split; [reflexivity|done].
Defined.

#[export] Instance client_laws_polygon : ClientLaws PolygonClient.
Proof.
  refine {| block_time := λ _, 2 |}; intros; try lia; try reflexivity.
  - eexists. split; [reflexivity|]. do 3 (split; [reflexivity|]).
    do 4 eexists. repeat (split; [reflexivity|]). lia.
  - eexists. split; [reflexivity|done].
Defined.
End instances.

(** ** Subscriptions *)

Definition tick_blocks (es : list sub_event) : list Block :=
  omap (λ e, match e with Tick b => Some b | _ => None end) es.

(** [sub_run es s bs]: events [es] lead a new subscription to [s], and its
    consumer received [bs]. *)
Inductive sub_run : list sub_event → Subscription → list Block → Prop :=
  | run_new : sub_run [] new_subscription []
  | run_event es s bs e s' o :
      sub_run es s bs → sub_step e s = Some (s', o) →
      sub_run (es ++ [e]) s' (bs ++ option_list o).

Record SubInv (es : list sub_event) (s : Subscription) (bs : list Block) : Prop := {
  si_bounded : (length (sb_chan s) ≤ block_cap)%nat;
  si_full : sb_sending s ≠ None → length (sb_chan s) = block_cap;
  si_order : ∃ lost, tick_blocks es = bs ++ sb_chan s ++ option_list (sb_sending s) ++ lost ∧
    (length lost ≤ 1)%nat ∧ (lost ≠ [] → sb_closed s = true);
  si_closed : sb_closed s = true → sb_sending s = None;
}.

Lemma tick_blocks_app es1 es2 : tick_blocks (es1 ++ es2) = tick_blocks es1 ++ tick_blocks es2.
Proof. apply omap_app. Qed.

Lemma sub_run_inv es s bs : sub_run es s bs → SubInv es s bs.
Proof.
  induction 1 as [|es s bs e s' o _ [Hb Hf (lost & Ho & Hl & Hlc) Hc] Hstep].
  { split; [cbn; lia|done| |done]. exists []. cbn. split; [done|]. split; [lia|done]. }
  destruct s as [chan sending closed]. cbn in *. destruct e as [b| |]; cbn in Hstep.
  - destruct closed; [done|]. destruct sending as [?|]; [done|].
    assert (lost = []) as -> by (destruct lost; [done|by specialize (Hlc ltac:(done))]).
    case_bool_decide as Hlt; injection Hstep as <- <-; split; cbn; rewrite ?length_app; cbn.
    + lia.
    + done.
    + exists []. rewrite tick_blocks_app, Ho. cbn. rewrite !app_nil_r, app_assoc. done.
    + done.
    + lia.
    + lia.
    + exists []. rewrite tick_blocks_app, Ho. cbn. by rewrite !app_nil_r, app_assoc.
    + done.
  - destruct chan as [|b chan]; [done|]. destruct sending as [b'|]; injection Hstep as <- <-;
      split; cbn in *; rewrite ?length_app; cbn.
    + lia.
    + done.
    + exists lost. rewrite tick_blocks_app, Ho. cbn. rewrite app_nil_r. split; [|done].
      by rewrite <- !app_assoc.
    + done.
    + lia.
    + done.
    + exists lost. rewrite tick_blocks_app, Ho. cbn. rewrite app_nil_r. split; [|done].
      by rewrite <- !app_assoc.
    + done.
  - injection Hstep as <- <-. split; cbn; [lia|done| |done].
    destruct sending as [b|].
    + assert (lost = []) as -> by (destruct lost; [done|];
        specialize (Hlc ltac:(done)); by specialize (Hc Hlc)).
      exists [b]. rewrite tick_blocks_app, Ho. cbn. rewrite !app_nil_r. split; [done|].
      split; [lia|done].
    + exists lost. rewrite tick_blocks_app, Ho. cbn. by rewrite !app_nil_r.
Qed.

(** The liquidity a report gives. *)
Definition reported_liquidity (r : res PoolState) : bigint :=
  match r with Ret s => cp_TotalLiquidity s | _ => None end.

(** ** Claims *)

(** Reports follow the chain, for every client that keeps the interface's
    promises (all four do).  A pool report read between two instants carries
    the pool asked for, positive figures, the first instant as its timestamp,
    and a block number between the latest block numbers at the two instants,
    which do not decrease; a receipt asked for at the second instant is in its
    latest block. *)
Theorem reports_follow_the_chain {T} `{ClientLaws T} (c : T) now1 now2 id h :
  0 ≤ now1 ≤ now2 → now2 < 2 ^ 63 →
  ∃ n1 n2 s l p r, GetLatestBlockNumber now1 c = Ret n1 ∧ GetLatestBlockNumber now2 c = Ret n2 ∧
    GetPoolState now1 now2 id c = Ret s ∧ cp_PoolID s = id ∧ cp_Timestamp s = Unix now1 ∧
    cp_TotalLiquidity s = Some l ∧ cp_Price s = Some p ∧ 0 < l ∧ 0 < p ∧
    n1 ≤ cp_BlockNumber s ≤ n2 ∧
    GetTransactionReceipt now2 h c = Ret r ∧ tr_TxHash r = h ∧ tr_BlockNumber r = n2.
Proof.
  intros H1 H2. destruct (pool_report c now1 now2 id) as (s & E & Hid & Ht & Hb & l & p & v & f & Hl & Hp & _ & _ & Hpos).
  destruct (receipt_block c now2 h) as (r & Er & Hh & Hrb).
  exists (block_at (block_time c) now1), (block_at (block_time c) now2), s, l, p, r.
  rewrite !latest_block_at, Hb. pose proof (block_time_pos c).
  pose proof (block_at_mono (block_time c) now1 now2). pose proof (unix_bounds now1).
  split_and!; try done; try lia. rewrite Ht. apply Z.mod_small. lia.
Qed.

Lemma reports_follow_the_chain_witness :
  let c := mkPolygonClient 137 "" in
  ∃ n1 n2 s, @GetLatestBlockNumber _ (@pol_Client text_common) 1700000000000000000 c = Ret n1 ∧
    @GetLatestBlockNumber _ (@pol_Client text_common) 1700000007000000000 c = Ret n2 ∧
    @GetPoolState _ (@pol_Client text_common) 1700000000000000000 1700000007000000000 [] c = Ret s ∧
    n1 ≤ cp_BlockNumber s ≤ n2.
Proof.
  intros c.
  destruct (@reports_follow_the_chain _ (@pol_Client text_common) (@client_laws_polygon text_common)
    c 1700000000000000000 1700000007000000000 [] []) as
    (n1 & n2 & s & l & p & r & E1 & E2 & Es & _ & _ & _ & _ & _ & _ & Hb & _); [lia|lia|].
  exists n1, n2, s. split; [exact E1|]. split; [exact E2|]. split; [exact Es|exact Hb].
Defined.

(** The generic client is Ethereum's.  [NewClient(1, url)], what the
    operator builds, answers every call of the interface as
    [NewEthereumClient(url)] does.  For the other chains it only agrees on the
    chain id and the gas price: its liquidity is not that of the chain's own
    client, and its block number is theirs divided by 12 (Arbitrum) or 6
    (Polygon). *)
Theorem generic_client_is_ethereum `{Common} url :
  (∃ g e, NewClient 1 url = Ret g ∧ NewEthereumClient url = Ret e ∧
    GetChainID g = GetChainID e ∧ GetGasPrice g = GetGasPrice e ∧
    SubscribeToNewBlocks g = SubscribeToNewBlocks e ∧
    (∀ now1 now2, GetLatestBlockNumber now1 g = GetLatestBlockNumber now1 e ∧
       tick_block now1 now2 g = tick_block now1 now2 e ∧
       (∀ h, GetPoolState now1 now2 h g = GetPoolState now1 now2 h e ∧
          GetTransactionReceipt now1 h g = GetTransactionReceipt now1 h e)) ∧
    (∀ a b data, GetTokenBalance a b g = GetTokenBalance a b e ∧
       GetTokenPrice a g = GetTokenPrice a e ∧ EstimateGas a data g = EstimateGas a data e) ∧
    ∀ tx, SendTransaction tx g = SendTransaction tx e) ∧
  (∃ g a, NewClient 42161 url = Ret g ∧ NewArbitrumClient url = Ret a ∧
    GetChainID g = GetChainID a ∧ GetGasPrice g = GetGasPrice a ∧
    (∀ now1 now2 h, GetPoolState now1 now2 h g ≠ GetPoolState now1 now2 h a) ∧
    ∀ now, 0 ≤ now < 2 ^ 63 → ∃ n,
      GetLatestBlockNumber now a = Ret n ∧ GetLatestBlockNumber now g = Ret (n / 12)) ∧
  (∃ g p, NewClient 137 url = Ret g ∧ NewPolygonClient url = Ret p ∧
    GetChainID g = GetChainID p ∧ GetGasPrice g = GetGasPrice p ∧
    (∀ now1 now2 h, GetPoolState now1 now2 h g ≠ GetPoolState now1 now2 h p) ∧
    ∀ now, 0 ≤ now < 2 ^ 63 → ∃ n,
      GetLatestBlockNumber now p = Ret n ∧ GetLatestBlockNumber now g = Ret (n / 6)).
Proof.
  split; [|split].
  - do 2 eexists. repeat split.
  - do 2 eexists. do 4 (split; [reflexivity|]). split.
    + intros now1 now2 h E%(f_equal reported_liquidity). vm_compute in E. discriminate E.
    + intros now Hnow. eexists. split; [reflexivity|]. cbn. unfold client_GetLatestBlockNumber.
      by rewrite <- (block_at_coarser 1 12) by lia.
  - do 2 eexists. do 4 (split; [reflexivity|]). split.
    + intros now1 now2 h E%(f_equal reported_liquidity). vm_compute in E. discriminate E.
    + intros now Hnow. eexists. split; [reflexivity|]. cbn. unfold client_GetLatestBlockNumber.
      by rewrite <- (block_at_coarser 2 6) by lia.
Qed.

(** [C39] A subscription delivers its blocks in order.  Whatever ticks, receives
    and cancellations happen, the channel holds at most 10 blocks, a sender
    waits only when it is full, and the blocks received, followed by those in
    the channel and the one waiting, are the blocks the ticks made, in order;
    only a cancellation loses one, the waiting one. *)
Theorem subscription_in_order es s bs :
  sub_run es s bs →
  (length (sb_chan s) ≤ 10)%nat ∧ (sb_sending s ≠ None → length (sb_chan s) = 10%nat) ∧
  ∃ lost, tick_blocks es = bs ++ sb_chan s ++ option_list (sb_sending s) ++ lost ∧
    (length lost ≤ 1)%nat ∧ (lost ≠ [] → sb_closed s = true).
Proof. intros [Hb Hf Ho _]%sub_run_inv. auto. Qed.

(** Eleven ticks without a receive: the eleventh waits. *)
Lemma subscription_in_order_witness :
  let blocks := (λ n, mkBlock (Z.of_nat n) [] 0 []) <$> seq 0 11 in
  ∃ s, sub_run (Tick <$> blocks) s [] ∧ length (sb_chan s) = 10%nat ∧
    sb_sending s = Some (mkBlock 10 [] 0 []).
Proof.
  intros blocks.
  set (s := mkSubscription (take 10 blocks) (Some (mkBlock 10 [] 0 [])) false).
  assert (∀ n, (n ≤ 10)%nat →
    sub_run (Tick <$> take n blocks) (mkSubscription (take n blocks) None false) []) as Hrun.
  { intros n. induction n as [|n IH]; intros Hn; [apply run_new|].
    destruct (lookup_lt_is_Some_2 blocks n) as [b Hb]; [cbn; lia|].
    rewrite (take_S_r _ _ _ Hb), fmap_app.
    apply (run_event _ (mkSubscription (take n blocks) None false) [] (Tick b) _ None);
      [apply IH; lia|].
    unfold sub_step. cbn [sb_closed sb_sending sb_chan].
    by rewrite bool_decide_true by (rewrite length_take; unfold block_cap; lia). }
  assert (sub_run (Tick <$> blocks) s []) as Hs.
  { assert (Tick <$> blocks = (Tick <$> take 10 blocks) ++ [Tick (mkBlock 10 [] 0 [])]) as ->
      by reflexivity.
    apply (run_event (Tick <$> take 10 blocks) (mkSubscription (take 10 blocks) None false) [] (Tick (mkBlock 10 [] 0 [])) s None);
      [apply Hrun; lia|reflexivity]. }
  exists s. split; [exact Hs|].
  split; [apply (subscription_in_order _ _ _ Hs); discriminate|reflexivity].
Defined.
