(* ===== verification/Across.v ===== *)
(** * [pkg/across/client.go]: the bridge client

    The interface, its implementation with fixed answers, and the request
    helpers.  [now] arguments are clock readings in source order; the
    [Metadata] maps are never read and left out. *)

From S2P Require Import Prelude BigInt GoEthereum.

(** ** Data *)

Record RebalancingRequest := mkRequest {
  rq_RequestID : string;
  rq_SourceChainID : Z;
  rq_TargetChainID : Z;
  rq_Token : Address;
  rq_Amount : bigint;
  rq_MinAmount : bigint;
  rq_MaxSlippage : bigint;
  rq_Deadline : Z;
  rq_Recipient : Address;
}.

Record RebalancingResponse := mkRebalancingResponse {
  rr_RequestID : string;
  rr_TransactionHash : Hash;
  rr_EstimatedTime : Z;
  rr_TotalCost : bigint;
  rr_Success : bool;
  rr_Message : string;
}.

Record RebalancingStatus := mkStatus {
  rt_RequestID : string;
  rt_Status : string;
  rt_TransactionHash : Hash;
  rt_Amount : bigint;
  rt_ActualCost : bigint;
  rt_CompletedAt : Z;
  rt_ErrorMessage : string;
}.

Record RebalancingRecord := mkRecord {
  rc_RequestID : string;
  rc_SourceChainID : Z;
  rc_TargetChainID : Z;
  rc_Token : Address;
  rc_Amount : bigint;
  rc_Cost : bigint;
  rc_Status : string;
  rc_CreatedAt : Z;
  rc_CompletedAt : Z;
  rc_TransactionHash : Hash;
}.

(** ** The interface *)

Class Client (T : Type) := {
  InitiateRebalancing : time → option RebalancingRequest → T → res RebalancingResponse;
  GetRebalancingStatus : time → string → T → res RebalancingStatus;
  GetSupportedChains : T → res (list Z);
  EstimateRebalancingCost : option RebalancingRequest → T → res bigint;
  GetRebalancingHistory : time → time → time → time → Z → T → res (list RebalancingRecord);
}.

(** ** The implementation *)

Record client := mkClient { ac_acrossAddress : Address }.

Definition minute : Z := 60 * second.

Section across.
Context `{Common}.

Definition NewClient (acrossAddress : string) : res client :=
  Ret (mkClient (HexToAddress acrossAddress)).

Definition client_InitiateRebalancing (now : time) (request : option RebalancingRequest) (c : client)
    : res RebalancingResponse :=
  match request with
  | None => Panic NilDeref
  | Some request =>
      Ret (mkRebalancingResponse (rq_RequestID request) (HexToHash "0x1234567890abcdef")
             (unix_u64 (now + 5 * minute)) (NewInt 1000000000000000000) true
             "Rebalancing request submitted successfully")
  end.

Definition client_GetRebalancingStatus (now : time) (requestID : string) (c : client)
    : res RebalancingStatus :=
  Amount ← MustSetString "1000000000000000000000";
  ActualCost ← MustSetString "1000000000000000000";
  Ret (mkStatus requestID "completed" (HexToHash "0x1234567890abcdef") Amount ActualCost
         (unix_u64 now) "").

Definition client_GetSupportedChains (c : client) : res (list Z) := Ret [1; 42161; 137; 10; 8453].

Definition client_EstimateRebalancingCost (request : option RebalancingRequest) (c : client)
    : res bigint :=
  match request with
  | None => Panic NilDeref
  | Some request =>
      let baseCost := NewInt 500000000000000000 in
      amountFee ← big_Div (rq_Amount request) (NewInt 1000);
      big_Add baseCost amountFee
  end.

Definition client_GetRebalancingHistory (now1 now2 now3 now4 : time) (limit : Z) (c : client)
    : res (list RebalancingRecord) :=
  amount1 ← MustSetString "1000000000000000000000";
  amount2 ← MustSetString "500000000000000000000";
  cost2 ← MustSetString "500000000000000000";
  let records :=
    [mkRecord "req_001" 1 42161 (HexToAddress "0xA0b86a33E6441c8C06Cdd0C2A4C7C4C8C8C8C8C8") amount1
       (NewInt 1000000000000000000) "completed" (unix_u64 (now1 - 60 * minute))
       (unix_u64 (now2 - 30 * minute)) (HexToHash "0x1234567890abcdef");
     mkRecord "req_002" 42161 137 (HexToAddress "0xA0b86a33E6441c8C06Cdd0C2A4C7C4C8C8C8C8C8") amount2
       cost2 "completed" (unix_u64 (now3 - 2 * 60 * minute)) (unix_u64 (now4 - 60 * minute))
       (HexToHash "0xabcdef1234567890")] in
  Ret (if bool_decide (0 < limit ∧ limit < Z.of_nat (length records))
       then take (Z.to_nat limit) records else records).

#[export] Instance client_Client : Client client := {
  InitiateRebalancing := client_InitiateRebalancing;
  GetRebalancingStatus := client_GetRebalancingStatus;
  GetSupportedChains := client_GetSupportedChains;
  EstimateRebalancingCost := client_EstimateRebalancingCost;
  GetRebalancingHistory := client_GetRebalancingHistory;
}.
End across.

(** ** Helpers *)

Definition GenerateRequestID (now : time) : string := "req_" +:+ pretty (UnixNano now).

Definition ValidateRebalancingRequest (now : time) (request : option RebalancingRequest) : res unit :=
  match request with
  | None => Panic NilDeref
  | Some request =>
      if bool_decide (rq_RequestID request = "") then Err "request ID is required"
      else if bool_decide (rq_SourceChainID request = 0) then Err "source chain ID is required"
      else if bool_decide (rq_TargetChainID request = 0) then Err "target chain ID is required"
      else if bool_decide (rq_SourceChainID request = rq_TargetChainID request) then
        Err "source and target chains must be different"
      else if bool_decide (rq_Token request = zero_address) then Err "token address is required"
      else
        c ← big_Cmp (rq_Amount request) (NewInt 0);
        if bool_decide (c ≤ 0) then Err "amount must be positive"
        else if bool_decide (rq_Recipient request = zero_address) then
          Err "recipient address is required"
        else if bool_decide (rq_Deadline request ≤ unix_u64 now) then
          Err "deadline must be in the future"
        else Ret tt
  end.
