(* ===== verification/Config.v ===== *)
(** * [pkg/config/config.go]: configurations, their validation and accessors

    The file system and [encoding/json] are parameters of [LoadConfig]. *)

From S2P Require Import Prelude Float64 BigInt.

(** ** Data *)

Record ChainConfig := mkChainConfig {
  cc_ChainID : Z;
  cc_Name : string;
  cc_RpcUrl : string;
  cc_BlockTime : Z;
  cc_GasPrice : Z;
}.

Record AlertThresholds := mkThresholds {
  at_PriceDeviation : float64;
  at_LiquidityImbalance : float64;
  at_ResponseTime : Z;
}.

Record Config := mkConfig {
  co_EcdsaPrivateKeyStorePath : string;
  co_BlsPrivateKeyStorePath : string;
  co_EthRpcUrl : string;
  co_EthWsUrl : string;
  co_RegistryCoordinatorAddress : string;
  co_OperatorStateRetrieverAddress : string;
  co_AggregatorServerIpPortAddr : string;
  co_RegisterOperatorOnStartup : bool;
  co_EigenMetricsIpPortAddress : string;
  co_EnableMetrics : bool;
  co_NodeApiIpPortAddress : string;
  co_EnableNodeApi : bool;
  co_SyncAVSAddress : string;
  co_AcrossAddress : string;
  co_SupportedChains : list ChainConfig;
  co_StateUpdateInterval : Z;
  co_RebalancingThreshold : float64;
  co_MaxRebalancingAmount : string;
  co_MinRebalancingAmount : string;
  co_EnableMonitoring : bool;
  co_AlertThresholds : AlertThresholds;
  co_LogLevel : string;
  co_LogFormat : string;
}.

Record DatabaseConfig := mkDatabaseConfig {
  db_Type : string;
  db_ConnectionString : string;
  db_MaxConnections : Z;
  db_ConnectionTimeout : Z;
}.

Record AggregatorConfig := mkAggregatorConfig {
  ag_ServerIpPortAddress : string;
  ag_EnableGrpc : bool;
  ag_EnableHttp : bool;
  ag_HttpPort : Z;
  ag_RegistryCoordinatorAddress : string;
  ag_OperatorStateRetrieverAddress : string;
  ag_EthRpcUrl : string;
  ag_EthWsUrl : string;
  ag_SyncAVSAddress : string;
  ag_AcrossAddress : string;
  ag_TaskTimeout : Z;
  ag_MaxConcurrentTasks : Z;
  ag_TaskRetryAttempts : Z;
  ag_TaskRetryDelay : Z;
  ag_StateUpdateInterval : Z;
  ag_StateValidationThreshold : float64;
  ag_MaxStateAge : Z;
  ag_RebalancingEnabled : bool;
  ag_RebalancingThreshold : float64;
  ag_MaxRebalancingAmount : string;
  ag_MinRebalancingAmount : string;
  ag_RebalancingTimeout : Z;
  ag_EnableMetrics : bool;
  ag_MetricsPort : Z;
  ag_EnableHealthCheck : bool;
  ag_HealthCheckInterval : Z;
  ag_LogLevel : string;
  ag_LogFormat : string;
  ag_LogFile : string;
  ag_Database : DatabaseConfig;
  ag_EnableTls : bool;
  ag_TlsCertFile : string;
  ag_TlsKeyFile : string;
  ag_ApiKeyRequired : bool;
  ag_ApiKey : string;
  ag_MaxRequestSize : Z;
  ag_RequestTimeout : Z;
  ag_ResponseTimeout : Z;
}.

(** ** Loading *)

Class Files := {
  File : Type;
  os_Open : string → res File;
  json_Decode_Config : File → res Config;
  json_Decode_AggregatorConfig : File → res AggregatorConfig;
}.

Definition LoadConfig `{Files} (configPath : string) : res Config :=
  file ← wrap_res "failed to open config file: " (os_Open configPath);
  wrap_res "failed to decode config: " (json_Decode_Config file).

Definition LoadAggregatorConfig `{Files} (configPath : string) : res AggregatorConfig :=
  file ← wrap_res "failed to open config file: " (os_Open configPath);
  wrap_res "failed to decode config: " (json_Decode_AggregatorConfig file).

(** ** Defaults *)

Definition zero_hex : string := "0x0000000000000000000000000000000000000000".

Definition GetDefaultConfig : Config :=
  mkConfig "./keys/operator.ecdsa.key.json" "./keys/operator.bls.key.json" "http://localhost:8545"
    "ws://localhost:8546" zero_hex zero_hex "localhost:8090" true "localhost:9090" true
    "localhost:9091" true zero_hex zero_hex
    [mkChainConfig 1 "Ethereum" "http://localhost:8545" 12 20000000000;
     mkChainConfig 42161 "Arbitrum" "http://localhost:8547" 1 1000000000;
     mkChainConfig 137 "Polygon" "http://localhost:8548" 2 30000000000]
    30 (f_lit 5 100) "1000000000000000000000000" "1000000000000000000000" true
    (mkThresholds (f_lit 1 10) (f_lit 2 10) 30) "info" "json".

Definition GetDefaultAggregatorConfig : AggregatorConfig :=
  mkAggregatorConfig "localhost:8090" true true 8080 zero_hex zero_hex "http://localhost:8545"
    "ws://localhost:8546" zero_hex zero_hex 300 100 3 30 30 (f_lit 8 10) 600 true (f_lit 5 100)
    "1000000000000000000000000" "1000000000000000000000" 1800 true 9090 true 30 "info" "json"
    "./logs/aggregator.log" (mkDatabaseConfig "sqlite" "./data/aggregator.db" 10 30) false "" ""
    false "" 10485760 30 60.

(** ** Validation *)

(** [if s == "" { return fmt.Errorf(name + " is required") }] *)
Definition required (name s : string) (k : res unit) : res unit :=
  if bool_decide (s = "") then Err (name +:+ " is required") else k.

Definition Validate (c : Config) : res unit :=
  required "ecdsa_private_key_store_path" (co_EcdsaPrivateKeyStorePath c) (
  required "bls_private_key_store_path" (co_BlsPrivateKeyStorePath c) (
  required "eth_rpc_url" (co_EthRpcUrl c) (
  required "registry_coordinator_address" (co_RegistryCoordinatorAddress c) (
  required "sync_avs_address" (co_SyncAVSAddress c) (
  required "across_address" (co_AcrossAddress c) (
  if bool_decide (length (co_SupportedChains c) = 0%nat)
  then Err "at least one supported chain is required" else Ret tt)))))).

Definition AggregatorConfig_Validate (c : AggregatorConfig) : res unit :=
  required "server_ip_port_address" (ag_ServerIpPortAddress c) (
  required "eth_rpc_url" (ag_EthRpcUrl c) (
  required "registry_coordinator_address" (ag_RegistryCoordinatorAddress c) (
  required "sync_avs_address" (ag_SyncAVSAddress c) (
  required "across_address" (ag_AcrossAddress c) (Ret tt))))).

(** ** Accessors *)

(** The result points to a copy of the entry. *)
Fixpoint find_chain (chainID : Z) (chains : list ChainConfig) : res ChainConfig :=
  match chains with
  | [] => Err ("chain " +:+ pretty chainID +:+ " not supported")
  | chain :: chains =>
      if bool_decide (cc_ChainID chain = chainID) then Ret chain else find_chain chainID chains
  end.

Definition GetChainConfig (c : Config) (chainID : Z) : res ChainConfig :=
  find_chain chainID (co_SupportedChains c).

Definition GetSupportedChainIDs (c : Config) : list Z := cc_ChainID <$> co_SupportedChains c.

Definition IsChainSupported (c : Config) (chainID : Z) : bool :=
  match GetChainConfig c chainID with Ret _ => true | _ => false end.

(** [time.Duration(c.StateUpdateInterval) * time.Second] wraps. *)
Definition GetStateUpdateInterval (c : Config) : Z := i64 (co_StateUpdateInterval c * second).

Definition GetRebalancingThreshold (c : Config) : float64 := co_RebalancingThreshold c.

Definition GetMaxRebalancingAmount (c : Config) : res bigint :=
  match SetString10 (co_MaxRebalancingAmount c) with
  | Some amount => Ret (Some amount)
  | None => Err ("invalid max_rebalancing_amount: " +:+ co_MaxRebalancingAmount c)
  end.

Definition GetMinRebalancingAmount (c : Config) : res bigint :=
  match SetString10 (co_MinRebalancingAmount c) with
  | Some amount => Ret (Some amount)
  | None => Err ("invalid min_rebalancing_amount: " +:+ co_MinRebalancingAmount c)
  end.
