(* ===== verification/EigenLayer.v ===== *)
(** * [pkg/eigenlayer]: the EigenLayer client and operator registration

    The registration manager is written against the client interface; the one
    client of the package implements nothing. *)

From S2P Require Import Prelude BigInt GoEthereum.

Record Task := mkTask {
  el_TaskID : Z;
  el_TaskType : Z;
  el_ChainID : Z;
  el_PoolID : Hash;
  el_Payload : list Z;
  el_Deadline : Z;
  el_Status : Z;
  el_CreatedAt : Z;
  el_QuorumNumbers : list Z;
  el_QuorumThresholdPercentage : Z;
}.

(** ** The interface *)

(** [S] is the state behind the client: the contracts it talks to. *)
Class Client (T S : Type) := {
  RegisterOperator : string → T → M S unit;
  IsOperatorRegistered : Address → T → M S bool;
  GetOperatorStake : Address → T → M S bigint;
  SubmitTaskResponse : Z → list Z → list Z → T → M S unit;
  GetTask : Z → T → M S (option Task);
}.

(** Its two halves: a client is both. *)
Class Reader (T S : Type) := {
  Reader_GetOperatorStake : Address → T → M S bigint;
  Reader_IsOperatorRegistered : Address → T → M S bool;
  Reader_GetTask : Z → T → M S (option Task);
}.
Class Writer (T S : Type) := {
  Writer_RegisterOperator : string → T → M S unit;
  Writer_SubmitTaskResponse : Z → list Z → list Z → T → M S unit;
}.

#[export] Instance Client_Reader {T S} `{Client T S} : Reader T S := {
  Reader_GetOperatorStake := GetOperatorStake;
  Reader_IsOperatorRegistered := IsOperatorRegistered;
  Reader_GetTask := GetTask;
}.
#[export] Instance Client_Writer {T S} `{Client T S} : Writer T S := {
  Writer_RegisterOperator := RegisterOperator;
  Writer_SubmitTaskResponse := SubmitTaskResponse;
}.

(** ** [client]: every call is a placeholder *)

Record client := mkClient { el_registryCoordinator : Address }.

Definition NewClient `{Common} (registryCoordinator : string) : res client :=
  Ret (mkClient (HexToAddress registryCoordinator)).

Section client.
Context {S : Type}.

Definition client_RegisterOperator (metadataURI : string) (c : client) : M S unit :=
  throw "not implemented".
Definition client_IsOperatorRegistered (operatorAddr : Address) (c : client) : M S bool :=
  throw "not implemented".
Definition client_GetOperatorStake (operatorAddr : Address) (c : client) : M S bigint :=
  throw "not implemented".
Definition client_SubmitTaskResponse (taskIndex : Z) (response signature : list Z) (c : client)
    : M S unit := throw "not implemented".
Definition client_GetTask (taskIndex : Z) (c : client) : M S (option Task) :=
  throw "not implemented".

#[export] Instance client_Client : Client client S := {
  RegisterOperator := client_RegisterOperator;
  IsOperatorRegistered := client_IsOperatorRegistered;
  GetOperatorStake := client_GetOperatorStake;
  SubmitTaskResponse := client_SubmitTaskResponse;
  GetTask := client_GetTask;
}.
End client.

(** ** [RegistrationManager] *)

Record OperatorInfo := mkOperatorInfo {
  oi_Address : Address;
  oi_IsRegistered : bool;
  oi_StakeAmount : bigint;
  oi_MetadataURI : string;
  oi_RegistrationTime : Z;
}.

Record RegistrationManager (T : Type) := mkRegistrationManager { rm_client : T }.
Arguments mkRegistrationManager {T} _.
Arguments rm_client {T} _.

Definition NewRegistrationManager {T} (client : T) : RegistrationManager T :=
  mkRegistrationManager client.

Section registration.
Context {T S : Type} `{Client T S, Common}.
Implicit Types rm : RegistrationManager T.

Definition RegisterOperatorWithEigenLayer rm (operatorAddr : Address) (metadataURI : string)
    : M S unit :=
  isRegistered ← wrap "failed to check operator registration status: "
    (IsOperatorRegistered operatorAddr (rm_client rm));
  if (isRegistered : bool) then mret tt else
  wrap "failed to register operator: " (RegisterOperator metadataURI (rm_client rm)).

Definition ValidateOperatorRegistration rm (operatorAddr : Address) : M S unit :=
  isRegistered ← wrap "failed to check operator registration: "
    (IsOperatorRegistered operatorAddr (rm_client rm));
  if negb isRegistered then throw ("operator not registered: " +:+ Address_Hex operatorAddr) else
  stake ← wrap "failed to get operator stake: " (GetOperatorStake operatorAddr (rm_client rm));
  c ← lift (big_Cmp stake (NewInt 0));
  if bool_decide (c = 0) then throw ("operator has no stake: " +:+ Address_Hex operatorAddr)
  else mret tt.

Definition GetOperatorInfo rm (operatorAddr : Address) : M S OperatorInfo :=
  isRegistered ← wrap "failed to check registration status: "
    (IsOperatorRegistered operatorAddr (rm_client rm));
  if negb isRegistered then throw ("operator not registered: " +:+ Address_Hex operatorAddr) else
  stake ← wrap "failed to get operator stake: " (GetOperatorStake operatorAddr (rm_client rm));
  mret (mkOperatorInfo operatorAddr isRegistered stake "" 0).
End registration.

(** ** Transactions *)

Section transact.
(** [bind.TransactOpts], made by [bind.NewKeyedTransactorWithChainID], with two
    of its fields to set, and [crypto.PubkeyToAddress]. *)
Context {PrivateKey PublicKey TransactOpts Ctx : Type}
  (NewKeyedTransactorWithChainID : PrivateKey → bigint → res TransactOpts)
  (set_Context : Ctx → TransactOpts → TransactOpts) (set_GasLimit : Z → TransactOpts → TransactOpts)
  (key_PublicKey : PrivateKey → PublicKey) (PubkeyToAddress : PublicKey → Address).

(** Whatever the chain, the id is 1. *)
Definition createTransactOpts (ctx : Ctx) (privateKey : PrivateKey) (gasLimit : Z)
    : res TransactOpts :=
  let chainID := NewInt 1 in
  auth ← wrap_res "failed to create transactor: " (NewKeyedTransactorWithChainID privateKey chainID);
  mret (set_GasLimit gasLimit (set_Context ctx auth)).

Definition getPublicKey (privateKey : PrivateKey) : Address :=
  PubkeyToAddress (key_PublicKey privateKey).
End transact.
