(* ===== verification/PackageProps.v ===== *)
(** * Bridge requests, configurations and operator registration

    The contracts of [Across], [Config] and [EigenLayer]. *)

From S2P Require Import Prelude Float64 BigInt GoEthereum Across Config EigenLayer.

(** ** [pkg/across] *)

(** What [ValidateRebalancingRequest] checks before the amount, and after it. *)
Definition well_addressed (rq : Across.RebalancingRequest) : Prop :=
  Across.rq_RequestID rq ≠ "" ∧ Across.rq_SourceChainID rq ≠ 0 ∧ Across.rq_TargetChainID rq ≠ 0 ∧
  Across.rq_SourceChainID rq ≠ Across.rq_TargetChainID rq ∧ Across.rq_Token rq ≠ zero_address.

Definition payable (now : time) (rq : Across.RebalancingRequest) : Prop :=
  (∃ a, Across.rq_Amount rq = Some a ∧ 0 < a) ∧ Across.rq_Recipient rq ≠ zero_address ∧
  unix_u64 now < Across.rq_Deadline rq.

Lemma validate_request_cases now rq :
  (¬ well_addressed rq ∧ ∃ e, Across.ValidateRebalancingRequest now (Some rq) = Err e) ∨
  (well_addressed rq ∧ Across.ValidateRebalancingRequest now (Some rq) =
    match Across.rq_Amount rq with
    | None => Panic NilDeref
    | Some a =>
        if bool_decide (a ≤ 0) then Err "amount must be positive"
        else if bool_decide (Across.rq_Recipient rq = zero_address) then
          Err "recipient address is required"
        else if bool_decide (Across.rq_Deadline rq ≤ unix_u64 now) then
          Err "deadline must be in the future"
        else Ret tt
    end).
Proof.
  unfold Across.ValidateRebalancingRequest, well_addressed.
  do 5 (case_bool_decide; [left; split; [tauto|by eexists]|]). right. split; [tauto|].
  destruct (Across.rq_Amount rq) as [a|]; [|done]. rewrite big_Cmp_zero. cbn.
  assert (bool_decide (Z.sgn a ≤ 0) = bool_decide (a ≤ 0)) as -> by (apply bool_decide_ext; lia).
  done.
Qed.

(** ** [pkg/config] *)

Definition set_up (c : Config.Config) : Prop :=
  Forall (λ s, s ≠ "") [co_EcdsaPrivateKeyStorePath c; co_BlsPrivateKeyStorePath c; co_EthRpcUrl c;
    co_RegistryCoordinatorAddress c; co_SyncAVSAddress c; co_AcrossAddress c] ∧
  co_SupportedChains c ≠ [].

Definition aggregator_set_up (c : AggregatorConfig) : Prop :=
  Forall (λ s, s ≠ "") [ag_ServerIpPortAddress c; ag_EthRpcUrl c; ag_RegistryCoordinatorAddress c;
    ag_SyncAVSAddress c; ag_AcrossAddress c].

Lemma required_ret name s k : required name s k = Ret tt ↔ s ≠ "" ∧ k = Ret tt.
Proof. unfold required. case_bool_decide; [by split; [|intros [? _]]|tauto]. Qed.

Lemma validate_ret c : Validate c = Ret tt ↔ set_up c.
Proof.
  unfold Validate, set_up. rewrite !required_ret, !Forall_cons, Forall_nil.
  case_bool_decide as H; [|apply length_zero_iff_nil in H || rewrite length_zero_iff_nil in H; tauto].
  apply length_zero_iff_nil in H. split; [|tauto]. by intros (_ & _ & _ & _ & _ & _ & ?).
Qed.

Lemma aggregator_validate_ret c : AggregatorConfig_Validate c = Ret tt ↔ aggregator_set_up c.
Proof.
  unfold AggregatorConfig_Validate, aggregator_set_up.
  rewrite !required_ret, !Forall_cons, Forall_nil. tauto.
Qed.

Lemma find_chain_spec id chains :
  (∃ pre c post, chains = pre ++ c :: post ∧ cc_ChainID c = id ∧ id ∉ (cc_ChainID <$> pre) ∧
     find_chain id chains = Ret c) ∨
  (id ∉ (cc_ChainID <$> chains) ∧
     find_chain id chains = Err ("chain " +:+ pretty id +:+ " not supported")).
Proof.
  induction chains as [|c chains IH]; [right; split; [apply not_elem_of_nil|done]|].
  cbn [find_chain]. case_bool_decide as Hc.
  - left. exists [], c, chains. split_and!; [done..|apply not_elem_of_nil|done].
  - destruct IH as [(pre & d & post & -> & Hd & Hpre & ->)|[Hn ->]].
    + left. exists (c :: pre), d, post. split_and!; [done..| |done]. cbn.
      by apply not_elem_of_cons.
    + right. split; [|done]. cbn. by apply not_elem_of_cons.
Qed.

(** ** Claims *)

(** [C31] Bridge requests.  [ValidateRebalancingRequest] accepts exactly the
    requests with an identifier, two different non-zero chains, a token, a
    positive amount, a recipient and a deadline after now; it panics exactly
    when only a nil amount stands between a request and the check of the
    amount, and returns an error otherwise.  [InitiateRebalancing] does not ask
    it: every request, accepted or not, is answered with success under its own
    identifier at a total cost of 1 ETH.  The estimate for an accepted one is
    half an ETH and a thousandth of the amount, rounded down: it agrees with the
    cost answered exactly for the thousand amounts from [5 * 10 ^ 20] on, and is
    less for the smaller ones. *)
Theorem ValidateRebalancingRequest_accepts `{Common} now rq (c : Across.client) :
  (ValidateRebalancingRequest now (Some rq) = Ret tt ↔ well_addressed rq ∧ payable now rq) ∧
  ((∃ p, ValidateRebalancingRequest now (Some rq) = Panic p) ↔
     well_addressed rq ∧ rq_Amount rq = None) ∧
  ∃ r, InitiateRebalancing now (Some rq) c = Ret r ∧
    rr_RequestID r = rq_RequestID rq ∧ rr_Success r = true ∧ rr_TotalCost r = Some (10 ^ 18) ∧
    (ValidateRebalancingRequest now (Some rq) = Ret tt →
       ∃ a cost, rq_Amount rq = Some a ∧ EstimateRebalancingCost (Some rq) c = Ret (Some cost) ∧
         cost = 5 * 10 ^ 17 + a / 1000 ∧
         (rr_TotalCost r = Some cost ↔ 5 * 10 ^ 20 ≤ a < 5 * 10 ^ 20 + 1000) ∧
         (cost < 10 ^ 18 ↔ a < 5 * 10 ^ 20)).
Proof.
  assert (ValidateRebalancingRequest now (Some rq) = Ret tt ↔ well_addressed rq ∧ payable now rq) as Ha.
  { destruct (validate_request_cases now rq) as [[Hw [e ->]]|[Hw ->]]; [by split; [|intros [? _]]|].
    unfold payable. destruct (rq_Amount rq) as [a|]; [|by split; [|intros (_ & (? & ? & _) & _)]].
    repeat case_bool_decide; split; try done.
    - intros (_ & (b & [=<-] & ?) & _). lia.
    - intros (_ & _ & ? & _). done.
    - intros (_ & _ & _ & ?). lia.
    - intros _. split; [done|]. split; [exists a; split; [done|lia]|]. split; [done|lia]. }
  split; [exact Ha|]. split.
  - destruct (validate_request_cases now rq) as [[Hw [e ->]]|[Hw ->]].
    + split; [by intros [p ?]|]. by intros [? _].
    + destruct (rq_Amount rq) as [a|]; [|by split; [|eexists]].
      split; [|by intros [_ ?]]. intros [p Hp]. by repeat case_bool_decide.
  - eexists. split; [reflexivity|]. do 3 (split; [done|]).
    intros [Hw ((a & Hamount & Hpos) & _)]%Ha. exists a, (5 * 10 ^ 17 + a / 1000). split; [done|]. split.
    { cbn. rewrite Hamount. cbn. unfold euclid_div. cbn. rewrite decide_False by lia. by rewrite Z.mul_1_l. }
    pose proof (Z.div_mod a 1000 ltac:(lia)). pose proof (Z.mod_pos_bound a 1000 ltac:(lia)).
    split; [done|]. cbn [rr_TotalCost]. unfold NewInt. split; [|lia].
    split; [intros [= E]; lia|intros Hb; f_equal; lia].
Qed.

(** A small request is answered a higher cost than it is estimated at. *)
Lemma ValidateRebalancingRequest_accepts_witness :
  let rq := mkRequest "r" 1 137 [1] (Some 7000) None None 2000000000 [2] in
  let client := @Across.client_Client text_common in
  ValidateRebalancingRequest 1700000000000000000 (Some rq) = Ret tt ∧
  ∃ r, @InitiateRebalancing _ client 1700000000000000000 (Some rq) (Across.mkClient []) = Ret r ∧
    rr_TotalCost r = Some (10 ^ 18) ∧
    @EstimateRebalancingCost _ client (Some rq) (Across.mkClient []) = Ret (Some 500000000000000007).
Proof.
  intros rq client. assert (ValidateRebalancingRequest 1700000000000000000 (Some rq) = Ret tt) as E
    by (vm_compute; reflexivity).
  split; [exact E|].
  destruct (@ValidateRebalancingRequest_accepts text_common 1700000000000000000 rq (Across.mkClient []))
    as (_ & _ & r & Hr & _ & _ & Hc & Hs).
  destruct (Hs E) as (a & cost & Ha & He & Hcost & _). injection Ha as <-.
  exists r. split; [exact Hr|]. split; [exact Hc|]. rewrite Hcost in He. exact He.
Defined.

(** Configurations.  Both [Validate] methods accept exactly the
    configurations whose required fields are set (and, for the operator's, with
    at least one chain); the defaults pass, and their amounts parse, the
    minimum below the maximum.  A chain is supported exactly when its id is
    listed; [GetChainConfig] then gives the first entry with that id, and an
    error otherwise.  An amount written in decimal is read back. *)
Theorem config_accepts_and_finds (c : Config.Config) (ac : AggregatorConfig) id z :
  (Validate c = Ret tt ↔ set_up c) ∧
  (AggregatorConfig_Validate ac = Ret tt ↔ aggregator_set_up ac) ∧
  Validate GetDefaultConfig = Ret tt ∧ AggregatorConfig_Validate GetDefaultAggregatorConfig = Ret tt ∧
  (∃ mn mx, GetMinRebalancingAmount GetDefaultConfig = Ret (Some mn) ∧
     GetMaxRebalancingAmount GetDefaultConfig = Ret (Some mx) ∧ 0 < mn < mx) ∧
  (IsChainSupported c id = true ↔ id ∈ GetSupportedChainIDs c) ∧
  match GetChainConfig c id with
  | Ret cc => ∃ pre post, co_SupportedChains c = pre ++ cc :: post ∧ cc_ChainID cc = id ∧
      id ∉ (cc_ChainID <$> pre)
  | Err e => e = "chain " +:+ pretty id +:+ " not supported"
  | Panic _ => False
  end ∧
  (co_MaxRebalancingAmount c = pretty z → GetMaxRebalancingAmount c = Ret (Some z)).
Proof.
  split; [apply validate_ret|]. split; [apply aggregator_validate_ret|].
  split; [reflexivity|]. split; [reflexivity|]. split; [|split; [|split]].
  - exists 1000000000000000000000, 1000000000000000000000000. split; [reflexivity|].
    split; [reflexivity|]. lia.
  - unfold IsChainSupported, GetChainConfig, GetSupportedChainIDs.
    destruct (find_chain_spec id (co_SupportedChains c)) as [(pre & d & post & E & Hd & _ & ->)|[Hn ->]].
    + split; [|done]. intros _. rewrite E, fmap_app, fmap_cons, Hd. apply elem_of_app. right. by left.
    + by split.
  - unfold GetChainConfig.
    destruct (find_chain_spec id (co_SupportedChains c)) as [(pre & d & post & E & Hd & Hp & ->)|[Hn ->]];
      [|done]. by exists pre, post.
  - intros E. unfold GetMaxRebalancingAmount. by rewrite E, SetString10_pretty.
Qed.

Lemma config_accepts_and_finds_witness :
  GetMaxRebalancingAmount GetDefaultConfig = Ret (Some 1000000000000000000000000).
Proof.
  apply (config_accepts_and_finds GetDefaultConfig GetDefaultAggregatorConfig 1
    1000000000000000000000000). vm_compute. reflexivity.
Defined.

(** ** [pkg/eigenlayer] *)

(** Registration, against any client.  Everything starts with the client's
    answer about the operator.  If it fails, all three methods of the manager
    return its error.  If the operator is registered, registering again makes
    no further call and succeeds; validation succeeds exactly when the stake
    call returns a non-zero stake, and the information carries that stake.  If
    not, registering is the client's own registration, and validation and
    information fail.  *)
Theorem registration_follows_client {T S} `{EigenLayer.Client T S, Common} (c : T) a uri (s : S) :
  let rm := NewRegistrationManager c in
  match IsOperatorRegistered a c s with
  | (s1, Ret true) =>
      RegisterOperatorWithEigenLayer rm a uri s = (s1, Ret tt) ∧
      match GetOperatorStake a c s1 with
      | (s2, Ret (Some stake)) =>
          (ValidateOperatorRegistration rm a s = (s2, Ret tt) ↔ stake ≠ 0) ∧
          GetOperatorInfo rm a s = (s2, Ret (mkOperatorInfo a true (Some stake) "" 0))
      | (s2, Ret None) => ValidateOperatorRegistration rm a s = (s2, Panic NilDeref)
      | (s2, Err e) =>
          ValidateOperatorRegistration rm a s = (s2, Err ("failed to get operator stake: " +:+ e)) ∧
          GetOperatorInfo rm a s = (s2, Err ("failed to get operator stake: " +:+ e))
      | (s2, Panic p) => ValidateOperatorRegistration rm a s = (s2, Panic p) ∧
          GetOperatorInfo rm a s = (s2, Panic p)
      end
  | (s1, Ret false) =>
      RegisterOperatorWithEigenLayer rm a uri s =
        wrap "failed to register operator: " (RegisterOperator uri c) s1 ∧
      ValidateOperatorRegistration rm a s = (s1, Err ("operator not registered: " +:+ Address_Hex a)) ∧
      GetOperatorInfo rm a s = (s1, Err ("operator not registered: " +:+ Address_Hex a))
  | (s1, Err e) =>
      (∃ e', RegisterOperatorWithEigenLayer rm a uri s = (s1, Err e')) ∧
      (∃ e', ValidateOperatorRegistration rm a s = (s1, Err e')) ∧
      ∃ e', GetOperatorInfo rm a s = (s1, Err e')
  | (s1, Panic p) => RegisterOperatorWithEigenLayer rm a uri s = (s1, Panic p)
  end.
Proof.
  intros rm. unfold RegisterOperatorWithEigenLayer, ValidateOperatorRegistration, GetOperatorInfo.
  change (rm_client rm) with c. destruct (IsOperatorRegistered a c s) as [s1 [[]|e|p]] eqn:E.
  - split; [by erewrite M_bind_ret by by apply wrap_ret|].
    destruct (GetOperatorStake a c s1) as [s2 [[stake|]|e|p]] eqn:E2.
    + split.
      * erewrite M_bind_ret by by apply wrap_ret. cbn [negb].
        erewrite M_bind_ret by by apply wrap_ret.
        erewrite M_bind_ret by (unfold lift; by rewrite big_Cmp_zero).
        case_bool_decide as Hz; [|by split; [intros _ ->|]]. split; [done|]. intros Hs.
        destruct stake; done.
      * erewrite M_bind_ret by by apply wrap_ret. cbn [negb].
        by erewrite M_bind_ret by by apply wrap_ret.
    + erewrite M_bind_ret by by apply wrap_ret. cbn [negb].
      by erewrite M_bind_ret by by apply wrap_ret.
    + split; (erewrite M_bind_ret by by apply wrap_ret); cbn [negb];
        by erewrite M_bind_err by by apply wrap_err.
    + split; (erewrite M_bind_ret by by apply wrap_ret); cbn [negb];
        by erewrite M_bind_panic by by apply wrap_panic.
  - split; [|split]; by erewrite M_bind_ret by by apply wrap_ret.
  - split; [|split]; eexists; by erewrite M_bind_err by by apply wrap_err.
  - by erewrite M_bind_panic by by apply wrap_panic.
Qed.

(** A contract that records its own operator, with a stake of 5. *)
#[export] Instance toy_client : EigenLayer.Client Address (gset Address) := {
  RegisterOperator _ self := modify (λ s, {[self]} ∪ s);
  IsOperatorRegistered a _ := λ s, (s, Ret (bool_decide (a ∈ s)));
  GetOperatorStake a _ := mret (Some 5);
  SubmitTaskResponse _ _ _ _ := mret tt;
  GetTask _ _ := mret None;
}.

(** The package's own client fails every registration and every validation. *)
Lemma package_client_fails `{Common} {S} (c : EigenLayer.client) a uri (s : S) :
  RegisterOperatorWithEigenLayer (NewRegistrationManager c) a uri s =
    (s, Err "failed to check operator registration status: not implemented") ∧
  ValidateOperatorRegistration (NewRegistrationManager c) a s =
    (s, Err "failed to check operator registration: not implemented").
Proof. done. Qed.

Lemma registration_follows_client_witness :
  let s : gset Address := {[ [1] ]} in
  @RegisterOperatorWithEigenLayer _ _ toy_client (NewRegistrationManager [1]) [1] "uri" s = (s, Ret tt) ∧
  @ValidateOperatorRegistration _ _ toy_client text_common (NewRegistrationManager [1]) [1] s =
    (s, Ret tt).
Proof.
  intros s. pose proof (@registration_follows_client _ _ toy_client text_common [1] [1] "uri" s) as Hs.
  assert (IsOperatorRegistered [1] ([1] : Address) s = (s, Ret true)) as E by (vm_compute; reflexivity).
  rewrite E in Hs. destruct Hs as [Hr [Hv _]]. split; [exact Hr|]. apply Hv. discriminate.
Defined.
