(* ===== verification/Runtime.v ===== *)
(** * What the service under [internal/] relies on outside the repository

    The clocks, [go-ethereum]'s [ethclient] and key handling and
    [crypto/rand], as operations on a state [S] that stands for the outside
    world.  As in the package [time] there are two clocks.  [RuntimeLaws] says
    that the monotonic one never goes back and that [Sleep] takes at least its
    duration; of the wall clock, which can be set at any time, it says only
    that it can be read. *)

From S2P Require Import Prelude BigInt GoEthereum.

Class Runtime (S : Type) := {
  (** the wall clock, of which [time.Now().Unix()] and [UnixNano()] speak *)
  Now : M S time;
  (** the monotonic clock, by which the deadline of a context is kept *)
  Mono : M S time;
  Sleep : Z → M S unit;
  RandRead : nat → M S (list Z);
  (** [ethclient]: a connection and the calls made on it *)
  Conn : Type;
  Dial : string → M S Conn;
  Close : Conn → M S unit;
  BlockNumber : Conn → M S Z;
  ChainID : Conn → M S bigint;
  SuggestGasPrice : Conn → M S bigint;
  (** the status of the receipt *)
  TransactionReceipt : Conn → Hash → M S Z;
  (** keys and signatures *)
  Key : Type;
  HexToECDSA : string → res Key;
  KeyAddress : Key → Address;
  Tx : Type;
  SignTx : Tx → bigint → Key → res Tx;
}.

Class RuntimeLaws (S : Type) `{Runtime S} := {
  clock : S → time;
  now_ok s : ∃ t s', Now s = (s', Ret t) ∧ clock s ≤ clock s';
  mono_clock s : ∃ t s', Mono s = (s', Ret t) ∧ clock s ≤ t ∧ clock s' = t;
  sleep_clock d s : 0 ≤ d → ∃ s', Sleep d s = (s', Ret tt) ∧ clock s + d ≤ clock s';
  receipt_clock c h s : clock s ≤ clock (TransactionReceipt c h s).1 ∧
    ∀ p, (TransactionReceipt c h s).2 ≠ Panic p;
}.

(** The node answers or fails, a chain id it answers is not nil, and closing a
    connection does not panic. *)
Class NodeLaws (S : Type) `{Runtime S} := {
  block_number_ok c s p : (BlockNumber c s).2 ≠ Panic p;
  close_ok c s p : (Close c s).2 ≠ Panic p;
  chain_id_ok c s : match (ChainID c s).2 with Ret (Some _) | Err _ => True | _ => False end;
}.

(** ** A world to run the definitions in *)

(** The monotonic clock moves with [Sleep] and one nanosecond per query for a
    receipt, answered from the script and then with failures.  The wall clock
    shows the scripted readings and then agrees with the monotonic one.  A node
    is its URL, and the connections closed are kept in order. *)
Record World := mkWorld {
  wd_clock : time;
  wd_wall : list time;
  wd_receipts : list (res Z);
  wd_closed : list string;
}.

Definition world_at (t : time) (receipts : list (res Z)) : World := mkWorld t [] receipts [].

(** A world whose wall clock is about to show [wall]. *)
Definition wall_world (t : time) (wall : list time) : World := mkWorld t wall [] [].

Definition tick_world (d : Z) (w : World) : World :=
  mkWorld (wd_clock w + d) (wd_wall w) (wd_receipts w) (wd_closed w).

Definition close_world (url : string) (w : World) : World :=
  mkWorld (wd_clock w) (wd_wall w) (wd_receipts w) (wd_closed w ++ [url]).

Definition next_receipt (w : World) : World :=
  mkWorld (wd_clock w + 1) (wd_wall w) (tail (wd_receipts w)) (wd_closed w).

Definition world_now : M World time := λ w,
  (mkWorld (wd_clock w) (tail (wd_wall w)) (wd_receipts w) (wd_closed w),
   Ret (hd (wd_clock w) (wd_wall w))).

Definition world_receipt : M World Z := λ w,
  (next_receipt w,
   match wd_receipts w with
   | [] | Panic _ :: _ => Err "not found"
   | r :: _ => r
   end).

#[export] Instance world_runtime : Runtime World := {
  Now := world_now;
  Mono := λ w, (w, Ret (wd_clock w));
  Sleep d := modify (tick_world d);
  RandRead n := mret (replicate n 7);
  Conn := string;
  Dial url := if bool_decide (url = "unreachable") then throw "no such host" else mret url;
  Close url := modify (close_world url);
  BlockNumber url := if bool_decide (url = "down") then throw "connection refused" else mret 18000000;
  ChainID _ := mret (Some 1);
  SuggestGasPrice _ := mret (Some 15000000000);
  TransactionReceipt _ _ := world_receipt;
  Key := string;
  HexToECDSA s := Ret s;
  KeyAddress k := left_pad 20 (text_bytes k);
  Tx := string;
  SignTx tx _ k := Ret (tx +:+ k);
}.

#[export] Instance world_laws : RuntimeLaws World.
Proof.
  refine {| clock := wd_clock |}.
  - intros w. eexists _, _. split; [reflexivity|]. cbn. lia.
  - intros w. exists (wd_clock w), w. split; [done|]. split; [lia|done].
  - intros d w Hd. exists (tick_world d w). cbn. split; [done|lia].
  - intros c h w. cbn. unfold world_receipt, next_receipt.
    destruct (wd_receipts w) as [|[?|?|?] rs]; cbn; (split; [lia|done]).
Defined.

#[export] Instance world_node : NodeLaws World.
Proof. split; [|done|by intros]. intros c s p. cbn. by case_bool_decide. Qed.
