(* ===== verification/ChainConn.v ===== *)
(** * [internal/blockchain/chain.go]: a connection to one chain

    Pool states are the map the code builds; the rest of the outside world is
    [Runtime]. *)

From S2P Require Import Prelude BigInt GoEthereum Runtime.

(** ** Data *)

Record ChainConfig := mkChainConfig {
  ch_ID : Z;
  ch_Name : string;
  ch_RPCURL : string;
  ch_WSURL : string;
  ch_PrivateKey : string;
  ch_SyncAVS : string;
  ch_PoolManager : string;
  ch_SyncHook : string;
  ch_Confirmations : Z;
}.

(** The values of the map [GetPoolStates] returns. *)
Inductive svalue : Type :=
  | SUint (n : Z)
  | SInt (n : Z)
  | SPools (pools : list (gmap string string)).

Abbreviation PoolStates := (gmap string svalue).

Section chain.
Context {S : Type} `{Runtime S, Common}.

Record Chain := mkChain {
  cn_ID : Z;
  cn_Name : string;
  cn_Client : Conn;
  cn_WSClient : option Conn;
  cn_PrivateKey : Key;
  cn_Address : Address;
  cn_SyncAVS : Address;
  cn_PoolManager : Address;
  cn_SyncHook : Address;
  cn_Confirmations : Z;
}.

(** [bind.TransactOpts], with the function [getSigner] returns. *)
Record TransactOpts := mkTransactOpts {
  to_From : Address;
  to_Signer : Address → Tx → res Tx;
  to_GasLimit : Z;
  to_GasPrice : bigint;
}.

Definition NewChain (cfg : ChainConfig) : M S Chain :=
  privateKey ← wrap "invalid private key: " (lift (HexToECDSA (ch_PrivateKey cfg)));
  let address := KeyAddress privateKey in
  client ← wrap "failed to connect to RPC: " (Dial (ch_RPCURL cfg));
  wsClient ←
    (if bool_decide (ch_WSURL cfg = "") then mret None else
     r ← try (Dial (ch_WSURL cfg));
     mret (match r with inl c => Some c | inr _ => None end));
  mret (mkChain (ch_ID cfg) (ch_Name cfg) client wsClient privateKey address
          (HexToAddress (ch_SyncAVS cfg)) (HexToAddress (ch_PoolManager cfg))
          (HexToAddress (ch_SyncHook cfg)) (ch_Confirmations cfg)).

Definition chain_Start (c : Chain) : M S unit := mret tt.

Definition chain_Stop (c : Chain) : M S unit :=
  Close (cn_Client c);;
  match cn_WSClient c with
  | Some ws => Close ws
  | None => mret tt
  end.

(** [chainID.Uint64()] keeps the low 64 bits of the magnitude. *)
Definition big_Uint64 (x : bigint) : res Z :=
  match x with
  | Some a => Ret (u64 (Z.abs a))
  | None => Panic NilDeref
  end.

(** The map [GetPoolStates] builds. *)
Definition pool_states (blockNumber chainID : Z) (now : time) : PoolStates :=
  <["pools" := SPools [list_to_map [
      ("pool_id", "0x1234567890abcdef");
      ("liquidity", "1000000000000000000000");
      ("price", "2000000000000000000000");
      ("volume_24h", "500000000000000000000");
      ("fees_24h", "1000000000000000000")]]]>
  (<["timestamp" := SInt (Unix now)]>
  (<["chain_id" := SUint chainID]>
  {["block_number" := SUint blockNumber]})).

Definition GetPoolStates (c : Chain) : M S PoolStates :=
  blockNumber ← wrap "failed to get block number: " (BlockNumber (cn_Client c));
  chainID ← wrap "failed to get chain ID: " (ChainID (cn_Client c));
  chainID ← lift (big_Uint64 chainID);
  now ← Now;
  mret (pool_states blockNumber chainID now).

Definition chain_SubmitStateUpdate (state : PoolStates) (c : Chain) : M S unit :=
  Sleep 100000000.

Definition getSigner (chainID : bigint) (c : Chain) : Address → Tx → res Tx :=
  λ _ tx, SignTx tx chainID (cn_PrivateKey c).

(** The error of [ChainID] is dropped: the chain id is nil then. *)
Definition GetTransactor (c : Chain) : M S TransactOpts :=
  r ← try (ChainID (cn_Client c));
  let chainID := match r with inl id => id | inr _ => None end in
  mret (mkTransactOpts (cn_Address c) (getSigner chainID c) 300000 (NewInt 20000000000)).

(** ** Waiting for a receipt *)

(** One iteration reads the clock (the context is done from its deadline on,
    which is kept on the monotonic clock),
    asks for the receipt, and sleeps a second when there is none.  The result
    is [None] when the fuel runs out. *)
Fixpoint wait_loop (fuel : nat) (deadline : time) (txHash : Hash) (c : Chain) : M S (option unit) :=
  match fuel with
  | O => mret None
  | Datatypes.S fuel =>
      now ← Mono;
      if bool_decide (deadline ≤ now) then throw "timeout waiting for confirmation" else
      receipt ← try (TransactionReceipt (cn_Client c) txHash);
      match receipt with
      | inr _ => Sleep second;; wait_loop fuel deadline txHash c
      | inl status =>
          if bool_decide (status = 1) then mret (Some tt) else throw "transaction failed"
      end
  end.

(** Every iteration but the last takes a second, so 301 are enough. *)
Definition confirmation_fuel : nat := 301.

Definition WaitForConfirmation (txHash : Hash) (c : Chain) : M S (option unit) :=
  now ← Mono;
  wait_loop confirmation_fuel (now + 5 * 60 * second) txHash c.
End chain.
Arguments Chain S {_}.
Arguments TransactOpts S {_}.
