(* ===== verification/BridgeClient.v ===== *)
(** * [internal/across/client.go]: the bridge client of the service *)

From S2P Require Import Prelude BigInt GoEthereum Runtime ChainConn.

Record AcrossConfig := mkAcrossConfig {
  xc_SpokePool : string;
  xc_HubPool : string;
  xc_RelayerFeePct : string;
  xc_MaxGasPrice : string;
}.

Record CrossChainTransfer := mkTransfer {
  xt_FromChain : Z;
  xt_ToChain : Z;
  xt_Token : Address;
  xt_Amount : bigint;
  xt_Recipient : Address;
  xt_RelayerFee : bigint;
  xt_Message : string;
  xt_MaxGasPrice : bigint;
  xt_MaxGasLimit : bigint;
}.

Record TransferResult := mkTransferResult {
  tf_TransactionHash : Hash;
  tf_DepositID : bigint;
  tf_Status : string;
  tf_GasUsed : Z;
  tf_BlockNumber : Z;
}.

(** [common.Hash{}] *)
Definition zero_hash : Hash := replicate 32 0.

(** [fmt.Sprintf("%x", n)] and its padded form. *)
Definition hex_digit (d : Z) : Ascii.ascii :=
  Ascii.ascii_of_N (Z.to_N (if bool_decide (d < 10) then 48 + d else 87 + d)).
Fixpoint hex_digits (n : nat) (z : Z) : string :=
  match n with
  | O => ""
  | Datatypes.S n => hex_digits n (z / 16) +:+ String (hex_digit (z mod 16)) ""
  end.

(** [fmt.Sprintf("%064x", n)]: 64 characters, the sign one of them. *)
Definition hex64 (z : Z) : string :=
  if bool_decide (z < 0) then "-" +:+ hex_digits 63 (- z) else hex_digits 64 z.

Section bridge.
Context {S : Type} `{Runtime S, Common}.

Record BridgeClient := mkBridgeClient {
  br_config : AcrossConfig;
  br_client : Conn;
  br_spokePool : Address;
  br_hubPool : Address;
  br_relayerFeePct : bigint;
  br_maxGasPrice : bigint;
}.

Definition NewClient (cfg : AcrossConfig) (client : Conn) : res BridgeClient :=
  match SetString10 (xc_RelayerFeePct cfg) with
  | None => Err ("invalid relayer fee percentage: " +:+ xc_RelayerFeePct cfg)
  | Some relayerFeePct =>
      match SetString10 (xc_MaxGasPrice cfg) with
      | None => Err ("invalid max gas price: " +:+ xc_MaxGasPrice cfg)
      | Some maxGasPrice =>
          Ret (mkBridgeClient cfg client (HexToAddress (xc_SpokePool cfg))
                 (HexToAddress (xc_HubPool cfg)) (Some relayerFeePct) (Some maxGasPrice))
      end
  end.

Definition InitiateTransfer (transfer : option CrossChainTransfer) (transactor : TransactOpts S)
    (c : BridgeClient) : M S TransferResult :=
  match transfer with
  | None => lift (Panic NilDeref)
  | Some _ =>
      Sleep 100000000;;
      now1 ← Now;
      let txHash := HexToHash ("0x" +:+ hex64 (UnixNano now1)) in
      now2 ← Now;
      mret (mkTransferResult txHash (NewInt (Unix now2)) "pending" 150000 0)
  end.

(** [time.Now().Unix()%2 == 0], with Go's remainder. *)
Definition GetTransferStatus (depositID : bigint) (c : BridgeClient) : M S TransferResult :=
  now ← Now;
  let status := if bool_decide (Z.rem (Unix now) 2 = 0) then "pending" else "completed" in
  mret (mkTransferResult zero_hash depositID status 150000 18000000).

Definition CalculateRelayerFee (amount : bigint) (c : BridgeClient) : res bigint :=
  fee ← big_Mul amount (br_relayerFeePct c);
  big_Div fee (NewInt 1000000000000000000).

Definition bridge_EstimateGas (transfer : option CrossChainTransfer) (c : BridgeClient) : res Z :=
  Ret 200000.

Definition GetCurrentGasPrice (c : BridgeClient) : M S bigint :=
  gasPrice ← wrap "failed to get gas price: " (SuggestGasPrice (br_client c));
  r ← lift (big_Cmp gasPrice (br_maxGasPrice c));
  mret (if bool_decide (0 < r) then br_maxGasPrice c else gasPrice).

Definition IsTransferComplete (depositID : bigint) (c : BridgeClient) : M S bool :=
  status ← GetTransferStatus depositID c;
  mret (bool_decide (tf_Status status = "completed")).

Definition GetSupportedTokens (c : BridgeClient) : res (list Address) :=
  Ret (HexToAddress <$> ["0x0000000000000000000000000000000000000000";
    "0xA0b86a33E6441c8C06DdDde5A3a8c6b4b8f1"; "0xdAC17F958D2ee523a2206206994597C13D831ec7";
    "0x6B175474E89094C44Da98b954EedeAC495271d0F"]).

Definition GetTransferHistory (address : Address) (limit : Z) (c : BridgeClient)
    : res (list TransferResult) := Ret [].
End bridge.
Arguments BridgeClient S {_}.
