(* ===== verification/Rebalancer.v ===== *)
(** * [internal/rebalancer/rebalancer.go]: the rebalancing service

    Its state [Rb] is the outside world, the transfers it has initiated and the
    monitors it has started, one goroutine per transfer.  [range] over the
    chains is in any order. *)

From S2P Require Import Prelude BigInt GoEthereum Runtime ChainConn BridgeClient.

Record RebalancingOpportunity := mkOpportunity {
  op_FromChain : Z;
  op_ToChain : Z;
  op_Token : string;
  op_Amount : string;
  op_ExpectedProfit : string;
  op_Priority : Z;
}.

Section rebalancer.
Context {S : Type} `{Runtime S, Common, RangeOrder}.

(** The configuration, the EigenLayer client and the database are only stored. *)
Record Rebalancer := mkRebalancer {
  rb_chains : gmap Z (Chain S);
  rb_across : gmap Z (BridgeClient S);
}.

Record Rb := mkRb {
  rb_world : S;
  rb_transfers : list CrossChainTransfer;
  rb_monitors : list (RebalancingOpportunity * TransferResult);
}.

(** An operation on the outside world alone. *)
Definition outside {A} (m : M S A) : M Rb A := λ r,
  let '(w, a) := m (rb_world r) in (mkRb w (rb_transfers r) (rb_monitors r), a).

Definition NewRebalancer (cfg : AcrossConfig) (chains : gmap Z (Chain S)) : res Rebalancer :=
  acrossClients ← foldM (λ acrossClients kc,
      acrossClient ←
        wrap_res ("failed to create Across client for chain " +:+ pretty kc.1 +:+ ": ")
          (NewClient cfg (cn_Client kc.2));
      mret (<[kc.1 := acrossClient]> acrossClients)) ∅ (range_list 0 chains);
  mret (mkRebalancer chains acrossClients).

Definition analyzeRebalancingOpportunities (chainStates : gmap Z PoolStates)
    : res (list RebalancingOpportunity) :=
  Ret [mkOpportunity 1 42161 "0x1234567890abcdef" "100000000000000000000" "5000000000000000000" 1].

Definition executeRebalancingOperation (opportunity : RebalancingOpportunity) (r : Rebalancer)
    : M Rb unit :=
  match rb_chains r !! op_FromChain opportunity with
  | None => throw ("source chain " +:+ pretty (op_FromChain opportunity) +:+ " not found")
  | Some sourceChain =>
      match rb_across r !! op_FromChain opportunity with
      | None =>
          throw ("Across client for chain " +:+ pretty (op_FromChain opportunity) +:+ " not found")
      | Some acrossClient =>
          match SetString10 (op_Amount opportunity) with
          | None => throw ("invalid amount: " +:+ op_Amount opportunity)
          | Some amount =>
              fee ← lift (CalculateRelayerFee (Some amount) acrossClient);
              let transfer := mkTransfer (op_FromChain opportunity) (op_ToChain opportunity)
                (HexToAddress (op_Token opportunity)) (Some amount) (cn_Address sourceChain) fee
                "SyncHook rebalancing" (NewInt 20000000000) (NewInt 300000) in
              transactor ← outside (GetTransactor sourceChain);
              modify (λ s, mkRb (rb_world s) (rb_transfers s ++ [transfer]) (rb_monitors s));;
              result ← wrap "failed to initiate transfer: "
                (outside (InitiateTransfer (Some transfer) transactor acrossClient));
              modify (λ s, mkRb (rb_world s) (rb_transfers s)
                             (rb_monitors s ++ [(opportunity, result)]))
          end
      end
  end.

(** Errors are logged and the next opportunity is tried. *)
Definition executeRebalancing (opportunities : list RebalancingOpportunity) (r : Rebalancer)
    : M Rb unit :=
  foldM (λ _ opportunity, try (executeRebalancingOperation opportunity r);; mret tt) tt opportunities.

(** One tick of [rebalancingRoutine]. *)
Definition checkRebalancingOpportunities (r : Rebalancer) : M Rb unit :=
  chainStates ← foldM (λ chainStates kc,
      states ← try (outside (GetPoolStates kc.2));
      mret (match states with
            | inl states => <[kc.1 := states]> chainStates
            | inr _ => chainStates
            end)) ∅ (range_list 0 (rb_chains r));
  opportunities ← try (lift (analyzeRebalancingOpportunities chainStates));
  match opportunities with
  | inr _ => mret tt
  | inl opportunities =>
      if bool_decide (0 < length opportunities)%nat then executeRebalancing opportunities r
      else mret tt
  end.

(** [rebalancingRoutine], which [Start] runs until its context is done: the
    nanoseconds until each tick, [None] for the end of the context.  The result
    says whether it has returned. *)
Fixpoint rebalancingRoutine (waits : list (option Z)) (r : Rebalancer) : M Rb bool :=
  match waits with
  | [] => mret false
  | None :: _ => mret true
  | Some d :: waits =>
      outside (Sleep d);;
      checkRebalancingOpportunities r;;
      rebalancingRoutine waits r
  end.

(** ** [monitorTransfer] *)

(** Its goroutine runs until a tick finds the transfer complete or the context
    is done; the result says whether it has returned.  Its bridge client is
    there: the transfer was initiated through it. *)
Definition monitor_tick (result : TransferResult) (acrossClient : BridgeClient S) : M S bool :=
  complete ← try (IsTransferComplete (tf_DepositID result) acrossClient);
  mret (match complete with inl true => true | _ => false end).

(** [Z] nanoseconds until the next tick; [None] is the end of the context. *)
Fixpoint monitorTransfer (waits : list (option Z)) (result : TransferResult)
    (acrossClient : BridgeClient S) : M S bool :=
  match waits with
  | [] => mret false
  | None :: _ => mret true
  | Some d :: waits =>
      Sleep d;;
      finished ← monitor_tick result acrossClient;
      if (finished : bool) then mret true else monitorTransfer waits result acrossClient
  end.
End rebalancer.
Arguments Rebalancer S {_}.
Arguments Rb S : clear implicits.
