(* ===== verification/RebalancerProps.v ===== *)
(** * The rebalancing service: bridge client, confirmations, ticks and monitors

    Each part relies on what [Runtime] promises of the clock and the nodes. *)

From S2P Require Import Prelude BigInt GoEthereum Runtime ChainConn BridgeClient Rebalancer.

(** A concrete call returns. *)
Definition returns {A} (r : res A) : bool := match r with Ret _ => true | _ => false end.
Lemma returns_true {A} (r : res A) : returns r = true → ∃ a, r = Ret a.
Proof. destruct r; try done. by eexists. Qed.

(** ** [WaitForConfirmation] *)

Section confirmation.
Context {S : Type} `{RuntimeLaws S, Common}.
Implicit Types (c : Chain S) (s : S).

(** The loop as the code has it, without fuel: [waited deadline h c n s o] says
    that from [s] it ends as [o] after asking for the receipt [n] times. *)
Inductive waited (deadline : time) (h : Hash) c : nat → S → S * res (option unit) → Prop :=
  | waited_timeout s s' t :
      Mono s = (s', Ret t) → deadline ≤ t →
      waited deadline h c 0 s (s', Err "timeout waiting for confirmation")
  | waited_mined s s1 s2 t status :
      Mono s = (s1, Ret t) → t < deadline →
      TransactionReceipt (cn_Client c) h s1 = (s2, Ret status) →
      waited deadline h c 1 s
        (s2, if bool_decide (status = 1) then Ret (Some tt) else Err "transaction failed")
  | waited_again s s1 s2 s3 t e n o :
      Mono s = (s1, Ret t) → t < deadline →
      TransactionReceipt (cn_Client c) h s1 = (s2, Err e) →
      Sleep second s2 = (s3, Ret tt) →
      waited deadline h c n s3 o → waited deadline h c (Datatypes.S n) s o.

(** Fuel for the seconds left is enough, and bounds the number of queries. *)
Lemma wait_loop_ends fuel deadline h c s :
  deadline - clock s ≤ Z.of_nat fuel * second →
  ∃ n, (n ≤ fuel)%nat ∧ waited deadline h c n s (wait_loop (Datatypes.S fuel) deadline h c s).
Proof.
  revert s. induction fuel as [|fuel IH]; intros s Hf; cbn [wait_loop];
    destruct (mono_clock s) as (t & s1 & Hnow & Hle & Ht); rewrite (M_bind_ret _ _ _ _ _ Hnow).
  { rewrite bool_decide_eq_true_2 by lia. exists 0%nat. split; [lia|]. econstructor; [done|lia]. }
  case_bool_decide as Hd; [exists 0%nat; split; [lia|by econstructor]|].
  destruct (receipt_clock (cn_Client c) h s1) as [Hr Hp].
  destruct (TransactionReceipt (cn_Client c) h s1) as [s2 [status|e|p]] eqn:Er; [| |by destruct (Hp p)].
  - erewrite M_bind_ret by (unfold try; by rewrite Er). exists 1%nat. split; [lia|].
    assert (Hm := waited_mined deadline h c s s1 s2 t status Hnow ltac:(lia) Er).
    by case_bool_decide.
  - erewrite M_bind_ret by (unfold try; by rewrite Er).
    destruct (sleep_clock second s2) as (s3 & Hs & Hclock); [unfold second; lia|].
    rewrite (M_bind_ret _ _ _ _ _ Hs). cbn [fst] in Hr.
    destruct (IH s3) as (n & Hn & Hw); [lia|].
    exists (Datatypes.S n). split; [lia|]. eapply waited_again; eauto. lia.
Qed.

Lemma waited_result deadline h c n s o :
  waited deadline h c n s o →
  o.2 = Ret (Some tt) ∨ o.2 = Err "timeout waiting for confirmation" ∨ o.2 = Err "transaction failed".
Proof. induction 1; [by auto| |done]. cbn. case_bool_decide; auto. Qed.
End confirmation.

Definition with_Confirmations {S} `{Runtime S} (k : Z) (c : Chain S) : Chain S :=
  mkChain (cn_ID c) (cn_Name c) (cn_Client c) (cn_WSClient c) (cn_PrivateKey c) (cn_Address c)
    (cn_SyncAVS c) (cn_PoolManager c) (cn_SyncHook c) k.

(** [C10] Waiting for a transaction.  Whatever the node answers,
    [WaitForConfirmation] returns: it asks for the receipt at most 300 times, a
    second apart, until five minutes after it was called, and its result is
    that of the unbounded loop of the code, success, failure or a timeout.  One
    receipt of status 1 is enough whatever number of confirmations the chain is
    configured with. *)
Theorem WaitForConfirmation_ends {S} `{RuntimeLaws S, Common} (h : Hash) (c : Chain S) (s : S) :
  (∃ t s' n, Mono s = (s', Ret t) ∧ (n ≤ 300)%nat ∧
     waited (t + 5 * 60 * second) h c n s' (WaitForConfirmation h c s)) ∧
  ((WaitForConfirmation h c s).2 = Ret (Some tt) ∨
   (WaitForConfirmation h c s).2 = Err "timeout waiting for confirmation" ∨
   (WaitForConfirmation h c s).2 = Err "transaction failed") ∧
  (∀ k, WaitForConfirmation h (with_Confirmations k c) s = WaitForConfirmation h c s).
Proof.
  destruct (mono_clock s) as (t & s1 & Hnow & Hle & Ht).
  unfold WaitForConfirmation at 1 2 3 4. rewrite !(M_bind_ret _ _ _ _ _ Hnow).
  destruct (wait_loop_ends 300 (t + 5 * 60 * second) h c s1) as (n & Hn & Hw).
  { unfold second. lia. }
  split; [exists t, s1, n; by split_and!|]. split; [exact (waited_result _ _ _ _ _ _ Hw)|].
  intros k. unfold WaitForConfirmation. apply M_bind_ext. intros s' a _. clear.
  revert s'. induction confirmation_fuel as [|fuel IH]; intros s'; [done|]. cbn [wait_loop].
  apply M_bind_ext. intros s1 b _. case_bool_decide; [done|].
  apply M_bind_ext. intros s2 [status|e] _; [done|]. apply M_bind_ext. intros s3 _ _. apply IH.
Qed.

(** A receipt that arrives at the third query, and a node that never has one. *)
Lemma WaitForConfirmation_ends_witness :
  let c : Chain World := mkChain 1 "eth" "rpc" None "k" [1] [2] [3] [4] 12 in
  let w rs := world_at (1700000000 * second) rs in
  (∃ n, (n ≤ 300)%nat ∧ waited (1700000300 * second) [7] c n (w [Err "a"; Err "b"; Ret 1])
     (WaitForConfirmation [7] c (w [Err "a"; Err "b"; Ret 1]))) ∧
  (WaitForConfirmation [7] c (w [Err "a"; Err "b"; Ret 1])).2 = Ret (Some tt) ∧
  (WaitForConfirmation [7] c (w [])).2 = Err "timeout waiting for confirmation".
Proof.
  intros c w. destruct (@WaitForConfirmation_ends World _ _ text_common [7] c (w [Err "a"; Err "b"; Ret 1]))
    as [(t & s' & n & Hnow & Hn & Hw) _].
  injection Hnow as <- <-. split; [by exists n|]. split; vm_compute; reflexivity.
Defined.

(** ** Fees and gas prices *)

Lemma CalculateRelayerFee_floor {S} `{Runtime S} a pct (c : BridgeClient S) :
  br_relayerFeePct c = Some pct → CalculateRelayerFee (Some a) c = Ret (Some (a * pct / 10 ^ 18)).
Proof.
  intros Hp. unfold CalculateRelayerFee. rewrite Hp. cbn [big_Mul big_op2 mbind res_bind].
  unfold big_Div, NewInt. rewrite decide_False by done. by rewrite euclid_div_pos.
Qed.

(** [C32] Bridge prices.  For a relayer fee given in parts of 1e18 the fee is the
    exact product rounded down; it is never negative and never more than the
    amount while the configured part is at most the whole.  The gas price used
    is the node's, capped at the configured maximum.  A client whose two
    amounts do not parse is not built. *)
Theorem bridge_prices {S} `{Runtime S, Common} (cfg : AcrossConfig) (conn : Conn) (s s' : S) a g :
  match NewClient cfg conn with
  | Ret c => ∃ pct mx, br_relayerFeePct c = Some pct ∧ br_maxGasPrice c = Some mx ∧
      SetString10 (xc_RelayerFeePct cfg) = Some pct ∧ SetString10 (xc_MaxGasPrice cfg) = Some mx ∧
      (∃ fee, CalculateRelayerFee (Some a) c = Ret (Some fee) ∧
         fee * 10 ^ 18 ≤ a * pct < (fee + 1) * 10 ^ 18 ∧
         (0 ≤ a → 0 ≤ pct ≤ 10 ^ 18 → 0 ≤ fee ≤ a)) ∧
      (SuggestGasPrice conn s = (s', Ret (Some g)) →
         GetCurrentGasPrice c s = (s', Ret (Some (Z.min g mx))))
  | Err _ => SetString10 (xc_RelayerFeePct cfg) = None ∨ SetString10 (xc_MaxGasPrice cfg) = None
  | Panic _ => False
  end.
Proof.
  unfold NewClient. destruct (SetString10 (xc_RelayerFeePct cfg)) as [pct|]; [|by left].
  destruct (SetString10 (xc_MaxGasPrice cfg)) as [mx|]; [|by right].
  exists pct, mx. split_and!; [done..| |].
  - eexists. split; [by apply CalculateRelayerFee_floor|].
    pose proof (Z.mul_div_le (a * pct) (10 ^ 18)). pose proof (Z.mul_succ_div_gt (a * pct) (10 ^ 18)).
    split; [lia|]. intros Ha Hp. split; [apply Z.div_pos; nia|]. apply Z.div_le_upper_bound; nia.
  - intros Hg. unfold GetCurrentGasPrice. cbn [br_client]. erewrite M_bind_ret by by apply wrap_ret.
    cbn [br_maxGasPrice]. unfold mbind, M_bind, lift. cbn.
    destruct (Z.compare_spec g mx); cbn; rewrite ?(Z.min_l g mx), ?(Z.min_r g mx) by lia; done.
Qed.

(** A tenth of a percent of 100 ETH, and a price above the maximum of 10 gwei. *)
Lemma bridge_prices_witness :
  let cfg := mkAcrossConfig "0x5c" "0xc1" "1000000000000000" "10000000000" in
  let w := world_at 0 [] in
  let conn : @Conn World _ := "rpc" in
  ∃ c, @NewClient World _ text_common cfg conn = Ret c ∧
    CalculateRelayerFee (Some (100 * 10 ^ 18)) c = Ret (Some (10 ^ 17)) ∧
    GetCurrentGasPrice c w = (w, Ret (Some 10000000000)).
Proof.
  intros cfg w conn.
  pose proof (@bridge_prices World _ text_common cfg conn w w (100 * 10 ^ 18) 15000000000) as T.
  destruct (returns_true (@NewClient World _ text_common cfg conn)) as [c E]; [vm_compute; reflexivity|].
  rewrite E in T.
  destruct T as (pct & mx & Hp & Hm & Hsp & Hsm & (fee & Hfee & Hb & _) & Hg).
  vm_compute in Hsp, Hsm. injection Hsp as <-. injection Hsm as <-.
  exists c. split; [done|]. split; [rewrite Hfee; do 2 f_equal; lia|]. by apply Hg.
Defined.

(** ** Ticks *)

Section ticks.
Context {S : Type} `{RuntimeLaws S, !NodeLaws S, Common, RangeOrder}.
Implicit Types (r : Rb S) (c : Chain S).

(** [m] returns a value and leaves the transfers and the monitors alone. *)
Definition quiet {A} (m : M (Rb S) A) : Prop :=
  ∀ r, ∃ w a, m r = (mkRb w (rb_transfers r) (rb_monitors r), Ret a).

Lemma quiet_ret {A} (a : A) : quiet (mret a).
Proof. intros [w ts ms]. by exists w, a. Qed.

Lemma quiet_bind {A B} (m : M (Rb S) A) (k : A → M (Rb S) B) :
  quiet m → (∀ a, quiet (k a)) → quiet (m ≫= k).
Proof.
  intros Hm Hk r. destruct (Hm r) as (w & a & E). rewrite (M_bind_ret _ _ _ _ _ E).
  destruct (Hk a (mkRb w (rb_transfers r) (rb_monitors r))) as (w' & b & E'). by exists w', b.
Qed.

Lemma quiet_foldM {A B} (f : A → B → M (Rb S) A) l :
  (∀ a b, quiet (f a b)) → ∀ a, quiet (foldM f a l).
Proof.
  intros Hf. induction l as [|b l IH]; intros a; [apply quiet_ret|]. by apply quiet_bind.
Qed.

Lemma quiet_outside {A} (m : M S A) : (∀ s, ∃ a, (m s).2 = Ret a) → quiet (outside m).
Proof.
  intros Hm r. destruct (Hm (rb_world r)) as [a Ha]. exists (m (rb_world r)).1, a.
  unfold outside. destruct (m (rb_world r)) as [w b]. cbn in *. by subst.
Qed.

Lemma quiet_try {A} (m : M S A) : (∀ s p, (m s).2 ≠ Panic p) → quiet (try (outside m)).
Proof.
  intros Hm r. specialize (Hm (rb_world r)). unfold try, outside.
  destruct (m (rb_world r)) as [w [a|e|p]]; [by exists w, (inl a)|by exists w, (inr e)|by destruct (Hm p)].
Qed.

Lemma GetPoolStates_no_panic c s p : (GetPoolStates c s).2 ≠ Panic p.
Proof.
  unfold GetPoolStates, mbind, M_bind, wrap.
  pose proof (block_number_ok (cn_Client c) s) as Hb.
  destruct (BlockNumber (cn_Client c) s) as [s1 [b|e|q]]; [|done|by destruct (Hb q)].
  pose proof (chain_id_ok (cn_Client c) s1) as Hi. cbn.
  destruct (ChainID (cn_Client c) s1) as [s2 [[i|]|e|q]]; try done. cbn.
  destruct (now_ok s2) as (t & s3 & -> & _). done.
Qed.

Lemma GetTransactor_ret c s : ∃ t, (GetTransactor c s).2 = Ret t.
Proof.
  unfold GetTransactor, mbind, M_bind, try.
  pose proof (chain_id_ok (cn_Client c) s) as Hi.
  destruct (ChainID (cn_Client c) s) as [s2 [i|e|q]]; [..|done]; by eexists.
Qed.

(** The transfer is given the Unix second at which it was initiated. *)
Lemma InitiateTransfer_ret t tr (ac : BridgeClient S) s :
  ∃ s' h t1, InitiateTransfer (Some t) tr ac s =
    (s', Ret (mkTransferResult h (NewInt (Unix t1)) "pending" 150000 0)).
Proof.
  unfold InitiateTransfer. destruct (sleep_clock 100000000 s) as (s1 & E1 & _); [lia|].
  rewrite (M_bind_ret _ _ _ _ _ E1). destruct (now_ok s1) as (t1 & s2 & E2 & _).
  rewrite (M_bind_ret _ _ _ _ _ E2). destruct (now_ok s2) as (t2 & s3 & E3 & _).
  rewrite (M_bind_ret _ _ _ _ _ E3). by eexists _, _, _.
Qed.

(** The only transfer the service ever makes, for a relayer fee of [pct]. *)
Definition fixed_transfer (pct : Z) c : CrossChainTransfer :=
  mkTransfer 1 42161 (HexToAddress "0x1234567890abcdef") (Some (100 * 10 ^ 18)) (cn_Address c)
    (Some (100 * 10 ^ 18 * pct / 10 ^ 18)) "SyncHook rebalancing" (NewInt 20000000000) (NewInt 300000).

(** Every chain has an Across client with a relayer fee of [pct]. *)
Definition bridged (pct : Z) (rb : Rebalancer S) : Prop :=
  ∀ k, is_Some (rb_chains rb !! k) →
    ∃ ac, rb_across rb !! k = Some ac ∧ br_relayerFeePct ac = Some pct.

(** [New] gives every chain a client with the configured fee. *)
Lemma NewRebalancer_clients cfg chains (rb : Rebalancer S) :
  NewRebalancer cfg chains = Ret rb →
  rb_chains rb = chains ∧ bridged (default 0 (SetString10 (xc_RelayerFeePct cfg))) rb.
Proof.
  unfold NewRebalancer. set (f := λ _ _, _). set (pct0 := default 0 _).
  assert (∀ l acc m, foldM f acc l = Ret m →
    (∀ k ac, acc !! k = Some ac → br_relayerFeePct ac = Some pct0) →
    ∀ k, is_Some (acc !! k) ∨ k ∈ l.*1 →
      ∃ ac, m !! k = Some ac ∧ br_relayerFeePct ac = Some pct0) as Hfold.
  { induction l as [|[k c] l IH]; intros acc m; cbn [foldM].
    - intros [= <-] Hacc k [[ac Hk]|Hk%elem_of_nil]; [|done]. exists ac. split; [done|by eapply Hacc].
    - destruct (f acc (k, c)) as [acc'|e|q] eqn:Ef; [|done..]. intros Hm Hacc j Hj.
      unfold f in Ef. cbn in Ef. unfold NewClient in Ef.
      destruct (SetString10 (xc_RelayerFeePct cfg)) as [pct|] eqn:Ep; [|done].
      destruct (SetString10 (xc_MaxGasPrice cfg)) as [mx|]; [|done]. injection Ef as <-.
      eapply IH; [exact Hm| |].
      + intros k' ac. rewrite lookup_insert_Some. intros [[<- <-]|[_ Hk']]; [done|by eapply Hacc].
      + destruct (decide (j = k)) as [->|]; [left; rewrite lookup_insert_eq; by eexists|].
        rewrite lookup_insert_ne by done. destruct Hj as [?|[->|?]%elem_of_cons]; [by left|done|by right]. }
  destruct (foldM f ∅ (range_list 0 chains)) as [m|e|q] eqn:E; [|done..]. intros [= <-].
  split; [done|]. intros k [c Hk]. cbn in Hk. apply (Hfold _ _ _ E).
  - by intros ? ?; rewrite lookup_empty.
  - right. rewrite range_perm. apply list_elem_of_fmap. exists (k, c).
    split; [done|]. by apply elem_of_map_to_list.
Qed.

(** Appending to the transfers and the monitors. *)
Definition grows (ts : list CrossChainTransfer) r r' : Prop :=
  rb_transfers r' = rb_transfers r ++ ts ∧
  length (rb_monitors r') = (length (rb_monitors r) + length ts)%nat.

Lemma grows_trans ts1 ts2 r1 r2 r3 : grows ts1 r1 r2 → grows ts2 r2 r3 → grows (ts1 ++ ts2) r1 r3.
Proof.
  intros [G1 L1] [G2 L2]. split; [by rewrite G2, G1, app_assoc|]. rewrite L2, L1, length_app. lia.
Qed.

Lemma quiet_grows {A} (m : M (Rb S) A) r :
  quiet m → ∃ r' a, m r = (r', Ret a) ∧ grows [] r r'.
Proof.
  intros Hm. destruct (Hm r) as (w & a & E). eexists _, a. split; [exact E|].
  split; cbn; [by rewrite app_nil_r|lia].
Qed.

Lemma executeRebalancingOperation_fixed (rb : Rebalancer S) pct op r :
  analyzeRebalancingOpportunities ∅ = Ret [op] →
  bridged pct rb →
  ∃ r' x, try (executeRebalancingOperation op rb) r = (r', Ret x) ∧
    grows (match rb_chains rb !! 1 with Some c => [fixed_transfer pct c] | None => [] end) r r'.
Proof.
  intros [= <-] Hac. unfold executeRebalancingOperation, try. cbn [op_FromChain op_Amount op_ToChain op_Token].
  destruct (rb_chains rb !! 1) as [c|] eqn:Hc;
    [|by eexists _, _; split; [reflexivity|]; split; cbn; [rewrite app_nil_r|lia]].
  destruct (Hac 1) as (ac & -> & Hpct); [by eexists|].
  assert (SetString10 "100000000000000000000" = Some (100 * 10 ^ 18)) as -> by (vm_compute; reflexivity).
  rewrite (CalculateRelayerFee_floor _ pct) by done.
  erewrite (M_bind_ret (lift _)) by reflexivity.
  destruct (quiet_outside (GetTransactor c) (GetTransactor_ret c) r) as (w & t & E).
  rewrite (M_bind_ret _ _ _ _ _ E). erewrite (M_bind_ret (modify _)) by reflexivity.
  cbn [rb_world rb_transfers rb_monitors].
  match goal with |- context [InitiateTransfer (Some ?tr) t ac] =>
    destruct (InitiateTransfer_ret tr t ac w) as (w' & h & t1 & E') end.
  erewrite M_bind_ret by (apply wrap_ret; unfold outside; cbn [rb_world]; rewrite E'; reflexivity).
  eexists _, _. split; [reflexivity|]. split; cbn; [done|]. rewrite length_app. done.
Qed.

Lemma tick_grows (rb : Rebalancer S) pct r :
  bridged pct rb →
  ∃ r', checkRebalancingOpportunities rb r = (r', Ret tt) ∧
    grows (match rb_chains rb !! 1 with Some c => [fixed_transfer pct c] | None => [] end) r r'.
Proof.
  intros Hac. unfold checkRebalancingOpportunities. set (f := λ _ _, _).
  assert (quiet (foldM f ∅ (range_list 0 (rb_chains rb)))) as Hq.
  { apply quiet_foldM. intros acc [k c]. apply quiet_bind; [|intros; apply quiet_ret].
    apply quiet_try, GetPoolStates_no_panic. }
  destruct (quiet_grows _ r Hq) as (r1 & states & E1 & G1). rewrite (M_bind_ret _ _ _ _ _ E1).
  erewrite (M_bind_ret (try _)) by reflexivity. cbn [length]. rewrite bool_decide_eq_true_2 by lia.
  unfold executeRebalancing. cbn [foldM].
  destruct (executeRebalancingOperation_fixed rb pct _ r1 eq_refl Hac) as (r2 & x & E2 & G2).
  exists r2. split; [|by apply (grows_trans [] _ _ _ _ G1)].
  erewrite M_bind_ret; [reflexivity|]. by erewrite M_bind_ret.
Qed.

(** Ticks until the context is done. *)
Lemma routine_grows (rb : Rebalancer S) pct waits r :
  Forall (λ d, 0 ≤ d) waits →
  bridged pct rb →
  ∃ r', rebalancingRoutine ((Some <$> waits) ++ [None]) rb r = (r', Ret true) ∧
    grows (match rb_chains rb !! 1 with
           | Some c => replicate (length waits) (fixed_transfer pct c)
           | None => []
           end) r r'.
Proof.
  intros Hw Hac. revert r. induction Hw as [|d waits Hd Hw IH]; intros r.
  - exists r. split; [done|]. split; cbn; destruct (rb_chains rb !! 1); cbn; rewrite ?app_nil_r; done || lia.
  - cbn [fmap list_fmap app rebalancingRoutine].
    destruct (quiet_grows (outside (Sleep d)) r) as (r1 & [] & E1 & G1).
    { intros r1. destruct (sleep_clock d (rb_world r1) Hd) as (w & E & _). exists w, tt.
      unfold outside. by rewrite E. }
    rewrite (M_bind_ret _ _ _ _ _ E1). destruct (tick_grows rb pct r1 Hac) as (r2 & E2 & G2).
    rewrite (M_bind_ret _ _ _ _ _ E2). destruct (IH r2) as (r3 & E3 & G3). exists r3. split; [exact E3|].
    pose proof (grows_trans _ _ _ _ _ G1 (grows_trans _ _ _ _ _ G2 G3)) as G.
    cbn [app] in G. by destruct (rb_chains rb !! 1).
Qed.
End ticks.

(** [C11] What the rebalancing service moves.  Once [New] has succeeded the
    service makes, whatever the chains and their nodes answer, exactly one
    transfer per tick when chain 1 is configured and none otherwise: always 100
    ETH of the same token from chain 1 to chain 42161, with the relayer fee
    rounded down.  No state it reads and no other configuration bounds it.
    When its context is done it returns. *)
Theorem one_transfer_per_tick {S} `{RuntimeLaws S, !NodeLaws S, Common, RangeOrder}
    cfg chains (rb : Rebalancer S) pct waits (r : Rb S) :
  NewRebalancer cfg chains = Ret rb →
  SetString10 (xc_RelayerFeePct cfg) = Some pct →
  Forall (λ d, 0 ≤ d) waits →
  ∃ r', rebalancingRoutine ((Some <$> waits) ++ [None]) rb r = (r', Ret true) ∧
    (rb_transfers r' = rb_transfers r ++
      match chains !! 1 with
      | Some c => replicate (length waits) (fixed_transfer pct c)
      | None => []
      end) ∧
    (length (rb_monitors r') - length (rb_monitors r) =
      length (rb_transfers r') - length (rb_transfers r))%nat.
Proof.
  intros Hnew Hpct Hw. destruct (NewRebalancer_clients cfg chains rb Hnew) as [Hch Hac].
  rewrite Hpct in Hac. destruct (routine_grows rb pct waits r Hw Hac) as (r' & E & G & L).
  exists r'. rewrite Hch in G, L. split_and!; [done..|]. rewrite G, L, length_app. lia.
Qed.

(** Three ticks: 300 ETH, whatever the configured maximum is. *)
Lemma one_transfer_per_tick_witness :
  let c : Chain World := mkChain 1 "eth" "rpc" None "k" [1] [2] [3] [4] 12 in
  let cfg := mkAcrossConfig "0x5c" "0xc1" "1000000000000000" "10000000000" in
  let st := mkRb (world_at 0 []) [] [] in
  ∃ rb : Rebalancer World, @NewRebalancer World _ text_common forward_order cfg {[1 := c]} = Ret rb ∧
    rb_transfers (@rebalancingRoutine World _ text_common forward_order
      [Some (60 * second); Some (60 * second); Some (60 * second); None] rb st).1 =
    replicate 3 (@fixed_transfer World _ text_common (10 ^ 15) c).
Proof.
  intros c cfg st.
  destruct (returns_true (@NewRebalancer World _ text_common forward_order cfg {[1 := c]})) as [rb E];
    [vm_compute; reflexivity|].
  exists rb. split; [done|].
  destruct (@one_transfer_per_tick World _ _ _ text_common forward_order cfg {[1 := c]} rb (10 ^ 15)
    (replicate 3 (60 * second)) st E) as (r' & Er & Ht & _).
  - vm_compute. reflexivity.
  - repeat constructor; done.
  - cbn [fmap list_fmap replicate app] in Er. rewrite Er. exact Ht.
Defined.

(** ** Monitors *)

Lemma rem_2_even z : bool_decide (Z.rem z 2 = 0) = Z.even z.
Proof.
  apply eq_true_iff_eq. rewrite bool_decide_eq_true, Z.even_spec.
  rewrite Z.rem_divide by done. unfold Z.divide, Z.Even. split; intros [k ->]; exists k; lia.
Qed.

(** A reading of the wall clock that shows an odd second. *)
Definition odd_second (t : time) : bool := Z.odd (Unix t).

Section monitors.
Context {S : Type} `{RuntimeLaws S, Common}.
Implicit Types (ac : BridgeClient S) (s : S).

(** What the wall clock shows at ticks that come after the waits [ds]. *)
Fixpoint tick_readings (ds : list Z) s : list time :=
  match ds with
  | [] => []
  | d :: ds =>
      let r := Now (Sleep d s).1 in
      match r.2 with Ret t => t :: tick_readings ds r.1 | _ => [] end
  end.

Lemma tick_readings_length ds s : length (tick_readings ds s) = length ds.
Proof.
  revert s. induction ds as [|d ds IH]; intros s; [done|]. cbn [tick_readings].
  destruct (now_ok (Sleep d s).1) as (t & s' & -> & _). cbn. by rewrite IH.
Qed.

Lemma monitor_tick_reading result ac s s' t :
  Now s = (s', Ret t) → monitor_tick result ac s = (s', Ret (odd_second t)).
Proof.
  intros E. unfold monitor_tick, try, IsTransferComplete, GetTransferStatus, mbind, M_bind, odd_second.
  rewrite E. cbn. rewrite rem_2_even, <- Z.negb_even. by destruct (Z.even _).
Qed.

(** The ticks end the monitor at the first odd second. *)
Lemma monitor_ticks ds rest result ac s :
  Forall (Z.le 0) ds →
  ∃ s', monitorTransfer ((Some <$> ds) ++ rest) result ac s =
    if existsb odd_second (tick_readings ds s) then (s', Ret true) else monitorTransfer rest result ac s'.
Proof.
  intros Hds. revert s. induction Hds as [|d ds Hd _ IH]; intros s; [by exists s|].
  cbn [fmap list_fmap app monitorTransfer tick_readings].
  destruct (sleep_clock d s Hd) as (s1 & E1 & _). rewrite (M_bind_ret _ _ _ _ _ E1), E1. cbn [fst].
  destruct (now_ok s1) as (t & s2 & E2 & _). rewrite (M_bind_ret _ _ _ _ _ (monitor_tick_reading _ _ _ _ _ E2)), E2.
  cbn [fst snd existsb]. destruct (odd_second t); [by exists s2|apply IH].
Qed.

Lemma monitor_ticks_only ds result ac s :
  Forall (Z.le 0) ds →
  (monitorTransfer (Some <$> ds) result ac s).2 = Ret (existsb odd_second (tick_readings ds s)).
Proof.
  intros Hds. rewrite <- (app_nil_r (Some <$> ds)).
  destruct (monitor_ticks ds [] result ac s Hds) as [s' ->]. by destruct (existsb _ _).
Qed.
End monitors.

(** [C12] Monitors of a transfer.  A monitor finds its transfer complete exactly
    when the wall clock shows an odd second at one of its ticks, whatever the
    transfer, the client and the time between the ticks: the same ticks
    complete every transfer.  It also ends with the service's context.  So when
    each tick shows the second that is its 30-second period after the deposit
    id, the Unix second of the initiation, an odd id is found complete at once
    and an even one at no tick. *)
Theorem transfer_completes_on_odd_second {S} `{RuntimeLaws S, Common}
    t tr (ac : BridgeClient S) (s s' : S) result ds :
  InitiateTransfer (Some t) tr ac s = (s', Ret result) → Forall (Z.le 0) ds →
  (∀ other ac',
     (monitorTransfer (Some <$> ds) other ac' s').2 = Ret (existsb odd_second (tick_readings ds s'))) ∧
  (∀ rest, (monitorTransfer ((Some <$> ds) ++ None :: rest) result ac s').2 = Ret true) ∧
  ∃ d, tf_DepositID result = Some d ∧
    (ds ≠ [] →
     (∀ i t, tick_readings ds s' !! i = Some t → Unix t = d + 30 * (Z.of_nat i + 1)) →
     (monitorTransfer (Some <$> ds) result ac s').2 = Ret (Z.odd d)).
Proof.
  intros E Hds. split; [intros other ac'; by apply monitor_ticks_only|]. split.
  { intros rest. destruct (monitor_ticks ds (None :: rest) result ac s' Hds) as [s2 ->]. by destruct (existsb _ _). }
  destruct (InitiateTransfer_ret t tr ac s) as (s1 & h & t1 & E1). rewrite E in E1. injection E1 as -> ->.
  exists (Unix t1). split; [done|]. intros Hne Hall. rewrite monitor_ticks_only by done. f_equal.
  assert (∀ i t, tick_readings ds s1 !! i = Some t → odd_second t = Z.odd (Unix t1)) as Hodd.
  { intros i t' Hi. unfold odd_second. rewrite (Hall i t' Hi), Z.odd_add, Z.odd_mul. by destruct (Z.odd (Unix t1)). }
  pose proof (tick_readings_length ds s1) as Hl.
  destruct (tick_readings ds s1) as [|t0 ts] eqn:Et; [by destruct ds|].
  destruct (Z.odd (Unix t1)) eqn:Hd; [apply existsb_exists; exists t0; split; [by left|exact (Hodd 0%nat t0 eq_refl)]|].
  apply not_true_iff_false. intros (t' & Hin & Ht')%existsb_exists.
  apply list_elem_of_In, list_elem_of_lookup in Hin as [i Hi]. rewrite (Hodd i t' Hi) in Ht'. congruence.
Qed.

(** A transfer of an even second, watched for a day by a clock that keeps the
    period; the same with a third tick that shows the second after. *)
Lemma transfer_completes_on_odd_second_witness :
  let tx : TransactOpts World := mkTransactOpts [1] (λ _ tx, Ret tx) 300000 (NewInt 20000000000) in
  let ac : BridgeClient World := mkBridgeClient (mkAcrossConfig "" "" "" "") "rpc" [] [] None None in
  let tr := mkTransfer 1 42161 [] None [] None "" None None in
  let run w := @InitiateTransfer World _ text_common (Some tr) tx ac w in
  let wall := wall_world 0 ((λ n, n * second) <$> [1700000000; 1700000000; 1700000030; 1700000060; 1700000091]) in
  (∃ s' result, run (world_at (1700000000 * second) []) = (s', Ret result) ∧
     (monitorTransfer (Some <$> replicate 2880 (30 * second)) result ac s').2 = Ret false) ∧
  (∃ s' result, run wall = (s', Ret result) ∧ tf_DepositID result = Some 1700000000 ∧
     (monitorTransfer (Some <$> replicate 2 (30 * second)) result ac s').2 = Ret false ∧
     (monitorTransfer (Some <$> replicate 3 (30 * second)) result ac s').2 = Ret true).
Proof.
  intros tx ac tr run wall.
  assert (∀ n, Forall (Z.le 0) (replicate n (30 * second))) as Hds by (intros n; by apply Forall_replicate).
  split.
  - destruct (run (world_at (1700000000 * second) [])) as [s' [result|e|q]] eqn:E; [|vm_compute in E; discriminate..].
    exists s', result. split; [done|].
    destruct (@transfer_completes_on_odd_second World _ _ text_common tr tx ac _ s' result _ E (Hds 2880%nat))
      as [Hrun _].
    rewrite Hrun. vm_compute in E. injection E as <- <-. vm_compute. reflexivity.
  - destruct (run wall) as [s' [result|e|q]] eqn:E; [|vm_compute in E; discriminate..].
    exists s', result. split; [done|].
    destruct (@transfer_completes_on_odd_second World _ _ text_common tr tx ac _ s' result _ E (Hds 2%nat))
      as (_ & _ & d & Hd & Hrun).
    destruct (@transfer_completes_on_odd_second World _ _ text_common tr tx ac _ s' result _ E (Hds 3%nat))
      as [Hrun3 _].
    rewrite Hrun3. vm_compute in E. injection E as <- <-. injection Hd as <-.
    split; [done|]. rewrite Hrun; [split; vm_compute; reflexivity|done|].
    intros i t Hi. vm_compute in Hi. destruct i as [|[|i]]; [injection Hi as <-; reflexivity..|done].
Defined.
