(* ===== verification/TransferHash.v ===== *)
(** * The transaction hash of a transfer

    [InitiateTransfer] makes the hash from the wall clock: it prints a reading as 64
    hexadecimal digits and parses them back.  What [common.HexToHash] makes of
    64 digits is the law [HexHash]. *)

From S2P Require Import Prelude BigInt GoEthereum Runtime ChainConn BridgeClient Rebalancer RebalancerProps.

(** ** Hexadecimal texts and big-endian bytes *)

Definition hex_value (c : Ascii.ascii) : option Z :=
  let n := Z.of_N (Ascii.N_of_ascii c) in
  if bool_decide (48 ≤ n ≤ 57) then Some (n - 48)
  else if bool_decide (97 ≤ n ≤ 102) then Some (n - 87) else None.

(** The number a text denotes, after digits that denote [acc]. *)
Fixpoint hex_number (acc : Z) (s : string) : option Z :=
  match s with
  | EmptyString => Some acc
  | String c s => d ← hex_value c; hex_number (16 * acc + d) s
  end.

Definition big_endian (bytes : list Z) : Z := foldl (λ acc b, 256 * acc + b) 0 bytes.

(** [common.HexToHash] of 64 digits: the 32 bytes of their number. *)
Class HexHash `{Common} := {
  hex_to_hash s z : String.length s = 64%nat → hex_number 0 s = Some z →
    length (HexToHash ("0x" +:+ s)) = 32%nat ∧ big_endian (HexToHash ("0x" +:+ s)) = z;
}.

Lemma hex_digit_value d : 0 ≤ d < 16 → hex_value (hex_digit d) = Some d.
Proof.
  intros Hd.
  assert (forallb (λ d, bool_decide (hex_value (hex_digit d) = Some d)) (Z.of_nat <$> seq 0 16) = true) as Hall
    by (vm_compute; reflexivity).
  rewrite forallb_forall in Hall. apply (bool_decide_eq_true_1 _), Hall, list_elem_of_In, list_elem_of_fmap.
  exists (Z.to_nat d). split; [lia|]. apply elem_of_seq. lia.
Qed.

Lemma hex_number_app s1 s2 acc : hex_number acc (s1 +:+ s2) = n ← hex_number acc s1; hex_number n s2.
Proof.
  revert acc. induction s1 as [|c s1 IH]; intros acc; [done|].
  change (String c s1 +:+ s2) with (String c (s1 +:+ s2)). cbn [hex_number]. destruct (hex_value c) as [d|]; [apply (IH (16 * acc + d))|done].
Qed.

Lemma string_length_app s1 s2 : String.length (s1 +:+ s2) = (String.length s1 + String.length s2)%nat.
Proof. induction s1 as [|c s1 IH]; [done|]. cbn. by rewrite <- IH. Qed.

Lemma hex_digits_length n z : String.length (hex_digits n z) = n.
Proof.
  revert z. induction n as [|n IH]; intros z; [done|]. cbn [hex_digits].
  rewrite string_length_app, IH. cbn. lia.
Qed.

(** Printing and parsing back. *)
Lemma hex_digits_number n z acc :
  0 ≤ z < 16 ^ Z.of_nat n → hex_number acc (hex_digits n z) = Some (acc * 16 ^ Z.of_nat n + z).
Proof.
  revert z acc. induction n as [|n IH]; intros z acc Hz; [cbn in *; f_equal; lia|].
  rewrite Nat2Z.inj_succ, Z.pow_succ_r in * by lia. cbn [hex_digits].
  pose proof (Z.div_mod z 16 ltac:(lia)). pose proof (Z.mod_pos_bound z 16 ltac:(lia)).
  rewrite hex_number_app, IH by (split; [|apply Z.div_lt_upper_bound]; lia). cbn [mbind option_bind hex_number].
  rewrite hex_digit_value by done. cbn. f_equal. lia.
Qed.

Lemma hex64_number z :
  0 ≤ z < 16 ^ 64 → String.length (hex64 z) = 64%nat ∧ hex_number 0 (hex64 z) = Some z.
Proof.
  intros Hz. unfold hex64. rewrite bool_decide_eq_false_2 by lia. split; [apply hex_digits_length|].
  by rewrite hex_digits_number.
Qed.

(** ** An instance that parses *)

Fixpoint be (n : nat) (z : Z) : list Z :=
  match n with
  | O => []
  | Datatypes.S n => be n (z / 256) ++ [z mod 256]
  end.

Definition hex_common : Common := {|
  HexToAddress s := left_pad 20 (text_bytes s);
  HexToHash s := be 32 (default 0 (hex_number 0 (String.substring 2 64 s)));
  Address_Hex a := String.concat "," (pretty <$> a);
  Hash_Hex h := String.concat "," (pretty <$> h);
|}.

Lemma be_spec n z : 0 ≤ z < 256 ^ Z.of_nat n → length (be n z) = n ∧ big_endian (be n z) = z.
Proof.
  revert z. induction n as [|n IH]; intros z Hz; [cbn in *; split; [done|unfold big_endian; cbn; lia]|].
  rewrite Nat2Z.inj_succ, Z.pow_succ_r in * by lia. cbn [be].
  pose proof (Z.div_mod z 256 ltac:(lia)). pose proof (Z.mod_pos_bound z 256 ltac:(lia)).
  destruct (IH (z / 256)) as [Hl Hb]; [split; [|apply Z.div_lt_upper_bound]; lia|].
  unfold big_endian in *. rewrite length_app, foldl_app, Hl, Hb. cbn. split; lia.
Qed.

Lemma substring_all s : String.substring 0 (String.length s) s = s.
Proof. induction s as [|c s IH]; [done|]. cbn. by rewrite IH. Qed.

Lemma hex_number_bound s acc z :
  0 ≤ acc → hex_number acc s = Some z → 0 ≤ z < (acc + 1) * 16 ^ Z.of_nat (String.length s).
Proof.
  revert acc. induction s as [|c s IH]; intros acc Hacc; [intros [= ->]; cbn; lia|].
  cbn [hex_number String.length]. destruct (hex_value c) as [d|] eqn:Hd; [|done]. cbn.
  assert (0 ≤ d < 16) by (unfold hex_value in Hd; repeat case_bool_decide; simplify_eq; lia).
  intros Hz%IH; [|lia]. rewrite Nat2Z.inj_succ, Z.pow_succ_r by lia.
  assert (0 < 16 ^ Z.of_nat (String.length s)) by (apply Z.pow_pos_nonneg; lia). nia.
Qed.

#[export] Instance hex_common_law : @HexHash hex_common.
Proof.
  split. intros s z Hl Hz. cbn [HexToHash hex_common].
  assert (String.substring 2 64 ("0x" +:+ s) = s) as -> by (rewrite <- Hl; apply substring_all).
  rewrite Hz. cbn [default from_option id]. apply be_spec.
  pose proof (hex_number_bound s 0 z ltac:(lia) Hz) as Hb. rewrite Hl in Hb. lia.
Qed.

(** ** The hash *)

Section hashes.
Context {S : Type} `{RuntimeLaws S, Common, !HexHash}.
Implicit Types (ac : BridgeClient S) (s : S).

(** The wall clock as [InitiateTransfer] reads it, waking up from its sleep. *)
Definition woken : M S time := Sleep 100000000;; Now.

(** The readings [UnixNano] is defined for: the years 1970 to 2262. *)
Definition in_nanoseconds (t : time) : Prop := 0 ≤ t < 2 ^ 63.

Lemma InitiateTransfer_readings tr to ac s :
  ∃ s1 t1 s2 t2, woken s = (s1, Ret t1) ∧ Now s1 = (s2, Ret t2) ∧
    InitiateTransfer (Some tr) to ac s =
    (s2, Ret (mkTransferResult (HexToHash ("0x" +:+ hex64 (UnixNano t1))) (NewInt (Unix t2)) "pending" 150000 0)).
Proof.
  unfold woken, InitiateTransfer. destruct (sleep_clock 100000000 s) as (s0 & E0 & _); [lia|].
  rewrite !(M_bind_ret _ _ _ _ _ E0). destruct (now_ok s0) as (t1 & s1 & E1 & _).
  rewrite (M_bind_ret _ _ _ _ _ E1). destruct (now_ok s1) as (t2 & s2 & E2 & _).
  rewrite (M_bind_ret _ _ _ _ _ E2). by exists s1, t1, s2, t2.
Qed.

Lemma printed_reading t :
  in_nanoseconds t →
  length (HexToHash ("0x" +:+ hex64 (UnixNano t))) = 32%nat ∧
  big_endian (HexToHash ("0x" +:+ hex64 (UnixNano t))) = t.
Proof.
  unfold in_nanoseconds. intros Ht.
  assert (UnixNano t = t) as -> by (unfold UnixNano; rewrite i64_id; unfold is_i64; lia).
  destruct (hex64_number t) as [Hl Hn]; [lia|]. exact (hex_to_hash _ _ Hl Hn).
Qed.
End hashes.

(** [C33] The transaction hash of a transfer is a reading of the wall clock.
    Parsed as a number, its 32 bytes are the nanosecond the wall clock showed
    when the call woke up from its sleep: 64 digits print it and parse back to
    it.  Nothing of the transfer, of its transactor or of the client goes into
    it, and the deposit id is the second of the reading after it.  Two
    transfers, whichever and whenever made, have the same hash exactly when
    their readings are the same nanosecond, as they can be when they are made
    together or the wall clock is set back. *)
Theorem hash_is_clock_reading {S} `{RuntimeLaws S, Common, !HexHash}
    tr to (ac : BridgeClient S) (s : S) (t1 : time) :
  (woken s).2 = Ret t1 → in_nanoseconds t1 →
  (∃ s2 t2 result,
     Now (woken s).1 = (s2, Ret t2) ∧
     (∀ tr' to' ac', InitiateTransfer (Some tr') to' ac' s = (s2, Ret result)) ∧
     length (tf_TransactionHash result) = 32%nat ∧ big_endian (tf_TransactionHash result) = t1 ∧
     tf_DepositID result = Some (Unix t2)) ∧
  (∀ tr' to' (ac' : BridgeClient S) s' t1' s2 s2' result result',
     (woken s').2 = Ret t1' → in_nanoseconds t1' →
     InitiateTransfer (Some tr) to ac s = (s2, Ret result) →
     InitiateTransfer (Some tr') to' ac' s' = (s2', Ret result') →
     tf_TransactionHash result = tf_TransactionHash result' ↔ t1 = t1').
Proof.
  intros Ew Ht. destruct (printed_reading t1 Ht) as [Hlen Hbe]. split.
  - destruct (InitiateTransfer_readings tr to ac s) as (s1 & u1 & s2 & t2 & E1 & E2 & E).
    rewrite E1 in Ew |- *. injection Ew as ->. exists s2, t2. eexists. split; [done|]. split; [intros; exact E|done].
  - intros tr' to' ac' s' t1' s2 s2' result result' Ew' Ht' E E'.
    destruct (InitiateTransfer_readings tr to ac s) as (? & ? & ? & ? & E1 & _ & Er).
    destruct (InitiateTransfer_readings tr' to' ac' s') as (? & ? & ? & ? & E1' & _ & Er').
    rewrite E1 in Ew. injection Ew as ->. rewrite E1' in Ew'. injection Ew' as ->.
    rewrite Er in E. injection E as _ <-. rewrite Er' in E'. injection E' as _ <-. cbn [tf_TransactionHash].
    split; [|by intros ->]. intros Heq. destruct (printed_reading t1' Ht') as [_ Hbe']. rewrite <- Heq in Hbe'.
    congruence.
Qed.

(** Two different transfers of one service, the second after the wall clock has
    been set back: they share the hash. *)
Lemma hash_is_clock_reading_witness :
  let to : TransactOpts World := mkTransactOpts [1] (λ _ tx, Ret tx) 300000 (NewInt 20000000000) in
  let ac : BridgeClient World := mkBridgeClient (mkAcrossConfig "" "" "" "") "rpc" [] [] None None in
  let tr a := mkTransfer 1 42161 [] (Some a) [] None "" None None in
  let run a := @InitiateTransfer World _ hex_common (Some (tr a)) to ac in
  let noon := 1700000000 * second in
  ∃ s1 r1 s2 r2,
    run 1 (wall_world 0 [noon; noon + second; noon; noon + 5]) = (s1, Ret r1) ∧ run 2 s1 = (s2, Ret r2) ∧
    wd_clock s1 < wd_clock s2 ∧ tf_DepositID r1 = Some 1700000001 ∧
    big_endian (tf_TransactionHash r1) = noon ∧ tf_TransactionHash r1 = tf_TransactionHash r2.
Proof.
  intros to ac tr run noon. set (w0 := wall_world 0 [noon; noon + second; noon; noon + 5]).
  set (w1 := mkWorld 100000000 [noon; noon + 5] [] []).
  assert (in_nanoseconds noon) as Hin by (unfold in_nanoseconds, noon, second; lia).
  destruct (@hash_is_clock_reading World _ _ hex_common hex_common_law (tr 1) to ac w0 noon eq_refl Hin)
    as [(s2 & t2 & r1 & En & Hrun & _ & Hbe & Hd) Hsame].
  assert (s2 = w1) as -> by exact (f_equal fst (eq_sym En)).
  assert (t2 = noon + second) as -> by exact (f_equal (λ o : World * res time, match o.2 with Ret t => t | _ => 0 end) (eq_sym En)).
  destruct (run 2 w1) as [w2 [r2|?|?]] eqn:E'; [|vm_compute in E'; discriminate..].
  assert (wd_clock w2 = 200000000) as H2 by (apply (f_equal (wd_clock ∘ fst)) in E'; by vm_compute in E').
  exists w1, r1, w2, r2. split_and!; [exact (Hrun (tr 1) to ac)|exact E'|rewrite H2; cbn; lia|rewrite Hd; reflexivity|exact Hbe|].
  apply (Hsame (tr 2) to ac w1 noon w1 w2 r1 r2 eq_refl Hin (Hrun _ _ _) E'). reflexivity.
Defined.
