(* ===== verification/ServiceConfig.v ===== *)
(** * [internal/config] and [internal/logger]: the service's configuration

    The code declares the chain and bridge settings again, field by field as in
    [internal/blockchain] and [internal/across], and passes one where the other
    is expected; here they are one record each.  [viper], [godotenv], the
    environment and [logrus] are parameters. *)

From S2P Require Import Prelude Float64 ChainConn BridgeClient.

(** ** Data *)

Record ServerConfig := mkServerConfig {
  sv_Host : string;
  sv_Port : Z;
}.

Record DatabaseConfig := mkDatabaseConfig {
  dc_Host : string;
  dc_Port : Z;
  dc_User : string;
  dc_Password : string;
  dc_DBName : string;
  dc_SSLMode : string;
}.

Record EigenLayerConfig := mkEigenLayerConfig {
  ec_RegistryCoordinator : string;
  ec_StakeRegistry : string;
  ec_BLSApkRegistry : string;
  ec_IndexRegistry : string;
  ec_OperatorID : Z;
  ec_QuorumNumber : Z;
}.

Record LogConfig := mkLogConfig {
  lc_Level : string;
  lc_Format : string;
  lc_Output : string;
}.

Record OperatorConfig := mkOperatorConfig {
  oc_StateUpdateInterval : Z;
  oc_RebalanceThreshold : float64;
  oc_MaxRebalanceAmount : string;
  oc_MinRebalanceAmount : string;
  oc_RebalanceCooldown : Z;
}.

Record Config := mkConfig {
  cg_Server : ServerConfig;
  cg_Database : DatabaseConfig;
  cg_Chains : list ChainConfig;
  cg_EigenLayer : EigenLayerConfig;
  cg_Across : AcrossConfig;
  cg_Log : LogConfig;
  cg_Operator : OperatorConfig;
}.

(** ** Loading *)

(** A default value given to [viper]. *)
Inductive setting : Type :=
  | SString (s : string)
  | SInteger (z : Z)
  | SFloat (x : float64).

(** [V] is what [viper] and the environment hold; reading the file fails with
    a [ConfigFileNotFoundError] or another error. *)
Inductive read_error : Type :=
  | ConfigFileNotFound
  | ReadFailed (e : string).

Class Viper (V : Type) := {
  godotenv_Load : M V unit;
  SetConfigFile : string → V → V;
  SetConfigType : string → V → V;
  AutomaticEnv : V → V;
  SetDefault : string → setting → V → V;
  ReadInConfig : V → V * option read_error;
  Unmarshal : V → res Config;
  (** [UnmarshalKey], into a [LogConfig] *)
  UnmarshalKey : string → V → res LogConfig;
  os_Getenv : string → V → string;
}.

Definition defaults : list (string * setting) := [
  ("server.host", SString "0.0.0.0");
  ("server.port", SInteger 8080);
  ("database.host", SString "localhost");
  ("database.port", SInteger 5432);
  ("database.user", SString "synchook");
  ("database.dbname", SString "synchook");
  ("database.sslmode", SString "disable");
  ("log.level", SString "info");
  ("log.format", SString "json");
  ("log.output", SString "stdout");
  ("operator.state_update_interval", SString "30s");
  ("operator.rebalance_threshold", SFloat (f_lit 2 10));
  ("operator.max_rebalance_amount", SString "1000000000000000000000");
  ("operator.min_rebalance_amount", SString "1000000000000000000");
  ("operator.rebalance_cooldown", SString "300s")].

(** [validate]: the first missing field of the first incomplete chain, with
    the chain's position in the list. *)
Fixpoint validate_chains (i : Z) (chains : list ChainConfig) : res unit :=
  match chains with
  | [] => Ret tt
  | chain :: chains =>
      if bool_decide (ch_RPCURL chain = "") then
        Err ("chain " +:+ pretty i +:+ ": RPC URL is required")
      else if bool_decide (ch_PrivateKey chain = "") then
        Err ("chain " +:+ pretty i +:+ ": private key is required")
      else if bool_decide (ch_SyncAVS chain = "") then
        Err ("chain " +:+ pretty i +:+ ": SyncAVS address is required")
      else if bool_decide (ch_PoolManager chain = "") then
        Err ("chain " +:+ pretty i +:+ ": PoolManager address is required")
      else validate_chains (i + 1) chains
  end.

Definition validate (config : Config) : res unit :=
  if bool_decide (length (cg_Chains config) = 0%nat) then
    Err "at least one chain must be configured"
  else
    _ ← validate_chains 0 (cg_Chains config);
    if bool_decide (ec_RegistryCoordinator (cg_EigenLayer config) = "") then
      Err "EigenLayer registry coordinator address is required"
    else if bool_decide (xc_SpokePool (cg_Across config) = "") then
      Err "Across spoke pool address is required"
    else Ret tt.

Section loading.
Context {V : Type} `{Viper V}.

Definition setDefaults : M V unit :=
  foldM (λ _ kv, modify (SetDefault kv.1 kv.2)) tt defaults.

Definition read_config : M V (option read_error) := λ v,
  let '(v, e) := ReadInConfig v in (v, Ret e).

Definition Load (configFile : string) : M V Config :=
  try godotenv_Load;;
  modify (SetConfigFile configFile);;
  modify (SetConfigType "yaml");;
  modify AutomaticEnv;;
  setDefaults;;
  err ← read_config;
  match err with
  | Some (ReadFailed e) => throw ("failed to read config file: " +:+ e)
  | Some ConfigFileNotFound | None =>
      v ← get;
      config ← wrap "failed to unmarshal config: " (lift (Unmarshal v));
      wrap "invalid configuration: " (lift (validate config));;
      mret config
  end.

Definition GetDatabaseDSN (v : V) (c : Config) : string :=
  let db := cg_Database c in
  let password := if bool_decide (dc_Password db = "") then os_Getenv "DATABASE_PASSWORD" v
                  else dc_Password db in
  "host=" +:+ dc_Host db +:+ " port=" +:+ pretty (dc_Port db) +:+ " user=" +:+ dc_User db +:+
  " password=" +:+ password +:+ " dbname=" +:+ dc_DBName db +:+ " sslmode=" +:+ dc_SSLMode db.
End loading.

(** ** [internal/logger] *)

Inductive formatter : Type :=
  | JSONFormatter (TimestampFormat : string)
  | TextFormatter (FullTimestamp : bool) (TimestampFormat : string).

Inductive output : Type := Stdout | Stderr.

(** [logrus.Logger]; [Level] is [logrus]'s. *)
Record Logger (Level : Type) := mkLogger {
  lg_Level : Level;
  lg_Formatter : formatter;
  lg_Output : output;
}.
Arguments mkLogger {Level} _ _ _.
Arguments lg_Level {Level} _.
Arguments lg_Formatter {Level} _.
Arguments lg_Output {Level} _.

(** [strings.ToLower], on the letters that matter to the names below. *)
Definition lower (c : Ascii.ascii) : Ascii.ascii :=
  let n := Ascii.nat_of_ascii c in
  if bool_decide (65 ≤ n ≤ 90)%nat then Ascii.ascii_of_nat (n + 32) else c.
Fixpoint ToLower (s : string) : string :=
  match s with
  | EmptyString => EmptyString
  | String c s => String (lower c) (ToLower s)
  end.

Definition choose_formatter (format : string) : formatter :=
  if bool_decide (ToLower format = "json") then JSONFormatter "2006-01-02T15:04:05.000Z07:00"
  else if bool_decide (ToLower format = "text") then TextFormatter true "2006-01-02 15:04:05"
  else JSONFormatter "2006-01-02T15:04:05.000Z07:00".

Definition choose_output (out : string) : output :=
  if bool_decide (ToLower out = "stdout") then Stdout
  else if bool_decide (ToLower out = "stderr") then Stderr
  else if bool_decide (ToLower out = "file") then Stdout
  else Stdout.

Definition NewLogger {Level : Type} (ParseLevel : string → res Level) (cfg : LogConfig)
    : res (Logger Level) :=
  level ← ParseLevel (lc_Level cfg);
  Ret (mkLogger level (choose_formatter (lc_Format cfg)) (choose_output (lc_Output cfg))).

Definition NewFromViper {Level V : Type} `{Viper V} (ParseLevel : string → res Level) (v : V)
    : res (Logger Level) :=
  cfg ← UnmarshalKey "log" v;
  NewLogger ParseLevel cfg.
