(* ===== verification/AvsClient.v ===== *)
(** * [internal/eigenlayer]: the service's EigenLayer client and AVS

    [Client] and [AVS] answer fixed data and sleep where a contract would be
    called; [Runtime] is the outside world. *)

From S2P Require Import Prelude BigInt GoEthereum Runtime ChainConn BridgeClient ServiceConfig.

Section eigenlayer.
Context {S : Type} `{Runtime S, Common}.

(** ** [client.go] *)

Record Client := mkClient {
  ey_config : EigenLayerConfig;
  ey_client : option Conn;
  ey_registryCoordinator : Address;
  ey_stakeRegistry : Address;
  ey_blsApkRegistry : Address;
  ey_indexRegistry : Address;
  ey_operatorID : Z;
  ey_quorumNumber : Z;
}.

(** A failed connection is logged and left nil. *)
Definition NewClient (cfg : EigenLayerConfig) : M S Client :=
  r ← try (Dial "https://mainnet.infura.io/v3/your-key");
  let client := match r with inl c => Some c | inr _ => None end in
  mret (mkClient cfg client (HexToAddress (ec_RegistryCoordinator cfg))
          (HexToAddress (ec_StakeRegistry cfg)) (HexToAddress (ec_BLSApkRegistry cfg))
          (HexToAddress (ec_IndexRegistry cfg)) (ec_OperatorID cfg) (ec_QuorumNumber cfg)).

Definition Client_Start (c : Client) : M S unit := mret tt.

Definition Client_Stop (c : Client) : M S unit :=
  match ey_client c with
  | Some client => Close client
  | None => mret tt
  end.

Definition Client_SubmitStateUpdate (chainID : Z) (state : PoolStates) (c : Client) : M S unit :=
  Sleep 100000000.

Definition Client_GetOperatorStake (c : Client) : res string := Ret "1000000000000000000000".
Definition Client_IsOperatorRegistered (c : Client) : res bool := Ret true.

(** ** [avs.go] *)

Record AVS := mkAVS {
  av_client : Conn;
  av_registryCoordinator : Address;
  av_stakeRegistry : Address;
  av_blsApkRegistry : Address;
  av_indexRegistry : Address;
  av_operatorID : Z;
  av_quorumNumber : Z;
}.

Record StateUpdate := mkStateUpdate {
  su_ChainID : Z;
  su_BlockNumber : Z;
  su_Timestamp : Z;
  su_Data : PoolStates;
  su_Signature : list Z;
}.

Definition NewAVS (client : Conn) (cfg : EigenLayerConfig) : AVS :=
  mkAVS client (HexToAddress (ec_RegistryCoordinator cfg)) (HexToAddress (ec_StakeRegistry cfg))
    (HexToAddress (ec_BLSApkRegistry cfg)) (HexToAddress (ec_IndexRegistry cfg))
    (ec_OperatorID cfg) (ec_QuorumNumber cfg).

(** 96 random bytes. *)
Definition generateSignature (stateUpdate : StateUpdate) (a : AVS) : M S (list Z) :=
  wrap "failed to generate signature: " (RandRead 96).

Definition submitToAVS (stateUpdate : StateUpdate) (a : AVS) : M S unit :=
  Sleep 100000000.

Definition AVS_SubmitStateUpdate (chainID : Z) (data : PoolStates) (a : AVS) : M S unit :=
  now ← Now;
  let stateUpdate := mkStateUpdate chainID 0 (unix_u64 now) data [] in
  signature ← wrap "failed to generate signature: " (generateSignature stateUpdate a);
  let stateUpdate := mkStateUpdate chainID 0 (unix_u64 now) data signature in
  wrap "failed to submit to AVS: " (submitToAVS stateUpdate a).

(** The two amounts do not fit the int64 that [big.NewInt] takes, and the file
    does not compile; these are the integers the source writes. *)
Definition AVS_GetOperatorStake (a : AVS) : res bigint := Ret (Some 1000000000000000000000).
Definition GetQuorumStake (quorumNumber : Z) (a : AVS) : res bigint :=
  Ret (Some 10000000000000000000000).

Definition AVS_IsOperatorRegistered (a : AVS) : res bool := Ret true.
Definition GetOperatorList (quorumNumber : Z) (a : AVS) : res (list Z) := Ret [1; 2; 3; 4; 5].

(** The update is dereferenced by the log line. *)
Definition ValidateStateUpdate (stateUpdate : option StateUpdate) (a : AVS) : res bool :=
  match stateUpdate with
  | None => Panic NilDeref
  | Some _ => Ret true
  end.

Definition GetStateUpdateHistory (chainID limit : Z) (a : AVS) : res (list StateUpdate) := Ret [].
End eigenlayer.
Arguments Client S {_}.
Arguments AVS S {_}.
