(* ===== verification/Database.v ===== *)
(** * [internal/database]: the database of the service

    [gorm] and [database/sql] are a parameter, over the same outside world. *)

From S2P Require Import Prelude.

Class Gorm (S : Type) := {
  GormDB : Type;
  SqlDB : Type;
  (** [gorm.Open(postgres.Open(dsn), ..)] *)
  gorm_Open : string → M S GormDB;
  gorm_DB : GormDB → M S SqlDB;
  SetMaxIdleConns : Z → SqlDB → M S unit;
  SetMaxOpenConns : Z → SqlDB → M S unit;
  SetConnMaxLifetime : Z → SqlDB → M S unit;
  sql_Close : SqlDB → M S unit;
}.

Class GormLaws (S : Type) `{Gorm S} := {
  gorm_DB_ok db s p : (gorm_DB db s).2 ≠ Panic p;
  sql_Close_ok db s p : (sql_Close db s).2 ≠ Panic p;
}.

Section database.
Context {S : Type} `{Gorm S}.

Record Database := mkDatabase { dt_DB : GormDB }.

Definition NewDatabase (dsn : string) : M S Database :=
  db ← wrap "failed to connect to database: " (gorm_Open dsn);
  sqlDB ← wrap "failed to get underlying sql.DB: " (gorm_DB db);
  SetMaxIdleConns 10 sqlDB;;
  SetMaxOpenConns 100 sqlDB;;
  SetConnMaxLifetime (3600 * second) sqlDB;;
  mret (mkDatabase db).

Definition autoMigrate (d : Database) : M S unit := mret tt.

Definition Database_Start (d : Database) : M S unit :=
  wrap "failed to auto-migrate: " (autoMigrate d);;
  mret tt.

Definition Database_Stop (d : Database) : M S unit :=
  sqlDB ← gorm_DB (dt_DB d);
  sql_Close sqlDB.
End database.
Arguments Database S {_}.
