(* ===== verification/Service.v ===== *)
(** * [internal/monitor], [internal/operator], [cmd/operator]: the service

    [New] builds the components, [Run] starts them, serves until its context
    is done and stops them with deferred calls.  The goroutines of [Run] are
    interleaved tick by tick here, in any order a schedule gives, and call by
    call in [Goroutines].  The state [Op] is
    the rebalancer's, with the updates submitted and whether a goroutine's
    panic has ended the process. *)

From S2P Require Import Prelude Loops BigInt GoEthereum Runtime ChainConn BridgeClient Rebalancer ServiceConfig AvsClient Database.

Section service.
Context {S V : Type} `{Runtime S, Gorm S, Viper V, Common, RangeOrder}.

(** ** [internal/monitor] *)

(** The configuration and the database are only stored. *)
Record Monitor := mkMonitor { mn_chains : gmap Z (Chain S) }.

Definition NewMonitor (chains : gmap Z (Chain S)) : res Monitor := Ret (mkMonitor chains).

Definition processStateChanges (chainID : Z) (states : PoolStates) : M S unit := mret tt.

Definition checkChainState (chainID : Z) (chain : Chain S) : M S unit :=
  states ← try (GetPoolStates chain);
  match states with
  | inr _ => mret tt
  | inl states => try (processStateChanges chainID states);; mret tt
  end.

(** The nanoseconds until each tick, [None] for the end of the context. *)
Fixpoint monitorChain (waits : list (option Z)) (chainID : Z) (chain : Chain S) : M S bool :=
  match waits with
  | [] => mret false
  | None :: _ => mret true
  | Some d :: waits =>
      Sleep d;;
      checkChainState chainID chain;;
      monitorChain waits chainID chain
  end.

(** ** [internal/operator] *)

Record Operator := mkOperator {
  or_config : Config;
  or_database : Database S;
  or_monitor : Monitor;
  or_rebalancer : Rebalancer S;
  or_chains : gmap Z (Chain S);
  or_eigenlayer : AvsClient.Client S;
}.

Record Op := mkOp {
  op_rb : Rb S;
  op_submissions : list (Z * PoolStates);
  op_exited : bool;
}.

Definition on_rb {A} (m : M (Rb S) A) : M Op A := λ st,
  let '(r, a) := m (op_rb st) in (mkOp r (op_submissions st) (op_exited st), a).

Definition in_world {A} (m : M S A) : M Op A := on_rb (outside m).

(** [v] is the environment the connection string is completed from. *)
Definition New (v : V) (cfg : Config) : M S Operator :=
  db ← wrap "failed to initialize database: " (NewDatabase (GetDatabaseDSN v cfg));
  chains ← foldM (λ chains chainCfg,
      chain ← wrap ("failed to initialize chain " +:+ pretty (ch_ID chainCfg) +:+ ": ")
        (NewChain chainCfg);
      mret (<[ch_ID chainCfg := chain]> chains)) ∅ (cg_Chains cfg);
  eigenlayerClient ← wrap "failed to initialize EigenLayer client: "
    (AvsClient.NewClient (cg_EigenLayer cfg));
  monitor ← wrap "failed to initialize monitor: " (lift (NewMonitor chains));
  rebalancer ← wrap "failed to initialize rebalancer: "
    (lift (NewRebalancer (cg_Across cfg) chains));
  mret (mkOperator cfg db monitor rebalancer chains eigenlayerClient).

(** Every state read is submitted; errors are logged and the loops go on. *)
Definition updateState (o : Operator) : M Op unit :=
  states ← foldM (λ states kc,
      state ← try (in_world (GetPoolStates kc.2));
      mret (match state with
            | inl state => <[kc.1 := state]> states
            | inr _ => states
            end)) ∅ (range_list 0 (or_chains o));
  foldM (λ _ ks,
      modify (λ st, mkOp (op_rb st) (op_submissions st ++ [ks]) (op_exited st));;
      try (in_world (Client_SubmitStateUpdate ks.1 ks.2 (or_eigenlayer o)));;
      mret tt) tt (range_list 1 states).

(** A panic on a goroutine other than the one of [Run] ends the process. *)
Definition goroutine (m : M Op unit) : M Op unit := λ st,
  match m st with
  | (st', Panic p) => (mkOp (op_rb st') (op_submissions st') true, Panic p)
  | r => r
  end.

(** The first tick of a goroutine to come, or time passing. *)
Inductive event : Type :=
  | Pass (d : Z)
  | MonitorTick (chainID : Z)
  | RebalanceTick
  | UpdateTick.

Definition tick (o : Operator) (e : event) : M Op unit :=
  match e with
  | Pass d => in_world (Sleep d)
  | MonitorTick chainID =>
      match mn_chains (or_monitor o) !! chainID with
      | Some chain => in_world (checkChainState chainID chain)
      | None => mret tt
      end
  | RebalanceTick => on_rb (checkRebalancingOpportunities (or_rebalancer o))
  | UpdateTick => updateState o
  end.

(** From starting the goroutines to waiting for the last of them: the ticks
    come in the order of [schedule], until the context is done. *)
Definition serve (schedule : list event) (o : Operator) : M Op unit :=
  goroutine (
    lift (NewTicker (oc_StateUpdateInterval (cg_Operator (or_config o))));;
    foldM (λ _ e, tick o e) tt schedule).

(** [defer d(); m()]: the error of [d] is dropped, and [d] runs when [m] panics,
    unless the process has ended. *)
Definition with_defer (d m : M Op unit) : M Op unit := λ st,
  let '(st1, r) := m st in
  if op_exited st1 then (st1, r) else
  match d st1 with
  | (st2, Panic p) => (st2, Panic p)
  | (st2, _) => (st2, r)
  end.

Fixpoint start_chains (chains : list (Z * Chain S)) (rest : M Op unit) : M Op unit :=
  match chains with
  | [] => rest
  | (chainID, chain) :: chains =>
      wrap ("failed to start chain " +:+ pretty chainID +:+ ": ") (in_world (chain_Start chain));;
      with_defer (in_world (chain_Stop chain)) (start_chains chains rest)
  end.

(** [serving] is what happens from starting the goroutines to waiting for the last
    of them: [serve], or any other interleaving ([Goroutines.schedules]). *)
Definition Run (serving : M Op unit) (o : Operator) : M Op unit :=
  wrap "failed to start database: " (in_world (Database_Start (or_database o)));;
  with_defer (in_world (Database_Stop (or_database o)))
    (start_chains (range_list 2 (or_chains o))
      (wrap "failed to start EigenLayer client: " (in_world (Client_Start (or_eigenlayer o)));;
       with_defer (in_world (Client_Stop (or_eigenlayer o))) serving)).

(** ** [cmd/operator]: the commands *)

Definition on_fst {A} (m : M V A) : M (V * S) A := λ st,
  let '(v, a) := m st.1 in ((v, st.2), a).
Definition on_snd {A} (m : M S A) : M (V * S) A := λ st,
  let '(s, a) := m st.2 in ((st.1, s), a).

(** The library behind [logger]. *)
Context {Level : Type} (ParseLevel : string → res Level).

(** [serving] is what the scheduler makes of the goroutines of [Run]. *)
Definition runOperator (serving : Operator → M Op unit) (configFile : string) : M (V * S) unit :=
  cfg ← wrap "failed to load config: " (on_fst (Load configFile));
  log ← wrap "failed to initialize logger: " (lift (NewLogger ParseLevel (cg_Log cfg)));
  st ← get;
  op ← wrap "failed to create operator: " (on_snd (New st.1 cfg));
  wrap "operator failed: " (on_snd (λ s,
    let '(st', r) := Run (serving op) op (mkOp (mkRb s [] []) [] false) in
    (rb_world (op_rb st'), r))).

(** [operator.Operator] has no method [Monitor]: what the one that is called
    would do is an argument. *)
Definition runMonitor (Monitor : Operator → M S unit) (configFile : string) : M (V * S) unit :=
  cfg ← wrap "failed to load config: " (on_fst (Load configFile));
  log ← wrap "failed to initialize logger: " (lift (NewLogger ParseLevel (cg_Log cfg)));
  st ← get;
  op ← wrap "failed to create operator: " (on_snd (New st.1 cfg));
  wrap "monitor failed: " (on_snd (Monitor op)).

(** What cobra finds on the command line: help or the version to print, a
    misuse, or a command with the value given to its flag. *)
Inductive selection : Type :=
  | Printed
  | Misused (err : string)
  | Selected (command : string) (config : option string).

(** [cobra] parses the command line for the given commands; an error is the
    [Fatal] that ends the process. *)
Definition operator_main (cobra : list string → list string → selection)
    (serving : Operator → M Op unit) (Monitor : Operator → M S unit) (args : list string)
    : M (V * S) unit :=
  let commands := [("start", runOperator serving); ("monitor", runMonitor Monitor)] in
  match cobra commands.*1 args with
  | Printed => mret tt
  | Misused err => throw err
  | Selected command config =>
      match (list_to_map commands : gmap string (string → M (V * S) unit)) !! command with
      | Some RunE => RunE (default "config.yaml" config)
      | None => mret tt
      end
  end.
End service.
Arguments Operator S {_ _}.
Arguments Monitor S {_}.
Arguments Op S : clear implicits.
