(* ===== verification/Goroutines.v ===== *)
(** * The goroutines of the service, call by call

    [Service] takes a tick of a goroutine as one step.  Here a tick is a program
    of calls on the state that is shared, and the goroutines take their calls
    in any order: other goroutines move between two calls of one of them. *)

From S2P Require Import Prelude Loops BigInt GoEthereum Runtime ChainConn BridgeClient Rebalancer ServiceConfig AvsClient Database Service Programs.

(** ** The ticks as programs *)

Section ticks.
Context {S : Type} `{Runtime S, Gorm S, Common, RangeOrder}.

Abbreviation goroutine_of A := (prog (Op S) A).

Definition world_call {A} (m : M S A) : goroutine_of A := call (in_world m).

Definition go_GetPoolStates (c : Chain S) : goroutine_of PoolStates :=
  blockNumber ← go_wrap "failed to get block number: " (world_call (BlockNumber (cn_Client c)));
  chainID ← go_wrap "failed to get chain ID: " (world_call (ChainID (cn_Client c)));
  chainID ← go_lift (big_Uint64 chainID);
  now ← world_call Now;
  mret (pool_states blockNumber chainID now).

(** The loop over the chains that both [updateState] and
    [checkRebalancingOpportunities] start with. *)
Definition go_gather (chains : gmap Z (Chain S)) : goroutine_of (gmap Z PoolStates) :=
  foldM (λ states kc,
    state ← go_try (go_GetPoolStates kc.2);
    mret (match state with
          | inl state => <[kc.1 := state]> states
          | inr _ => states
          end)) ∅ (range_list 0 chains).

Definition go_updateState (o : Operator S) : goroutine_of unit :=
  states ← go_gather (or_chains o);
  foldM (λ _ ks,
    call (modify (λ st, mkOp (op_rb st) (op_submissions st ++ [ks]) (op_exited st)));;
    go_try (world_call (Client_SubmitStateUpdate ks.1 ks.2 (or_eigenlayer o)));;
    mret tt) tt (range_list 1 states).

Definition go_checkChainState (chainID : Z) (chain : Chain S) : goroutine_of unit :=
  states ← go_try (go_GetPoolStates chain);
  match states with
  | inr _ => mret tt
  | inl states => go_try (world_call (processStateChanges chainID states));; mret tt
  end.

Definition go_GetTransactor (c : Chain S) : goroutine_of (TransactOpts S) :=
  r ← go_try (world_call (ChainID (cn_Client c)));
  let chainID := match r with inl id => id | inr _ => None end in
  mret (mkTransactOpts (cn_Address c) (getSigner chainID c) 300000 (NewInt 20000000000)).

Definition go_InitiateTransfer (transfer : option CrossChainTransfer) (transactor : TransactOpts S)
    (c : BridgeClient S) : goroutine_of TransferResult :=
  match transfer with
  | None => go_lift (Panic NilDeref)
  | Some _ =>
      world_call (Sleep 100000000);;
      now1 ← world_call Now;
      let txHash := HexToHash ("0x" +:+ hex64 (UnixNano now1)) in
      now2 ← world_call Now;
      mret (mkTransferResult txHash (NewInt (Unix now2)) "pending" 150000 0)
  end.

Definition go_executeRebalancingOperation (opportunity : RebalancingOpportunity) (r : Rebalancer S)
    : goroutine_of unit :=
  match rb_chains r !! op_FromChain opportunity with
  | None =>
      go_lift (Err ("source chain " +:+ pretty (op_FromChain opportunity) +:+ " not found"))
  | Some sourceChain =>
      match rb_across r !! op_FromChain opportunity with
      | None =>
          go_lift (Err ("Across client for chain " +:+ pretty (op_FromChain opportunity)
                          +:+ " not found"))
      | Some acrossClient =>
          match SetString10 (op_Amount opportunity) with
          | None => go_lift (Err ("invalid amount: " +:+ op_Amount opportunity))
          | Some amount =>
              fee ← go_lift (CalculateRelayerFee (Some amount) acrossClient);
              let transfer := mkTransfer (op_FromChain opportunity) (op_ToChain opportunity)
                (HexToAddress (op_Token opportunity)) (Some amount) (cn_Address sourceChain) fee
                "SyncHook rebalancing" (NewInt 20000000000) (NewInt 300000) in
              transactor ← go_GetTransactor sourceChain;
              call (on_rb (modify (λ s,
                mkRb (rb_world s) (rb_transfers s ++ [transfer]) (rb_monitors s))));;
              result ← go_wrap "failed to initiate transfer: "
                (go_InitiateTransfer (Some transfer) transactor acrossClient);
              call (on_rb (modify (λ s,
                mkRb (rb_world s) (rb_transfers s) (rb_monitors s ++ [(opportunity, result)]))))
          end
      end
  end.

Definition go_checkRebalancingOpportunities (r : Rebalancer S) : goroutine_of unit :=
  chainStates ← go_gather (rb_chains r);
  opportunities ← go_try (go_lift (analyzeRebalancingOpportunities chainStates));
  match opportunities with
  | inr _ => mret tt
  | inl opportunities =>
      if bool_decide (0 < length opportunities)%nat then
        foldM (λ _ opportunity, go_try (go_executeRebalancingOperation opportunity r);; mret tt) tt
          opportunities
      else mret tt
  end.

(** One clock reading: the first tick of the monitor that finds the transfer
    complete ends it. *)
Definition go_monitor_tick (result : TransferResult) (acrossClient : BridgeClient S)
    : goroutine_of bool :=
  complete ← go_try (world_call (IsTransferComplete (tf_DepositID result) acrossClient));
  mret (match complete with inl true => true | _ => false end).

(** ** The goroutines and their steps *)

(** [stateUpdateRoutine], [rebalancingRoutine], [monitorChain] of each chain and
    [monitorTransfer] of each transfer. *)
Inductive tid : Type :=
  | Updating
  | Rebalancing
  | Monitoring (chainID : Z)
  | Following (i : nat).

#[export] Instance tid_eq_dec : EqDecision tid.
Proof. solve_decision. Defined.

(** At its [select], in a tick, or returned; a tick says whether the goroutine
    returns after it. *)
Inductive status : Type :=
  | Selecting
  | Running (p : goroutine_of bool)
  | Returned.

Record Pool := mkPool {
  pl_op : Op S;
  pl_done : bool;
  pl_threads : tid → status;
}.

(** The goroutines that have been started. *)
Definition started (o : Operator S) (pl : Pool) (t : tid) : Prop :=
  match t with
  | Updating | Rebalancing => True
  | Monitoring chainID => is_Some (mn_chains (or_monitor o) !! chainID)
  | Following i => (i < length (rb_monitors (op_rb (pl_op pl))))%nat
  end.

Definition body (o : Operator S) (pl : Pool) (t : tid) : goroutine_of bool :=
  match t with
  | Updating => go_updateState o;; mret false
  | Rebalancing => go_checkRebalancingOpportunities (or_rebalancer o);; mret false
  | Monitoring chainID =>
      match mn_chains (or_monitor o) !! chainID with
      | Some chain => go_checkChainState chainID chain;; mret false
      | None => mret false
      end
  | Following i =>
      match rb_monitors (op_rb (pl_op pl)) !! i with
      | Some (opportunity, result) =>
          match rb_across (or_rebalancer o) !! op_FromChain opportunity with
          | Some acrossClient => go_monitor_tick result acrossClient
          | None => go_lift (Panic NilDeref)
          end
      | None => mret false
      end
  end.

End ticks.
Arguments Pool S : clear implicits.
Arguments status S : clear implicits.

(** ** What is seen of them *)

(** What an observer of the service sees. *)
Inductive observation : Type :=
  | RoundStart
  | Submitted (chainID : Z) (state : PoolStates)
  | RoundEnd
  | TickStart
  | Transferred (transfer : CrossChainTransfer)
  | Followed (opportunity : RebalancingOpportunity) (result : TransferResult)
  | TickEnd.

Definition start_of (t : tid) : list observation :=
  match t with Updating => [RoundStart] | Rebalancing => [TickStart] | _ => [] end.
Definition end_of (t : tid) : list observation :=
  match t with Updating => [RoundEnd] | Rebalancing => [TickEnd] | _ => [] end.

(** ** The steps *)

Section steps.
Context {S : Type} `{Runtime S, Gorm S, Common}.

(** The transfers, their monitors and the submissions a call has added. *)
Definition grown (st st' : Op S) : list observation :=
  (Transferred <$> drop (length (rb_transfers (op_rb st))) (rb_transfers (op_rb st'))) ++
  ((λ om, Followed om.1 om.2) <$>
     drop (length (rb_monitors (op_rb st))) (rb_monitors (op_rb st'))) ++
  ((λ ks, Submitted ks.1 ks.2) <$> drop (length (op_submissions st)) (op_submissions st')).

Definition set_status (t : tid) (s : status S) (pl : Pool S) : Pool S :=
  mkPool (pl_op pl) (pl_done pl) (λ t', if decide (t' = t) then s else pl_threads pl t').
Definition set_op (st : Op S) (pl : Pool S) : Pool S := mkPool st (pl_done pl) (pl_threads pl).

(** A panic on any goroutine ends the process. *)
Definition crash (pl : Pool S) : Pool S :=
  set_op (mkOp (op_rb (pl_op pl)) (op_submissions (pl_op pl)) true) pl.

(** [o.cancel()] *)
Definition cancel (pl : Pool S) : Pool S := mkPool (pl_op pl) true (pl_threads pl).

Inductive step (o : Operator S) : Pool S → list observation → Pool S → Prop :=
  (** its ticker fires, whether the context is done or not; the order of every
      [range] of the tick is drawn anew *)
  | step_tick (R : RangeOrder) t pl :
      op_exited (pl_op pl) = false → started o pl t → pl_threads pl t = Selecting →
      step o pl (start_of t) (set_status t (Running (body o pl t)) pl)
  | step_call t pl X (m : M (Op S) X) k st' x :
      op_exited (pl_op pl) = false → pl_threads pl t = Running (Call m k) →
      try m (pl_op pl) = (st', Ret x) →
      step o pl (grown (pl_op pl) st') (set_status t (Running (k x)) (set_op st' pl))
  | step_call_panic t pl X (m : M (Op S) X) k st' q :
      op_exited (pl_op pl) = false → pl_threads pl t = Running (Call m k) →
      try m (pl_op pl) = (st', Panic q) →
      step o pl (grown (pl_op pl) st') (crash (set_op st' pl))
  | step_end t pl r :
      op_exited (pl_op pl) = false → pl_threads pl t = Running (Finish r) →
      (∀ q, r ≠ Panic q) →
      step o pl (end_of t)
        (set_status t (match r with Ret true => Returned | _ => Selecting end) pl)
  | step_panic t pl q :
      op_exited (pl_op pl) = false → pl_threads pl t = Running (Finish (Panic q)) →
      step o pl [] (crash pl)
  (** the context of [Run] is done *)
  | step_cancel pl : op_exited (pl_op pl) = false → step o pl [] (cancel pl)
  | step_return t pl :
      op_exited (pl_op pl) = false → started o pl t → pl_done pl = true →
      pl_threads pl t = Selecting → step o pl [] (set_status t Returned pl)
  | step_pass d pl st' :
      op_exited (pl_op pl) = false → 0 ≤ d → in_world (Sleep d) (pl_op pl) = (st', Ret tt) →
      step o pl [] (set_op st' pl).

(** Which step is next: the choices of the scheduler and of [range]. *)
Inductive move : Type :=
  | Fire (R : RangeOrder) (t : tid)
  | Do (t : tid)
  | Cancel
  | Leave (t : tid)
  | Let_pass (d : Z).

#[export] Instance started_dec (o : Operator S) pl t : Decision (started o pl t).
Proof. destruct t; cbn; apply _. Defined.

(** The steps as a function of the choice. *)
Definition next (o : Operator S) (c : move) (pl : Pool S) : option (list observation * Pool S) :=
  if op_exited (pl_op pl) then None else
  match c with
  | Fire R t =>
      match pl_threads pl t with
      | Selecting =>
          if decide (started o pl t)
          then Some (start_of t, set_status t (Running (body o pl t)) pl) else None
      | _ => None
      end
  | Do t =>
      match pl_threads pl t with
      | Running (Call m k) =>
          match try m (pl_op pl) with
          | (st', Ret x) =>
              Some (grown (pl_op pl) st', set_status t (Running (k x)) (set_op st' pl))
          | (st', Panic _) => Some (grown (pl_op pl) st', crash (set_op st' pl))
          | (_, Err _) => None
          end
      | Running (Finish (Panic _)) => Some ([], crash pl)
      | Running (Finish r) =>
          Some (end_of t, set_status t (match r with Ret true => Returned | _ => Selecting end) pl)
      | _ => None
      end
  | Cancel => Some ([], cancel pl)
  | Leave t =>
      match pl_threads pl t with
      | Selecting =>
          if decide (started o pl t ∧ pl_done pl = true)
          then Some ([], set_status t Returned pl) else None
      | _ => None
      end
  | Let_pass d =>
      if decide (0 ≤ d) then
        match in_world (Sleep d) (pl_op pl) with
        | (st', Ret tt) => Some ([], set_op st' pl)
        | _ => None
        end
      else None
  end.

Fixpoint play (o : Operator S) (cs : list move) (pl : Pool S) : option (list observation * Pool S) :=
  match cs with
  | [] => Some ([], pl)
  | c :: cs =>
      match next o c pl with
      | Some (tr, pl') => prod_map (app tr) id <$> play o cs pl'
      | None => None
      end
  end.

Inductive exec (o : Operator S) : Pool S → list observation → Pool S → Prop :=
  | exec_nil pl : exec o pl [] pl
  | exec_cons pl tr pl' tr' pl'' :
      step o pl tr pl' → exec o pl' tr' pl'' → exec o pl (tr ++ tr') pl''.

(** The pool [Run] starts: [stateUpdateRoutine] makes its ticker first. *)
Definition start_pool (o : Operator S) (st : Op S) : Pool S :=
  mkPool st false (λ t,
    if decide (t = Updating ∧ oc_StateUpdateInterval (cg_Operator (or_config o)) ≤ 0)
    then Running (go_lift (Panic (PanicMsg "non-positive interval for NewTicker")))
    else Selecting).

(** [wg.Wait()]: every goroutine it waits for has returned.  Those that follow
    a transfer are not waited for. *)
Definition waited_for (t : tid) : Prop := match t with Following _ => False | _ => True end.
Definition all_returned (o : Operator S) (pl : Pool S) : Prop :=
  ∀ t, started o pl t → waited_for t → pl_threads pl t = Returned.

(** [Stop], and the end of [Run]: cancel, then wait. *)
Inductive Stop (o : Operator S) (pl : Pool S) : list observation → Pool S → Prop :=
  | stop_waits tr pl' :
      op_exited (pl_op pl) = false → exec o (cancel pl) tr pl' → all_returned o pl' → Stop o pl tr pl'.

(** ** [Run] *)

(** A goroutine whose next move panics with [q]; the state it leaves. *)
Inductive panics (pl : Pool S) : Op S → panic → Prop :=
  | panics_end t q :
      pl_threads pl t = Running (Finish (Panic q)) → panics pl (pl_op (crash pl)) q
  | panics_call t X (m : M (Op S) X) k st' q :
      pl_threads pl t = Running (Call m k) → try m (pl_op pl) = (st', Panic q) →
      panics pl (pl_op (crash (set_op st' pl))) q.

(** From the start of the goroutines to the end of [wg.Wait()]: what is seen, the
    state reached and how it ends, by a stop or with the panic of a goroutine. *)
Inductive served (o : Operator S) (st : Op S) : list observation → Op S → res unit → Prop :=
  | served_stopped tr pl tr' pl' :
      exec o (start_pool o st) tr pl → Stop o pl tr' pl' →
      served o st (tr ++ tr') (pl_op pl') (Ret tt)
  | served_crashed tr pl st' q :
      exec o (start_pool o st) tr pl → op_exited (pl_op pl) = false → panics pl st' q →
      served o st tr st' (Panic q).

(** The state the goroutines of [Run] start in. *)
Definition fresh (w : S) : Op S := mkOp (mkRb w [] []) [] false.

(** A scheduler: from any world, it interleaves the goroutines in some way. *)
Definition schedules (o : Operator S) (serving : M (Op S) unit) : Prop :=
  ∀ w, ∃ tr, served o (fresh w) tr (serving (fresh w)).1 (serving (fresh w)).2.
End steps.
