(* ===== verification/ServiceProps.v ===== *)
(** * The service: configurations, state updates, start and shutdown *)

From S2P Require Import Prelude Loops BigInt GoEthereum Runtime ChainConn BridgeClient Rebalancer RebalancerProps ServiceConfig AvsClient Database Service.

(** ** Configurations *)

Definition complete_chain (c : ChainConfig) : Prop :=
  Forall (λ s, s ≠ "") [ch_RPCURL c; ch_PrivateKey c; ch_SyncAVS c; ch_PoolManager c].

Lemma complete_chain_iff c :
  complete_chain c ↔
  ch_RPCURL c ≠ "" ∧ ch_PrivateKey c ≠ "" ∧ ch_SyncAVS c ≠ "" ∧ ch_PoolManager c ≠ "".
Proof. unfold complete_chain. rewrite !Forall_cons, Forall_nil. tauto. Qed.

Definition complete (c : Config) : Prop :=
  cg_Chains c ≠ [] ∧ Forall complete_chain (cg_Chains c) ∧
  ec_RegistryCoordinator (cg_EigenLayer c) ≠ "" ∧ xc_SpokePool (cg_Across c) ≠ "".

Lemma validate_chains_cases i chains :
  (Forall complete_chain chains ∧ validate_chains i chains = Ret tt) ∨
  (∃ pre c post what, chains = pre ++ c :: post ∧ Forall complete_chain pre ∧ ¬ complete_chain c ∧
     validate_chains i chains =
       Err ("chain " +:+ pretty (i + Z.of_nat (length pre)) +:+ ": " +:+ what +:+ " is required")).
Proof.
  revert i. induction chains as [|c chains IH]; intros i; [by left|]. cbn [validate_chains].
  assert (∀ what, ¬ complete_chain c → ∃ pre d post what', c :: chains = pre ++ d :: post ∧
    Forall complete_chain pre ∧ ¬ complete_chain d ∧
    Err (A := unit) ("chain " +:+ pretty i +:+ ": " +:+ what +:+ " is required") =
    Err ("chain " +:+ pretty (i + Z.of_nat (length pre)) +:+ ": " +:+ what' +:+ " is required")) as Hhere.
  { intros what Hc. exists [], c, chains, what. cbn [length]. by rewrite Z.add_0_r. }
  case_bool_decide; [right; apply (Hhere "RPC URL"); rewrite complete_chain_iff; tauto|].
  case_bool_decide; [right; apply (Hhere "private key"); rewrite complete_chain_iff; tauto|].
  case_bool_decide; [right; apply (Hhere "SyncAVS address"); rewrite complete_chain_iff; tauto|].
  case_bool_decide; [right; apply (Hhere "PoolManager address"); rewrite complete_chain_iff; tauto|].
  assert (complete_chain c) by (rewrite complete_chain_iff; tauto).
  destruct (IH (i + 1)) as [[Hall ->]|(pre & d & post & what & -> & Hpre & Hd & ->)].
  - left. split; [by constructor|done].
  - right. exists (c :: pre), d, post, what. split_and!; [done|by constructor|done|].
    cbn [length]. by replace (i + Z.of_nat (S (length pre))) with (i + 1 + Z.of_nat (length pre)) by lia.
Qed.

Lemma validate_complete c : validate c = Ret tt ↔ complete c.
Proof.
  unfold validate, complete. rewrite bool_decide_decide. case_decide as Hn.
  - split; [done|]. intros [? _]. by apply length_zero_iff_nil in Hn.
  - assert (cg_Chains c ≠ []) by (by intros E; rewrite E in Hn).
    destruct (validate_chains_cases 0 (cg_Chains c)) as [[Hall ->]|(pre & d & post & what & E & _ & Hd & ->)].
    + cbn. repeat case_bool_decide; (split; [done || tauto|tauto]).
    + split; [done|]. intros (_ & Hall & _). rewrite E in Hall.
      apply Forall_app in Hall as [_ Hall]. by inversion Hall.
Qed.

Section loading.
Context {V : Type} `{Viper V}.

(** [viper] after the calls of [Load] that come before reading the file. *)
Definition prepared (configFile : string) (v : V) : V :=
  foldl (λ v kv, SetDefault kv.1 kv.2 v)
  (AutomaticEnv (SetConfigType "yaml" (SetConfigFile configFile v))) defaults.

Lemma setDefaults_eq v : setDefaults v = (foldl (λ v kv, SetDefault kv.1 kv.2 v) v defaults, Ret tt).
Proof.
  unfold setDefaults. generalize defaults as l. intros l. revert v.
  induction l as [|kv l IH]; intros v; [done|]. cbn [foldM foldl]. by erewrite M_bind_ret.
Qed.

Lemma Load_inv configFile v v' c :
  Load configFile v = (v', Ret c) →
  complete c ∧ Unmarshal v' = Ret c ∧
  ∃ e, ReadInConfig (prepared configFile (godotenv_Load v).1) = (v', e) ∧
  (e = None ∨ e = Some ConfigFileNotFound).
Proof.
  unfold Load. intros (v1 & a & Ev & E)%M_bind_inv.
  assert (v1 = (godotenv_Load v).1) as ->.
  { unfold try in Ev. destruct (godotenv_Load v) as [w [?|?|?]]; by simplify_eq/=. }
  do 3 (erewrite M_bind_ret in E by reflexivity).
  rewrite (M_bind_ret _ _ _ _ _ (setDefaults_eq _)) in E. fold (prepared configFile (godotenv_Load v).1) in E.
  unfold mbind at 1, M_bind at 1, read_config at 1 in E.
  destruct (ReadInConfig (prepared configFile (godotenv_Load v).1)) as [v2 e] eqn:Er.
  assert (e = None ∨ e = Some ConfigFileNotFound) as He by (destruct e as [[|msg]|]; [by right|by cbv in E|by left]).
  assert (∃ c', Unmarshal v2 = Ret c' ∧ validate c' = Ret tt ∧ v' = v2 ∧ c = c') as (c' & Hu & Hv & -> & ->).
  { destruct He as [-> | ->]; unfold mbind, M_bind, wrap, lift, get, mret, M_ret in E; cbn in E;
    (destruct (Unmarshal v2) as [c'|?|?]; [|done..]);
    cbn in E; (destruct (validate c') as [[]|?|?] eqn:Hv; [|done..]);
    injection E as <- <-; by exists c'. }
  split; [by apply validate_complete|]. split; [done|]. by exists e.
Qed.
End loading.

(** [C30] Loading a configuration.  [validate] accepts exactly the configurations
    with at least one chain, every chain's four required fields, a registry
    coordinator and a spoke pool; otherwise its error names the first
    incomplete chain by its position, or the missing address.  [Load] returns
    only configurations [validate] accepts: what [viper] holds after the
    defaults and the file, whether the file was found or not. *)
Theorem Load_accepts {V} `{Viper V} (configFile : string) (v v' : V) (c : Config) :
  match validate c with
  | Ret _ => complete c
  | Err e => ¬ complete c ∧
      (cg_Chains c = [] ∨
       (∃ pre d post what, cg_Chains c = pre ++ d :: post ∧ Forall complete_chain pre ∧
          ¬ complete_chain d ∧
          e = "chain " +:+ pretty (Z.of_nat (length pre)) +:+ ": " +:+ what +:+ " is required") ∨
       (Forall complete_chain (cg_Chains c) ∧
          (ec_RegistryCoordinator (cg_EigenLayer c) = "" ∨ xc_SpokePool (cg_Across c) = "")))
  | Panic _ => False
  end ∧
  (Load configFile v = (v', Ret c) →
     complete c ∧ Unmarshal v' = Ret c ∧
     ∃ e, ReadInConfig (prepared configFile (godotenv_Load v).1) = (v', e) ∧
       (e = None ∨ e = Some ConfigFileNotFound)).
Proof.
  split; [|by apply Load_inv].
  pose proof (validate_complete c) as Hret. unfold validate in *.
  case_bool_decide as Hn; [split; [by rewrite <- Hret|]; left; by apply length_zero_iff_nil|].
  destruct (validate_chains_cases 0 (cg_Chains c)) as [[Hall E]|(pre & d & post & what & E & Hp & Hd & Ev)].
  - rewrite E in *. cbn in *. do 2 (case_bool_decide; [split; [by rewrite <- Hret|]; tauto|]).
    by apply Hret.
  - rewrite Ev in *. cbn in *. split; [by rewrite <- Hret|]. right. left. by exists pre, d, post, what.
Qed.

(** A file that decodes to a given configuration. *)
Definition file_viper : Viper (option Config) := {|
  godotenv_Load := throw "no .env file";
  SetConfigFile _ v := v;
  SetConfigType _ v := v;
  AutomaticEnv v := v;
  SetDefault _ _ v := v;
  ReadInConfig v := (v, None);
  Unmarshal v := match v with Some c => Ret c | None => Err "no file" end;
  UnmarshalKey _ v := match v with Some c => Ret (cg_Log c) | None => Err "no file" end;
  os_Getenv _ _ := "";
|}.

(** One chain, an update interval of [interval] nanoseconds. *)
Definition one_chain_config (interval : Z) (url : string) : Config :=
  mkConfig (mkServerConfig "0.0.0.0" 8080) (mkDatabaseConfig "localhost" 5432 "u" "p" "d" "disable")
    [mkChainConfig 1 "eth" url "" "key" "0xa" "0xb" "0xc" 12]
    (mkEigenLayerConfig "0xr" "0xs" "0xb" "0xi" 1 0)
    (mkAcrossConfig "0x5c" "0xc1" "1000000000000000" "10000000000")
    (mkLogConfig "info" "json" "stdout") (mkOperatorConfig interval Float64.f_zero "0" "0" 0).

Lemma Load_accepts_witness :
  let c := one_chain_config (30 * second) "rpc" in
  @Load _ file_viper "config.yaml" (Some c) = (Some c, Ret c) ∧ complete c.
Proof.
  intros c. assert (@Load _ file_viper "config.yaml" (Some c) = (Some c, Ret c)) as E by reflexivity.
  split; [exact E|].
  apply (proj2 (@Load_accepts _ file_viper "config.yaml" (Some c) (Some c) c) E).
Defined.

(** ** Updating states *)

(** Reading the elements of [l] into a map: what is in it has been read, and
    what always answers is in it. *)
Definition gathered {A B} (reads : A → B → Prop) (answers : A → Prop) (l : list (Z * A))
    (m m' : gmap Z B) : Prop :=
  (∀ k x, m' !! k = Some x → m !! k = Some x ∨ ∃ c, (k, c) ∈ l ∧ reads c x) ∧
  (∀ k, is_Some (m !! k) ∨ (∃ c, (k, c) ∈ l ∧ answers c) → is_Some (m' !! k)).

Lemma gathered_nil {A B} (reads : A → B → Prop) answers m : gathered reads answers [] m m.
Proof. split; [by left|]. by intros k [?|(c & ?%elem_of_nil & _)]. Qed.

Lemma gathered_cons {A B} (reads : A → B → Prop) answers k c l m m1 m' :
  (m1 = m ∧ ¬ answers c) ∨ (∃ x, m1 = <[k := x]> m ∧ reads c x) →
  gathered reads answers l m1 m' → gathered reads answers ((k, c) :: l) m m'.
Proof.
  intros H1 [Hin Hout]. split.
  - intros j x Hj. destruct (Hin j x Hj) as [Hs|(d & Hd & Ha)]; [|right; exists d; split; [by right|done]].
    destruct H1 as [[-> _]|(y & -> & Hy)]; [by left|].
    apply lookup_insert_Some in Hs as [[<- <-]|[_ ?]]; [|by left]. right. exists c. split; [by left|done].
  - intros j Hj. apply Hout. destruct (decide (j = k)) as [->|Hne].
    + destruct H1 as [[-> Hna]|(y & -> & _)]; [|left; rewrite lookup_insert_eq; by eexists].
      destruct Hj as [?|(d & [[= <-]|Hd]%elem_of_cons & Ha)]; [by left|done|right; by exists d].
    + destruct Hj as [Hj|(d & [[= -> _]|Hd]%elem_of_cons & Ha)]; [left|done|right; by exists d].
      destruct H1 as [[-> _]|(y & -> & _)]; [done|by rewrite lookup_insert_ne].
Qed.

(** From an empty map, over a map. *)
Lemma gathered_map `{RangeOrder} {A B} (reads : A → B → Prop) answers i (l : gmap Z A) m' :
  gathered reads answers (range_list i l) ∅ m' →
  (∀ k x, m' !! k = Some x → ∃ c, l !! k = Some c ∧ reads c x) ∧
  (∀ k c, l !! k = Some c → answers c → is_Some (m' !! k)).
Proof.
  intros [Hin Hout]. split.
  - intros k x Hk. destruct (Hin k x Hk) as [?|(c & Hc & Ha)]; [done|].
    rewrite range_perm, elem_of_map_to_list in Hc. by exists c.
  - intros k c Hc Ha. apply Hout. right. exists c. by rewrite range_perm, elem_of_map_to_list.
Qed.

Section updates.
Context {S : Type} `{RuntimeLaws S, !NodeLaws S, !Gorm S, Common, RangeOrder}.
Implicit Types (st : Op S) (c : Chain S).

(** [m] returns, submits nothing and transfers nothing. *)
Definition idle {A} (m : M (Op S) A) : Prop :=
  ∀ st, ∃ w a, m st = (mkOp (mkRb w (rb_transfers (op_rb st)) (rb_monitors (op_rb st)))
                  (op_submissions st) (op_exited st), Ret a).

(** [m] returns and ends no process. *)
Definition calm {A} (m : M (Op S) A) : Prop :=
  ∀ st, ∃ st' a, m st = (st', Ret a) ∧ op_exited st' = op_exited st.

Lemma calm_ret {A} (a : A) : calm (mret a).
Proof. intros st. by exists st, a. Qed.

Lemma calm_bind {A B} (m : M (Op S) A) (k : A → M (Op S) B) :
  calm m → (∀ a, calm (k a)) → calm (m ≫= k).
Proof.
  intros Hm Hk st. destruct (Hm st) as (st1 & a & E & <-). rewrite (M_bind_ret _ _ _ _ _ E). apply Hk.
Qed.

Lemma calm_foldM {A B} (f : A → B → M (Op S) A) l a :
  (∀ a b, b ∈ l → calm (f a b)) → calm (foldM f a l).
Proof.
  revert a. induction l as [|b l IH]; intros a Hf; [apply calm_ret|].
  apply calm_bind; [apply Hf; by left|]. intros a'. apply IH. intros a'' b' Hb. apply Hf. by right.
Qed.

Lemma idle_calm {A} (m : M (Op S) A) : idle m → calm m.
Proof. intros Hm st. destruct (Hm st) as (w & a & ->). by eexists _, a. Qed.

Lemma idle_ret {A} (a : A) : idle (mret a).
Proof. intros [[w ts ms] l x]. by exists w, a. Qed.

Lemma idle_bind {A B} (m : M (Op S) A) (k : A → M (Op S) B) :
  idle m → (∀ a, idle (k a)) → idle (m ≫= k).
Proof.
  intros Hm Hk st. destruct (Hm st) as (w & a & E). rewrite (M_bind_ret _ _ _ _ _ E).
  match goal with |- context [k a ?st'] => destruct (Hk a st') as (w' & b & E') end.
  rewrite E'. by exists w', b.
Qed.

(** A call that returns, or whose error is inspected. *)
Lemma idle_in_world {A} (m : M S A) : (∀ s, ∃ a, (m s).2 = Ret a) → idle (in_world m).
Proof.
  intros Hm [[w ts ms] l x]. unfold in_world, on_rb, outside. cbn. destruct (Hm w) as [a Ha].
  exists (m w).1, a. destruct (m w). cbn in *. by subst.
Qed.

Lemma idle_try_in_world {A} (m : M S A) : (∀ s p, (m s).2 ≠ Panic p) → idle (try (in_world m)).
Proof.
  intros Hm [[w ts ms] l x]. unfold try, in_world, on_rb, outside. cbn. specialize (Hm w).
  destruct (m w) as [w' [a|e|p]]; [by exists w', (inl a)|by exists w', (inr e)|by destruct (Hm p)].
Qed.

(** A chain whose node always answers. *)
Definition answers c : Prop := ∀ s, ∃ x, (GetPoolStates c s).2 = Ret x.

(** A state that [c] answered to some call. *)
Definition answer_of c (x : PoolStates) : Prop := ∃ s s', GetPoolStates c s = (s', Ret x).

Definition same_service st st' : Prop :=
  rb_transfers (op_rb st') = rb_transfers (op_rb st) ∧ rb_monitors (op_rb st') = rb_monitors (op_rb st) ∧
  op_exited st' = op_exited st.

Lemma same_service_trans st1 st2 st3 :
  same_service st1 st2 → same_service st2 st3 → same_service st1 st3.
Proof. intros (? & ? & ?) (? & ? & ?). repeat split; congruence. Qed.

Lemma idle_same {A} (m : M (Op S) A) st :
  idle m → ∃ st' a, m st = (st', Ret a) ∧ same_service st st' ∧ op_submissions st' = op_submissions st.
Proof. intros Hm. destruct (Hm st) as (w & a & E). by eexists _, a. Qed.

(** The first loop of [updateState]. *)
Definition gather (states : gmap Z PoolStates) (kc : Z * Chain S) : M (Op S) (gmap Z PoolStates) :=
  state ← try (in_world (GetPoolStates kc.2));
  mret (match state with inl state => <[kc.1 := state]> states | inr _ => states end).

Lemma gather_one states kc st :
  ∃ st' states', gather states kc st = (st', Ret states') ∧ same_service st st' ∧
  op_submissions st' = op_submissions st ∧
  ((states' = states ∧ ¬ answers kc.2) ∨
   (∃ x, states' = <[kc.1 := x]> states ∧ answer_of kc.2 x)).
Proof.
  unfold gather. destruct kc as [k c]. cbn [fst snd].
  destruct st as [[w ts ms] l x].
  unfold mbind, M_bind, try, in_world, on_rb, outside. cbn.
  pose proof (GetPoolStates_no_panic c w) as Hp.
  destruct (GetPoolStates c w) as [w' [y|e|p]] eqn:E; cbn.
  - eexists _, _. split; [done|]. split; [done|]. split; [done|]. right. exists y. split; [done|]. by exists w, w'.
  - eexists _, _. split; [done|]. split; [done|]. split; [done|]. left. split; [done|].
    intros Ha. destruct (Ha w) as [z Hz]. by rewrite E in Hz.
  - by destruct (Hp p).
Qed.

Lemma gather_spec l states st :
  ∃ st' states', foldM gather states l st = (st', Ret states') ∧ same_service st st' ∧
  op_submissions st' = op_submissions st ∧ gathered answer_of answers l states states'.
Proof.
  revert states st. induction l as [|[k c] l IH]; intros states st.
  { exists st, states. split_and!; [done..|apply gathered_nil]. }
  cbn [foldM]. destruct (gather_one states (k, c) st) as (st1 & s1 & E1 & S1 & L1 & H1').
  rewrite (M_bind_ret _ _ _ _ _ E1). destruct (IH s1 st1) as (st2 & s2 & E2 & S2 & L2 & Hg).
  exists st2, s2. split; [done|]. split; [by eapply same_service_trans|]. split; [congruence|].
  by eapply gathered_cons.
Qed.

(** The second loop. *)
Lemma submit_spec (e : AvsClient.Client S) l st :
  ∃ st', foldM (λ _ ks,
  modify (λ st, mkOp (op_rb st) (op_submissions st ++ [ks]) (op_exited st));;
  try (in_world (Client_SubmitStateUpdate ks.1 ks.2 e));;
  mret tt) tt l st = (st', Ret tt) ∧
  same_service st st' ∧ op_submissions st' = op_submissions st ++ l.
Proof.
  revert st. induction l as [|ks l IH]; intros st; [exists st; by rewrite app_nil_r|]. cbn [foldM].
  assert (idle (try (in_world (Client_SubmitStateUpdate ks.1 ks.2 e));; mret tt)) as Hi.
  { apply idle_bind; [|intros; apply idle_ret]. apply idle_try_in_world. intros s p.
    unfold Client_SubmitStateUpdate. by destruct (sleep_clock 100000000 s) as (s' & -> & _). }
  destruct (idle_same _ (mkOp (op_rb st) (op_submissions st ++ [ks]) (op_exited st)) Hi)
  as (st1 & [] & E1 & S1 & L1).
  destruct (IH st1) as (st2 & E2 & S2 & L2). exists st2.
  rewrite M_bind_assoc. erewrite M_bind_ret by reflexivity. rewrite (M_bind_ret _ _ _ _ _ E1).
  split; [done|]. split; [by eapply same_service_trans|]. rewrite L2, L1. cbn. by rewrite <- app_assoc.
Qed.

(** The states that were read are submitted in the order of the second loop. *)
Lemma updateState_loops (o : Operator S) st :
  ∃ states st1 st2, foldM gather ∅ (range_list 0 (or_chains o)) st = (st1, Ret states) ∧
    updateState o st = (st2, Ret tt) ∧ same_service st st2 ∧
    op_submissions st2 = op_submissions st ++ range_list 1 states.
Proof.
  destruct (gather_spec (range_list 0 (or_chains o)) ∅ st) as (st1 & states & E1 & S1 & L1 & _).
  destruct (submit_spec (or_eigenlayer o) (range_list 1 states) st1) as (st2 & E2 & S2 & L2).
  exists states, st1, st2. split; [done|]. split; [unfold updateState; by erewrite M_bind_ret by exact E1|].
  split; [by eapply same_service_trans|]. by rewrite L2, L1.
Qed.
End updates.

(** One round of [updateState].  Whatever the nodes answer, each chain is
    submitted at most once, only under the id it is configured with, and with
    a state its own node has just answered; a chain whose node answers is
    submitted even when every other chain fails.  Nothing else changes: no
    transfer is made and no round is an error. *)
Theorem updateState_submits_each_chain {S} `{RuntimeLaws S, !NodeLaws S, !Gorm S, Common, RangeOrder}
    (o : Operator S) (st : Op S) :
  ∃ st' l, updateState o st = (st', Ret tt) ∧ same_service st st' ∧
    op_submissions st' = op_submissions st ++ l ∧ NoDup l.*1 ∧
    (∀ k x, (k, x) ∈ l → ∃ c, or_chains o !! k = Some c ∧ answer_of c x) ∧
    (∀ k c, or_chains o !! k = Some c → answers c → k ∈ l.*1).
Proof.
  destruct (updateState_loops o st) as (states & st1 & st2 & E1 & E2 & Hs & Hl).
  destruct (gather_spec (range_list 0 (or_chains o)) ∅ st) as (? & ? & E & _ & _ & Hg).
  rewrite E1 in E. injection E as <- <-. apply gathered_map in Hg as [Hin Hout].
  exists st2, (range_list 1 states). split; [done|]. split; [done|]. split; [done|].
  split; [rewrite range_perm; apply NoDup_fst_map_to_list|]. split.
  - intros k x Hk. rewrite range_perm, elem_of_map_to_list in Hk. by apply Hin.
  - intros k c Hc Ha. destruct (Hout k c Hc Ha) as [x Hx].
    rewrite range_perm. apply list_elem_of_fmap. exists (k, x). split; [done|]. by apply elem_of_map_to_list.
Qed.

(** [gorm] without a database: connections are URLs, and closed like them. *)
Definition world_gorm : Gorm World := {|
  GormDB := string;
  SqlDB := string;
  gorm_Open dsn := mret "db";
  gorm_DB db := mret db;
  SetMaxIdleConns _ _ := mret tt;
  SetMaxOpenConns _ _ := mret tt;
  SetConnMaxLifetime _ _ := mret tt;
  sql_Close db := modify (close_world db);
|}.

#[export] Instance world_gorm_laws : @GormLaws World world_gorm.
Proof. by split. Qed.

(** Two chains on a node that is down and one that answers. *)
Definition world_chain (id : Z) (url : string) : Chain World :=
  mkChain id "eth" url None "key" [1] [2] [3] [4] 12.
Definition world_operator : @Operator World _ world_gorm :=
  @mkOperator World _ world_gorm (one_chain_config (30 * second) "rpc") (@mkDatabase World world_gorm "db") (mkMonitor ∅)
    (mkRebalancer ∅ ∅) {[1 := world_chain 1 "down"; 10 := world_chain 10 "rpc"]}
    (mkClient (cg_EigenLayer (one_chain_config 0 "")) None [] [] [] [] 1 0).

Lemma updateState_submits_each_chain_witness :
  ∃ st' l, @updateState World _ world_gorm forward_order world_operator
      (mkOp (mkRb (world_at 0 []) [] []) [] false) = (st', Ret tt) ∧
    op_submissions st' = l ∧ 10 ∈ l.*1.
Proof.
  destruct (@updateState_submits_each_chain World _ _ _ world_gorm text_common forward_order world_operator
    (mkOp (mkRb (world_at 0 []) [] []) [] false)) as (st' & l & E & _ & Hl & _ & _ & Hall).
  exists st', l. split; [exact E|]. split; [exact Hl|].
  apply (Hall 10 (world_chain 10 "rpc")); [by vm_compute|]. intros w. by eexists.
Defined.

(** ** Start and shutdown *)

Section run.
Context {S V : Type} `{RuntimeLaws S, !NodeLaws S, Gorm S, !GormLaws S, Viper V, Common, RangeOrder}.
Implicit Types (st : Op S) (c : Chain S) (o : Operator S).

Definition set_world (w : S) st : Op S :=
  mkOp (mkRb w (rb_transfers (op_rb st)) (rb_monitors (op_rb st))) (op_submissions st) (op_exited st).

(** What stopping [o] does to the world: the EigenLayer client first, then the
    chains from the last started to the first, then the database. *)
Definition stopped o (w : S) : S :=
  (Database_Stop (or_database o)
    (foldl (λ w c, (chain_Stop c w).1) (Client_Stop (or_eigenlayer o) w).1
      (reverse (range_list 2 (or_chains o)).*2))).1.

Lemma New_inv (v : V) cfg s s' o :
  New v cfg s = (s', Ret o) →
  or_config o = cfg ∧ mn_chains (or_monitor o) = or_chains o ∧
  NewRebalancer (cg_Across cfg) (or_chains o) = Ret (or_rebalancer o).
Proof.
  unfold New. intros (s1 & db & _ & E)%M_bind_inv. apply M_bind_inv in E as (s2 & chains & _ & E).
  apply M_bind_inv in E as (s3 & e & _ & E). apply M_bind_inv in E as (s4 & m & Em & E).
  apply M_bind_inv in E as (s5 & rb & Er & E).
  unfold wrap, lift, NewMonitor in Em, Er. injection Em as <- <-.
  destruct (NewRebalancer (cg_Across cfg) chains) as [rb'|?|?] eqn:En; [|done..].
  injection Er as <- <-. injection E as <- <-. done.
Qed.

Lemma chain_Stop_ok c s p : (chain_Stop c s).2 ≠ Panic p.
Proof.
  unfold chain_Stop, mbind, M_bind. pose proof (close_ok (cn_Client c) s) as Hc.
  destruct (Close (cn_Client c) s) as [s' [[]|e|q]]; [|done|by destruct (Hc q)].
  destruct (cn_WSClient c); [apply close_ok|done].
Qed.

Lemma Client_Stop_ok (e : AvsClient.Client S) s p : (Client_Stop e s).2 ≠ Panic p.
Proof. unfold Client_Stop. destruct (ey_client e); [apply close_ok|done]. Qed.

Lemma Database_Stop_ok (d : Database S) s p : (Database_Stop d s).2 ≠ Panic p.
Proof.
  unfold Database_Stop, mbind, M_bind. pose proof (gorm_DB_ok (dt_DB d) s) as Hd.
  destruct (gorm_DB (dt_DB d) s) as [s' [db|e|q]]; [apply sql_Close_ok|done|by destruct (Hd q)].
Qed.

(** A deferred call whose body returned, and one whose process has ended. *)
Lemma with_defer_ret (d : M S unit) m st st1 :
  (∀ s p, (d s).2 ≠ Panic p) → m st = (st1, Ret tt) → op_exited st1 = false →
  with_defer (in_world d) m st = (set_world (d (rb_world (op_rb st1))).1 st1, Ret tt).
Proof.
  intros Hd E Hx. unfold with_defer. rewrite E, Hx. unfold in_world, on_rb, outside.
  specialize (Hd (rb_world (op_rb st1))). unfold set_world. rewrite Hx.
  destruct (d (rb_world (op_rb st1))) as [w [[]|e|p]]; [done..|by destruct (Hd p)].
Qed.

Lemma with_defer_exited (d : M (Op S) unit) m st st1 r :
  m st = (st1, r) → op_exited st1 = true → with_defer d m st = (st1, r).
Proof. intros E Hx. unfold with_defer. by rewrite E, Hx. Qed.

Lemma start_cons id c chains rest st :
  start_chains ((id, c) :: chains) rest st =
  with_defer (in_world (chain_Stop c)) (start_chains chains rest) st.
Proof. destruct st as [[w ts ms] l x]. done. Qed.

Lemma start_chains_ret chains rest st st1 :
  rest st = (st1, Ret tt) → op_exited st1 = false →
  start_chains chains rest st =
    (set_world (foldl (λ w c, (chain_Stop c w).1) (rb_world (op_rb st1)) (reverse chains.*2)) st1, Ret tt).
Proof.
  intros E Hx. induction chains as [|[id c] chains IH].
  - cbn. rewrite E. by destruct st1 as [[w ts ms] l x].
  - rewrite start_cons. erewrite with_defer_ret; [|apply chain_Stop_ok|exact IH|done].
    rewrite fmap_cons, reverse_cons, foldl_app. done.
Qed.

Lemma start_chains_exited chains rest st st1 r :
  rest st = (st1, r) → op_exited st1 = true → start_chains chains rest st = (st1, r).
Proof.
  intros E Hx. induction chains as [|[id c] chains IH]; [done|].
  rewrite start_cons. by eapply with_defer_exited.
Qed.

(** Starting a component does nothing. *)
Lemma start_nothing msg (k : M (Op S) unit) st :
  (wrap msg (in_world (mret tt));; k) st = k st.
Proof. by destruct st as [[w ts ms] l x]. Qed.

(** [Run] around what it serves. *)
Lemma Run_ret serving o st st1 :
  serving st = (st1, Ret tt) → op_exited st1 = false →
  Run serving o st = (set_world (stopped o (rb_world (op_rb st1))) st1, Ret tt).
Proof.
  intros E Hx. unfold Run. rewrite start_nothing.
  pose proof (with_defer_ret _ _ _ _ (Client_Stop_ok (or_eigenlayer o)) E Hx) as Ee.
  rewrite <- (start_nothing "failed to start EigenLayer client: ") in Ee.
  pose proof (start_chains_ret (range_list 2 (or_chains o)) _ _ _ Ee Hx) as Ec.
  exact (with_defer_ret _ _ _ _ (Database_Stop_ok (or_database o)) Ec Hx).
Qed.

Lemma Run_exited serving o st st1 r :
  serving st = (st1, r) → op_exited st1 = true → Run serving o st = (st1, r).
Proof.
  intros E Hx. unfold Run. rewrite start_nothing.
  apply with_defer_exited; [|done]. apply start_chains_exited; [|done].
  rewrite start_nothing. by apply with_defer_exited.
Qed.

Lemma checkChainState_ret id c s : ∃ a, (checkChainState id c s).2 = Ret a.
Proof.
  unfold checkChainState, mbind, M_bind, try. pose proof (GetPoolStates_no_panic c s) as Hp.
  destruct (GetPoolStates c s) as [s' [x|e|p]]; [by eexists..|by destruct (Hp p)].
Qed.

Lemma tick_calm o pct e :
  bridged pct (or_rebalancer o) → (∀ d, e = Pass d → 0 ≤ d) → calm (tick o e).
Proof.
  intros Hb Hd. destruct e as [d|id| |]; cbn [tick].
  - apply idle_calm, idle_in_world. intros s.
    destruct (sleep_clock d s) as (s' & -> & _); [by apply Hd|]. by eexists.
  - destruct (mn_chains _ !! id) as [c|]; [|apply calm_ret].
    apply idle_calm, idle_in_world, checkChainState_ret.
  - intros st. destruct (tick_grows _ pct (op_rb st) Hb) as (r' & E & _).
    unfold on_rb. rewrite E. by eexists _, tt.
  - intros st. destruct (updateState_loops o st) as (_ & _ & st2 & _ & E & (_ & _ & Hx) & _).
    by exists st2, tt.
Qed.

Lemma serve_ret schedule o pct st :
  bridged pct (or_rebalancer o) → (∀ d, Pass d ∈ schedule → 0 ≤ d) →
  0 < oc_StateUpdateInterval (cg_Operator (or_config o)) →
  ∃ st1, serve schedule o st = (st1, Ret tt) ∧ op_exited st1 = op_exited st.
Proof.
  intros Hb Hs Hi. unfold serve, goroutine, NewTicker. rewrite bool_decide_eq_false_2 by lia.
  erewrite M_bind_ret by reflexivity.
  destruct (calm_foldM (λ _ e, tick o e) schedule tt) with (st := st) as (st1 & [] & E & Hx).
  { intros _ e He. apply (tick_calm o pct); [done|]. intros d ->. by apply Hs. }
  exists st1. by rewrite E.
Qed.
End run.

(** The start command end to end: what it closes, in order. *)
Example runOperator_closes :
  let out := @runOperator World _ _ world_gorm file_viper text_common forward_order unit (λ _, Ret tt)
    (@serve World _ world_gorm text_common forward_order [UpdateTick; Pass (60 * second); RebalanceTick]) "config.yaml"
    (Some (one_chain_config (30 * second) "rpc"), world_at 0 []) in
  out.2 = Ret tt ∧ wd_closed out.1.2 = ["https://mainnet.infura.io/v3/your-key"; "rpc"; "db"].
Proof. vm_compute. split; reflexivity. Qed.

(** [New] gives up when the second chain cannot be reached: the error names it,
    and the database and the first chain stay open. *)
Example New_leaves_connections_open :
  let cfg := one_chain_config (30 * second) "rpc" in
  let bad := mkChainConfig 10 "op" "unreachable" "" "key" "0xa" "0xb" "0xc" 12 in
  let cfg2 := mkConfig (cg_Server cfg) (cg_Database cfg) (cg_Chains cfg ++ [bad]) (cg_EigenLayer cfg)
    (cg_Across cfg) (cg_Log cfg) (cg_Operator cfg) in
  let out := @New World _ _ world_gorm file_viper text_common forward_order None cfg2 (world_at 0 []) in
  out.2 = Err "failed to initialize chain 10: failed to connect to RPC: no such host" ∧
  wd_closed out.1 = [].
Proof. vm_compute. split; reflexivity. Qed.
