(* ===== verification/GoroutineLogic.v ===== *)
(** * The goroutines of the service, one at a time

    A program that nothing interrupts is the tick it was written from.  A logic
    for programs, [emits], whose rules are the ways programs are built, says
    what a program does whatever happens between its calls; with it, what each
    tick adds to the logs. *)

From S2P Require Import Prelude Loops BigInt GoEthereum Runtime ChainConn BridgeClient Rebalancer RebalancerProps ServiceConfig AvsClient Database Service Programs Goroutines ServiceProps.

(** ** Ticks that nothing interrupts *)

Section ticks.
Context {S : Type} `{Runtime S, Gorm S, Common, RangeOrder}.
Implicit Types (st : Op S) (c : Chain S).

Lemma on_rb_bind {A B} (m : M (Rb S) A) (k : A → M (Rb S) B) st :
  on_rb (m ≫= k) st = (on_rb m ≫= λ a, on_rb (k a)) st.
Proof. unfold on_rb, mbind, M_bind. by destruct (m (op_rb st)) as [r [a|e|q]]. Qed.

Lemma in_world_bind {A B} (m : M S A) (k : A → M S B) st :
  in_world (m ≫= k) st = (in_world m ≫= λ a, in_world (k a)) st.
Proof. unfold in_world, on_rb, outside, mbind, M_bind. by destruct (m _) as [w [a|e|q]]. Qed.

Lemma on_rb_ret {A} (a : A) st : on_rb (mret a) st = (st, Ret a).
Proof. by destruct st. Qed.

Lemma on_rb_lift {A} (r : res A) st : on_rb (lift r) st = lift r st.
Proof. by destruct st. Qed.

Lemma on_rb_throw {A} e st : on_rb (throw (A := A) e) st = lift (Err e) st.
Proof. by destruct st. Qed.

Lemma in_world_ret {A} (a : A) st : in_world (mret a) st = (st, Ret a).
Proof. by destruct st as [[w ts ms] l x]. Qed.

Lemma in_world_lift {A} (r : res A) st : in_world (lift r) st = lift r st.
Proof. by destruct st as [[w ts ms] l x]. Qed.

Lemma on_rb_wrap {A} msg (m : M (Rb S) A) st : on_rb (wrap msg m) st = wrap msg (on_rb m) st.
Proof. unfold on_rb, wrap. by destruct (m (op_rb st)) as [r [a|e|q]]. Qed.

Lemma in_world_wrap {A} msg (m : M S A) st : in_world (wrap msg m) st = wrap msg (in_world m) st.
Proof. unfold in_world, on_rb, outside, wrap. by destruct (m _) as [w [a|e|q]]. Qed.

Lemma on_rb_try {A} (m : M (Rb S) A) st : on_rb (try m) st = try (on_rb m) st.
Proof. unfold on_rb, try. by destruct (m (op_rb st)) as [r [a|e|q]]. Qed.

Lemma in_world_try {A} (m : M S A) st : in_world (try m) st = try (in_world m) st.
Proof. unfold in_world, on_rb, outside, try. by destruct (m _) as [w [a|e|q]]. Qed.

Lemma on_rb_foldM {A B} (f : A → B → M (Rb S) A) l a st :
  on_rb (foldM f a l) st = foldM (λ a b, on_rb (f a b)) a l st.
Proof.
  revert a st. induction l as [|b l IH]; intros a st; [apply on_rb_ret|]. cbn [foldM].
  rewrite on_rb_bind. apply M_bind_ext. intros st' a' _. apply IH.
Qed.

Lemma foldM_ext {A B} (f g : A → B → M (Op S) A) l a st :
  (∀ a b st, f a b st = g a b st) → foldM f a l st = foldM g a l st.
Proof.
  intros Hfg. revert a st. induction l as [|b l IH]; intros a st; [done|]. cbn [foldM].
  unfold mbind, M_bind. rewrite Hfg. destruct (g a b st) as [st' [a'|e|q]]; [apply IH|done..].
Qed.

(** The first call of a program and of its tick. *)
Ltac next_bind st :=
  rewrite run_bind; first [rewrite in_world_bind | rewrite on_rb_bind | idtac];
  apply M_bind_congr; [|clear st].

Lemma run_GetPoolStates c st : run (go_GetPoolStates c) st = in_world (GetPoolStates c) st.
Proof.
  unfold go_GetPoolStates, GetPoolStates, world_call.
  next_bind st.
  { rewrite run_wrap, in_world_wrap. apply wrap_congr, run_call. }
  intros st b. next_bind st.
  { rewrite run_wrap, in_world_wrap. apply wrap_congr, run_call. }
  intros st i. next_bind st.
  { by rewrite in_world_lift. }
  intros st n. next_bind st; [apply run_call|].
  intros st t. by rewrite in_world_ret.
Qed.

Lemma run_gather chains st : run (go_gather chains) st = foldM gather ∅ (range_list 0 chains) st.
Proof.
  apply run_foldM. clear st. intros states kc st. unfold gather. rewrite run_bind.
  apply M_bind_congr; [|done]. rewrite run_try. apply try_congr, run_GetPoolStates.
Qed.

Lemma run_updateState (o : Operator S) st : run (go_updateState o) st = updateState o st.
Proof.
  unfold go_updateState, updateState. rewrite run_bind. apply M_bind_congr; [apply run_gather|clear st].
  intros st states. apply run_foldM. clear st. intros _ ks st.
  rewrite run_bind. apply M_bind_congr; [apply run_call|]. clear st. intros st _.
  rewrite run_bind. apply M_bind_congr; [|done]. rewrite run_try. apply try_congr, run_call.
Qed.

Lemma run_checkChainState id c st :
  run (go_checkChainState id c) st = in_world (checkChainState id c) st.
Proof.
  unfold go_checkChainState, checkChainState. next_bind st.
  { rewrite run_try, in_world_try. apply try_congr, run_GetPoolStates. }
  intros st [states|e]; [|by rewrite in_world_ret].
  next_bind st.
  { rewrite run_try, in_world_try. apply try_congr, run_call. }
  intros st _. by rewrite in_world_ret.
Qed.

Lemma run_monitor_tick result (ac : BridgeClient S) st :
  run (go_monitor_tick result ac) st = in_world (monitor_tick result ac) st.
Proof.
  unfold go_monitor_tick, monitor_tick. next_bind st.
  { rewrite run_try, in_world_try. apply try_congr, run_call. }
  intros st x. by rewrite in_world_ret.
Qed.

Lemma run_GetTransactor c st : run (go_GetTransactor c) st = in_world (GetTransactor c) st.
Proof.
  unfold go_GetTransactor, GetTransactor. next_bind st.
  { rewrite run_try, in_world_try. apply try_congr, run_call. }
  intros st x. by rewrite in_world_ret.
Qed.

Lemma run_InitiateTransfer transfer tx (ac : BridgeClient S) st :
  run (go_InitiateTransfer transfer tx ac) st = in_world (InitiateTransfer transfer tx ac) st.
Proof.
  unfold go_InitiateTransfer, InitiateTransfer. destruct transfer as [t|]; [|by rewrite in_world_lift].
  next_bind st; [apply run_call|]. intros st _.
  next_bind st; [apply run_call|]. intros st t1.
  next_bind st; [apply run_call|]. intros st t2.
  by rewrite in_world_ret.
Qed.

Lemma run_executeRebalancingOperation op (r : Rebalancer S) st :
  run (go_executeRebalancingOperation op r) st = on_rb (executeRebalancingOperation op r) st.
Proof.
  unfold go_executeRebalancingOperation, executeRebalancingOperation.
  destruct (rb_chains r !! _) as [c|]; [|by rewrite on_rb_throw].
  destruct (rb_across r !! _) as [ac|]; [|by rewrite on_rb_throw].
  destruct (SetString10 _) as [amount|]; [|by rewrite on_rb_throw].
  next_bind st; [by rewrite on_rb_lift|]. intros st fee.
  cbv zeta. next_bind st; [apply run_GetTransactor|].
  intros st tx. next_bind st; [apply run_call|]. intros st _.
  next_bind st.
  { rewrite run_wrap, on_rb_wrap. apply wrap_congr, run_InitiateTransfer. }
  intros st result. apply run_call.
Qed.

Lemma run_checkRebalancingOpportunities (r : Rebalancer S) st :
  run (go_checkRebalancingOpportunities r) st = on_rb (checkRebalancingOpportunities r) st.
Proof.
  unfold go_checkRebalancingOpportunities, checkRebalancingOpportunities, executeRebalancing.
  next_bind st.
  { rewrite run_gather, on_rb_foldM. apply foldM_ext. intros states kc st1. unfold gather.
    rewrite on_rb_bind. apply M_bind_congr; [by rewrite on_rb_try|]. intros st2 x. by rewrite on_rb_ret. }
  intros st states. next_bind st.
  { rewrite run_try, on_rb_try. apply try_congr. by rewrite on_rb_lift. }
  intros st [ops|e]; [|by rewrite on_rb_ret]. case_bool_decide; [|by rewrite on_rb_ret].
  rewrite on_rb_foldM. apply run_foldM. clear st. intros _ op st. next_bind st.
  { rewrite run_try, on_rb_try. apply try_congr, run_executeRebalancingOperation. }
  intros st _. by rewrite on_rb_ret.
Qed.
End ticks.

(** ** A logic for programs *)

Section logic.
Context {S : Type} `{Runtime S, Common}.
Implicit Types (st : Op S).

(** What may be assumed of the shared state before any call, and is kept. *)
Variable I : Op S → Prop.

Definition extends st st' : Prop :=
  rb_transfers (op_rb st) `prefix_of` rb_transfers (op_rb st') ∧
  rb_monitors (op_rb st) `prefix_of` rb_monitors (op_rb st') ∧
  op_submissions st `prefix_of` op_submissions st'.

(** Whatever other goroutines do between its calls, [p] ends; none of its calls
    panics or ends the process, and what it adds to the logs, with its result,
    satisfies [E]. *)
Fixpoint emits {A} (p : prog (Op S) A) (E : list observation → res A → Prop) : Prop :=
  match p with
  | Finish r => E [] r
  | Call m k => ∀ st, I st →
      ∃ st' x, try m st = (st', Ret x) ∧ op_exited st' = op_exited st ∧ I st' ∧ extends st st' ∧
        emits (k x) (λ tr r, E (grown st st' ++ tr) r)
  end.

Lemma emits_mono {A} (p : prog (Op S) A) (E E' : list observation → res A → Prop) :
  (∀ tr r, E tr r → E' tr r) → emits p E → emits p E'.
Proof.
  revert E E'. induction p as [r|X m k IH]; intros E E' HE; [apply HE|]. cbn [emits].
  intros Hp st Hst. destruct (Hp st Hst) as (st' & x & ? & ? & ? & ? & Hk).
  exists st', x. split_and!; [done..|]. eapply IH; [|exact Hk]. intros tr r. apply HE.
Qed.

Lemma emits_ret {A} (a : A) (E : list observation → res A → Prop) : E [] (Ret a) → emits (mret a) E.
Proof. done. Qed.

Lemma emits_lift {A} (r : res A) (E : list observation → res A → Prop) : E [] r → emits (go_lift r) E.
Proof. done. Qed.

Lemma emits_bind {A B} (p : prog (Op S) A) (k : A → prog (Op S) B) E :
  emits p (λ tr r, match r with
    | Ret a => emits (k a) (λ tr' r', E (tr ++ tr') r')
    | Err e => E tr (Err e)
    | Panic q => E tr (Panic q)
    end) → emits (p ≫= k) E.
Proof.
  revert E. induction p as [[a|e|q]|X m f IH]; intros E; [done..|].
  intros Hp. change (emits (Call m (λ x, f x ≫= k)) E). intros st Hst.
  destruct (Hp st Hst) as (st' & x & ? & ? & ? & ? & Hk). exists st', x. split_and!; [done..|].
  apply IH. eapply emits_mono; [|exact Hk]. intros tr [a|e|q]; [|done..]. apply emits_mono.
  intros tr' r'. by rewrite app_assoc.
Qed.

Lemma emits_wrap {A} msg (p : prog (Op S) A) E :
  emits p (λ tr r, E tr (wrap_res msg r)) → emits (go_wrap msg p) E.
Proof.
  revert E. induction p as [r|X m f IH]; intros E; [done|]. intros Hp st Hst.
  destruct (Hp st Hst) as (st' & x & ? & ? & ? & ? & Hk). exists st', x. split_and!; [done..|]. by apply IH.
Qed.

Lemma emits_try {A} (p : prog (Op S) A) E :
  emits p (λ tr r, match r with
    | Ret a => E tr (Ret (inl a))
    | Err e => E tr (Ret (inr e))
    | Panic q => E tr (Panic q)
    end) → emits (go_try p) E.
Proof.
  revert E. induction p as [[a|e|q]|X m f IH]; intros E; [done..|]. intros Hp st Hst.
  destruct (Hp st Hst) as (st' & x & ? & ? & ? & ? & Hk). exists st', x. split_and!; [done..|]. by apply IH.
Qed.

Lemma emits_call {A} (m : M (Op S) A) E :
  (∀ st, I st → ∃ st' r, m st = (st', r) ∧ (∀ q, r ≠ Panic q) ∧ op_exited st' = op_exited st ∧
     I st' ∧ extends st st' ∧ E (grown st st') r) →
  emits (call m) E.
Proof.
  intros Hm st Hst. destruct (Hm st Hst) as (st' & r & E' & Hq & ? & ? & ? & HE).
  unfold try. rewrite E'. destruct r as [a|e|q]; [| |by destruct (Hq q)];
    (eexists _, _; split_and!; [done..|]); cbn; by rewrite app_nil_r.
Qed.

Lemma extends_world w st :
  extends st (mkOp (mkRb w (rb_transfers (op_rb st)) (rb_monitors (op_rb st))) (op_submissions st) (op_exited st)).
Proof. done. Qed.

(** A call on the outside world alone. *)
Hypothesis I_world : ∀ w st, I st →
  I (mkOp (mkRb w (rb_transfers (op_rb st)) (rb_monitors (op_rb st))) (op_submissions st) (op_exited st)).

Lemma emits_world {A} (m : M S A) (E : list observation → res A → Prop) :
  (∀ s, (∀ q, (m s).2 ≠ Panic q) ∧ E [] (m s).2) → emits (world_call m) E.
Proof.
  intros Hm. apply emits_call. intros st Hst. destruct (Hm (rb_world (op_rb st))) as [Hq HE].
  unfold in_world, on_rb, outside. destruct (m _) as [w r]. eexists _, r. split; [done|]. split; [done|].
  split; [done|]. split; [by apply I_world|]. split; [apply extends_world|].
  unfold grown. cbn. by rewrite !drop_all.
Qed.

(** A finished program has an outcome, if the state it starts in is one. *)
Lemma emits_outcome {A} (p : prog (Op S) A) E st : I st → emits p E → ∃ tr r, E tr r.
Proof.
  revert st E. induction p as [r|X m k IH]; intros st E Hst Hp; [by eexists _, _|].
  destruct (Hp st Hst) as (st' & x & _ & _ & Hst' & _ & Hk).
  destruct (IH x st' _ Hst' Hk) as (tr & r & HE). by eexists _, _.
Qed.
End logic.

(** ** What the ticks add to the logs *)

Section ticks_emit.
Context {S : Type} `{RuntimeLaws S, !NodeLaws S, !Gorm S, Common, RangeOrder}.
Implicit Types (st : Op S) (c : Chain S) (rb : Rebalancer S).

(** A state [c] answered: its node's block number and chain id, at a clock
    reading.  They need not be of one moment. *)
Definition read_from c (x : PoolStates) : Prop :=
  ∃ s1 s1' b s2 s2' i s3 s3' t,
    BlockNumber (cn_Client c) s1 = (s1', Ret b) ∧ ChainID (cn_Client c) s2 = (s2', Ret (Some i)) ∧
    Now s3 = (s3', Ret t) ∧ x = pool_states b (u64 (Z.abs i)) t.

(** A node that always answers. *)
Definition up c : Prop :=
  (∀ s, ∃ b, (BlockNumber (cn_Client c) s).2 = Ret b) ∧ (∀ s, ∃ i, (ChainID (cn_Client c) s).2 = Ret i).

(** Every monitor has the bridge client of the chain its transfer is from. *)
Definition attended rb st : Prop :=
  Forall (λ om, is_Some (rb_across rb !! op_FromChain om.1)) (rb_monitors (op_rb st)).

Context (rb : Rebalancer S).
Abbreviation emits := (emits (attended rb)).

Lemma attended_world w st : attended rb st →
  attended rb (mkOp (mkRb w (rb_transfers (op_rb st)) (rb_monitors (op_rb st))) (op_submissions st) (op_exited st)).
Proof. done. Qed.

Lemma world_emits {A} (m : M S A) (E : list observation → res A → Prop) :
  (∀ s, (∀ q, (m s).2 ≠ Panic q) ∧ E [] (m s).2) → emits (world_call m) E.
Proof. apply emits_world, attended_world. Qed.

Lemma Now_emits (E : list observation → res time → Prop) :
  (∀ s s' t, Now s = (s', Ret t) → E [] (Ret t)) → emits (world_call Now) E.
Proof.
  intros HE. apply world_emits. intros s. destruct (now_ok s) as (t & s' & En & _).
  rewrite En. split; [done|]. by eapply HE.
Qed.

Lemma Sleep_emits d (E : list observation → res unit → Prop) :
  0 ≤ d → E [] (Ret tt) → emits (world_call (Sleep d)) E.
Proof.
  intros Hd HE. apply world_emits. intros s. by destruct (sleep_clock d s Hd) as (s' & -> & _).
Qed.

Lemma ChainID_emits conn (E : list observation → res bigint → Prop) :
  (∀ s s' i, ChainID conn s = (s', Ret (Some i)) → E [] (Ret (Some i))) →
  (∀ s s' e, ChainID conn s = (s', Err e) → E [] (Err e)) → emits (world_call (ChainID conn)) E.
Proof.
  intros HR HE. apply world_emits. intros s. pose proof (chain_id_ok conn s) as Hi.
  destruct (ChainID conn s) as [s' [[i|]|e|q]] eqn:Ei; [|done| |done];
    (split; [done|]; cbn; by eauto).
Qed.

Lemma GetPoolStates_emits c :
  emits (go_try (go_GetPoolStates c)) (λ tr r, tr = [] ∧
    ((∃ x, r = Ret (inl x) ∧ read_from c x) ∨ (∃ e, r = Ret (inr e) ∧ ¬ up c))).
Proof.
  apply emits_try, emits_bind, emits_wrap, world_emits. intros s1.
  pose proof (block_number_ok (cn_Client c) s1) as Hb. split; [done|].
  destruct (BlockNumber (cn_Client c) s1) as [s1' [b|e|q]] eqn:E1; [| |by destruct (Hb q)]; cbn [snd wrap_res].
  - apply emits_bind, emits_wrap, ChainID_emits; cbn [wrap_res].
    + intros s2 s2' i E2. apply emits_bind, emits_lift. unfold big_Uint64.
      apply emits_bind, Now_emits. intros s3 s3' t E3. apply emits_ret. split; [done|]. left. eexists. split; [done|]. by exists s1, s1', b, s2, s2', i, s3, s3', t.
    + intros s2 s2' e E2. split; [done|]. right. eexists. split; [done|]. intros [_ Hu].
      destruct (Hu s2) as [i Ei]. by rewrite E2 in Ei.
  - split; [done|]. right. eexists. split; [done|]. intros [Hu _].
    destruct (Hu s1) as [i Ei]. by rewrite E1 in Ei.
Qed.

Lemma gather_emits l states :
  emits (foldM (λ states kc,
    state ← go_try (go_GetPoolStates kc.2);
    mret (match state with inl state => <[kc.1 := state]> states | inr _ => states end)) states l)
  (λ tr r, tr = [] ∧ ∃ states', r = Ret states' ∧ gathered read_from up l states states').
Proof.
  revert states. induction l as [|[k c] l IH]; intros states.
  { split; [done|]. exists states. split; [done|]. apply gathered_nil. }
  cbn [foldM fst snd]. apply emits_bind, emits_bind. eapply emits_mono; [|apply GetPoolStates_emits].
  intros tr r [-> Hr]. destruct Hr as [(x & -> & Hx)|(e & -> & Hx)]; apply emits_ret; cbn [app].
  - eapply emits_mono; [|apply IH]. intros tr r [-> (s' & -> & Hg)]. split; [done|]. exists s'.
    split; [done|]. eapply gathered_cons; [|exact Hg]. right. by exists x.
  - eapply emits_mono; [|apply IH]. intros tr r [-> (s' & -> & Hg)]. split; [done|]. exists s'.
    split; [done|]. eapply gathered_cons; [|exact Hg]. by left.
Qed.

(** The three calls that add to the logs. *)
Lemma submission_emits ks (E : list observation → res unit → Prop) :
  E [Submitted ks.1 ks.2] (Ret tt) →
  emits (call (modify (λ st, mkOp (op_rb st) (op_submissions st ++ [ks]) (op_exited st)))) E.
Proof.
  intros HE. apply emits_call. intros st Hst. eexists _, _. split_and!; [done..|split_and!; [done..|by eexists]|].
  unfold grown. cbn. by rewrite !drop_all, drop_app_length.
Qed.

Lemma transfer_emits transfer (E : list observation → res unit → Prop) :
  E [Transferred transfer] (Ret tt) →
  emits (call (on_rb (modify (λ s, mkRb (rb_world s) (rb_transfers s ++ [transfer]) (rb_monitors s))))) E.
Proof.
  intros HE. apply emits_call. intros st Hst. eexists _, _. split_and!; [done..|split_and!; [by eexists|done..]|].
  unfold grown. cbn. by rewrite !drop_all, drop_app_length.
Qed.

Lemma follow_emits opportunity result (E : list observation → res unit → Prop) :
  is_Some (rb_across rb !! op_FromChain opportunity) →
  E [Followed opportunity result] (Ret tt) →
  emits (call (on_rb (modify (λ s,
    mkRb (rb_world s) (rb_transfers s) (rb_monitors s ++ [(opportunity, result)]))))) E.
Proof.
  intros Hac HE. apply emits_call. intros st Hst. eexists _, _. split_and!; [done..| | |].
  - apply Forall_app. split; [done|]. by repeat constructor.
  - split_and!; [done|by eexists|done].
  - unfold grown. cbn. by rewrite !drop_all, drop_app_length.
Qed.

Lemma submit_emits (e : AvsClient.Client S) l :
  emits (foldM (λ _ ks,
    call (modify (λ st, mkOp (op_rb st) (op_submissions st ++ [ks]) (op_exited st)));;
    go_try (world_call (Client_SubmitStateUpdate ks.1 ks.2 e));;
    mret tt) tt l) (λ tr r, tr = (λ ks, Submitted ks.1 ks.2) <$> l ∧ r = Ret tt).
Proof.
  induction l as [|ks l IH]; [by split|]. cbn [foldM].
  apply emits_bind, emits_bind, submission_emits, emits_bind, emits_try, Sleep_emits; [done|]. apply emits_ret.
  eapply emits_mono; [|apply IH]. by intros tr r [-> ->].
Qed.

Lemma updateState_emits (o : Operator S) :
  emits (go_updateState o) (λ tr r, r = Ret tt ∧ ∃ states,
    tr = (λ ks, Submitted ks.1 ks.2) <$> range_list 1 states ∧
    (∀ k x, states !! k = Some x → ∃ c, or_chains o !! k = Some c ∧ read_from c x) ∧
    (∀ k c, or_chains o !! k = Some c → up c → is_Some (states !! k))).
Proof.
  apply emits_bind. eapply emits_mono; [|apply gather_emits].
  intros tr r [-> (states & -> & Hg%gathered_map)]. eapply emits_mono; [|apply submit_emits].
  intros tr r [-> ->]. split; [done|]. by exists states.
Qed.

Lemma checkChainState_emits k c :
  emits (go_checkChainState k c) (λ tr r, tr = [] ∧ r = Ret tt).
Proof.
  apply emits_bind. eapply emits_mono; [|apply GetPoolStates_emits].
  intros tr r [-> [(x & -> & _)|(e & -> & _)]]; [|done].
  apply emits_bind, emits_try, world_emits. done.
Qed.

Lemma monitor_tick_emits result (ac : BridgeClient S) :
  emits (go_monitor_tick result ac) (λ tr r, tr = [] ∧ ∃ b, r = Ret b).
Proof.
  apply emits_bind, emits_try, world_emits. intros s. unfold IsTransferComplete, GetTransferStatus.
  destruct (now_ok s) as (t & s' & E & _). rewrite M_bind_assoc, (M_bind_ret _ _ _ _ _ E).
  split; [done|]. split; [done|]. by eexists.
Qed.

(** The monitor of a transfer just initiated: it follows the Unix second of a
    clock reading. *)
Definition opened (op : RebalancingOpportunity) (result : TransferResult) : Prop :=
  op_FromChain op = 1 ∧ op_ToChain op = 42161 ∧ tf_Status result = "pending" ∧
  ∃ s s' t, Now s = (s', Ret t) ∧ tf_DepositID result = Some (Unix t).

Lemma GetTransactor_emits c (E : list observation → res (TransactOpts S) → Prop) :
  (∀ tx, E [] (Ret tx)) → emits (go_GetTransactor c) E.
Proof. intros HE. apply emits_bind, emits_try, ChainID_emits; intros; by apply emits_ret. Qed.

Lemma InitiateTransfer_emits t tx (ac : BridgeClient S) (E : list observation → res TransferResult → Prop) :
  (∀ s s' h t, Now s = (s', Ret t) →
     E [] (Ret (mkTransferResult h (NewInt (Unix t)) "pending" 150000 0))) →
  emits (go_InitiateTransfer (Some t) tx ac) E.
Proof.
  intros HE. apply emits_bind, Sleep_emits; [done|]. apply emits_bind, Now_emits. intros s1 s1' t1 _.
  apply emits_bind, Now_emits. intros s2 s2' t2 E2. apply emits_ret. by eapply HE.
Qed.

Lemma executeRebalancingOperation_emits pct op :
  analyzeRebalancingOpportunities ∅ = Ret [op] → bridged pct rb →
  emits (go_try (go_executeRebalancingOperation op rb)) (λ tr r, (∃ x, r = Ret x) ∧
    match rb_chains rb !! 1 with
    | Some c => ∃ result, tr = [Transferred (fixed_transfer pct c); Followed op result] ∧ opened op result
    | None => tr = []
    end).
Proof.
  intros [= <-] Hac. apply emits_try. unfold go_executeRebalancingOperation.
  cbn [op_FromChain op_Amount op_ToChain op_Token].
  destruct (rb_chains rb !! 1) as [c|] eqn:Hc; [|apply emits_lift; split; [by eexists|done]].
  destruct (Hac 1) as (ac & Ec & Hpct); [by eexists|]. rewrite Ec.
  assert (SetString10 "100000000000000000000" = Some (100 * 10 ^ 18)) as -> by (vm_compute; reflexivity).
  rewrite (CalculateRelayerFee_floor _ pct) by done. apply emits_bind, emits_lift.
  apply emits_bind, GetTransactor_emits. intros tx. apply emits_bind, transfer_emits.
  apply emits_bind, emits_wrap, InitiateTransfer_emits. intros s s' h t Et.
  apply follow_emits; [by eexists|]. split; [by eexists|]. eexists. split; [reflexivity|].
  split_and!; [done..|]. by eexists _, _, _.
Qed.

Lemma checkRebalancingOpportunities_emits pct :
  bridged pct rb →
  emits (go_checkRebalancingOpportunities rb) (λ tr r, r = Ret tt ∧
    match rb_chains rb !! 1 with
    | Some c => ∃ op result,
        tr = [Transferred (fixed_transfer pct c); Followed op result] ∧ opened op result
    | None => tr = []
    end).
Proof.
  intros Hac. apply emits_bind. eapply emits_mono; [|apply gather_emits].
  intros tr r [-> (states & -> & _)]. apply emits_bind, emits_try, emits_lift.
  unfold analyzeRebalancingOpportunities. cbv beta iota. cbn [length].
  rewrite bool_decide_eq_true_2 by lia. cbn [foldM]. apply emits_bind, emits_bind.
  eapply emits_mono; [|by apply (executeRebalancingOperation_emits pct)].
  intros tr r [[x ->] Htr]. apply emits_ret, emits_ret. split; [done|]. cbn [app].
  rewrite !app_nil_r. destruct (rb_chains rb !! 1); [|done]. destruct Htr as (result & -> & Ho). by eexists _, _.
Qed.
End ticks_emit.
