(* ===== verification/GoroutineSpec.v ===== *)
(** * What the service promises: a state machine per goroutine

    The specification, and what relates it to the steps of [Goroutines]: the
    logs are the trace, the steps are those the moves give, and a measure of
    what the goroutines have left to do. *)

From S2P Require Import Prelude Loops BigInt GoEthereum Runtime ChainConn BridgeClient Rebalancer RebalancerProps ServiceConfig AvsClient Database Service Programs Goroutines ServiceProps GoroutineLogic.

(** ** The specification *)

(** Where a goroutine is in its round or tick: which chains a round has
    submitted, and how far the tick has got with its transfer. *)
Inductive phase : Type :=
  | Idle
  | Submitting (used : gset Z)
  | Deciding
  | Moving
  | Moved.

(** The goroutine an observation is of. *)
Definition owner (ob : observation) : tid :=
  match ob with RoundStart | Submitted _ _ | RoundEnd => Updating | _ => Rebalancing end.
Definition own (t : tid) (tr : list observation) : list observation := filter (λ ob, owner ob = t) tr.

Definition submitted (tr : list observation) : list (Z * PoolStates) :=
  omap (λ ob, match ob with Submitted k x => Some (k, x) | _ => None end) tr.
Definition transferred (tr : list observation) : list CrossChainTransfer :=
  omap (λ ob, match ob with Transferred t => Some t | _ => None end) tr.
Definition followed (tr : list observation) : list (RebalancingOpportunity * TransferResult) :=
  omap (λ ob, match ob with Followed op result => Some (op, result) | _ => None end) tr.

Section specification.
Context {S : Type} `{Runtime S, Common}.
Context (chains : gmap Z (Chain S)) (pct : Z).

Inductive promised : phase → observation → phase → Prop :=
  | round_starts : promised Idle RoundStart (Submitting ∅)
  (** a configured chain, not submitted in this round, with what its node answered *)
  | round_submits used k c x :
      chains !! k = Some c → k ∉ used → read_from c x →
      promised (Submitting used) (Submitted k x) (Submitting ({[k]} ∪ used))
  (** no chain whose node is up is left out *)
  | round_ends used :
      (∀ k c, chains !! k = Some c → up c → k ∈ used) → promised (Submitting used) RoundEnd Idle
  | tick_starts : promised Idle TickStart Deciding
  | tick_transfers c :
      chains !! 1 = Some c → promised Deciding (Transferred (fixed_transfer pct c)) Moving
  | tick_follows op result : opened op result → promised Moving (Followed op result) Moved
  | tick_moved : promised Moved TickEnd Idle
  | tick_cannot_move : chains !! 1 = None → promised Deciding TickEnd Idle.

Inductive path : phase → list observation → phase → Prop :=
  | path_nil ph : path ph [] ph
  | path_cons ph ob ph' tr ph'' : promised ph ob ph' → path ph' tr ph'' → path ph (ob :: tr) ph''.

Lemma path_app ph1 tr1 ph2 tr2 ph3 : path ph1 tr1 ph2 → path ph2 tr2 ph3 → path ph1 (tr1 ++ tr2) ph3.
Proof. induction 1; [done|]. intros. econstructor; eauto. Qed.

Lemma path_app_inv ph1 tr1 tr2 ph3 : path ph1 (tr1 ++ tr2) ph3 → ∃ ph2, path ph1 tr1 ph2.
Proof.
  revert ph1. induction tr1 as [|ob tr1 IH]; intros ph1 Hp; [by eexists; constructor|].
  inversion Hp as [|? ? ph ? ? Ho Ht]; subst. destruct (IH _ Ht) as [ph2 ?].
  exists ph2. by econstructor.
Qed.

(** Submitting distinct chains. *)
Lemma path_submits used (l : list (Z * PoolStates)) :
  NoDup l.*1 → (∀ k, k ∈ l.*1 → k ∉ used) →
  (∀ k x, (k, x) ∈ l → ∃ c, chains !! k = Some c ∧ read_from c x) →
  path (Submitting used) ((λ ks, Submitted ks.1 ks.2) <$> l) (Submitting (list_to_set l.*1 ∪ used)).
Proof.
  revert used. induction l as [|[k x] l IH]; intros used Hnd Hu Hr.
  { cbn. rewrite union_empty_l_L. constructor. }
  cbn in Hnd. apply NoDup_cons in Hnd as [Hk Hnd]. destruct (Hr k x) as (c & Hc & Hx); [by left|].
  econstructor; [econstructor; [exact Hc|apply Hu; by left|exact Hx]|]. cbn [fmap list_fmap fst].
  rewrite list_to_set_cons, (comm_L (∪) {[k]} (list_to_set _)), <- assoc_L by apply _.
  apply IH; [done| |].
  - intros j Hj. rewrite elem_of_union, elem_of_singleton. intros [->|Hin]; [done|].
    by apply (Hu j); [right|].
  - intros j y Hj. apply Hr. by right.
Qed.

(** [Rebalancing] is never observed submitting, and no one else transferring. *)
Definition accepted (tr : list observation) : Prop := ∀ t, ∃ ph, path Idle (own t tr) ph.
End specification.

Lemma own_app t tr1 tr2 : own t (tr1 ++ tr2) = own t tr1 ++ own t tr2.
Proof. apply filter_app. Qed.

Lemma own_all t tr : Forall (λ ob, owner ob = t) tr → own t tr = tr.
Proof.
  induction 1 as [|ob tr Ho _ IH]; [done|]. unfold own in *. by rewrite filter_cons_True, IH.
Qed.

Lemma own_other t t' tr : t ≠ t' → Forall (λ ob, owner ob = t) tr → own t' tr = [].
Proof.
  intros Hne. induction 1 as [|ob tr Ho _ IH]; [done|]. unfold own in *.
  rewrite filter_cons_False, IH; [done|]. congruence.
Qed.

Lemma owner_start t : Forall (λ ob, owner ob = t) (start_of t).
Proof. by destruct t; repeat constructor. Qed.
Lemma owner_end t : Forall (λ ob, owner ob = t) (end_of t).
Proof. by destruct t; repeat constructor. Qed.

(** The logs of the service are the trace. *)
Lemma grown_logs {S} (st st' : Op S) :
  extends st st' →
  rb_transfers (op_rb st') = rb_transfers (op_rb st) ++ transferred (grown st st') ∧
  rb_monitors (op_rb st') = rb_monitors (op_rb st) ++ followed (grown st st') ∧
  op_submissions st' = op_submissions st ++ submitted (grown st st').
Proof.
  intros ([ts Ht] & [ms Hm] & [l Hl]). unfold grown. rewrite Ht, Hm, Hl, !drop_app_length.
  unfold transferred, followed, submitted. rewrite !omap_app.
  assert (∀ {A B} (f : A → observation) (g : observation → option B) (l : list A),
    (∀ a, g (f a) = None) → omap g (f <$> l) = []) as Hnone.
  { intros A B f g xs Hfg. induction xs as [|a xs IH]; [done|]. cbn. by rewrite Hfg. }
  assert (∀ {A} (f : A → observation) (g : observation → option A) (l : list A),
    (∀ a, g (f a) = Some a) → omap g (f <$> l) = l) as Hsome.
  { intros A f g xs Hfg. induction xs as [|a xs IH]; [done|]. cbn. by rewrite Hfg, IH. }
  split_and!; f_equal; symmetry.
  - rewrite Hsome, !Hnone by done. by rewrite app_nil_r.
  - rewrite (Hnone _ _ Transferred), Hsome, (Hnone _ _ (λ ks, _)) by (by intros []).
    by rewrite app_nil_r.
  - rewrite (Hnone _ _ Transferred), (Hnone _ _ (λ om, _)), Hsome by (by intros []). done.
Qed.

(** ** Running the steps *)

Section playing.
Context {S : Type} `{Runtime S, !Gorm S, Common}.
Implicit Types (pl : Pool S).

(** The steps are those the choices give. *)
Lemma next_step (o : Operator S) pl tr pl' :
  step o pl tr pl' ↔ ∃ c, next o c pl = Some (tr, pl').
Proof.
  split.
  - intros [R t ? Hx Ht Hs|t ? X m k st' x Hx Hr Ht|t ? X m k st' q Hx Hr Ht|t ? r Hx Hr Hq|t ? q Hx Hr|? Hx
      |t ? Hx Ht Hd Hs|d ? st' Hx Hd Hs]; unfold next; rewrite Hx.
    + exists (Fire R t). by rewrite Hs, decide_True.
    + exists (Do t). by rewrite Hr, Ht.
    + exists (Do t). by rewrite Hr, Ht.
    + exists (Do t). rewrite Hr. destruct r as [b|e|q]; [done..|by destruct (Hq q)].
    + exists (Do t). by rewrite Hr.
    + by exists Cancel.
    + exists (Leave t). by rewrite Hs, decide_True.
    + exists (Let_pass d). by rewrite decide_True, Hs.
  - intros [c Hc]. unfold next in Hc. destruct (op_exited (pl_op pl)) eqn:Hx; [done|].
    destruct c as [R t|t| |t|d].
    + destruct (pl_threads pl t) eqn:Hs; [|done..]. case_decide; [|done]. simplify_eq. by constructor.
    + destruct (pl_threads pl t) as [|[r|X m k]|] eqn:Hs; [done| | |done].
      * destruct r as [b|e|q]; simplify_eq;
          [by apply (step_end o t pl (Ret b))|by apply (step_end o t pl (Err e))|by eapply step_panic].
      * destruct (try m (pl_op pl)) as [st' [x|e|q]] eqn:Ht; simplify_eq;
          [by eapply step_call|by eapply step_call_panic].
    + simplify_eq. by constructor.
    + destruct (pl_threads pl t) eqn:Hs; [|done..]. case_decide as Hd; [|done]. destruct Hd. simplify_eq.
      by apply step_return.
    + case_decide; [|done]. destruct (in_world (Sleep d) (pl_op pl)) as [st' [[]|e|q]] eqn:Hs; [|done..].
      simplify_eq. by eapply step_pass.
Qed.

Lemma play_exec (o : Operator S) cs pl tr pl' : play o cs pl = Some (tr, pl') → exec o pl tr pl'.
Proof.
  revert pl tr. induction cs as [|c cs IH]; intros pl tr; cbn; [intros [= <- <-]; constructor|].
  destruct (next o c pl) as [[tr1 pl1]|] eqn:E; [|done].
  destruct (play o cs pl1) as [[tr2 pl2]|] eqn:Ep; [|done]. intros [= <- <-].
  econstructor; [apply next_step; by exists c|by apply IH].
Qed.
End playing.

(** ** A measure of what is left to do *)

Section measure.
Context {S : Type}.

(** Statuses in the order steps other than the start of a tick take them. *)
Definition status_lt (s' s : status S) : Prop :=
  match s with
  | Running (Call _ k) => ∃ x, s' = Running (k x)
  | Running (Finish _) => s' = Selecting ∨ s' = Returned
  | Selecting => s' = Returned
  | Returned => False
  end.

Lemma status_lt_wf : well_founded status_lt.
Proof.
  assert (Acc status_lt Returned) as Hr by (by constructor).
  assert (Acc status_lt Selecting) as Hs by (constructor; by intros s ->).
  intros [|p|]; [done| |done]. induction p as [r|X m k IH]; constructor; cbn.
  - by intros s [-> | ->].
  - intros s [x ->]. apply IH.
Qed.

(** One of the goroutines [ts] goes on. *)
Definition goes_on (ts : list tid) (f' f : tid → status S) : Prop :=
  ∃ t, t ∈ ts ∧ status_lt (f' t) (f t) ∧ ∀ t', t' ∈ ts → t' ≠ t → f' t' = f t'.

Lemma goes_on_wf ts : well_founded (goes_on ts).
Proof.
  induction ts as [|t ts IH]; [intros f; constructor; by intros f' (t & ?%elem_of_nil & _)|].
  assert (∀ s, Acc status_lt s → ∀ f, Acc (goes_on ts) f → f t = s → Acc (goes_on (t :: ts)) f) as Hacc.
  { induction 1 as [s _ IHs]. induction 1 as [f _ IHf]. intros Hf. constructor.
    intros f' (u & Hu & Hlt & Hsame). destruct (decide (u = t)) as [->|Hne].
    - apply (IHs (f' t)); [by rewrite <- Hf|apply IH|done].
    - apply elem_of_cons in Hu as [->|Hu]; [done|]. apply IHf; [|by rewrite Hsame by (by left || done)].
      exists u. split; [done|]. split; [done|]. intros t' Ht'. apply Hsame. by right. }
  intros f. apply (Hacc (f t)); [apply status_lt_wf|apply IH|done].
Qed.
End measure.
