(* ===== verification/GoroutinesProps.v ===== *)
(** * The goroutines of the service: what every interleaving of calls keeps

    The simulation between the specification and the steps, shutdown, and the
    ticks of [Service] as one of the interleavings. *)

From S2P Require Import Prelude Loops BigInt GoEthereum Runtime ChainConn BridgeClient Rebalancer RebalancerProps ServiceConfig AvsClient Database Service Programs Goroutines ServiceProps GoroutineLogic GoroutineSpec.

(** ** The simulation *)

Section simulation.
Context {S : Type} `{RuntimeLaws S, !NodeLaws S, !Gorm S, Common}.
Implicit Types (st : Op S) (pl : Pool S).
Context (o : Operator S) (pct : Z).
Hypothesis Hrb : rb_chains (or_rebalancer o) = or_chains o.
Hypothesis Hbr : bridged pct (or_rebalancer o).

Abbreviation path := (path (or_chains o) pct).
Abbreviation emits := (emits (attended (or_rebalancer o))).

(** Only the monitors of configured chains run. *)
Definition configured (t : tid) : Prop :=
  match t with Monitoring k => is_Some (mn_chains (or_monitor o) !! k) | _ => True end.

(** What [t] still has to do completes what it has done. *)
Definition keeps_promise (t : tid) (hist : list observation) (s : status S) : Prop :=
  match s with
  | Running p => configured t ∧ emits p (λ tr r, (∃ b, r = Ret b) ∧ Forall (λ ob, owner ob = t) tr ∧
      path Idle (own t hist ++ tr ++ end_of t) Idle)
  | _ => path Idle (own t hist) Idle
  end.

Definition sim pl (hist : list observation) : Prop :=
  op_exited (pl_op pl) = false ∧ attended (or_rebalancer o) (pl_op pl) ∧
  (rb_transfers (op_rb (pl_op pl)) = transferred hist ∧
   rb_monitors (op_rb (pl_op pl)) = followed hist ∧ op_submissions (pl_op pl) = submitted hist) ∧
  ∀ t, keeps_promise t hist (pl_threads pl t).

(** A tick from start to end, whatever happens between its calls. *)
Lemma body_emits `{RangeOrder} pl t :
  attended (or_rebalancer o) (pl_op pl) →
  emits (body o pl t) (λ tr r, (∃ b, r = Ret b) ∧ Forall (λ ob, owner ob = t) tr ∧
    path Idle (start_of t ++ tr ++ end_of t) Idle).
Proof.
  intros Ha. destruct t as [| |k|i]; cbn [body].
  - apply emits_bind. eapply emits_mono; [|apply updateState_emits].
    intros tr r (-> & states & -> & Hin & Hout). apply emits_ret. rewrite app_nil_r.
    split; [by eexists|]. split; [by apply Forall_fmap, Forall_true|]. eapply path_cons; [constructor|].
    eapply path_app; [apply path_submits|eapply path_cons; [constructor|constructor]].
    + rewrite range_perm. apply NoDup_fst_map_to_list.
    + intros k _. apply not_elem_of_empty.
    + intros k x Hk. rewrite range_perm, elem_of_map_to_list in Hk. by apply Hin.
    + intros k c Hc Hu. destruct (Hout k c Hc Hu) as [x Hx]. rewrite elem_of_union, elem_of_list_to_set.
      left. rewrite range_perm. apply list_elem_of_fmap. exists (k, x).
      split; [done|]. by apply elem_of_map_to_list.
  - apply emits_bind. eapply emits_mono; [|by apply (checkRebalancingOpportunities_emits _ pct)].
    intros tr r [-> Htr]. apply emits_ret. rewrite app_nil_r. split; [by eexists|]. rewrite Hrb in Htr.
    destruct (or_chains o !! 1) as [c|] eqn:Hc.
    + destruct Htr as (op & result & -> & Hop). split; [by repeat constructor|].
      repeat (eapply path_cons; [by econstructor|]). constructor.
    + subst. split; [done|]. repeat (eapply path_cons; [by econstructor|]). constructor.
  - destruct (mn_chains _ !! k) as [c|]; [|apply emits_ret; split_and!; [by eexists|done|constructor]].
    apply emits_bind. eapply emits_mono; [|apply checkChainState_emits].
    intros tr r [-> ->]. apply emits_ret. split_and!; [by eexists|done|constructor].
  - destruct (_ !! i) as [[op result]|] eqn:Ei;
      [|apply emits_ret; split_and!; [by eexists|done|constructor]].
    pose proof (proj1 (Forall_lookup _ _) Ha i _ Ei) as [ac Hac]. cbn in Hac. rewrite Hac.
    eapply emits_mono; [|apply monitor_tick_emits]. intros tr r [-> Hr]. split_and!; [done..|constructor].
Qed.

(** Another goroutine's observations change no promise. *)
Lemma keeps_other t t' hist tr s :
  t ≠ t' → Forall (λ ob, owner ob = t) tr → keeps_promise t' hist s → keeps_promise t' (hist ++ tr) s.
Proof.
  intros Hne Htr. unfold keeps_promise. by rewrite own_app, (own_other t t' tr), app_nil_r.
Qed.

Lemma keeps_all t hist tr pl s :
  Forall (λ ob, owner ob = t) tr → keeps_promise t (hist ++ tr) s →
  (∀ t', keeps_promise t' hist (pl_threads pl t')) →
  ∀ t', keeps_promise t' (hist ++ tr) (pl_threads (set_status t s pl) t').
Proof.
  intros Htr Hs Hall t'. cbn. case_decide as Ht; [by subst|]. by apply (keeps_other t).
Qed.

(** The start of a tick, a call and the end of a tick. *)
Lemma sim_tick `{RangeOrder} pl hist t :
  sim pl hist → started o pl t → pl_threads pl t = Selecting →
  sim (set_status t (Running (body o pl t)) pl) (hist ++ start_of t).
Proof.
  intros (Hx & Ha & (Hts & Hms & Hl) & Hall) Ht Hsel. pose proof (Hall t) as Hk. rewrite Hsel in Hk. cbn in Hk.
  assert (transferred (start_of t) = [] ∧ followed (start_of t) = [] ∧ submitted (start_of t) = [])
    as (T1 & T2 & T3) by (by destruct t).
  split_and!; [done|done| | | |]; unfold transferred, followed, submitted in *.
  1-3: by rewrite omap_app, ?T1, ?T2, ?T3, app_nil_r.
  apply keeps_all; [apply owner_start| |done]. split; [by destruct t|].
  eapply emits_mono; [|by apply body_emits]. intros tr r (Hr & Ho & Hp). split; [done|]. split; [done|].
  rewrite own_app, (own_all _ _ (owner_start t)), <- app_assoc. by eapply path_app.
Qed.

Lemma sim_call pl hist t X (m : M (Op S) X) k :
  sim pl hist → pl_threads pl t = Running (Call m k) →
  ∃ st' x, try m (pl_op pl) = (st', Ret x) ∧ configured t ∧
    Forall (λ ob, owner ob = t) (grown (pl_op pl) st') ∧
    sim (set_status t (Running (k x)) (set_op st' pl)) (hist ++ grown (pl_op pl) st').
Proof.
  intros (Hx & Ha & (Hts & Hms & Hl) & Hall) Hrun. pose proof (Hall t) as Hk. rewrite Hrun in Hk.
  destruct Hk as [Hc Hk]. destruct (Hk (pl_op pl) Ha) as (st' & x & E & Hx1 & Ha1 & Hext & Hk1).
  apply grown_logs in Hext as (G1 & G2 & G3).
  destruct (emits_outcome _ _ _ _ Ha1 Hk1) as (tr & r & _ & Ho & _). apply Forall_app in Ho as [Ho _].
  exists st', x. split_and!; [done..|]. split_and!; [cbn; congruence|done| | | |]; cbn.
  - unfold transferred in *. by rewrite omap_app, G1, Hts.
  - unfold followed in *. by rewrite omap_app, G2, Hms.
  - unfold submitted in *. by rewrite omap_app, G3, Hl.
  - apply (keeps_all _ _ _ pl); [done| |done]. split; [done|]. eapply emits_mono; [|exact Hk1].
    intros tr' r' (Hr & Ho' & Hp). apply Forall_app in Ho' as [_ Ho']. split; [done|]. split; [done|].
    rewrite own_app, (own_all _ _ Ho), <- app_assoc. by rewrite <- app_assoc in Hp.
Qed.

Lemma sim_finish pl hist t r :
  sim pl hist → pl_threads pl t = Running (Finish r) →
  ∃ b, r = Ret b ∧ configured t ∧
    sim (set_status t (if (b : bool) then Returned else Selecting) pl) (hist ++ end_of t).
Proof.
  intros (Hx & Ha & (Hts & Hms & Hl) & Hall) Hrun. pose proof (Hall t) as Hk. rewrite Hrun in Hk.
  destruct Hk as (Hc & [b ->] & _ & Hp). exists b. split; [done|]. split; [done|].
  assert (transferred (end_of t) = [] ∧ followed (end_of t) = [] ∧ submitted (end_of t) = [])
    as (T1 & T2 & T3) by (by destruct t).
  split_and!; [done|done| | | |]; unfold transferred, followed, submitted in *.
  1-3: by rewrite omap_app, ?T1, ?T2, ?T3, app_nil_r.
  apply keeps_all; [apply owner_end| |done].
  destruct b; cbn; by rewrite own_app, (own_all _ _ (owner_end t)).
Qed.

Lemma sim_step pl tr pl' hist : step o pl tr pl' → sim pl hist → sim pl' (hist ++ tr).
Proof.
  intros Hstep Hsim.
  destruct Hstep as [R t pl _ Ht Hsel|t pl X m k st' x _ Hrun Htry|t pl X m k st' q _ Hrun Htry
    |t pl r _ Hrun Hq|t pl q _ Hrun|pl _|t pl _ Ht Hdone Hsel|d pl st' _ Hd Hsl].
  - by apply sim_tick.
  - destruct (sim_call _ _ _ _ _ _ Hsim Hrun) as (st1 & y & E & _ & _ & Hsim').
    rewrite Htry in E. by injection E as <- <-.
  - destruct (sim_call _ _ _ _ _ _ Hsim Hrun) as (st1 & y & E & _). by rewrite Htry in E.
  - by destruct (sim_finish _ _ _ _ Hsim Hrun) as (b & -> & _ & Hsim').
  - by destruct (sim_finish _ _ _ _ Hsim Hrun) as (b & ? & _).
  - by rewrite app_nil_r.
  - rewrite app_nil_r. destruct Hsim as (Hx & Ha & Hl & Hall). split; [done|]. split; [done|]. split; [done|].
    intros t'. cbn.
    case_decide as Ht'; [|done]. subst. specialize (Hall t). by rewrite Hsel in Hall.
  - rewrite app_nil_r. unfold in_world, on_rb, outside in Hsl. destruct (Sleep d _) as [w a].
    injection Hsl as <- ->. destruct Hsim as (Hx & Ha & Hl & Hall). by split; [|split].
Qed.

Lemma sim_exec pl tr pl' hist : exec o pl tr pl' → sim pl hist → sim pl' (hist ++ tr).
Proof.
  intros He. revert hist. induction He as [pl|pl tr pl1 tr' pl2 Hs _ IH]; intros hist Hsim.
  - by rewrite app_nil_r.
  - rewrite app_assoc. apply IH. by eapply sim_step.
Qed.

Lemma sim_start w :
  0 < oc_StateUpdateInterval (cg_Operator (or_config o)) → sim (start_pool o (fresh w)) [].
Proof.
  intros Hi. split_and!; [done|by constructor|done..|]. intros t. cbn.
  rewrite decide_False by lia. constructor.
Qed.

Lemma sim_accepted pl hist : sim pl hist → accepted (or_chains o) pct hist.
Proof.
  intros (_ & Ha & _ & Hall) t. specialize (Hall t). unfold keeps_promise in Hall.
  destruct (pl_threads pl t) as [|p|]; [by eexists| |by eexists].
  destruct (emits_outcome _ _ _ _ Ha (proj2 Hall)) as (tr & r & _ & _ & Hp). by apply path_app_inv in Hp.
Qed.

(** ** A goroutine that is left alone *)

Definition starts_nothing (tr : list observation) : Prop :=
  Forall (λ ob, ob ≠ RoundStart ∧ ob ≠ TickStart) tr.

Lemma starts_nothing_app tr1 tr2 :
  starts_nothing tr1 → starts_nothing tr2 → starts_nothing (tr1 ++ tr2).
Proof. intros. by apply Forall_app. Qed.

Lemma grown_starts_nothing st st' : starts_nothing (grown st st').
Proof. unfold grown. repeat apply Forall_app_2; by apply Forall_fmap, Forall_true. Qed.

(** [t] finishes its tick, calling after calling, and the others stand still. *)
Lemma left_alone t p pl hist :
  sim pl hist → pl_threads pl t = Running p →
  ∃ tr pl' b, exec o pl tr pl' ∧ sim pl' (hist ++ tr) ∧
    run p (pl_op pl) = (pl_op pl', Ret b) ∧
    ∀ t', pl_threads pl' t' =
      if decide (t' = t) then if (b : bool) then Returned else Selecting else pl_threads pl t'.
Proof.
  revert pl hist. induction p as [r|X m k IH]; intros pl hist Hsim Hp.
  - destruct (sim_finish _ _ _ _ Hsim Hp) as (b & -> & _ & Hsim').
    pose proof (step_end o t pl (Ret b) (proj1 Hsim) Hp ltac:(done)) as Hs.
    exists (end_of t ++ []), (set_status t (if b then Returned else Selecting) pl), b.
    split; [econstructor; [exact Hs|constructor]|]. rewrite app_nil_r. by split_and!.
  - destruct (sim_call _ _ _ _ _ _ Hsim Hp) as (st' & x & Hm & _ & _ & Hsim1).
    pose proof (step_call o t pl X m k st' x (proj1 Hsim) Hp Hm) as Hs.
    destruct (IH x _ _ Hsim1) as (tr & pl' & b & He & Hsim' & Hr & Ht); [cbn; by rewrite decide_True|].
    exists (grown (pl_op pl) st' ++ tr), pl', b. rewrite app_assoc. split; [by econstructor|]. split; [done|].
    split; [cbn [run]; by rewrite (M_bind_ret _ _ _ _ _ Hm)|].
    intros t'. rewrite Ht. cbn. by case_decide.
Qed.

(** ** Shutdown *)

Lemma exec_trans pl1 tr1 pl2 tr2 pl3 : exec o pl1 tr1 pl2 → exec o pl2 tr2 pl3 → exec o pl1 (tr1 ++ tr2) pl3.
Proof. induction 1; [done|]. intros. rewrite <- app_assoc. by econstructor; eauto. Qed.

(** The goroutines that [wg.Wait()] waits for. *)
Definition waiting_group : list tid :=
  Updating :: Rebalancing :: (Monitoring <$> (map_to_list (mn_chains (or_monitor o))).*1).

Lemma waiting_group_iff pl t : t ∈ waiting_group ↔ waited_for t ∧ started o pl t.
Proof.
  unfold waiting_group. rewrite !elem_of_cons, list_elem_of_fmap. destruct t as [| |k|i]; cbn.
  - tauto.
  - tauto.
  - split.
    + intros [?|[?|(j & [= <-] & Hj)]]; [done..|]. split; [done|].
      apply list_elem_of_fmap in Hj as ([j x] & -> & Hj). apply elem_of_map_to_list in Hj. by eexists.
    + intros [_ [c Hc]]. right. right. exists k. split; [done|]. apply list_elem_of_fmap.
      exists (k, c). split; [done|]. by apply elem_of_map_to_list.
  - split; [by intros [?|[?|(? & ? & _)]]|tauto].
Qed.

(** A move of a goroutine that is waited for, other than beginning a tick, and
    the moves that concern the others. *)
Definition settling (mv : move) : Prop :=
  match mv with Do t | Leave t => waited_for t | _ => False end.
Definition beside (mv : move) : Prop :=
  match mv with Fire _ t | Do t | Leave t => ¬ waited_for t | Cancel | Let_pass _ => True end.

Definition moves (P : move → Prop) pl pl' : Prop := ∃ mv tr, P mv ∧ next o mv pl = Some (tr, pl').

(** The goroutines that are waited for all return: they have, or one of them can
    move and, whatever the others do meanwhile, however it or another of them
    moves, they then all return. *)
Inductive must_return : Pool S → Prop :=
  | have_returned pl : all_returned o pl → must_return pl
  | will_return pl :
      (∃ pl', moves settling pl pl') →
      (∀ pl1 pl', rtc (moves beside) pl pl1 → moves settling pl1 pl' → must_return pl') →
      must_return pl.

Lemma moves_sim P pl pl' hist : sim pl hist → moves P pl pl' → ∃ hist', sim pl' hist'.
Proof.
  intros Hsim (mv & tr & _ & Hn). eexists. eapply sim_step; [|exact Hsim]. apply next_step. by exists mv.
Qed.

(** What a step makes of the statuses. *)
Lemma next_statuses mv pl tr pl' hist :
  sim pl hist → next o mv pl = Some (tr, pl') →
  (∀ t', waited_for t' → beside mv → pl_threads pl' t' = pl_threads pl t') ∧
  (settling mv → goes_on (waiting_group) (pl_threads pl') (pl_threads pl)) ∧
  (pl_done pl = true → pl_done pl' = true).
Proof.
  intros Hsim Hn. unfold next in Hn. rewrite (proj1 Hsim) in Hn.
  assert (∀ t s st, waited_for t → configured t → status_lt s (pl_threads pl t) →
    goes_on waiting_group (pl_threads (set_status t s (set_op st pl))) (pl_threads pl)) as Hgo.
  { intros t s st Hw Hc Hlt. exists t. split; [apply (waiting_group_iff pl); by destruct t|]. cbn.
    rewrite decide_True by done. split; [done|]. intros t' _ Ht. by rewrite decide_False. }
  destruct mv as [R t|t| |t|d].
  - destruct (pl_threads pl t); [|done..]. case_decide; [|done]. simplify_eq. split_and!; [|done..].
    intros t' Hw Hb. cbn. case_decide; [by subst|done].
  - destruct (pl_threads pl t) as [|[r|X m k]|] eqn:Hp; [done| | |done].
    + destruct (sim_finish _ _ _ _ Hsim Hp) as (b & -> & Hc & _). simplify_eq. split_and!; [| |done].
      * intros t' Hw Hb. cbn. case_decide; [by subst|done].
      * intros Hw. apply (Hgo t _ (pl_op pl)); [done..|]. rewrite Hp. destruct b; cbn; auto.
    + destruct (sim_call _ _ _ _ _ _ Hsim Hp) as (st' & x & E & Hc & _). rewrite E in Hn. simplify_eq.
      split_and!; [| |done].
      * intros t' Hw Hb. cbn. case_decide; [by subst|done].
      * intros Hw. apply Hgo; [done..|]. rewrite Hp. by eexists.
  - simplify_eq. by split_and!.
  - destruct (pl_threads pl t) eqn:Hp; [|done..]. case_decide as Hs; [|done]. simplify_eq. split_and!; [| |done].
    + intros t' Hw Hb. cbn. case_decide; [by subst|done].
    + intros Hw. apply (Hgo t _ (pl_op pl)); [done|by destruct Hs, t|by rewrite Hp].
  - case_decide; [|done]. destruct (in_world (Sleep d) (pl_op pl)) as [st' [[]|e|q]]; [|done..]. simplify_eq.
    by split_and!.
Qed.

(** A goroutine that has not returned can move. *)
Lemma can_move pl hist t :
  sim pl hist → pl_done pl = true → started o pl t → waited_for t → pl_threads pl t ≠ Returned →
  ∃ pl', moves settling pl pl'.
Proof.
  intros Hsim Hd Hs Hw Hne. pose proof (proj1 Hsim) as Hx.
  destruct (pl_threads pl t) as [|[r|X m k]|] eqn:Hp; [| | |done].
  - eexists _, (Leave t), []. split; [done|]. unfold next. by rewrite Hx, Hp, decide_True.
  - destruct (sim_finish _ _ _ _ Hsim Hp) as (b & -> & _). eexists _, (Do t), _. split; [done|].
    unfold next. by rewrite Hx, Hp.
  - destruct (sim_call _ _ _ _ _ _ Hsim Hp) as (st' & x & E & _). eexists _, (Do t), _. split; [done|].
    unfold next. by rewrite Hx, Hp, E.
Qed.

Lemma returned_dec pl : all_returned o pl ∨ ∃ t, waited_for t ∧ started o pl t ∧ pl_threads pl t ≠ Returned.
Proof.
  assert (∀ ts : list tid, (∀ t, t ∈ ts → pl_threads pl t = Returned) ∨
    ∃ t, t ∈ ts ∧ pl_threads pl t ≠ Returned) as Hts.
  { induction ts as [|t ts [IH|(t' & Ht' & Hne)]].
    - left. by intros t ?%elem_of_nil.
    - destruct (pl_threads pl t) eqn:Hs; [right; exists t; split; [by left|by rewrite Hs]..|].
      left. by intros t' [->|?%IH]%elem_of_cons.
    - right. exists t'. split; [by right|done]. }
  destruct (Hts waiting_group) as [Hall|(t & Ht & Hne)].
  - left. intros t Hs Hw. apply Hall. by apply (waiting_group_iff pl).
  - right. exists t. by apply (waiting_group_iff pl) in Ht as [? ?].
Qed.

Lemma beside_statuses pl pl' hist :
  sim pl hist → pl_done pl = true → rtc (moves beside) pl pl' →
  pl_done pl' = true ∧ (∃ hist', sim pl' hist') ∧ ∀ t, waited_for t → pl_threads pl' t = pl_threads pl t.
Proof.
  intros Hsim Hd Hr. revert hist Hsim Hd. induction Hr as [|pl pl1 pl2 Hm _ IH]; intros hist Hsim Hd.
  { split; [done|]. split; [by eexists|done]. }
  destruct (moves_sim _ _ _ _ Hsim Hm) as [hist' Hsim']. destruct Hm as (mv & tr & Hmv & Hn).
  destruct (next_statuses _ _ _ _ _ Hsim Hn) as (Hb & _ & Hd').
  destruct (IH hist' Hsim' (Hd' Hd)) as (Hd2 & Hsim2 & Ht2). split; [done|]. split; [done|].
  intros t Hw. by rewrite Ht2, Hb.
Qed.

(** No schedule keeps the goroutines that are waited for from returning. *)
Lemma sim_must_return pl hist : sim pl hist → pl_done pl = true → must_return pl.
Proof.
  remember (pl_threads pl) as f eqn:Hf. revert pl hist Hf.
  induction (goes_on_wf waiting_group f) as [f _ IH]. intros pl hist -> Hsim Hd.
  destruct (returned_dec pl) as [Hret|(t & Hw & Hs & Hne)]; [by apply have_returned|].
  apply will_return; [by eapply can_move|]. intros pl1 pl' Hr Hm.
  destruct (beside_statuses _ _ _ Hsim Hd Hr) as (Hd1 & [hist1 Hsim1] & Ht1).
  destruct (moves_sim _ _ _ _ Hsim1 Hm) as [hist' Hsim']. destruct Hm as (mv & tr & Hmv & Hn).
  destruct (next_statuses _ _ _ _ _ Hsim1 Hn) as (_ & Hgo & Hd').
  apply (IH (pl_threads pl')) with (hist := hist'); [|done|done|by apply Hd'].
  destruct (Hgo Hmv) as (u & Hu & Hlt & Hsame).
  assert (∀ t, t ∈ waiting_group → pl_threads pl1 t = pl_threads pl t) as Heq.
  { intros t' Ht'. apply Ht1. by apply (waiting_group_iff pl) in Ht' as [? _]. }
  exists u. split; [done|]. split; [by rewrite <- Heq|]. intros t' Ht' Htu. by rewrite Hsame, Heq.
Qed.

(** One way for them to return. *)
Lemma must_return_exec pl :
  must_return pl → ∃ tr pl', exec o pl tr pl' ∧ starts_nothing tr ∧ all_returned o pl'.
Proof.
  induction 1 as [pl Hret|pl [pl1 Hm] _ IH].
  { exists [], pl. split_and!; [constructor|constructor|done]. }
  destruct (IH pl pl1 (rtc_refl _ _) Hm) as (tr & pl' & He & Hn & Hret).
  destruct Hm as (mv & tr1 & Hmv & Hnext). exists (tr1 ++ tr), pl'.
  split; [econstructor; [apply next_step; by exists mv|done]|]. split; [|done].
  apply starts_nothing_app; [|done]. unfold next in Hnext. destruct (op_exited (pl_op pl)); [done|].
  destruct mv as [R t|t| |t|d]; [done| |done| |done].
  - destruct (pl_threads pl t) as [|[[b|e|q]|X m k]|]; simplify_eq; [by destruct t; repeat constructor..|constructor|].
    destruct (try m (pl_op pl)) as [st' [x|e|q]]; simplify_eq; apply grown_starts_nothing.
  - destruct (pl_threads pl t); [|done..]. case_decide; simplify_eq. constructor.
Qed.

(** Nothing is seen of the service any more. *)
Lemma returned_step pl tr pl' hist :
  sim pl hist → all_returned o pl → step o pl tr pl' → tr = [] ∧ all_returned o pl'.
Proof.
  intros Hsim Hret Hstep.
  assert (∀ t s, pl_threads pl t ≠ Returned → all_returned o (set_status t s pl)) as Hset.
  { intros t s Ht t' Hs Hw. cbn. case_decide as Hd; [|by apply Hret]. subst. by destruct (Ht (Hret t Hs Hw)). }
  assert (∀ t tr, pl_threads pl t ≠ Returned → Forall (λ ob, owner ob = t) tr → tr = []) as Hown.
  { intros t [|ob tr0] Ht Ho; [done|]. apply Forall_cons in Ho as [Ho _].
    assert (t = Updating ∨ t = Rebalancing) as [-> | ->] by (destruct ob; subst; auto).
    - by destruct (Ht (Hret Updating I I)).
    - by destruct (Ht (Hret Rebalancing I I)). }
  destruct Hstep as [R t pl _ Ht Hsel|t pl X m k st' x _ Hp Htry|t pl X m k st' q _ Hp Htry
    |t pl r _ Hp Hq|t pl q _ Hp|pl _|t pl _ Ht Hdone Hsel|d pl st' _ Hd Hsl].
  - assert (pl_threads pl t ≠ Returned) as Hne by (by rewrite Hsel).
    split; [by apply (Hown t), owner_start|by apply Hset].
  - assert (pl_threads pl t ≠ Returned) as Hne by (by rewrite Hp).
    destruct (sim_call _ _ _ _ _ _ Hsim Hp) as (st1 & y & E & _ & Ho & _).
    rewrite Htry in E. injection E as <- <-. split; [by apply (Hown t)|].
    intros t' Hs' Hw'. apply (Hset t _ Hne t'); [by destruct t'|done].
  - destruct (sim_call _ _ _ _ _ _ Hsim Hp) as (st1 & y & E & _). by rewrite Htry in E.
  - assert (pl_threads pl t ≠ Returned) as Hne by (by rewrite Hp).
    split; [by apply (Hown t), owner_end|by apply Hset].
  - by destruct (sim_finish _ _ _ _ Hsim Hp) as (b & ? & _).
  - by split.
  - split; [done|]. apply Hset. by rewrite Hsel.
  - split; [done|]. intros t' Hs' Hw'. apply Hret; [by destruct t'|done].
Qed.

Lemma returned_exec pl tr pl' hist :
  exec o pl tr pl' → sim pl hist → all_returned o pl → tr = [] ∧ all_returned o pl'.
Proof.
  intros He. revert hist. induction He as [pl|pl tr pl1 tr' pl2 Hs _ IH]; intros hist Hsim Hret; [done|].
  destruct (returned_step pl tr pl1 hist Hsim Hret Hs) as [-> Hret1].
  apply (IH (hist ++ [])); [by eapply sim_step|done].
Qed.

(** What the service has begun is finished. *)
Lemma returned_path pl hist t : sim pl hist → all_returned o pl → path Idle (own t hist) Idle.
Proof.
  intros (_ & _ & _ & Hall) Hret. specialize (Hall t).
  assert (t = Updating ∨ t = Rebalancing ∨ own t hist = []) as [->|[->|E]].
  { destruct t as [| |k|i]; [by left|by right; left|right; right..]; clear;
      (induction hist as [|ob hist IH]; [done|]; unfold own in *; rewrite filter_cons_False;
       [done|by destruct ob]). }
  - by rewrite (Hret Updating I I) in Hall.
  - by rewrite (Hret Rebalancing I I) in Hall.
  - rewrite E. constructor.
Qed.

(** ** Ticks of [Service] *)

Lemma tick_runs `{R : RangeOrder} e pl hist :
  sim pl hist → (∀ t, pl_threads pl t = Selecting) → (∀ d, e = Pass d → 0 ≤ d) →
  ∃ tr pl', exec o pl tr pl' ∧ sim pl' (hist ++ tr) ∧ (∀ t, pl_threads pl' t = Selecting) ∧
    tick o e (pl_op pl) = (pl_op pl', Ret tt).
Proof.
  intros Hsim Hsel Hd.
  assert (∀ t (p : prog (Op S) unit), started o pl t → body o pl t = (p;; mret false) →
    ∃ tr pl', exec o pl tr pl' ∧ sim pl' (hist ++ tr) ∧ (∀ t, pl_threads pl' t = Selecting) ∧
      run p (pl_op pl) = (pl_op pl', Ret tt)) as Htick.
  { intros t p Ht Hb. pose proof (step_tick o R t pl (proj1 Hsim) Ht (Hsel t)) as Hs.
    destruct (left_alone t (body o pl t) (set_status t (Running (body o pl t)) pl) (hist ++ start_of t))
      as (tr & pl' & b & He & Hsim' & Hr & Ht'); [by eapply sim_step|cbn; by rewrite decide_True|].
    exists (start_of t ++ tr), pl'. rewrite app_assoc. split; [by econstructor|]. split; [done|].
    rewrite Hb, run_bind in Hr. apply M_bind_inv in Hr as (st1 & [] & Hr & [= -> <-]). split; [|exact Hr].
    intros t'. rewrite Ht'. case_decide; [done|]. cbn. by rewrite decide_False. }
  destruct e as [d|k| |]; cbn [tick].
  - destruct (sleep_clock d (rb_world (op_rb (pl_op pl))) (Hd d eq_refl)) as (s & Es & _).
    assert (∃ st', in_world (Sleep d) (pl_op pl) = (st', Ret tt)) as [st' Est].
    { unfold in_world, on_rb, outside. rewrite Es. by eexists. }
    pose proof (step_pass o d pl st' (proj1 Hsim) (Hd d eq_refl) Est) as Hs.
    exists ([] ++ []), (set_op st' pl). split; [econstructor; [exact Hs|constructor]|].
    split; [by eapply sim_step|]. by split.
  - destruct (mn_chains (or_monitor o) !! k) as [c|] eqn:Hc.
    + destruct (Htick (Monitoring k) (go_checkChainState k c)) as (tr & pl' & He & Hs & Hsel' & Hr);
        [by eexists|cbn; by rewrite Hc|].
      exists tr, pl'. by rewrite run_checkChainState in Hr.
    + exists [], pl. rewrite app_nil_r. split_and!; [constructor|done..].
  - destruct (Htick Rebalancing _ I eq_refl) as (tr & pl' & He & Hs & Hsel' & Hr).
    exists tr, pl'. by rewrite run_checkRebalancingOpportunities in Hr.
  - destruct (Htick Updating _ I eq_refl) as (tr & pl' & He & Hs & Hsel' & Hr).
    exists tr, pl'. by rewrite run_updateState in Hr.
Qed.

Lemma schedule_runs `{RangeOrder} schedule pl hist :
  sim pl hist → (∀ t, pl_threads pl t = Selecting) → (∀ d, Pass d ∈ schedule → 0 ≤ d) →
  ∃ tr pl', exec o pl tr pl' ∧ (∀ t, pl_threads pl' t = Selecting) ∧
    foldM (λ _ e, tick o e) tt schedule (pl_op pl) = (pl_op pl', Ret tt).
Proof.
  revert pl hist. induction schedule as [|e schedule IH]; intros pl hist Hsim Hsel Hd.
  { exists [], pl. split_and!; [constructor|done..]. }
  destruct (tick_runs e pl hist Hsim Hsel) as (tr & pl1 & He & Hsim1 & Hsel1 & Ht).
  { intros d ->. apply Hd. by left. }
  destruct (IH pl1 (hist ++ tr) Hsim1 Hsel1) as (tr' & pl2 & He' & Hsel2 & Hf).
  { intros d Hin. apply Hd. by right. }
  exists (tr ++ tr'), pl2. split; [by eapply exec_trans|]. split; [done|]. cbn [foldM].
  by rewrite (M_bind_ret _ _ _ _ _ Ht).
Qed.
End simulation.

(** ** The service *)

(** The relayer fee. *)
Definition relayer_pct (cfg : Config) : Z := default 0 (SetString10 (xc_RelayerFeePct (cg_Across cfg))).

Section service.
Context {S V : Type} `{RuntimeLaws S, !NodeLaws S, Gorm S, Viper V, Common, RangeOrder}.

Lemma New_sim (v : V) cfg s s' o w :
  New v cfg s = (s', Ret o) → 0 < oc_StateUpdateInterval (cg_Operator cfg) →
  rb_chains (or_rebalancer o) = or_chains o ∧ bridged (relayer_pct cfg) (or_rebalancer o) ∧
  sim o (relayer_pct cfg) (start_pool o (fresh w)) [].
Proof.
  intros (Hcfg & _ & Hrb)%New_inv Hi. apply NewRebalancer_clients in Hrb as [Hch Hb].
  split; [done|]. split; [done|]. apply sim_start. by rewrite Hcfg.
Qed.

(** [serve] as one of the interleavings. *)
Lemma serve_interleaved (v : V) cfg s s' o schedule w :
  New v cfg s = (s', Ret o) → 0 < oc_StateUpdateInterval (cg_Operator cfg) →
  (∀ d, Pass d ∈ schedule → 0 ≤ d) →
  ∃ tr pl, exec o (start_pool o (fresh w)) tr pl ∧
    serve schedule o (fresh w) = (pl_op pl, Ret tt) ∧ ∀ t, pl_threads pl t = Selecting.
Proof.
  intros Hnew Hi Hd. destruct (New_sim v cfg s s' o w Hnew Hi) as (Hrb & Hb & Hsim).
  destruct (schedule_runs o _ Hrb Hb schedule _ _ Hsim) as (tr & pl & He & Hsel & Hf); [|done|].
  { intros t. cbn. apply New_inv in Hnew as [-> _]. rewrite decide_False; [done|]. lia. }
  exists tr, pl. split; [done|]. split; [|done]. unfold serve, goroutine, NewTicker.
  apply New_inv in Hnew as [-> _]. rewrite bool_decide_eq_false_2 by lia.
  erewrite M_bind_ret by reflexivity. cbn [pl_op start_pool] in Hf. by rewrite Hf.
Qed.
End service.

(** [C2] The goroutines of the service implement its specification.  In every
    interleaving of the calls they make, of the ticks of their tickers, the
    cancellation and the passing of time, whatever the nodes answer and whatever
    order each tick ranges over its maps: no goroutine panics, and what is seen of each of them is a run of the state
    machine [promised].  A round submits configured chains only, each at most
    once, with what its node answered, and leaves out no chain whose node is
    up; a tick of the rebalancer makes the one fixed transfer, once, and then
    follows it, or does nothing when chain 1 is not configured.  The updates
    submitted, the transfers and the monitors are those seen, in their order. *)
Theorem service_refines_spec {S V} `{RuntimeLaws S, !NodeLaws S, Gorm S, Viper V, Common, RangeOrder}
    (v : V) cfg (s s' : S) (o : Operator S) tr (pl : Pool S) :
  New v cfg s = (s', Ret o) → 0 < oc_StateUpdateInterval (cg_Operator cfg) →
  exec o (start_pool o (fresh s')) tr pl →
  op_exited (pl_op pl) = false ∧ accepted (or_chains o) (relayer_pct cfg) tr ∧
  op_submissions (pl_op pl) = submitted tr ∧
  rb_transfers (op_rb (pl_op pl)) = transferred tr ∧ rb_monitors (op_rb (pl_op pl)) = followed tr.
Proof.
  intros Hnew Hi He. destruct (New_sim v cfg s s' o s' Hnew Hi) as (Hrb & Hb & Hsim).
  apply (sim_exec o _ Hrb Hb _ _ _ _ He) in Hsim.
  split; [apply Hsim|]. split; [by eapply sim_accepted|]. destruct Hsim as (_ & _ & Hlogs & _).
  by destruct Hlogs as (? & ? & ?).
Qed.

(** A round and a tick whose calls alternate, and the tick's monitor. *)
Definition two_goroutines : list move :=
  [Fire forward_order Updating; Fire backward_order Rebalancing; Do Updating; Do Rebalancing; Do Updating; Do Rebalancing;
   Let_pass second; Do Updating; Do Rebalancing; Do Rebalancing; Do Updating; Do Rebalancing;
   Do Updating; Do Rebalancing; Do Rebalancing; Do Updating; Do Rebalancing; Do Rebalancing;
   Do Rebalancing; Fire forward_order (Following 0); Do (Following 0); Do (Following 0)].

(** What of a trace can be compared. *)
Definition kind_of (ob : observation) : nat :=
  match ob with
  | RoundStart => 0 | Submitted _ _ => 1 | RoundEnd => 2
  | TickStart => 3 | Transferred _ => 4 | Followed _ _ => 5 | TickEnd => 6
  end%nat.

(** An operator for one chain. *)
Definition new_one_chain (interval : Z) : World * res (@Operator World _ world_gorm) :=
  @New World _ _ world_gorm file_viper text_common forward_order None
    (one_chain_config interval "rpc") (world_at 0 []).

Definition play_world (o : @Operator World _ world_gorm) (s : World) (cs : list move) :
    option (list observation * Pool World) :=
  @play World _ world_gorm text_common o cs (@start_pool World _ world_gorm o (fresh s)).

Lemma service_refines_spec_witness :
  ∃ (s' : World) o tr pl, play_world o s' two_goroutines = Some (tr, pl) ∧
    (kind_of <$> tr = [0; 3; 1; 4; 2; 5; 6]%nat) ∧
    @accepted World _ text_common (or_chains o) (10 ^ 15) tr ∧ rb_transfers (op_rb (pl_op pl)) = transferred tr.
Proof.
  assert (match new_one_chain (30 * second) with
    | (s', Ret o) =>
        match play_world o s' two_goroutines with
        | Some (tr, _) => bool_decide (kind_of <$> tr = [0; 3; 1; 4; 2; 5; 6]%nat)
        | None => false
        end
    | _ => false
    end = true) as Hplay by (vm_compute; reflexivity).
  destruct (new_one_chain (30 * second)) as [s' [o|e|q]] eqn:Hnew; [|done..].
  destruct (play_world o s' two_goroutines) as [[tr pl]|] eqn:E; [|done].
  apply bool_decide_eq_true in Hplay. exists s', o, tr, pl. split; [done|]. split; [done|].
  destruct (@service_refines_spec World _ _ _ _ world_gorm file_viper text_common forward_order
    None (one_chain_config (30 * second) "rpc") (world_at 0 []) s' o tr pl Hnew) as (_ & Ha & _ & Ht & _);
    [done|by eapply play_exec|].
  by split.
Defined.

(** [C6] Shutdown.  However the goroutines have been interleaved, once the
    context is cancelled those that are waited for all return: no schedule
    keeps them from it but one that goes on beginning ticks or stops running
    them, so [wg.Wait()] is not a deadlock and [Stop] returns.  Whenever it
    returns, what was begun has been finished: every round has submitted all it
    had to, and every transfer is followed.  After that only the monitors of
    transfers, which are not waited for, still run, and they submit and
    transfer nothing. *)
Theorem shutdown_completes {S V} `{RuntimeLaws S, !NodeLaws S, Gorm S, Viper V, Common, RangeOrder}
    (v : V) cfg (s s' : S) (o : Operator S) tr (pl : Pool S) :
  New v cfg s = (s', Ret o) → 0 < oc_StateUpdateInterval (cg_Operator cfg) →
  exec o (start_pool o (fresh s')) tr pl →
  must_return o (cancel pl) ∧
  (∃ tr' pl', Stop o pl tr' pl' ∧ starts_nothing tr') ∧
  (∀ tr' pl', Stop o pl tr' pl' →
     (∀ t, path (or_chains o) (relayer_pct cfg) Idle (own t (tr ++ tr')) Idle) ∧
     ∀ tr2 pl2, exec o pl' tr2 pl2 → tr2 = [] ∧ all_returned o pl2).
Proof.
  intros Hnew Hi He. destruct (New_sim v cfg s s' o s' Hnew Hi) as (Hrb & Hb & Hsim).
  apply (sim_exec o _ Hrb Hb _ _ _ _ He) in Hsim. cbn [app] in Hsim.
  assert (sim o (relayer_pct cfg) (cancel pl) tr) as Hcan by exact Hsim.
  pose proof (sim_must_return o _ Hrb Hb _ _ Hcan eq_refl) as Hmust. split; [done|]. split.
  - destruct (must_return_exec o _ Hmust) as (tr' & pl' & He' & Hn & Hret).
    exists tr', pl'. split; [|done]. constructor; [apply Hsim|done..].
  - intros tr' pl' Hstop. destruct Hstop as [tr' pl' Hx He' Hret].
    apply (sim_exec o _ Hrb Hb _ _ _ _ He') in Hcan. split.
    + intros t. by apply (returned_path o _ pl').
    + intros tr2 pl2 He2. by eapply (returned_exec o _ Hrb Hb).
Qed.

(** Stopped in the middle of a round and of a tick. *)
Lemma shutdown_completes_witness :
  ∃ (s' : World) o tr pl, play_world o s' (take 12 two_goroutines) = Some (tr, pl) ∧
    (kind_of <$> tr = [0; 3; 1; 4]%nat) ∧
    ∃ tr' pl', @Stop World _ world_gorm text_common o pl tr' pl'.
Proof.
  assert (match new_one_chain (30 * second) with
    | (s', Ret o) =>
        match play_world o s' (take 12 two_goroutines) with
        | Some (tr, pl) => bool_decide (kind_of <$> tr = [0; 3; 1; 4]%nat)
        | None => false
        end
    | _ => false
    end = true) as Hplay by (vm_compute; reflexivity).
  destruct (new_one_chain (30 * second)) as [s' [o|e|q]] eqn:Hnew; [|done..].
  destruct (play_world o s' (take 12 two_goroutines)) as [[tr pl]|] eqn:E; [|done].
  apply bool_decide_eq_true in Hplay.
  exists s', o, tr, pl. split; [done|]. split; [done|].
  destruct (@shutdown_completes World _ _ _ _ world_gorm file_viper text_common forward_order
    None (one_chain_config (30 * second) "rpc") (world_at 0 []) s' o tr pl Hnew)
    as (_ & (tr' & pl' & Hs & _) & _); [done|by eapply play_exec|].
  by exists tr', pl'.
Defined.

(** [wg.Wait()] returns while the monitor of a transfer is in its tick. *)
Example monitor_outlives_Run :
  match new_one_chain (30 * second) with
  | (s', Ret o) =>
      match play_world o s' ([Fire forward_order Rebalancing] ++ replicate 10 (Do Rebalancing) ++ [Cancel;
        Fire forward_order (Following 0); Leave Updating; Leave Rebalancing; Leave (Monitoring 1)]) with
      | Some (_, pl) =>
          match pl_threads pl (Following 0) with Running _ => true | _ => false end
      | None => false
      end
  | _ => false
  end = true.
Proof. vm_compute. reflexivity. Qed.

(** The two models of the ticks agree.  Those of [Service.serve], one after the other in the order of a
    schedule, are one of the interleavings: from the state its goroutines start
    in, there is an execution of their calls that ends in the state [serve]
    ends in, with every goroutine at its [select].  Uninterrupted, the calls of
    a tick are the tick. *)
Theorem serve_is_an_interleaving {S V} `{RuntimeLaws S, !NodeLaws S, Gorm S, Viper V, Common, RangeOrder}
    (v : V) cfg (s s' : S) (o : Operator S) schedule :
  New v cfg s = (s', Ret o) → 0 < oc_StateUpdateInterval (cg_Operator cfg) →
  (∀ d, Pass d ∈ schedule → 0 ≤ d) →
  (∃ tr pl, exec o (start_pool o (fresh s')) tr pl ∧
     serve schedule o (fresh s') = (pl_op pl, Ret tt) ∧ ∀ t, pl_threads pl t = Selecting) ∧
  (∀ st, run (go_updateState o) st = tick o UpdateTick st ∧
     run (go_checkRebalancingOpportunities (or_rebalancer o)) st = tick o RebalanceTick st ∧
     ∀ k c, mn_chains (or_monitor o) !! k = Some c →
       run (go_checkChainState k c) st = tick o (MonitorTick k) st).
Proof.
  intros Hnew Hi Hd. split; [by eapply serve_interleaved|].
  intros st. split; [apply run_updateState|]. split; [apply run_checkRebalancingOpportunities|].
  intros k c Hc. cbn [tick]. rewrite Hc. apply run_checkChainState.
Qed.

Lemma serve_is_an_interleaving_witness :
  let schedule := [UpdateTick; Pass (60 * second); MonitorTick 1; RebalanceTick] in
  ∃ (s' : World) o tr pl,
    @exec World _ world_gorm text_common o (@start_pool World _ world_gorm o (fresh s')) tr pl ∧
    @serve World _ world_gorm text_common forward_order schedule o (fresh s') = (pl_op pl, Ret tt).
Proof.
  intros schedule.
  assert (returns (new_one_chain (30 * second)).2 = true) as Hnew by (vm_compute; reflexivity).
  destruct (new_one_chain (30 * second)) as [s' [o|e|q]] eqn:E; [|done..].
  destruct (@serve_is_an_interleaving World _ _ _ _ world_gorm file_viper text_common forward_order
    None (one_chain_config (30 * second) "rpc") (world_at 0 []) s' o schedule E)
    as [(tr & pl & He & Hs & _) _]; [done| |].
  - intros d Hd. apply list_elem_of_In in Hd. cbn in Hd. by destruct Hd as [?|[[= <-]|[?|[?|[]]]]].
  - by exists s', o, tr, pl.
Defined.
