(* ===== verification/RunProps.v ===== *)
(** * [Run]: from opening the connections to closing them

    The goroutines are those of [Goroutines], interleaved call by call by any
    scheduler, between the starts and the deferred stops of [Service]. *)

From S2P Require Import Prelude Loops GoEthereum Runtime ChainConn BridgeClient Rebalancer RebalancerProps ServiceConfig AvsClient Database Service Programs Goroutines ServiceProps GoroutineLogic GoroutineSpec GoroutinesProps.

(** ** Goroutines at their [select] once the context is done *)

Section stopping.
Context {S : Type} `{RuntimeLaws S, !Gorm S, Common}.
Context (o : Operator S).

Lemma leave_one t pl :
  op_exited (pl_op pl) = false → pl_done pl = true → started o pl t →
  pl_threads pl t = Selecting ∨ pl_threads pl t = Returned →
  ∃ pl', exec o pl [] pl' ∧ pl_op pl' = pl_op pl ∧ pl_done pl' = true ∧ pl_threads pl' t = Returned ∧
    ∀ t', pl_threads pl' t' = pl_threads pl t' ∨ pl_threads pl' t' = Returned.
Proof.
  intros Hx Hd Hs [Ht|Ht]; [|exists pl; split_and!; [constructor|done..|by left]].
  exists (set_status t Returned pl). split_and!; [|done..| |].
  - apply (exec_cons o pl [] _ [] _ (step_return o t pl Hx Hs Hd Ht)). constructor.
  - cbn. by rewrite decide_True.
  - intros t'. cbn. case_decide; auto.
Qed.

Lemma leave_all (ts : list tid) pl :
  op_exited (pl_op pl) = false → pl_done pl = true → (∀ t, t ∈ ts → started o pl t) →
  (∀ t, pl_threads pl t = Selecting ∨ pl_threads pl t = Returned) →
  ∃ pl', exec o pl [] pl' ∧ pl_op pl' = pl_op pl ∧ (∀ t, t ∈ ts → pl_threads pl' t = Returned) ∧
    ∀ t', pl_threads pl' t' = pl_threads pl t' ∨ pl_threads pl' t' = Returned.
Proof.
  revert pl. induction ts as [|t ts IH]; intros pl Hx Hd Hts Hsel.
  { exists pl. split_and!; [constructor|done| |by left]. by intros t ?%elem_of_nil. }
  destruct (leave_one t pl Hx Hd (Hts t ltac:(by left)) (Hsel t)) as (pl1 & He & Ho & Hd1 & Ht & Hk).
  destruct (IH pl1) as (pl2 & He2 & Ho2 & Hall & Hk2); [by rewrite Ho|done| | |].
  - intros t' Ht'. specialize (Hts t' ltac:(by right)). destruct t'; cbn in *; by rewrite ?Ho.
  - intros t'. destruct (Hk t') as [->| ->]; auto.
  - exists pl2. split; [by apply (exec_trans o pl [] pl1 [] pl2)|]. split; [by rewrite Ho2|]. split.
    + intros t' [->|Ht']%elem_of_cons; [|by apply Hall]. destruct (Hk2 t) as [->| ->]; done.
    + intros t'. destruct (Hk2 t') as [->| ->]; auto.
Qed.

(** [Stop] finds nothing to wait for. *)
Lemma Stop_selecting pl :
  op_exited (pl_op pl) = false → (∀ t, pl_threads pl t = Selecting) →
  ∃ pl', Stop o pl [] pl' ∧ pl_op pl' = pl_op pl.
Proof.
  intros Hx Hsel. destruct (leave_all (waiting_group o) (cancel pl)) as (pl' & He & Ho & Hall & _); [done|done| | |].
  - intros t Ht. apply (waiting_group_iff o (cancel pl)) in Ht. tauto.
  - intros t. left. apply Hsel.
  - exists pl'. split; [|done]. constructor; [done|done|]. intros t Hs Hw. apply Hall.
    by apply (waiting_group_iff o pl').
Qed.

(** ** A state update goroutine that cannot make its ticker *)

Definition stuck (pl : Pool S) : Prop :=
  pl_threads pl Updating = Running (Finish (Panic (PanicMsg "non-positive interval for NewTicker"))).

Lemma stuck_step pl tr pl' : stuck pl → step o pl tr pl' → stuck pl'.
Proof.
  intros Hp Hstep.
  assert (∀ t s pl1, pl_threads pl t ≠ pl_threads pl Updating → pl_threads pl1 = pl_threads pl →
    stuck (set_status t s pl1)) as Hset.
  { intros t s pl1 Hne Heq. unfold stuck. cbn. rewrite decide_False; [by rewrite Heq|]. by intros <-. }
  unfold stuck in Hp. destruct Hstep; try done; (apply Hset; [congruence|done]).
Qed.

Lemma stuck_exec pl tr pl' : exec o pl tr pl' → stuck pl → stuck pl'.
Proof. induction 1; [done|]. intros. by eauto using stuck_step. Qed.
End stopping.

(** ** Schedulers *)

Section schedulers.
Context {S V : Type} `{RuntimeLaws S, !NodeLaws S, Gorm S, Viper V, Common, RangeOrder}.

Lemma start_pool_stuck (o : Operator S) st :
  oc_StateUpdateInterval (cg_Operator (or_config o)) ≤ 0 → stuck (start_pool o st).
Proof. intros Hi. unfold stuck. cbn. by rewrite decide_True. Qed.

(** The ticks of [serve], one after the other, and then a stop. *)
Lemma serve_schedules (v : V) cfg s s' o schedule :
  New v cfg s = (s', Ret o) → (∀ d, Pass d ∈ schedule → 0 ≤ d) → schedules o (serve schedule o).
Proof.
  intros Hnew Hd w. destruct (decide (0 < oc_StateUpdateInterval (cg_Operator cfg))) as [Hi|Hi].
  - destruct (serve_interleaved v cfg s s' o schedule w Hnew Hi Hd) as (tr & pl & He & Es & Hsel).
    destruct (New_sim v cfg s s' o w Hnew Hi) as (Hrb & Hb & Hsim).
    apply (sim_exec o _ Hrb Hb _ _ _ _ He) in Hsim as [Hx _].
    destruct (Stop_selecting o pl Hx Hsel) as (pl' & Hst & Ho). exists (tr ++ []).
    rewrite Es. cbn [fst snd]. rewrite <- Ho. by econstructor.
  - apply New_inv in Hnew as [Hcfg _]. exists [].
    assert (serve schedule o (fresh w) = (pl_op (crash (start_pool o (fresh w))),
      Panic (PanicMsg "non-positive interval for NewTicker"))) as ->.
    { unfold serve, goroutine, NewTicker. by rewrite Hcfg, bool_decide_eq_true_2 by lia. }
    eapply served_crashed; [constructor|done|]. apply (panics_end _ Updating). cbn.
    rewrite decide_True; [done|]. split; [done|]. rewrite Hcfg. lia.
Qed.

(** What a scheduler makes of an operator with a positive interval. *)
Lemma served_ret (v : V) cfg s s' o w tr st1 r :
  New v cfg s = (s', Ret o) → 0 < oc_StateUpdateInterval (cg_Operator cfg) →
  served o (fresh w) tr st1 r →
  r = Ret tt ∧ op_exited st1 = false ∧ op_submissions st1 = submitted tr ∧
  rb_transfers (op_rb st1) = transferred tr ∧
  ∀ t, path (or_chains o) (relayer_pct cfg) Idle (own t tr) Idle.
Proof.
  intros Hnew Hi Hs. destruct (New_sim v cfg s s' o w Hnew Hi) as (Hrb & Hb & Hsim).
  destruct Hs as [tr pl tr' pl' He Hstop|tr pl st' q He Hx Hp];
    apply (sim_exec o _ Hrb Hb _ _ _ _ He) in Hsim; cbn [app] in Hsim.
  - destruct Hstop as [tr' pl' _ He' Hret].
    assert (sim o (relayer_pct cfg) (cancel pl) tr) as Hcan by exact Hsim.
    apply (sim_exec o _ Hrb Hb _ _ _ _ He') in Hcan. pose proof Hcan as (Hx & _ & (Ht & _ & Hl) & _).
    split_and!; [done..|]. intros t. by apply (returned_path o _ pl').
  - destruct Hp as [t q Hp|t X m k st' q Hp Htry].
    + by destruct (sim_finish o _ _ _ _ _ Hsim Hp) as (b & ? & _).
    + destruct (sim_call o _ _ _ _ _ _ _ Hsim Hp) as (st1 & y & E & _). by rewrite Htry in E.
Qed.

(** And of one that cannot make its ticker. *)
Lemma served_stuck (o : Operator S) w tr st1 r :
  oc_StateUpdateInterval (cg_Operator (or_config o)) ≤ 0 → served o (fresh w) tr st1 r →
  op_exited st1 = true ∧ ∃ q, r = Panic q.
Proof.
  intros Hi Hs. pose proof (start_pool_stuck o (fresh w) Hi) as Hst.
  destruct Hs as [tr pl tr' pl' He Hstop|tr pl st' q He Hx Hp].
  - destruct Hstop as [tr' pl' Hx He' Hret]. apply (stuck_exec o _ _ _ He) in Hst.
    apply (stuck_exec o _ _ _ He') in Hst. unfold stuck in Hst. by rewrite (Hret Updating I I) in Hst.
  - split; [by destruct Hp|by eexists].
Qed.
End schedulers.

(** The start command end to end, whatever the scheduler does. *)
Theorem start_command {S V Level}
    `{RuntimeLaws S, !NodeLaws S, Gorm S, !GormLaws S, Viper V, Common, RangeOrder}
    (ParseLevel : string → res Level) cobra serving Monitor args file (v v' : V) cfg log (s s' : S) o :
  cobra ["start"; "monitor"] args = Selected "start" file →
  Load (default "config.yaml" file) v = (v', Ret cfg) → NewLogger ParseLevel (cg_Log cfg) = Ret log →
  New v' cfg s = (s', Ret o) → 0 < oc_StateUpdateInterval (cg_Operator cfg) → schedules o (serving o) →
  ∃ tr st1, served o (fresh s') tr st1 (Ret tt) ∧
    operator_main ParseLevel cobra serving Monitor args (v, s) =
      ((v', stopped o (rb_world (op_rb st1))), Ret tt).
Proof.
  intros Hc Hl Hlog Hnew Hi Hw. destruct (Hw s') as [tr Hs].
  destruct (serving o (fresh s')) as [st1 r] eqn:E.
  destruct (served_ret v' cfg s s' o s' tr st1 r Hnew Hi Hs) as (-> & Hx & _). exists tr, st1. split; [done|].
  unfold operator_main. cbn [fmap list_fmap fst]. rewrite Hc.
  change (runOperator ParseLevel serving (default "config.yaml" file) (v, s) =
    ((v', stopped o (rb_world (op_rb st1))), Ret tt)).
  unfold runOperator.
  erewrite M_bind_ret by (apply wrap_ret; unfold on_fst; cbn [fst snd]; by rewrite Hl).
  erewrite M_bind_ret by (apply wrap_ret; unfold lift; by rewrite Hlog).
  erewrite M_bind_ret by done.
  erewrite M_bind_ret by (apply wrap_ret; unfold on_snd; cbn [fst snd]; by rewrite Hnew).
  apply wrap_ret. unfold on_snd. cbn [fst snd]. change (mkOp (mkRb s' [] []) [] false) with (fresh s').
  by rewrite (Run_ret _ _ _ _ E Hx).
Qed.

(** [C7] Start and shutdown.  Let any scheduler interleave the goroutines of an
    operator that [New] built, call by call, and cancel them at any moment.
    [Run] does not fail, every state-update round and every rebalancing tick
    that was begun is finished first (the ticks that follow a transfer are not
    waited for), and then [Run] stops exactly what it started, in reverse order of
    starting: the EigenLayer client, the chains from the last started to the
    first, the database.  With an update interval that is not positive, which
    [validate] accepts, the process ends with a panic instead, and nothing is
    stopped.  Every sequence of ticks, one after the other, is the work of such
    a scheduler. *)
Theorem Run_stops_what_it_started {S V}
    `{RuntimeLaws S, !NodeLaws S, Gorm S, !GormLaws S, Viper V, Common, RangeOrder}
    (v : V) cfg (s s' : S) (o : Operator S) :
  New v cfg s = (s', Ret o) →
  (∀ serving w, schedules o serving →
     (0 < oc_StateUpdateInterval (cg_Operator cfg) →
        ∃ tr st1, served o (fresh w) tr st1 (Ret tt) ∧ serving (fresh w) = (st1, Ret tt) ∧
          (∀ t, path (or_chains o) (relayer_pct cfg) Idle (own t tr) Idle) ∧
          Run serving o (fresh w) = (set_world (stopped o (rb_world (op_rb st1))) st1, Ret tt)) ∧
     (oc_StateUpdateInterval (cg_Operator cfg) ≤ 0 →
        ∃ st1 q, op_exited st1 = true ∧ serving (fresh w) = (st1, Panic q) ∧
          Run serving o (fresh w) = (st1, Panic q))) ∧
  (∀ schedule, (∀ d, Pass d ∈ schedule → 0 ≤ d) → schedules o (serve schedule o)).
Proof.
  intros Hnew. split; [|intros schedule; by eapply serve_schedules].
  intros serving w Hw. destruct (Hw w) as [tr Hs].
  destruct (serving (fresh w)) as [st1 r] eqn:E. split; intros Hi.
  - destruct (served_ret v cfg s s' o w tr st1 r Hnew Hi Hs) as (-> & Hx & _ & _ & Hp).
    exists tr, st1. split_and!; [done..|]. by apply Run_ret.
  - apply New_inv in Hnew as [Hcfg _]. destruct (served_stuck o w tr st1 r) as (Hx & q & ->); [by rewrite Hcfg|done|].
    exists st1, q. split_and!; [done..|]. by apply Run_exited.
Qed.

(** A minute of updates, then a stop; an interval of zero, accepted by
    [validate], ends the process. *)
Lemma Run_stops_what_it_started_witness :
  let serving schedule := @serve World _ world_gorm text_common forward_order schedule in
  let run schedule o := @Run World _ world_gorm forward_order (serving schedule o) o (fresh (world_at 0 [])) in
  (∃ s' o, new_one_chain (30 * second) = (s', Ret o) ∧
     (run [UpdateTick; Pass (60 * second); MonitorTick 1] o).2 = Ret tt) ∧
  (validate (one_chain_config 0 "rpc") = Ret tt ∧
   ∃ s' o, new_one_chain 0 = (s', Ret o) ∧ op_exited (run [UpdateTick] o).1 = true).
Proof.
  intros serving run.
  assert (∀ i, ∃ s' o, new_one_chain i = (s', Ret o)) as Hnew.
  { intros i. destruct (returns_true (new_one_chain i).2) as [o E]; [vm_compute; reflexivity|].
    exists (new_one_chain i).1, o. rewrite <- E. by destruct (new_one_chain i). }
  split; [|split; [vm_compute; reflexivity|]].
  - destruct (Hnew (30 * second)) as (s' & o & E). exists s', o. split; [exact E|].
    destruct (@Run_stops_what_it_started World _ _ _ _ world_gorm _ file_viper text_common forward_order
      None _ _ s' o E) as [Hr Hs].
    destruct (Hr (serving [UpdateTick; Pass (60 * second); MonitorTick 1] o) (world_at 0 []))
      as [(tr & st1 & _ & _ & _ & Er) _]; [|done|by unfold run; rewrite Er].
    apply Hs. intros d Hd. apply list_elem_of_In in Hd. cbn in Hd. by destruct Hd as [?|[[= <-]|[?|[]]]].
  - destruct (Hnew 0) as (s' & o & E). exists s', o. split; [exact E|].
    destruct (@Run_stops_what_it_started World _ _ _ _ world_gorm _ file_viper text_common forward_order
      None _ _ s' o E) as [Hr Hs].
    destruct (Hr (serving [UpdateTick] o) (world_at 0 [])) as [_ (st1 & q & Hx & _ & Er)]; [|done|].
    { apply Hs. intros d Hd. apply list_elem_of_In in Hd. by destruct Hd as [?|[]]. }
    unfold run. by rewrite Er.
Defined.
