(* ===== verification/Node.v ===== *)
(** * [operator/operator.go] and the entry points: the operator process

    [NewOperator] composes the packages under [pkg/]; [eigensdk-go], key files
    and the performer protocol are parameters.  Validators and predictors have
    no state and are left out. *)

From S2P Require Import Prelude Float64 BigInt StateTypes Aggregator Prometheus Alerts Monitor GoEthereum ChainClient Across Config EigenLayer.

(** ** Data *)

Record PoolState := mkPoolState {
  np_TotalLiquidity : bigint;
  np_Price : bigint;
  np_Volume24h : bigint;
  np_Fees24h : bigint;
  np_Timestamp : Z;
  np_BlockNumber : Z;
}.

Record GlobalPoolState := mkGlobalPoolState {
  ng_TotalLiquidity : bigint;
  ng_AveragePrice : bigint;
  ng_ImbalanceScore : bigint;
  ng_LastUpdateBlock : Z;
  ng_ChainStates : gmap Z (option PoolState);
}.

Record StateTask := mkStateTask {
  st_TaskID : Z;
  st_ChainID : Z;
  st_PoolID : Hash;
  st_PoolState : option PoolState;
  st_TaskCreatedBlock : Z;
  st_QuorumNumbers : list Z;
  st_QuorumThresholdPercentage : Z;
}.

Record RebalancingTask := mkRebalancingTask {
  rk_TaskID : Z;
  rk_SourceChainID : Z;
  rk_TargetChainID : Z;
  rk_Amount : bigint;
  rk_Token : Address;
  rk_TaskCreatedBlock : Z;
  rk_QuorumNumbers : list Z;
  rk_QuorumThresholdPercentage : Z;
}.

Record StateTaskResponse := mkStateTaskResponse {
  sr_ReferenceTaskIndex : Z;
  sr_PoolState : option PoolState;
  sr_Confidence : float64;
  sr_Signature : list Z;
}.

Record RebalancingTaskResponse := mkRebalancingTaskResponse {
  rp_ReferenceTaskIndex : Z;
  rp_TransactionHash : Hash;
  rp_Success : bool;
  rp_Signature : list Z;
}.

Definition SemVer : string := "0.0.1".

(** ** What the node relies on in [eigensdk-go] and [go-ethereum/crypto] *)

Class EigenSdk := {
  EthClient : Type;
  eth_NewClient : string → res EthClient;
  EcdsaPrivateKey : Type;
  BlsKeyPair : Type;
  PubkeyToAddress : EcdsaPrivateKey → Address;
  OperatorIdFromKeyPair : BlsKeyPair → list Z;
  EigenMetrics : Type;
  (** name, address *)
  NewEigenMetrics : string → string → EigenMetrics;
  NodeApi : Type;
  (** name, version, address *)
  NewNodeApi : string → string → string → NodeApi;
}.

Section node.
Context {R C : Type} `{Prometheus R C, RangeOrder, Common, EigenSdk}.

Record Operator := mkOperator {
  nd_config : Config.Config;
  nd_ethClient : EthClient;
  nd_metrics : option EigenMetrics;
  nd_nodeApi : option NodeApi;
  nd_eigenLayerClient : EigenLayer.client;
  nd_stateAggregator : St;
  nd_acrossClient : Across.client;
  nd_blockchainClients : gmap Z ChainClient.client;
  nd_monitoring : Monitor R C;
  nd_blsKeypair : BlsKeyPair;
  nd_operatorId : list Z;
  nd_operatorAddr : Address;
  nd_operatorEcdsaPrivateKey : EcdsaPrivateKey;
  nd_stateTasks : gmap Z StateTask;
  nd_rebalancingTasks : gmap Z RebalancingTask;
  nd_globalPoolStates : gmap string GlobalPoolState;
}.

(** ** Construction *)

(** Placeholders. *)
Definition loadEcdsaPrivateKey (path : string) : res EcdsaPrivateKey := Err "not implemented".
Definition loadBlsPrivateKey (path : string) : res BlsKeyPair := Err "not implemented".

Definition build_clients (chains : list ChainConfig) : res (gmap Z ChainClient.client) :=
  foldM (λ clients chainConfig,
    client ← wrap_res ("failed to create blockchain client for chain " +:+
                         pretty (cc_ChainID chainConfig) +:+ ": ")
      (ChainClient.NewClient (cc_ChainID chainConfig) (cc_RpcUrl chainConfig));
    mret (<[cc_ChainID chainConfig := client]> clients)) ∅ chains.

(** [NewOperator] after the keys are loaded; the monitor's collectors go to the
    default registry [R].  The registry it makes only goes to the library. *)
Definition build_operator (config : Config.Config) (ethClient : EthClient)
    (ecdsaPrivateKey : EcdsaPrivateKey) (blsKeypair : BlsKeyPair) : M R Operator :=
  let operatorAddr := PubkeyToAddress ecdsaPrivateKey in
  let operatorId := OperatorIdFromKeyPair blsKeypair in
  eigenLayerClient ← wrap "failed to create eigenlayer client: "
    (lift (EigenLayer.NewClient (co_RegistryCoordinatorAddress config)));
  acrossClient ← wrap "failed to create across client: "
    (lift (Across.NewClient (co_AcrossAddress config)));
  blockchainClients ← lift (build_clients (co_SupportedChains config));
  monitor ← NewMonitor;
  let eigenMetrics := if co_EnableMetrics config then
      Some (NewEigenMetrics "synchook" (co_EigenMetricsIpPortAddress config)) else None in
  let nodeApi := if co_EnableNodeApi config then
      Some (NewNodeApi "synchook-operator" SemVer (co_NodeApiIpPortAddress config)) else None in
  mret (mkOperator config ethClient eigenMetrics nodeApi eigenLayerClient NewAggregator acrossClient
          blockchainClients monitor blsKeypair operatorId operatorAddr ecdsaPrivateKey ∅ ∅ ∅).

Definition NewOperator (config : Config.Config) : M R Operator :=
  ethClient ← wrap "failed to create eth client: " (lift (eth_NewClient (co_EthRpcUrl config)));
  ecdsaPrivateKey ← wrap "failed to load ecdsa private key: "
    (lift (loadEcdsaPrivateKey (co_EcdsaPrivateKeyStorePath config)));
  blsKeypair ← wrap "failed to load bls private key: "
    (lift (loadBlsPrivateKey (co_BlsPrivateKeyStorePath config)));
  build_operator config ethClient ecdsaPrivateKey blsKeypair.

(** ** Running *)

Definition registerOperator : M Operator unit := mret tt.
Definition updateGlobalStates : M Operator unit := mret tt.
Definition taskProcessingLoop : M Operator unit := mret tt.
Definition rebalancingLoop : M Operator unit := mret tt.

Definition nd_set_monitoring (m : Monitor R C) (o : Operator) : Operator :=
  mkOperator (nd_config o) (nd_ethClient o) (nd_metrics o) (nd_nodeApi o) (nd_eigenLayerClient o)
    (nd_stateAggregator o) (nd_acrossClient o) (nd_blockchainClients o) m (nd_blsKeypair o)
    (nd_operatorId o) (nd_operatorAddr o) (nd_operatorEcdsaPrivateKey o) (nd_stateTasks o)
    (nd_rebalancingTasks o) (nd_globalPoolStates o).

Definition on_monitoring {A} (m : M (Monitor R C) A) : M Operator A := λ o,
  let '(mon, a) := m (nd_monitoring o) in (nd_set_monitoring mon o, a).

(** A tick of one of the goroutines [Start] and the monitor's own [Start] run. *)
Inductive node_event : Type :=
  | StateTick
  | UptimeTick (startTime now : time)
  | AlertsTick (now : time)
  | PerformanceTick.

Definition node_tick (e : node_event) : M Operator unit :=
  match e with
  | StateTick => updateGlobalStates
  | UptimeTick startTime now => on_monitoring (uptime_tick startTime now)
  | AlertsTick now => on_monitoring (alerts_tick now)
  | PerformanceTick => on_monitoring calculatePerformanceMetrics
  end.

(** Until the context is done: the ticks in the order of [schedule].  The server
    of the node API is the library's. *)
Definition Start (schedule : list node_event) : M Operator unit :=
  o ← get;
  (if co_RegisterOperatorOnStartup (nd_config o) then registerOperator else mret tt);;
  taskProcessingLoop;;
  rebalancingLoop;;
  foldM (λ _ e, node_tick e) tt schedule.
End node.
