(* ===== verification/Commands.v ===== *)
(** * [cmd/aggregator]: the command of the aggregator process *)

From S2P Require Import Prelude Float64 Sync.

(** The file system and [encoding/json]; decoding may stop half way, and the
    error comes with what was decoded, which the caller drops. *)
Class AggregatorFiles := {
  AggregatorFile : Type;
  stat_IsNotExist : string → bool;
  open_file : string → res AggregatorFile;
  decode_config : AggregatorFile → res Config;
}.

Definition default_config : Config :=
  mkConfig "localhost:8090" true true 8080 "0x0000000000000000000000000000000000000000"
    "0x0000000000000000000000000000000000000000" "http://localhost:8545" "ws://localhost:8546"
    "0x0000000000000000000000000000000000000000" "0x0000000000000000000000000000000000000000"
    300 100 3 30 30 (f_lit 8 10) 600 true (f_lit 5 100) "1000000000000000000000000"
    "1000000000000000000000" 1800 true 9090 true 30 "info" "json".

Section aggregator.
Context `{AggregatorFiles}.

Definition loadConfig (configPath : string) : res Config :=
  if stat_IsNotExist configPath then Ret default_config else
  file ← wrap_res "failed to open config file: " (open_file configPath);
  wrap_res "failed to decode config: " (decode_config file).

(** What [main] comes to: the usage, [Fatal] with its message, or the aggregator
    and the goroutines it serves with until a signal comes. *)
Inductive aggregator_outcome : Type :=
  | Usage
  | Fatal (msg : string)
  | Crashed (p : panic)
  | Serving (agg : SyncHookAggregator) (goroutines : list loop).

(** [newLogger] is what making the logger returns. *)
Definition aggregator_main (help : bool) (newLogger : unit + string) (configFile : string)
    : aggregator_outcome :=
  if help then Usage else
  match newLogger with
  | inr err => Fatal ("Failed to create logger: " +:+ err)
  | inl _ =>
      match loadConfig configFile with
      | Err _ => Fatal "Failed to load config"
      | Panic p => Crashed p
      | Ret config => Serving (NewSyncHookAggregator config) (Start config)
      end
  end.
End aggregator.
