(* ===== verification/Performer.v ===== *)
(** * [cmd/main.go]: the performer *)

From S2P Require Import Prelude GoEthereum.

Record TaskRequest := mkTaskRequest {
  tr_TaskId : list Z;
  tr_Payload : list Z;
}.

Record TaskResponse := mkTaskResponse {
  tp_TaskId : list Z;
  tp_Result : list Z;
}.

Definition ValidateTask (t : option TaskRequest) : res unit := Ret tt.

Definition HandleTask (t : option TaskRequest) : res TaskResponse :=
  match t with
  | None => Panic NilDeref
  | Some t => Ret (mkTaskResponse (tr_TaskId t) [])
  end.

(** The server of the ponos library, which calls the worker it is given. *)
Class Ponos (S : Type) := {
  PonosServer : Type;
  NewPonosPerformerWithRpcServer (Port Timeout : Z)
    (validate : option TaskRequest → res unit)
    (handle : option TaskRequest → res TaskResponse) : M S PonosServer;
  ponos_Start : PonosServer → M S unit;
}.

Definition performer_main {S} `{Ponos S} : M S unit :=
  pp ← try (NewPonosPerformerWithRpcServer 8080 (5 * second) ValidateTask HandleTask);
  match pp with
  | inr e => lift (Panic (PanicMsg ("failed to create SyncHook performer: " +:+ e)))
  | inl pp =>
      r ← try (ponos_Start pp);
      match r with
      | inr e => lift (Panic (PanicMsg e))
      | inl _ => mret tt
      end
  end.

(** [Test_TaskRequestPayload] of [cmd/main_test.go], with the error of making
    the logger, if any: the errors it reports. *)
Definition Test_TaskRequestPayload (newLogger : option string) : res (list string) :=
  let report1 := match newLogger with Some err => ["Failed to create logger: " +:+ err] | None => [] end in
  let taskRequest := mkTaskRequest (text_bytes "test-task-id") (text_bytes "test-data") in
  report2 ← match ValidateTask (Some taskRequest) with
            | Ret _ => Ret []
            | Err err => Ret ["ValidateTask failed: " +:+ err]
            | Panic p => Panic p
            end;
  report3 ← match HandleTask (Some taskRequest) with
            | Ret _ => Ret []
            | Err err => Ret ["HandleTask failed: " +:+ err]
            | Panic p => Panic p
            end;
  Ret (report1 ++ report2 ++ report3).

(** The test passes. *)
Example test_passes : Test_TaskRequestPayload None = Ret [].
Proof. reflexivity. Qed.
