(* ===== verification/TypesProps.v ===== *)
(** * Machine integers stay in their types

    A small logic of Hoare triples for the operations of [Aggregator]: whatever
    they are given, nil integers and dangling pointers included, and however
    they end, the [uint32] and [uint64] fields of the store stay in range, as
    Go's types make them: a check of the model, which writes them as [Z]. *)

From S2P Require Import Prelude BigInt StateTypes Aggregator.

Definition typed_pool (p : PoolState) : Prop :=
  is_u32 (ps_ChainID p) ∧ is_u64 (ps_Timestamp p) ∧ is_u64 (ps_BlockNumber p).

Definition typed_global (g : GlobalPoolState) : Prop :=
  is_u64 (gs_LastUpdateBlock g) ∧ map_Forall (λ c _, is_u32 c) (gs_ChainStates g).

Record Typed (σ : St) : Prop := {
  typed_pools : map_Forall (λ _ p, typed_pool p) (st_pools σ);
  typed_globals : map_Forall (λ _ g, typed_global g) (st_globals σ);
}.

(** [m] keeps the store typed, and what it returns satisfies [Q]. *)
Definition keeps {A} (Q : A → Prop) (m : M St A) : Prop :=
  ∀ σ, Typed σ → Typed (m σ).1 ∧ ∀ a, (m σ).2 = Ret a → Q a.

Lemma keeps_ret {A} (Q : A → Prop) a : Q a → keeps Q (mret a).
Proof. intros Ha σ Hσ. split; [done|]. by intros b [= <-]. Qed.

Lemma keeps_throw {A} (Q : A → Prop) e : keeps Q (throw e).
Proof. by intros σ Hσ. Qed.

Lemma keeps_lift {A} (Q : A → Prop) r : (∀ a, r = Ret a → Q a) → keeps Q (lift r).
Proof. by intros Hr σ Hσ. Qed.

Lemma keeps_get : keeps Typed get.
Proof. intros σ Hσ. split; [done|]. by intros a [= <-]. Qed.

Lemma keeps_bind {A B} (Q : A → Prop) (R : B → Prop) (m : M St A) (k : A → M St B) :
  keeps Q m → (∀ a, Q a → keeps R (k a)) → keeps R (m ≫= k).
Proof.
  intros Hm Hk σ Hσ. destruct (Hm σ Hσ) as [Hσ' Ha]. unfold mbind, M_bind.
  destruct (m σ) as [σ' [a|e|p]]; [apply Hk; auto|done..].
Qed.

Lemma keeps_wrap {A} (Q : A → Prop) msg (m : M St A) : keeps Q m → keeps Q (wrap msg m).
Proof.
  intros Hm σ Hσ. destruct (Hm σ Hσ) as [Hσ' Ha]. unfold wrap. by destruct (m σ) as [σ' [a|e|p]].
Qed.

Lemma keeps_foldM {A B} (I : A → Prop) (f : A → B → M St A) l a :
  (∀ a b, I a → keeps I (f a b)) → I a → keeps I (foldM f a l).
Proof.
  intros Hf. revert a. induction l as [|b l IH]; intros a Ha; [by apply keeps_ret|].
  apply (keeps_bind I); auto.
Qed.

Lemma keeps_load_pool l : keeps typed_pool (load_pool l).
Proof.
  intros σ Hσ. unfold load_pool. destruct (st_pools σ !! l) as [p|] eqn:E; [|done].
  split; [done|]. intros a [= <-]. by eapply typed_pools in E.
Qed.

Lemma keeps_load_global l : keeps typed_global (load_global l).
Proof.
  intros σ Hσ. unfold load_global. destruct (st_globals σ !! l) as [g|] eqn:E; [|done].
  split; [done|]. intros a [= <-]. by eapply typed_globals in E.
Qed.

Lemma keeps_modify (f : St → St) : (∀ σ, Typed σ → Typed (f σ)) → keeps (λ _, True) (modify f).
Proof. intros Hf σ Hσ. split; [by apply Hf|done]. Qed.

Lemma keeps_modify_pool l f :
  (∀ p, typed_pool p → typed_pool (f p)) → keeps (λ _, True) (modify_pool l f).
Proof.
  intros Hf. unfold modify_pool. eapply keeps_bind; [apply keeps_load_pool|]. intros p Hp.
  apply keeps_modify. intros σ [H1 H2]. split; [|done]. cbn. apply map_Forall_insert_2; auto.
Qed.

Lemma keeps_modify_global l f :
  (∀ g, typed_global g → typed_global (f g)) → keeps (λ _, True) (modify_global l f).
Proof.
  intros Hf. unfold modify_global. eapply keeps_bind; [apply keeps_load_global|]. intros g Hg.
  apply keeps_modify. intros σ [H1 H2]. split; [done|]. cbn. apply map_Forall_insert_2; auto.
Qed.

Lemma keeps_new_pool p : typed_pool p → keeps (λ _, True) (new_pool p).
Proof.
  intros Hp σ [H1 H2]. split; [|done]. split; [|done]. cbn. by apply map_Forall_insert_2.
Qed.

Lemma keeps_new_global g : typed_global g → keeps (λ _, True) (new_global g).
Proof.
  intros Hg σ [H1 H2]. split; [|done]. split; [done|]. cbn. by apply map_Forall_insert_2.
Qed.

Section operations.
Context `{RangeOrder}.

Lemma keeps_range_pools {A} (I : A → Prop) i cs (f : A → PoolState → res A) a :
  (∀ a p b, I a → typed_pool p → f a p = Ret b → I b) → I a → keeps I (range_pools i cs f a).
Proof.
  intros Hf Ha. apply keeps_foldM; [|done]. intros b kl Hb.
  eapply keeps_bind; [apply keeps_load_pool|]. intros p Hp. apply keeps_lift. eauto.
Qed.
End operations.

(** One step of a typing proof: the head of a [bind] first. *)
Ltac typing_step :=
  match goal with
  | |- keeps _ (_ ≫= _) => eapply keeps_bind; [|intros ? ?]
  | |- keeps _ (wrap _ _) => apply keeps_wrap
  | |- keeps _ (throw _) => apply keeps_throw
  | |- keeps _ (lift _) => by apply (keeps_lift (λ _, True))
  | |- keeps _ (mret _) => by apply (keeps_ret (λ _, True))
  | |- keeps _ get => apply keeps_get
  | |- keeps _ (load_pool _) => apply keeps_load_pool
  | |- keeps _ (load_global _) => apply keeps_load_global
  | |- keeps _ (modify_pool _ _) => by apply keeps_modify_pool
  | |- keeps _ (modify_global _ _) => by apply keeps_modify_global
  | |- keeps _ (new_global _) => by apply keeps_new_global
  | |- keeps _ (range_pools _ _ _ _) => by apply (keeps_range_pools (λ _, True))
  | |- keeps _ (if bool_decide _ then _ else _) => case_bool_decide
  end.

Ltac typing := repeat typing_step.

Section aggregator.
Context `{RangeOrder}.

Lemma keeps_average cs g : keeps (λ _, True) (calculateWeightedAveragePrice cs g).
Proof. unfold calculateWeightedAveragePrice. typing. Qed.

Lemma keeps_score cs g : keeps (λ _, True) (calculateImbalanceScore cs g).
Proof. unfold calculateImbalanceScore. typing. Qed.

Lemma keeps_latest_block cs :
  keeps is_u64 (range_pools 3 cs (λ latestBlock state,
    mret (if bool_decide (latestBlock < ps_BlockNumber state) then ps_BlockNumber state
          else latestBlock)) 0).
Proof.
  apply keeps_range_pools; [|by split]. intros a p b Ha (_ & _ & Hp) [= <-]. by case_bool_decide.
Qed.

Lemma keeps_recalculate g : keeps (λ _, True) (recalculateGlobalMetrics g).
Proof.
  unfold recalculateGlobalMetrics.
  do 4 (typing_step; [by typing_step|]).
  do 2 (typing_step; [typing_step; apply keeps_average || apply keeps_score|]).
  eapply keeps_bind; [apply keeps_latest_block|]. intros b Hb.
  apply keeps_modify_global. intros gs [_ Hc]. by split.
Qed.

Lemma keeps_update now1 now2 id c l : is_u32 c → keeps (λ _, True) (UpdatePoolState now1 now2 id c l).
Proof.
  intros Hc. unfold UpdatePoolState. do 2 (typing_step; [typing_step|]).
  typing_step; [|typing_step; [by typing_step|]; typing_step; [|typing_step; [by typing_step|]]].
  - destruct (st_poolStates _ !! id) as [g|]; [by typing_step|].
    typing_step; [by typing_step|]. typing_step; [|by typing_step].
    apply keeps_modify. intros σ [Hp Hg]. by split.
  - apply keeps_modify_global. intros gs [Hb Hcs]. split; [done|]. by apply map_Forall_insert_2.
  - typing_step. apply keeps_recalculate.
Qed.

(** The three steps of the metrics leave the number of chains alone. *)
Lemma keeps_metrics id : keeps (λ m, is_u32 (am_ActiveChains m)) (CalculateAggregatedMetrics id).
Proof.
  unfold CalculateAggregatedMetrics. typing_step; [typing_step|].
  destruct (st_poolStates _ !! id) as [g|]; [|typing_step].
  typing_step; [typing_step|]. set (m := mkAggregatedMetrics _ _ _ _ _ _ _).
  assert (is_u32 (am_ActiveChains m)) as Hm by by apply Z.mod_pos_bound. clearbody m.
  eapply (keeps_bind (λ m, is_u32 (am_ActiveChains m))); [|intros m1 Hm1].
  { apply keeps_wrap. unfold calculatePriceVariance. case_bool_decide; [by apply keeps_ret|].
    do 2 (typing_step; [typing_step|]). by apply keeps_ret. }
  eapply (keeps_bind (λ m, is_u32 (am_ActiveChains m))); [|intros m2 Hm2].
  { apply keeps_wrap. unfold calculateLiquidityImbalance. case_bool_decide; [by apply keeps_ret|].
    do 4 (typing_step; [typing_step|]). by apply keeps_ret. }
  apply keeps_wrap. unfold calculate24hMetrics. typing_step; [typing_step|]. by apply keeps_ret.
Qed.
End aggregator.

(** A caller's objects and calls, in any order and with any [range] order. *)
Inductive call : St → St → Prop :=
  | call_new p σ : typed_pool p → call σ (new_pool p σ).1
  | call_update (R : RangeOrder) now1 now2 id c l σ : is_u32 c →
      call σ (UpdatePoolState now1 now2 id c l σ).1.

Lemma call_typed σ σ' : call σ σ' → Typed σ → Typed σ'.
Proof.
  intros [p σ1 Hp|R now1 now2 id c l σ1 Hc] Hσ; [by apply keeps_new_pool|].
  by apply (keeps_update now1 now2 id c l).
Qed.

(** The integers of the model need no bounds of their own.  Whatever reports a caller allocates and submits, nil amounts,
    dangling pointers, drained pools and failed updates included, every
    [uint32] and [uint64] the aggregator keeps stays in the range of its type:
    identifiers, block numbers and timestamps of reports, the latest block and
    the chain keys of every pool.  The number of active chains in the metrics
    is a [uint32]. *)
Theorem aggregator_keeps_types (σ : St) :
  rtc call NewAggregator σ →
  Typed σ ∧
  ∀ (R : RangeOrder) id, Typed (CalculateAggregatedMetrics id σ).1 ∧
    ∀ m, (CalculateAggregatedMetrics id σ).2 = Ret m → is_u32 (am_ActiveChains m).
Proof.
  intros Hcalls. assert (Typed σ) as Hσ.
  { assert (Typed NewAggregator) as Hinit by by split.
    induction Hcalls as [|σ1 σ2 σ3 Hcall _ IH]; [done|]. apply IH. by eapply call_typed. }
  split; [done|]. intros R id. by apply keeps_metrics.
Qed.

(** A report without amounts, whose update panics half way. *)
Lemma aggregator_keeps_types_witness :
  let p := mkPoolState 1 None None None None 1700000000 (2 ^ 64 - 1) 0 in
  let σ := (@UpdatePoolState forward_order 5 6 "pool" 1 1%positive (new_pool p NewAggregator).1).1 in
  (@UpdatePoolState forward_order 5 6 "pool" 1 1%positive (new_pool p NewAggregator).1).2 =
    Panic NilDeref ∧ Typed σ.
Proof.
  intros p σ. split; [vm_compute; reflexivity|].
  apply (aggregator_keeps_types σ).
  assert (is_u32 1) as Hone by done.
  eapply rtc_l; [apply (call_new p); done|].
  exact (rtc_once _ _ (call_update forward_order 5 6 "pool" 1 1%positive (new_pool p NewAggregator).1 Hone)).
Defined.
