(* ===== verification/NodeProps.v ===== *)
(** * The operator process and the entry points *)

From S2P Require Import Prelude Float64 BigInt StateTypes Aggregator Prometheus Alerts Monitor GoEthereum ChainClient Across Config EigenLayer Node Loops Sync SyncProps Commands PackageProps.

(** ** Building the clients *)

(** One client per listed id, on the URL of an entry with that id. *)
Lemma build_clients_spec chains :
  ∃ m, build_clients chains = Ret m ∧
    ∀ id, match m !! id with
          | Some c => ∃ cc, cc ∈ chains ∧ cc_ChainID cc = id ∧ c = ChainClient.mkClient id (cc_RpcUrl cc)
          | None => id ∉ (cc_ChainID <$> chains)
          end.
Proof.
  set (g := λ (m : gmap Z ChainClient.client) cc,
    <[cc_ChainID cc := ChainClient.mkClient (cc_ChainID cc) (cc_RpcUrl cc)]> m).
  exists (foldl g ∅ chains). split; [by apply (foldM_rep_res id g)|].
  induction chains as [|cc chains IH] using rev_ind; intros id; [cbn; rewrite lookup_empty; apply not_elem_of_nil|].
  rewrite foldl_app. cbn [foldl]. unfold g at 1. specialize (IH id).
  destruct (decide (cc_ChainID cc = id)) as [<-|Hne].
  - rewrite lookup_insert_eq. exists cc. split; [|done]. apply elem_of_app. right. by left.
  - rewrite lookup_insert_ne by done. destruct (foldl g ∅ chains !! id) as [c|].
    + destruct IH as (cc' & Hcc & Hid & ->). exists cc'. split; [apply elem_of_app; by left|done].
    + rewrite fmap_app. intros [?|Hin]%elem_of_app; [done|].
      apply list_elem_of_singleton in Hin. by symmetry in Hin.
Qed.

(** ** Running *)

Section running.
Context {R C : Type} `{Prometheus R C, RangeOrder, Common, EigenSdk}.
Implicit Types o : Node.Operator (R := R) (C := C).

(** [m] changes nothing of the operator but its monitor, however it ends. *)
Definition monitoring_only {A} (m : M Node.Operator A) : Prop :=
  ∀ o, ∃ mon, (m o).1 = nd_set_monitoring mon o.

Lemma set_monitoring_id o : nd_set_monitoring (nd_monitoring o) o = o.
Proof. by destruct o. Qed.

Lemma monitoring_only_ret {A} (a : A) : monitoring_only (mret a).
Proof. intros o. exists (nd_monitoring o). by rewrite set_monitoring_id. Qed.

Lemma monitoring_only_bind {A B} (m : M Node.Operator A) (k : A → M Node.Operator B) :
  monitoring_only m → (∀ a, monitoring_only (k a)) → monitoring_only (m ≫= k).
Proof.
  intros Hm Hk o. destruct (Hm o) as [mon E]. unfold mbind, M_bind.
  destruct (m o) as [o' [a|e|p]]; cbn in E; subst; [|by eexists..].
  destruct (Hk a (nd_set_monitoring mon o)) as [mon' ->]. by exists mon'.
Qed.

Lemma monitoring_only_foldM {A B} (f : A → B → M Node.Operator A) l a :
  (∀ a b, monitoring_only (f a b)) → monitoring_only (foldM f a l).
Proof.
  intros Hf. revert a. induction l as [|b l IH]; intros a; [apply monitoring_only_ret|].
  apply monitoring_only_bind; [apply Hf|]. intros. apply IH.
Qed.

Lemma monitoring_only_on {A} (m : M (Monitor R C) A) : monitoring_only (on_monitoring m).
Proof. intros o. unfold on_monitoring. destruct (m (nd_monitoring o)) as [mon a]. by exists mon. Qed.

Lemma Start_monitoring_only schedule : monitoring_only (Node.Start schedule).
Proof.
  unfold Node.Start. apply monitoring_only_bind; [intros o; exists (nd_monitoring o); by rewrite set_monitoring_id|].
  intros o. apply monitoring_only_bind; [destruct (co_RegisterOperatorOnStartup _); apply monitoring_only_ret|].
  intros _. do 2 (apply monitoring_only_bind; [apply monitoring_only_ret|intros _]).
  apply monitoring_only_foldM. intros _ [| | |]; cbn; [apply monitoring_only_ret|apply monitoring_only_on..].
Qed.

Lemma build_operator_inv config e k b r r' o :
  build_operator config e k b r = (r', Ret o) →
  build_clients (co_SupportedChains config) = Ret (nd_blockchainClients o) ∧
  nd_stateAggregator o = NewAggregator ∧ nd_stateTasks o = ∅ ∧ nd_rebalancingTasks o = ∅ ∧
  nd_globalPoolStates o = ∅.
Proof.
  unfold build_operator. intros (? & ? & _ & E)%M_bind_inv. apply M_bind_inv in E as (? & ? & _ & E).
  apply M_bind_inv in E as (s & clients & Ec & E). apply M_bind_inv in E as (? & mon & _ & E).
  injection Ec as _ Ec. injection E as _ <-. by split_and!.
Qed.
End running.

(** The operator process.  [NewOperator] fails on every configuration,
    before it has registered anything: the two key loaders are placeholders.
    With keys it would build one client per listed chain, on the URL listed for
    it, and empty tables; and whatever ticks follow [Start], the pool states,
    the tasks and every other part of the operator but its monitor stay as
    they were built. *)
Theorem NewOperator_fails {R C} `{Prometheus R C, RangeOrder, Common, EigenSdk} config (r : R) :
  (NewOperator config r).1 = r ∧ (∀ o, (NewOperator config r).2 ≠ Ret o) ∧
  (∀ e, eth_NewClient (co_EthRpcUrl config) = Ret e →
     NewOperator config r = (r, Err "failed to load ecdsa private key: not implemented")) ∧
  (∀ e k b r' o, build_operator config e k b r = (r', Ret o) →
     (∀ id, match nd_blockchainClients o !! id with
            | Some c => ∃ cc, cc ∈ co_SupportedChains config ∧ cc_ChainID cc = id ∧
                c = ChainClient.mkClient id (cc_RpcUrl cc)
            | None => id ∉ (cc_ChainID <$> co_SupportedChains config)
            end) ∧
     nd_stateAggregator o = NewAggregator ∧ nd_stateTasks o = ∅ ∧ nd_rebalancingTasks o = ∅ ∧
     nd_globalPoolStates o = ∅ ∧
     ∀ schedule, ∃ mon, (Node.Start schedule o).1 = nd_set_monitoring mon o).
Proof.
  unfold NewOperator, mbind, M_bind, wrap, lift, loadEcdsaPrivateKey. cbn.
  split_and!; [by destruct (eth_NewClient _)..|by intros e ->|].
  intros e k b r' o (Hc & Ht)%build_operator_inv.
  destruct (build_clients_spec (co_SupportedChains config)) as (m & Hm & Hs).
  rewrite Hm in Hc. injection Hc as ->. destruct Ht as (? & ? & ? & ?). split_and!; try done.
  intros schedule. apply Start_monitoring_only.
Qed.

(** Keys and clients named by their text. *)
Definition text_sdk : EigenSdk := {|
  EthClient := string;
  eth_NewClient url := Ret url;
  EcdsaPrivateKey := string;
  BlsKeyPair := string;
  PubkeyToAddress k := left_pad 20 (text_bytes k);
  OperatorIdFromKeyPair k := left_pad 32 (text_bytes k);
  EigenMetrics := string;
  NewEigenMetrics name addr := addr;
  NodeApi := string;
  NewNodeApi name version addr := addr;
|}.

Lemma NewOperator_fails_witness :
  @NewOperator (gmap string sample) string _ text_common text_sdk GetDefaultConfig ∅ =
    (∅, Err "failed to load ecdsa private key: not implemented").
Proof.
  apply (proj1 (proj2 (proj2 (@NewOperator_fails (gmap string sample) string _ forward_order text_common
    text_sdk GetDefaultConfig ∅))) "http://localhost:8545").
  reflexivity.
Defined.

(** ** The two defaults of the aggregator *)

(** [pkg/config]'s configuration cut down to the fields of the process's. *)
Definition process_config (c : AggregatorConfig) : Sync.Config :=
  Sync.mkConfig (ag_ServerIpPortAddress c) (ag_EnableGrpc c) (ag_EnableHttp c) (ag_HttpPort c)
    (ag_RegistryCoordinatorAddress c) (ag_OperatorStateRetrieverAddress c) (ag_EthRpcUrl c)
    (ag_EthWsUrl c) (ag_SyncAVSAddress c) (ag_AcrossAddress c) (ag_TaskTimeout c)
    (ag_MaxConcurrentTasks c) (ag_TaskRetryAttempts c) (ag_TaskRetryDelay c)
    (ag_StateUpdateInterval c) (ag_StateValidationThreshold c) (ag_MaxStateAge c)
    (ag_RebalancingEnabled c) (ag_RebalancingThreshold c) (ag_MaxRebalancingAmount c)
    (ag_MinRebalancingAmount c) (ag_RebalancingTimeout c) (ag_EnableMetrics c) (ag_MetricsPort c)
    (ag_EnableHealthCheck c) (ag_HealthCheckInterval c) (ag_LogLevel c) (ag_LogFormat c).

Lemma defaults_agree `{AggregatorFiles} path :
  stat_IsNotExist path = true → loadConfig path = Ret (process_config GetDefaultAggregatorConfig).
Proof. intros Hp. unfold loadConfig. by rewrite Hp. Qed.

(** ** The command of the aggregator process *)

Lemma seconds_pos n : 0 < n ≤ 9223372036 → 0 < seconds n.
Proof. intros Hn. unfold seconds. rewrite i64_id; unfold is_i64, second; lia. Qed.

(** [C15] The aggregator process.  What [main] serves is an aggregator without
    tasks and pools, and nothing ever gives it any: a loop either panics when
    it makes its ticker, which ends the process, or runs until the context is
    done, whatever its ticks, and changes nothing.  It panics exactly when its
    interval, in nanoseconds and wrapped to 64 bits, is not positive: never for
    1 to 9223372036 seconds, and never for the default configuration, but for
    every interval that a configuration file leaves out. *)
Theorem aggregator_serves `{AggregatorFiles, RangeOrder} path agg goroutines :
  aggregator_main false (inl tt) path = Serving agg goroutines →
  agg = NewSyncHookAggregator (sy_config agg) ∧ goroutines = Sync.Start (sy_config agg) ∧
  (∀ l now' events, l ∈ goroutines →
     run_loop l now' events agg =
       (agg, if bool_decide (interval (sy_config agg) l ≤ 0)
             then Panic (PanicMsg "non-positive interval for NewTicker") else Ret tt)) ∧
  (∀ l n, interval (sy_config agg) l = seconds n →
     (n = 0 → interval (sy_config agg) l ≤ 0) ∧ (0 < n ≤ 9223372036 → 0 < interval (sy_config agg) l)) ∧
  (stat_IsNotExist path = true →
     goroutines = [TaskLoop; StateLoop; RebalancingLoop; HealthLoop] ∧
     ∀ l now' events, l ∈ goroutines → run_loop l now' events agg = (agg, Ret tt)).
Proof.
  unfold aggregator_main. destruct (loadConfig path) as [config|?|?] eqn:El; [|done..].
  intros [= <- <-]. cbn [sy_config NewSyncHookAggregator]. split_and!; [done|done| | |].
  - intros l now' events _. apply run_loop_empty.
  - intros l n ->. split; [by intros ->|apply seconds_pos].
  - intros Hp. unfold loadConfig in El. rewrite Hp in El. injection El as <-. split; [done|].
    intros l now' events _. rewrite run_loop_empty. by destruct l.
Qed.

(** No file, and a file that only names the server. *)
Definition two_files : AggregatorFiles := {|
  AggregatorFile := string;
  stat_IsNotExist path := bool_decide (path = "");
  open_file path := Ret path;
  decode_config file := Ret (Sync.mkConfig "localhost:8090" false false 0 "" "" "" "" "" "" 0 0 0 0 0
    f_zero 0 false f_zero "" "" 0 false 0 false 0 "" "");
|}.

Lemma aggregator_serves_witness :
  (∃ agg gs, @aggregator_main two_files false (inl tt) "" = Serving agg gs ∧
     (@run_loop forward_order TaskLoop (λ now _, now) [Tick 0; Tick (300 * second); Done] agg).2 = Ret tt) ∧
  (∃ agg gs, @aggregator_main two_files false (inl tt) "config.json" = Serving agg gs ∧
     (@run_loop forward_order TaskLoop (λ now _, now) [Tick 0] agg).2 =
       Panic (PanicMsg "non-positive interval for NewTicker")).
Proof.
  split; eexists _, _; (split; [reflexivity|]).
  - destruct (@aggregator_serves two_files forward_order "" _ _ eq_refl) as (_ & _ & _ & _ & Hd).
    destruct (Hd eq_refl) as [_ Hr]. rewrite Hr; [done|]. by left.
  - destruct (@aggregator_serves two_files forward_order "config.json" _ _ eq_refl) as (_ & _ & Hr & _).
    rewrite Hr; [done|]. by left.
Defined.
